(* ===== verification/_CoqProject ===== *)
-Q . S2P
Prelude.v
GoLib.v
Base64.v
Message.v
Wal.v
Storage.v
StorageFacts.v
DiskFrame.v
Codec.v
Demo.v
StorageProps.v
Broker.v
BrokerQueue.v
BrokerSteps.v
BrokerSafe.v
BrokerOps.v
BrokerSafety.v
BrokerPublish.v
BrokerConsume.v
BrokerAdmin.v
BrokerDurable.v
BrokerWild.v
Mqtt.v
MqttProps.v
Wire.v
Nats.v
NatsProps.v
Helper.v
Float64.v
RateLimit.v
Frames.v
Ws.v
WsProps.v
Cluster.v
Election.v
ElectionProps.v
ClusterProps.v
Duration.v
DurationText.v
Main.v
Http.v
Rest.v
RestProps.v
RestTables.v
Restart.v
Url.v
Client.v
HttpClient.v
Backup.v
Flag.v
Cli.v
Tool.v
ToolProps.v
