(* ===== verification/Prelude.v ===== *)
(** * A verification of the TinyMQ message broker

    ** The program

    TinyMQ is one process: a broker ([internal/broker]) that keeps named topics,
    each with three priority queues, the consumers waiting on it and the "spies"
    subscribed to it; a write-ahead log per topic ([internal/storage]) that the
    broker appends to and reloads at start-up; transports that turn network input
    into broker calls ([internal/transport/mqtt], [nats], [ws], [rest]); and an
    optional cluster node ([internal/cluster]) that elects a leader among several
    processes and copies the leader's publications to the others through the
    broker's [OnPublish] hook.  [cmd/tinymq] puts these together, [client] is a Go
    library for its users, and [cmd/tmq] a command line tool over the HTTP API.

    ** The files

    Groundwork:
    - [Prelude]: the effect monad [M] (return, panic, deadlock, crash), weakest
      preconditions, tactics, hint databases, lemmas on lists.
    - [GoLib], [Base64], [Float64], [Duration], [DurationText], [Http], [Url],
      [Flag]: the parts of Go's language and standard library the sources use
      ([strings], [strconv], [fmt], [regexp], [net], [base64], IEEE binary64
      arithmetic, [time.ParseDuration] and [Duration.String], requests, responses
      and routing, URL escaping and parsing, command line flags), the operations of
      the language that may panic or block ([go_index], [go_slice], [make_bytes],
      [mutex_lock], [mutex_unlock]), and the class
      [Runtime] of the process's inputs (environment, random bytes, map iteration
      order, HMAC).
    - [Wire]: lemmas on text protocols (fields, spaces, numbers, hexadecimal).

    Storage and broker:
    - [Message]: [internal/message/message.go], [internal/helper/uuid.go].
    - [Wal]: what the broker may rely on: the abstract log ([live]), the classes
      [Storage] (operations), [StorageLaws] (what they mean) and [StorageSafe]
      (they return or the process dies).
    - [Storage], [StorageFacts], [DiskFrame], [StorageProps]:
      [internal/storage/storage.go] on a file system whose calls may fail or be cut
      by a crash after any byte; the instances of the classes of [Wal]; which files
      an operation touches; the claims.  [Codec] shows that the laws asked of
      [encoding/json] can hold, [Demo] holds the concrete runtime and disk the
      witnesses run on.
    - [Broker]: [internal/broker/broker.go], one definition per method.
      [BrokerQueue], [BrokerSteps], [BrokerSafe], [BrokerOps] hold the queue
      lemmas, the rules for the locked sections, the global invariant [wf] and
      the proof that every operation keeps it.  [BrokerSafety], [BrokerPublish],
      [BrokerConsume], [BrokerAdmin], [BrokerDurable], [BrokerWild] hold the claims.

    Transports, each with its claims in the file named [...Props]:
    - [Mqtt]: [internal/transport/mqtt/packets.go] and [server.go].
    - [Nats]: [internal/transport/nats/server.go].
    - [Frames], [Ws]: [internal/transport/ws/client.go] and [server.go]; [Frames]
      has the frame layer of both sides, byte by byte.
    - [RateLimit], [Rest]: [internal/transport/rest/ratelimit.go] and [server.go]:
      routes, middlewares and every handler; consumers that wait and event streams
      are parked and woken by events.  [RestTables] follows the tables of idempotency
      keys and webhooks through any sequence of events.
    - [Helper]: [internal/helper/env.go] and [json.go].

    The processes:
    - [Cluster]: [internal/cluster/node.go].  [Election] puts many nodes into one
      transition system, [ElectionProps] and [ClusterProps] hold the claims.
    - [Main], [Restart]: [cmd/tinymq/main.go]: recovery, compaction, ports; what
      start-up and shutdown do to storage, broker and server.
    - [Client], [HttpClient]: [client/ws.go] and [client/client.go], against the
      servers of [Ws] and [Rest].
    - [Backup]: [cmd/tmq/handle/backup.go] and [restore.go]; [Cli]:
      [cmd/tmq/shared]; [Tool]: [cmd/tmq/handle/cluster.go], [doctor.go],
      [bench.go], [cmd/tmq/shell.go], [main.go]; [ToolProps] runs commands against
      the server of [Rest].

    ** How the code is modelled

    A Go routine is a function of the state it shares: it returns, panics, blocks
    for ever on a mutex its goroutine holds, or is cut short when the process is
    killed.  The broker's state is [World]: a [*Topic] is an address in a heap, so
    a deleted topic stays reachable through old pointers, and a channel is an
    address with its capacity, buffer and closed flag.  A topic's mutex is part
    of the topic, and a connection's is part of the connection.  On the
    connections of MQTT, NATS and WebSocket, and in the frames the client reads, an
    index or a slice out of range and an allocation of a negative or impossible size
    are panics.  Operations run one at a time; work the code gives to another
    goroutine or a timer is queued and run later, in any order.  Sections under
    the broker's own [RWMutex], a node's mutex or the rate limiter's are single
    steps.  Times are nanosecond counts passed to each operation.

    The storage is a parameter of the broker through the classes of [Wal]; the
    broker's theorems hold for every instance, and the disk-backed storage is one.
    [encoding/json] is the classes [LogCodec], [Web], [BodyCodec], [ClientCodec] and
    [CliText], with the laws of a codec where a theorem needs them; HMAC and the
    hashes are functions; the resolver is a function.  A topic pattern is run by a
    matcher for the fragment of [regexp] that literal text, [.] and [.*] fall into,
    which is the language [toks_lang]; other patterns go to a parameter.

    A connection is the byte stream the client sends; what a connection attempt, a
    probe of the machine or a terminal answers is an argument.  A command of the
    tool is the tree [cli] of what it prints and sends.

    ** What is shown

    - Safety: no sequence of calls makes the broker panic, deadlock or break its
      invariant, whatever the storage answers ([broker_run_safe]); no input on an
      MQTT, NATS, WebSocket, REST or cluster connection does ([mqtt_session_safe],
      [nats_session_safe], [ws_session_safe], [rest_run_safe], [peer_session_safe]);
      nobody gets past the API key or the cluster MAC ([rest_requires_key],
      [nats_requires_key], [unauthorized_line_inert]); webhook targets were resolved
      to addresses that are not loopback, private or link-local
      ([webhook_targets_public]; the unspecified address passes); restoring a backup
      stays in the data directory.
    - Function: where a publication goes, what a consumer gets, acknowledgement,
      retries and dead letters, expiry, duplicate detection, deletion, what wildcard
      patterns mean, what the rate limiter lets through.  What appending to and
      evicting from a topic mean is said queue by queue ([appended], [evicted],
      [publish_outcome]), apart from the definitions that do it.
    - Durability: an append to a log of whole lines is atomic and compaction loses nothing at any crash
      point; loading refines the abstract log; queue and log stay in step; a restart
      of the process ([restart_keeps_queue]) and a backup with its restoration
      ([backup_roundtrip]) bring the queues back.
    - Protocols: what one side writes the other reads: MQTT packets, WebSocket
      frames, NATS and cluster lines, the HTTP requests of the client library and the
      tool, down to the broker call; a WebSocket client goes on over reconnections.
    - Cluster: at most one leader is elected per term, votes are final, a
      successful replication reached a quorum, a follower takes no writes.
    - Defects: theorems that state what the code does where it does not do what
      it means to, such as [Ack_after_Consume], [rejected_publish_is_logged],
      [bindings_not_replicated], [k8s_quorum_is_everyone], [sync_one_word_panics],
      [filename_collision], [nats_rejected_pub_smuggles], [keepalive_drops_session],
      [client_subscribe_loses], [filter_discards], [timeout_race_loses],
      [zero_interval_panics], [unreadable_log_emptied], [doctor_never_warns],
      [append_after_torn_line_lost].

    ** Bounds and fuel

    [publishCore]'s recursion is structural on the depth the code itself allows
    (11 levels), and [publish_depth] shows that two suffice.  The loops of the MQTT,
    NATS and WebSocket sessions have the length of their input as fuel, each round
    consumes at least one byte, and running out would show as a deadlock, which the
    safety theorems exclude; the client's read loop has one round more than the
    bytes of its connection, and [client_reads_on] shows that this is enough.  The writer of the variable-length integer has nine rounds, enough for 64
    bits.  [TrimSpace], [Split], [ParseDuration] and the trimming of slashes have the
    length of the string.  Loops without end ([tail], [top], [--watch], attempts to
    reconnect) are given the rounds they run.  Terms and vote counts of the cluster
    are 64-bit integers that wrap around; [election_safety] covers runs of up to
    [2^63 - 1] steps, which keeps them in range.  The counters of the benchmark wrap
    at 32 bits.

    ** What is not modelled

    Listening, dialling, deadlines, signals and the stopping of transports; the HTTP
    client of webhooks and the transport of the reverse proxy; the rendering of the
    dashboard template, the alignment of tables, the help text and the timing of the
    benchmark; parallel execution inside one operation (a topic's mutex serializes
    what matters to its queues); loss of the page cache on power failure; node
    restarts in the election protocol. *)

From stdpp Require Export base gmap strings list fin_maps pretty.

(** ** Notation scope and hint databases *)

Declare Scope tmq_scope.
Delimit Scope tmq_scope with tmq.

Create HintDb tmq discriminated.
Create Rewrite HintDb tmq_list.

(** ** The effect monad

    A Go routine is modelled as a function from the state it shares with the
    rest of the program to an outcome and the state it leaves behind.  Besides
    returning, a routine may panic (index out of range, send on a closed
    channel, unlock of a free mutex), block for ever on a mutex its own
    goroutine already holds, or be cut short by a crash of the process. *)

Inductive outcome (A : Type) : Type :=
| Ret (a : A)
| Panic (why : string)
| Deadlock
| Crash.
Arguments Ret {_} _.
Arguments Panic {_} _.
Arguments Deadlock {_}.
Arguments Crash {_}.

Definition M (S A : Type) : Type := S → outcome A * S.

Section monad_ops.
Context {S : Type}.

#[global] Instance M_ret : MRet (M S) := λ A a s, (Ret a, s).

#[global] Instance M_bind : MBind (M S) := λ A B k c s,
  match c s with
  | (Ret a, s') => k a s'
  | (Panic why, s') => (Panic why, s')
  | (Deadlock, s') => (Deadlock, s')
  | (Crash, s') => (Crash, s')
  end.

Definition get : M S S := λ s, (Ret s, s).
Definition gets {A} (f : S → A) : M S A := λ s, (Ret (f s), s).
Definition modify (f : S → S) : M S unit := λ s, (Ret (), f s).
Definition panic {A} (why : string) : M S A := λ s, (Panic why, s).
Definition deadlock {A} : M S A := λ s, (Deadlock, s).
Definition crash {A} : M S A := λ s, (Crash, s).

(** [for _, x := range l { f(x) }] *)
Fixpoint forM_ {A} (f : A → M S unit) (l : list A) : M S unit :=
  match l with
  | [] => mret ()
  | x :: l' => f x ;; forM_ f l'
  end.

End monad_ops.

(** Running a computation on a component of a larger state. *)
Definition zoom {S T A} (view : T → S) (upd : S → T → T) (c : M S A) : M T A :=
  λ t, let '(o, s') := c (view t) in (o, upd s' t).

(** Running a bind whose first part is known to return. *)
Lemma run_bind {S A B} (c : M S A) (k : A → M S B) s a s' :
  c s = (Ret a, s') → (c ≫= k) s = k a s'.
Proof. intros E. unfold mbind, M_bind. by rewrite E. Qed.

Lemma run_bind_inv {S A B} (c : M S A) (k : A → M S B) (s : S) b s' :
  (c ≫= k) s = (Ret b, s') → ∃ a s1, c s = (Ret a, s1) ∧ k a s1 = (Ret b, s').
Proof. unfold mbind, M_bind. destruct (c s) as [[a|why| |] s1]; naive_solver. Qed.

Lemma run_zoom {S T A} (view : T → S) (upd : S → T → T) (c : M S A) t a s' :
  c (view t) = (Ret a, s') → zoom view upd c t = (Ret a, upd s' t).
Proof. intros E. unfold zoom. by rewrite E. Qed.

(** ** Weakest preconditions

    [wp c Q s]: run from [s], [c] returns (no panic, no deadlock, no crash) and
    the value and final state satisfy [Q].  [wlp c Q s] asks for [Q] only when
    [c] returns.  [keeps I c]: the invariant [I] survives [c] whatever its
    outcome. *)

Section weakest_preconditions.
Context {S : Type}.
Implicit Types (s : S) (I : S → Prop).

Definition wp {A} (c : M S A) (Q : A → S → Prop) (s : S) : Prop :=
  match c s with
  | (Ret a, s') => Q a s'
  | _ => False
  end.

Definition wlp {A} (c : M S A) (Q : A → S → Prop) (s : S) : Prop :=
  match c s with
  | (Ret a, s') => Q a s'
  | _ => True
  end.

(** [wpx c Q E s] also allows a crash, in a state where [E] holds. *)
Definition wpx {A} (c : M S A) (Q : A → S → Prop) (E : S → Prop) (s : S) : Prop :=
  match c s with
  | (Ret a, s') => Q a s'
  | (Crash, s') => E s'
  | _ => False
  end.

Definition keeps {A} (I : S → Prop) (c : M S A) : Prop :=
  ∀ s, I s → I (c s).2.

Lemma wp_ret {A} (a : A) (Q : A → S → Prop) s : Q a s → wp (mret a) Q s.
Proof. done. Qed.

Lemma wp_bind {A B} (c : M S A) (k : A → M S B) (Q : B → S → Prop) s :
  wp c (λ a s', wp (k a) Q s') s → wp (c ≫= k) Q s.
Proof. unfold wp, mbind, M_bind. by destruct (c s) as [[] ?]. Qed.

Lemma wp_bind_inv {A B} (c : M S A) (k : A → M S B) (Q : B → S → Prop) s :
  wp (c ≫= k) Q s → wp c (λ a s', wp (k a) Q s') s.
Proof. unfold wp, mbind, M_bind. by destruct (c s) as [[] ?]. Qed.

Lemma wp_mono {A} (c : M S A) (Q R : A → S → Prop) s :
  wp c Q s → (∀ a s', Q a s' → R a s') → wp c R s.
Proof. unfold wp. destruct (c s) as [[] ?]; naive_solver. Qed.

Lemma wp_run {A} (c : M S A) (Q : A → S → Prop) s :
  wp c Q s → ∃ a s', c s = (Ret a, s') ∧ Q a s'.
Proof. unfold wp. destruct (c s) as [[] ?]; naive_solver. Qed.

Lemma wp_of_run {A} (c : M S A) (Q : A → S → Prop) s a s' :
  c s = (Ret a, s') → Q a s' → wp c Q s.
Proof. unfold wp. by intros ->. Qed.

Lemma wp_conj {A} (c : M S A) (Q R : A → S → Prop) s :
  wp c Q s → wp c R s → wp c (λ a s', Q a s' ∧ R a s') s.
Proof. unfold wp. by destruct (c s) as [[] ?]. Qed.

Lemma wp_wlp {A} (c : M S A) (Q : A → S → Prop) s : wp c Q s → wlp c Q s.
Proof. unfold wp, wlp. by destruct (c s) as [[] ?]. Qed.

Lemma wpx_ret {A} (a : A) (Q : A → S → Prop) (E : S → Prop) s : Q a s → wpx (mret a) Q E s.
Proof. done. Qed.

Lemma wpx_bind {A B} (c : M S A) (k : A → M S B) (Q : B → S → Prop) (E : S → Prop) s :
  wpx c (λ a s', wpx (k a) Q E s') E s → wpx (c ≫= k) Q E s.
Proof. unfold wpx, mbind, M_bind. by destruct (c s) as [[] ?]. Qed.

Lemma wpx_mono {A} (c : M S A) (Q R : A → S → Prop) (E F : S → Prop) s :
  wpx c Q E s → (∀ a s', Q a s' → R a s') → (∀ s', E s' → F s') → wpx c R F s.
Proof. unfold wpx. destruct (c s) as [[] ?]; naive_solver. Qed.

Lemma wpx_get (Q : S → S → Prop) (E : S → Prop) s : Q s s → wpx get Q E s.
Proof. done. Qed.

Lemma wpx_gets {A} (f : S → A) (Q : A → S → Prop) (E : S → Prop) s :
  Q (f s) s → wpx (gets f) Q E s.
Proof. done. Qed.

Lemma wpx_modify (f : S → S) (Q : unit → S → Prop) (E : S → Prop) s :
  Q () (f s) → wpx (modify f) Q E s.
Proof. done. Qed.

Lemma wpx_forM_inv {A} (f : A → M S unit) (l : list A) I (E : S → Prop) s :
  I s → (∀ x s', x ∈ l → I s' → wpx (f x) (λ _, I) E s') →
  wpx (forM_ f l) (λ _, I) E s.
Proof.
  revert s. induction l as [|x l IH]; intros s HI Hf; [done|].
  apply wpx_bind. eapply wpx_mono; [apply Hf; [by left|done]| |done].
  intros [] s' HI'. apply IH; [done|]. intros y s'' ??. apply Hf; [by right|done].
Qed.

(** [safe c]: from any state [c] returns or is cut short by a crash of the
    process; it never panics and never blocks. *)
Definition safe {A} (c : M S A) : Prop := ∀ s, wpx c (λ _ _, True) (λ _, True) s.

Lemma safe_ret {A} (a : A) : safe (mret a).
Proof. done. Qed.

Lemma safe_bind {A B} (c : M S A) (k : A → M S B) :
  safe c → (∀ a, safe (k a)) → safe (c ≫= k).
Proof.
  intros Hc Hk s. apply wpx_bind. eapply wpx_mono; [apply Hc| |done].
  intros a s' _. apply Hk.
Qed.

Lemma safe_get : safe get.
Proof. done. Qed.

Lemma safe_gets {A} (f : S → A) : safe (gets f).
Proof. done. Qed.

Lemma safe_modify (f : S → S) : safe (modify f).
Proof. done. Qed.

Lemma safe_forM_ {A} (f : A → M S unit) l : (∀ x, safe (f x)) → safe (forM_ f l).
Proof.
  intros Hf. induction l as [|x l IH]; simpl; [apply safe_ret|]. by apply safe_bind.
Qed.

Lemma wpx_run {A} (c : M S A) (Q : A → S → Prop) (E : S → Prop) s a s' :
  wpx c Q E s → c s = (Ret a, s') → Q a s'.
Proof. unfold wpx. intros H Hc. by rewrite Hc in H. Qed.

Lemma wpx_ran {A} (c : M S A) (Q : A → S → Prop) (E : S → Prop) s a s' :
  c s = (Ret a, s') → Q a s' → wpx c Q E s.
Proof. unfold wpx. by intros ->. Qed.

(** A computation with one possible outcome. *)
Lemma wpx_exact {A} (c : M S A) s a s' :
  wpx c (λ b s'', b = a ∧ s'' = s') (λ _, False) s → c s = (Ret a, s').
Proof. unfold wpx. destruct (c s) as [[] ?]; naive_solver. Qed.

Lemma wp_get (Q : S → S → Prop) s : Q s s → wp get Q s.
Proof. done. Qed.

Lemma wp_gets {A} (f : S → A) (Q : A → S → Prop) s : Q (f s) s → wp (gets f) Q s.
Proof. done. Qed.

Lemma wp_modify (f : S → S) (Q : unit → S → Prop) s : Q () (f s) → wp (modify f) Q s.
Proof. done. Qed.

Lemma wp_forM_ {A} (f : A → M S unit) (l : list A) (I : list A → S → Prop) s :
  I l s →
  (∀ x l' s', (∃ l0, l = l0 ++ x :: l') → I (x :: l') s' → wp (f x) (λ _, I l') s') →
  wp (forM_ f l) (λ _, I []) s.
Proof.
  revert s. induction l as [|x l IH]; intros s HI Hf; [done|].
  apply wp_bind. eapply wp_mono; [apply Hf; [by exists []|done]|].
  intros [] s' HI'. apply IH; [done|].
  intros y l' s'' [l0 ->] ?. apply Hf; [by exists (x :: l0)|done].
Qed.

Lemma wp_forM_inv {A} (f : A → M S unit) (l : list A) I s :
  I s → (∀ x s', x ∈ l → I s' → wp (f x) (λ _, I) s') →
  wp (forM_ f l) (λ _, I) s.
Proof.
  intros HI Hf. apply (wp_forM_ f l (λ _, I)); [done|].
  intros x l' s' [l0 ->] ?. apply Hf; [set_solver|done].
Qed.

Lemma keeps_ret {A} I (a : A) : keeps I (mret a).
Proof. by intros s. Qed.

Lemma keeps_bind {A B} I (c : M S A) (k : A → M S B) :
  keeps I c → (∀ a, keeps I (k a)) → keeps I (c ≫= k).
Proof.
  intros Hc Hk s Hs. specialize (Hc s Hs). unfold mbind, M_bind.
  destruct (c s) as [[] ?]; simpl in *; [by apply Hk|done..].
Qed.

Lemma keeps_get I : keeps I get.
Proof. by intros s. Qed.

Lemma keeps_gets {A} I (f : S → A) : keeps I (gets f).
Proof. by intros s. Qed.

Lemma keeps_panic {A} I why : keeps (A:=A) I (panic why).
Proof. by intros s. Qed.

Lemma keeps_deadlock {A} I : keeps (A:=A) I deadlock.
Proof. by intros s. Qed.

Lemma keeps_modify I (f : S → S) : (∀ s, I s → I (f s)) → keeps I (modify f).
Proof. intros Hf s. apply Hf. Qed.

Lemma keeps_forM_ {A} I (f : A → M S unit) l :
  (∀ x, keeps I (f x)) → keeps I (forM_ f l).
Proof.
  intros Hf. induction l as [|x l IH]; simpl; [apply keeps_ret|].
  by apply keeps_bind.
Qed.

End weakest_preconditions.

#[export] Hint Resolve keeps_ret keeps_bind keeps_get keeps_gets keeps_panic
  keeps_deadlock keeps_forM_ : tmq.
#[export] Hint Resolve wp_ret wp_get wp_gets wp_modify : tmq.
#[export] Hint Resolve safe_ret safe_bind safe_get safe_gets safe_modify safe_forM_ : tmq.

Lemma wp_zoom {S T A} (view : T → S) (upd : S → T → T) (c : M S A) Q t :
  wp c (λ a s', Q a (upd s' t)) (view t) → wp (zoom view upd c) Q t.
Proof. unfold wp, zoom. by destruct (c (view t)) as [[] ?]. Qed.

Lemma wpx_zoom {S T A} (view : T → S) (upd : S → T → T) (c : M S A) Q (E : T → Prop) t :
  wpx c (λ a s', Q a (upd s' t)) (λ s', E (upd s' t)) (view t) → wpx (zoom view upd c) Q E t.
Proof. unfold wpx, zoom. by destruct (c (view t)) as [[] ?]. Qed.

(** ** Invariants of a session

    [stable I c]: from every state that satisfies [I], [c] returns to such a state, or
    the process is killed on the way; it neither panics nor blocks. *)

Section stable.
Context {S : Type}.
Implicit Types (s : S) (I : S → Prop).

Definition stable {A} I (c : M S A) : Prop := ∀ s, I s → wpx c (λ _ s', I s') (λ _, True) s.

Lemma stable_ret {A} I (a : A) : stable I (mret a).
Proof. by intros s. Qed.

Lemma stable_bind {A B} I (c : M S A) (k : A → M S B) :
  stable I c → (∀ a, stable I (k a)) → stable I (c ≫= k).
Proof.
  intros Hc Hk s Hs. apply wpx_bind. eapply wpx_mono; [by apply Hc| |done]. intros a s' ?. by apply Hk.
Qed.

Lemma stable_get I : stable I get.
Proof. by intros s. Qed.

Lemma stable_gets {A} I (f : S → A) : stable I (gets f).
Proof. by intros s. Qed.

Lemma stable_modify I f : (∀ s, I s → I (f s)) → stable I (modify f).
Proof. intros Hf s Hs. apply wpx_modify. by apply Hf. Qed.

Lemma stable_forM_ {A} I (f : A → M S unit) l : (∀ x, stable I (f x)) → stable I (forM_ f l).
Proof. intros Hf. induction l; simpl; [apply stable_ret|by apply stable_bind]. Qed.

End stable.

Lemma stable_zoom {S T A} (view : T → S) (upd : S → T → T) (c : M S A) (I : T → Prop) :
  (∀ t, I t → wpx c (λ _ s', I (upd s' t)) (λ _, True) (view t)) → stable I (zoom view upd c).
Proof. intros Hc t Ht. apply wpx_zoom. by apply Hc. Qed.

#[export] Hint Resolve stable_ret stable_get stable_gets stable_forM_ : tmq.

(** ** Computations that only look

    [returns c a]: whatever the state, [c] leaves it alone and returns [a].  The
    bounds checks of Go (an index, a slice, the length of a [make]) are of this
    kind when they succeed. *)

Section returns.
Context {S : Type}.

Definition returns {A} (c : M S A) (a : A) : Prop := ∀ s, c s = (Ret a, s).

Lemma returns_ret {A} (a : A) : returns (mret a) a.
Proof. done. Qed.

Lemma returns_bind {A B} (c : M S A) (k : A → M S B) a b :
  returns c a → returns (k a) b → returns (c ≫= k) b.
Proof. intros Hc Hk s. by rewrite (run_bind _ _ _ _ _ (Hc s)). Qed.

Lemma wpx_returns {A B} (c : M S A) (k : A → M S B) a Q E s :
  returns c a → wpx (k a) Q E s → wpx (c ≫= k) Q E s.
Proof. intros Hc Hk. unfold wpx. by rewrite (run_bind _ _ _ _ _ (Hc s)). Qed.

Lemma stable_returns {A B} (I : S → Prop) (c : M S A) (k : A → M S B) a :
  returns c a → stable I (k a) → stable I (c ≫= k).
Proof. intros Hc Hk s Hs. eapply wpx_returns; [done|by apply Hk]. Qed.

Lemma keeps_returns {A B} (I : S → Prop) (c : M S A) (k : A → M S B) a :
  returns c a → keeps I (k a) → keeps I (c ≫= k).
Proof. intros Hc Hk s Hs. rewrite (run_bind _ _ _ _ _ (Hc s)). by apply Hk. Qed.

End returns.

(** ** Tactics *)

(** A [stable] goal, down to the operations the hints do not know. *)
Ltac stable_steps :=
  repeat first [progress auto with tmq | apply stable_bind; [|intros ?] | case_match].

(** Case analysis on every test and match of the goal. *)
Ltac case_all :=
  repeat (case_match || case_bool_decide || case_decide); simplify_eq/=.

(** One step of a [wp] goal: peel a bind or a primitive. *)
Ltac wp_step :=
  first
    [ apply wpx_bind | apply wpx_ret | apply wpx_get | apply wpx_gets | apply wpx_modify
    | apply wp_bind
    | apply wp_ret
    | apply wp_get
    | apply wp_gets
    | apply wp_modify ].
Ltac wp_steps := repeat (wp_step; simpl).

(** ** Lists *)

Section list_lemmas.
Context {A : Type}.
Implicit Types (l k : list A) (x : A).

(** Go's [append(q[:i], q[i+1:]...)] at the first [i] where [p] holds. *)
Fixpoint remove_first (p : A → bool) (l : list A) : list A :=
  match l with
  | [] => []
  | x :: l' => if p x then l' else x :: remove_first p l'
  end.

Lemma remove_first_none p l : existsb p l = false → remove_first p l = l.
Proof.
  induction l as [|x l IH]; simpl; [done|].
  destruct (p x); simpl; [done|]. intros. by rewrite IH.
Qed.

Lemma remove_first_sublist p l : sublist (remove_first p l) l.
Proof.
  induction l as [|x l IH]; simpl; [constructor|].
  destruct (p x); [by apply sublist_cons|by apply sublist_skip].
Qed.

Lemma remove_first_length p l :
  length (remove_first p l) = if existsb p l then length l - 1 else length l.
Proof.
  induction l as [|x l IH]; simpl; [done|].
  destruct (p x) eqn:?; simpl; [lia|]. rewrite IH.
  destruct (existsb p l) eqn:Hex; [|done].
  destruct l; [done|]. simpl. lia.
Qed.

Lemma remove_first_app_last p l x :
  existsb p l = false → p x = true → remove_first p (l ++ [x]) = l.
Proof.
  intros Hl Hx. induction l as [|y l IH]; simpl in *; [by rewrite Hx|].
  apply orb_false_iff in Hl as [-> ?]. by rewrite IH.
Qed.

Lemma remove_first_perm p l x :
  List.find p l = Some x → l ≡ₚ x :: remove_first p l.
Proof.
  induction l as [|y l IH]; simpl; [done|].
  destruct (p y); [by intros [= ->]|].
  intros H. rewrite (IH H) at 1. apply Permutation_swap.
Qed.

Lemma existsb_find p l : existsb p l = bool_decide (is_Some (List.find p l)).
Proof.
  induction l as [|y l IH]; simpl; [done|].
  by destruct (p y).
Qed.

Lemma existsb_false_elem p l : existsb p l = false ↔ ∀ x, x ∈ l → p x = false.
Proof.
  induction l as [|y l IH]; simpl; [split; [set_solver|done]|].
  rewrite orb_false_iff, IH. set_solver.
Qed.

Lemma filter_all (P : A → Prop) `{!∀ x, Decision (P x)} l :
  (∀ x, x ∈ l → P x) → filter P l = l.
Proof.
  induction l as [|y l IH]; intros Hl; [done|].
  rewrite filter_cons_True by (apply Hl; by left). f_equal. apply IH. intros. apply Hl. by right.
Qed.

End list_lemmas.

Lemma omap_cons {A B} (f : A → option B) x l :
  omap f (x :: l) = option_list (f x) ++ omap f l.
Proof. change (x :: l) with ([x] ++ l). rewrite omap_app. simpl. by destruct (f x). Qed.

#[export] Hint Rewrite @length_app @length_fmap @length_take @length_drop : tmq_list.
