(* ===== verification/GoLib.v ===== *)
(** * The parts of Go's language and standard library the sources use

    - bytes and machine integers ([byte(x)], [binary.BigEndian], [int]);
    - package [strings] on Go strings, which are byte sequences;
    - the fragment of [regexp] the topic patterns fall into;
    - [strconv.Atoi], [fmt.Sprintf("%d")], [os.Getenv] and the process's other
      inputs (random bytes, map iteration order), collected in the class
      [Runtime].

    A Go [string] is a Rocq [string] (one [ascii] per byte), a Go [[]byte] is a
    [list byte]; an [error] is [option string], [None] for [nil]. *)

From Stdlib Require Import Ascii.
From Stdlib Require Import Strings.Byte.
From S2P Require Import Prelude.

(** Let [simpl] compute appends of literal strings. *)
#[global] Arguments String.append : simpl nomatch.

Abbreviation error := (option string).
Abbreviation bytes := (list byte).

(** ** Bytes and integers *)

#[global] Instance byte_eq_decision : EqDecision byte := byte_eq_dec.

Definition byteZ (b : byte) : Z := Z.of_N (Byte.to_N b).

(** Go's conversion [byte(z)]: the low eight bits. *)
Definition Zbyte (z : Z) : byte :=
  match Byte.of_N (Z.to_N (z `mod` 256)) with
  | Some b => b
  | None => x00
  end.

Lemma byteZ_range b : (0 ≤ byteZ b < 256)%Z.
Proof. unfold byteZ. pose proof (Byte.to_N_bounded b). lia. Qed.

Lemma byteZ_Zbyte z : byteZ (Zbyte z) = (z `mod` 256)%Z.
Proof.
  unfold byteZ, Zbyte. pose proof (Z.mod_pos_bound z 256 ltac:(lia)) as Hz.
  destruct (Byte.of_N (Z.to_N (z `mod` 256))) as [b|] eqn:E.
  - apply Byte.to_of_N in E. rewrite E. lia.
  - apply Byte.of_N_None_iff in E. lia.
Qed.

Lemma Zbyte_byteZ b : Zbyte (byteZ b) = b.
Proof.
  unfold Zbyte. rewrite Z.mod_small by apply byteZ_range.
  unfold byteZ. by rewrite N2Z.id, Byte.of_to_N.
Qed.

Lemma byteZ_inj b c : byteZ b = byteZ c → b = c.
Proof. intros H. by rewrite <-(Zbyte_byteZ b), H, Zbyte_byteZ. Qed.

(** [int] is 64 bits wide on every platform the program is built for. *)
Definition max_int : Z := 2^63 - 1.
Definition min_int : Z := - 2^63.

(** Two's-complement wrap-around of [int] arithmetic. *)
Definition wrap_int (z : Z) : Z := (z + 2^63) `mod` 2^64 - 2^63.

Lemma wrap_int_id z : (min_int ≤ z ≤ max_int)%Z → wrap_int z = z.
Proof. unfold wrap_int, min_int, max_int. intros. rewrite Z.mod_small; lia. Qed.

(** [binary.BigEndian.Uint16] and [PutUint16]. *)
Definition be16 (hi lo : byte) : Z := Z.lor (Z.shiftl (byteZ hi) 8) (byteZ lo).
Definition put_be16 (z : Z) : bytes := [Zbyte (Z.shiftr z 8); Zbyte z].

(** Joining a shifted high part and a low part that does not reach into it. *)
Lemma lor_shiftl_low a b k :
  (0 ≤ k)%Z → (0 ≤ b < 2^k)%Z → Z.lor (Z.shiftl a k) b = (a * 2^k + b)%Z.
Proof.
  intros Hk Hb.
  assert (Z.land (Z.shiftl a k) b = 0%Z) as Hland.
  { apply Z.bits_inj'. intros n Hn. rewrite Z.land_spec, Z.bits_0.
    destruct (decide (n < k)%Z); [by rewrite Z.shiftl_spec_low|].
    destruct (decide (b = 0)%Z) as [->|]; [by rewrite Z.bits_0, andb_false_r|].
    rewrite (Z.bits_above_log2 b); [by rewrite andb_false_r|lia|].
    apply Z.log2_lt_pow2; [lia|].
    apply Z.lt_le_trans with (2^k)%Z; [lia|]. apply Z.pow_le_mono_r; lia. }
  rewrite <-Z.lxor_lor, <-Z.add_nocarry_lxor by done.
  by rewrite Z.shiftl_mul_pow2.
Qed.

Lemma be16_alt hi lo : be16 hi lo = (byteZ hi * 256 + byteZ lo)%Z.
Proof. apply (lor_shiftl_low _ _ 8); [lia|]. apply byteZ_range. Qed.

Lemma be16_range hi lo : (0 ≤ be16 hi lo < 65536)%Z.
Proof.
  rewrite be16_alt. pose proof (byteZ_range hi). pose proof (byteZ_range lo). lia.
Qed.

Lemma be16_put z :
  (0 ≤ z < 65536)%Z → be16 (Zbyte (Z.shiftr z 8)) (Zbyte z) = z.
Proof.
  intros Hz. rewrite be16_alt, !byteZ_Zbyte, Z.shiftr_div_pow2 by lia.
  change (2^8)%Z with 256%Z.
  rewrite (Z.mod_small (z `div` 256)).
  - pose proof (Z.div_mod z 256). lia.
  - split; [by apply Z.div_pos; lia|apply Z.div_lt_upper_bound; lia].
Qed.

(** ** Bounds checks

    The run-time panics of Go's slices: an index, a slice expression and a
    [make([]byte, n)] out of range. *)

Section bounds_checks.
Context {S : Type}.

(** [l[i]] *)
Definition go_index {A} (l : list A) (i : nat) : M S A :=
  match l !! i with
  | Some x => mret x
  | None => panic "runtime error: index out of range"
  end.

(** [l[i:j]]; the slices of the sources are as long as their capacity *)
Definition go_slice {A} (l : list A) (i j : nat) : M S (list A) :=
  if ((i <=? j) && (j <=? length l))%nat then mret (take (j - i) (drop i l))
  else panic "runtime error: slice bounds out of range".

(** The largest object the allocator of a 64-bit platform accepts. *)
Definition maxAlloc : Z := 2^48.

(** The length check of [make([]byte, n)] *)
Definition make_bytes (n : Z) : M S unit :=
  if ((0 <=? n) && (n <=? maxAlloc))%Z then mret ()
  else panic "runtime error: makeslice: len out of range".

(** [binary.BigEndian.Uint16(b)] *)
Definition BigEndian_Uint16 (b : bytes) : M S Z :=
  lo ← go_index b 1;
  hi ← go_index b 0;
  mret (be16 hi lo).

Lemma returns_index {A} (l : list A) i x : l !! i = Some x → returns (go_index l i) x.
Proof. unfold go_index. by intros ->. Qed.

Lemma returns_slice {A} (l : list A) i j :
  i ≤ j ≤ length l → returns (go_slice l i j) (take (j - i) (drop i l)).
Proof.
  intros Hij. unfold go_slice. rewrite !(proj2 (Nat.leb_le _ _)) by lia. done.
Qed.

Lemma returns_make n : (0 ≤ n ≤ maxAlloc)%Z → returns (make_bytes n) ().
Proof. intros Hn. unfold make_bytes. by rewrite !(proj2 (Z.leb_le _ _)) by lia. Qed.

Lemma returns_Uint16 hi lo l : returns (BigEndian_Uint16 (hi :: lo :: l)) (be16 hi lo).
Proof. done. Qed.

End bounds_checks.

(** ** [sync.Mutex]

    [held] reads the mutex from the state it is part of, [set] writes it.
    Locking a mutex that is held blocks for ever, since one goroutine runs at a
    time; unlocking one that is free is a fatal error. *)

Section mutex.
Context {S : Type} (held : S → bool) (set : bool → S → S).

Definition mutex_lock : M S unit :=
  s ← get;
  if held s then deadlock else modify (set true).
Definition mutex_unlock : M S unit :=
  s ← get;
  if held s then modify (set false) else panic "fatal error: sync: unlock of unlocked mutex".

Lemma wpx_mutex_lock Q E s : held s = false → Q () (set true s) → wpx mutex_lock Q E s.
Proof. intros Hs HQ. apply wpx_bind, wpx_get. by rewrite Hs. Qed.

Lemma wpx_mutex_unlock Q E s : held s = true → Q () (set false s) → wpx mutex_unlock Q E s.
Proof. intros Hs HQ. apply wpx_bind, wpx_get. by rewrite Hs. Qed.

Lemma keeps_mutex_lock (I : S → Prop) : (∀ b s, I s → I (set b s)) → keeps I mutex_lock.
Proof. intros HI s Hs. unfold mutex_lock, mbind, M_bind, get. case_match; [done|]. by apply HI. Qed.

Lemma keeps_mutex_unlock (I : S → Prop) : (∀ b s, I s → I (set b s)) → keeps I mutex_unlock.
Proof. intros HI s Hs. unfold mutex_unlock, mbind, M_bind, get. case_match; [|done]. by apply HI. Qed.

End mutex.

(** [int(b & 0x7F)] and [(b & 0x80) == 0], the two tests of the varint code. *)
Lemma land_127 z : Z.land z 127 = (z `mod` 128)%Z.
Proof. change 127%Z with (Z.ones 7). by rewrite Z.land_ones by lia. Qed.

Lemma land_128_zero z :
  (0 ≤ z < 256)%Z → (Z.land z 128 =? 0)%Z = (z <? 128)%Z.
Proof.
  intros Hz. destruct (Z.ltb_spec z 128).
  - apply Z.eqb_eq, Z.bits_inj'. intros n Hn. rewrite Z.land_spec, Z.bits_0.
    change 128%Z with (2^7)%Z. rewrite Z.pow2_bits_eqb by lia.
    destruct (Z.eqb_spec 7 n) as [<-|]; [|by rewrite andb_false_r].
    rewrite andb_true_r. destruct (decide (z = 0)%Z) as [->|]; [done|].
    apply Z.bits_above_log2; [lia|]. apply Z.log2_lt_pow2; lia.
  - apply Z.eqb_neq. intros E.
    assert (Z.testbit (Z.land z 128) 7 = false) as Hb by by rewrite E.
    rewrite Z.land_spec in Hb. change (Z.testbit 128 7) with true in Hb.
    rewrite andb_true_r in Hb.
    assert (Z.log2 z = 7)%Z as Hl by (apply Z.log2_unique; lia).
    pose proof (Z.bit_log2 z) as Hbl. rewrite Hl in Hbl. rewrite Hbl in Hb; [done|lia].
Qed.

(** ** Package [strings] *)

Module strings.

Fixpoint HasPrefix (s p : string) : bool :=
  match p, s with
  | EmptyString, _ => true
  | String a p', String b s' => Ascii.eqb a b && HasPrefix s' p'
  | String _ _, EmptyString => false
  end.

(** [s[n:]] *)
Fixpoint drop (n : nat) (s : string) : string :=
  match n, s with
  | O, _ => s
  | S n', String _ s' => drop n' s'
  | S _, EmptyString => EmptyString
  end.

(** [s[:n]] *)
Fixpoint take (n : nat) (s : string) : string :=
  match n, s with
  | S n', String c s' => String c (take n' s')
  | _, _ => EmptyString
  end.

Definition HasSuffix (s p : string) : bool :=
  (String.length p <=? String.length s)%nat &&
  String.eqb (drop (String.length s - String.length p) s) p.

Fixpoint Contains (s sub : string) : bool :=
  HasPrefix s sub ||
  match s with
  | EmptyString => false
  | String _ s' => Contains s' sub
  end.

Definition TrimPrefix (s p : string) : string :=
  if HasPrefix s p then drop (String.length p) s else s.

Definition TrimSuffix (s p : string) : string :=
  if HasSuffix s p then take (String.length s - String.length p) s else s.

(** Leftmost, non-overlapping occurrences of a non-empty [old]; [skip] bytes
    of the occurrence just replaced are still to be consumed. *)
Fixpoint replace_from (old new : string) (skip : nat) (s : string) : string :=
  match s with
  | EmptyString => EmptyString
  | String c s' =>
      match skip with
      | S k => replace_from old new k s'
      | O =>
          if HasPrefix s old
          then new +:+ replace_from old new (String.length old - 1) s'
          else String c (replace_from old new 0 s')
      end
  end.
Definition ReplaceAll (s old new : string) : string := replace_from old new 0 s.

(** The text before and after the first occurrence of [sep]. *)
Fixpoint Cut (s sep : string) : option (string * string) :=
  if HasPrefix s sep then Some (EmptyString, drop (String.length sep) s)
  else
    match s with
    | EmptyString => None
    | String c s' =>
        match Cut s' sep with
        | Some (a, b) => Some (String c a, b)
        | None => None
        end
    end.

Fixpoint SplitN (s sep : string) (n : nat) : list string :=
  match n with
  | O => []
  | S O => [s]
  | S n' =>
      match Cut s sep with
      | Some (a, b) => a :: SplitN b sep n'
      | None => [s]
      end
  end.

(** At most [len s + 1] fields can occur. *)
Definition Split (s sep : string) : list string := SplitN s sep (S (String.length s)).

Fixpoint Join (l : list string) (sep : string) : string :=
  match l with
  | [] => EmptyString
  | [x] => x
  | x :: l' => x +:+ sep +:+ Join l' sep
  end.

(** The UTF-8 encodings of the code points for which [unicode.IsSpace] holds. *)
Definition of_codes (l : list N) : string :=
  foldr (λ n s, String (ascii_of_N n) s) EmptyString l.
Definition spaces : list string :=
  of_codes <$>
    ([[9]; [10]; [11]; [12]; [13]; [32]; [194; 133]; [194; 160]; [225; 154; 128];
      [226; 128; 168]; [226; 128; 169]; [226; 128; 175]; [226; 129; 159];
      [227; 128; 128]] ++ ((λ k, [226; 128; 128 + k]) <$> [0;1;2;3;4;5;6;7;8;9;10]))%N.

Fixpoint trim_left (fuel : nat) (s : string) : string :=
  match fuel with
  | O => s
  | S n =>
      match List.find (HasPrefix s) spaces with
      | Some p => trim_left n (drop (String.length p) s)
      | None => s
      end
  end.
Fixpoint trim_right (fuel : nat) (s : string) : string :=
  match fuel with
  | O => s
  | S n =>
      match List.find (HasSuffix s) spaces with
      | Some p => trim_right n (take (String.length s - String.length p) s)
      | None => s
      end
  end.
(** Each round removes at least one byte, so [len s] rounds are enough. *)
Definition TrimSpace (s : string) : string :=
  let s' := trim_left (String.length s) s in trim_right (String.length s') s'.

(** [strings.TrimRight(s, "\r\n")]-style trimming of a set of ASCII bytes. *)
Fixpoint trim_right_set (cut : ascii → bool) (s : string) : string :=
  match s with
  | EmptyString => EmptyString
  | String c s' =>
      match trim_right_set cut s' with
      | EmptyString => if cut c then EmptyString else String c EmptyString
      | r => String c r
      end
  end.
Fixpoint trim_left_set (cut : ascii → bool) (s : string) : string :=
  match s with
  | String c s' => if cut c then trim_left_set cut s' else s
  | EmptyString => EmptyString
  end.

Fixpoint forall_chars (p : ascii → bool) (s : string) : bool :=
  match s with
  | EmptyString => true
  | String c s' => p c && forall_chars p s'
  end.

(** [strings.IndexByte], [strings.LastIndexByte] *)
Fixpoint IndexByte (s : string) (c : ascii) : option nat :=
  match s with
  | EmptyString => None
  | String x s' => if Ascii.eqb c x then Some 0 else S <$> IndexByte s' c
  end.
Fixpoint LastIndexByte (s : string) (c : ascii) : option nat :=
  match s with
  | EmptyString => None
  | String x s' =>
      match LastIndexByte s' c with
      | Some i => Some (S i)
      | None => if Ascii.eqb c x then Some 0 else None
      end
  end.

Definition is_ascii (s : string) : bool := forall_chars (λ c, (N_of_ascii c <? 128)%N) s.

End strings.

Example ReplaceAll_ex : strings.ReplaceAll "a/b/c" "/" "_b_" = "a_b_b_b_c".
Proof. reflexivity. Qed.
Example SplitN_ex : strings.SplitN "orders::eu::x" "::" 2 = ["orders"; "eu::x"].
Proof. reflexivity. Qed.
Example Split_ex : strings.Split "PING a b" " " = ["PING"; "a"; "b"].
Proof. reflexivity. Qed.
Example TrimSpace_ex : strings.TrimSpace "  x y
" = "x y".
Proof. vm_compute. reflexivity. Qed.

(** [string(b)] and [[]byte(s)] *)
Definition string_of_bytes (b : bytes) : string := String.string_of_list_byte b.
Definition bytes_of_string (s : string) : bytes := String.list_byte_of_string s.

Lemma bytes_of_string_of_bytes b : bytes_of_string (string_of_bytes b) = b.
Proof. apply String.list_byte_of_string_of_list_byte. Qed.

Lemma string_of_bytes_of_string s : string_of_bytes (bytes_of_string s) = s.
Proof. apply String.string_of_list_byte_of_string. Qed.

(** *** Lemmas on strings *)

Lemma str_length_app a b : String.length (a +:+ b) = String.length a + String.length b.
Proof. induction a as [|c a IH]; simpl; [done|]. by rewrite IH. Qed.

Lemma str_app_assoc a b c : (a +:+ b) +:+ c = a +:+ (b +:+ c).
Proof. induction a as [|x a IH]; simpl; [done|]. by rewrite IH. Qed.

Lemma str_app_nil_r a : a +:+ "" = a.
Proof. induction a as [|x a IH]; simpl; [done|]. by rewrite IH. Qed.

Lemma str_app_inj a b c : a +:+ b = a +:+ c → b = c.
Proof. induction a as [|x a IH]; simpl; [done|]. intros [= ?]. auto. Qed.

Lemma str_drop_app a b : strings.drop (String.length a) (a +:+ b) = b.
Proof. by induction a. Qed.

Lemma str_take_app a b : strings.take (String.length a) (a +:+ b) = a.
Proof. induction a as [|x a IH]; simpl; [by destruct b|]. by rewrite IH. Qed.

Lemma HasPrefix_app p s : strings.HasPrefix (p +:+ s) p = true.
Proof. induction p as [|x p IH]; simpl; [by destruct s|]. by rewrite Ascii.eqb_refl. Qed.

Lemma HasPrefix_split s p :
  strings.HasPrefix s p = true → s = p +:+ strings.drop (String.length p) s.
Proof.
  revert s. induction p as [|x p IH]; intros s; simpl; [by destruct s|].
  destruct s as [|y s]; [done|].
  intros [->%Ascii.eqb_eq ?]%andb_true_iff. by rewrite <-IH.
Qed.

Lemma HasSuffix_app a p : strings.HasSuffix (a +:+ p) p = true.
Proof.
  unfold strings.HasSuffix. rewrite str_length_app, andb_true_iff.
  split; [apply Nat.leb_le; lia|].
  replace (String.length a + String.length p - String.length p) with (String.length a) by lia.
  rewrite str_drop_app. apply String.eqb_refl.
Qed.

Lemma str_take_drop n s : strings.take n s +:+ strings.drop n s = s.
Proof.
  revert s. induction n as [|n IH]; intros [|c s]; simpl; [done..|]. by rewrite IH.
Qed.

Lemma HasSuffix_split s p :
  strings.HasSuffix s p = true →
  s = strings.take (String.length s - String.length p) s +:+ p.
Proof.
  unfold strings.HasSuffix. rewrite andb_true_iff, String.eqb_eq. intros [_ E].
  pose proof (str_take_drop (String.length s - String.length p) s) as H.
  by rewrite E in H.
Qed.

Lemma TrimSuffix_app a p : strings.TrimSuffix (a +:+ p) p = a.
Proof.
  unfold strings.TrimSuffix. rewrite HasSuffix_app, str_length_app.
  replace (String.length a + String.length p - String.length p) with (String.length a) by lia.
  apply str_take_app.
Qed.

Lemma TrimPrefix_app p s : strings.TrimPrefix (p +:+ s) p = s.
Proof. unfold strings.TrimPrefix. by rewrite HasPrefix_app, str_drop_app. Qed.

Lemma Contains_prefix s p : strings.HasPrefix s p = true → strings.Contains s p = true.
Proof. destruct s; simpl; [by intros ->|]. by intros ->. Qed.

Lemma Contains_app a p b : strings.Contains (a +:+ p +:+ b) p = true.
Proof.
  induction a as [|c a IH]; simpl; [apply Contains_prefix, HasPrefix_app|].
  by rewrite IH, orb_true_r.
Qed.

Lemma forall_chars_app p a b :
  strings.forall_chars p (a +:+ b) =
  strings.forall_chars p a && strings.forall_chars p b.
Proof. induction a as [|c a IH]; simpl; [done|]. by rewrite IH, andb_assoc. Qed.

Lemma forall_chars_impl (p q : ascii → bool) s :
  (∀ c, p c = true → q c = true) →
  strings.forall_chars p s = true → strings.forall_chars q s = true.
Proof.
  intros Hpq. induction s as [|c s IH]; simpl; [done|].
  intros [? ?]%andb_true_iff. apply andb_true_iff. naive_solver.
Qed.

(** A one-byte needle is in [s] exactly when one of its bytes is. *)
Lemma Contains_char s c :
  strings.Contains s (String c EmptyString) =
  negb (strings.forall_chars (λ x, negb (Ascii.eqb c x)) s).
Proof.
  induction s as [|x s IH]; simpl; [done|].
  rewrite IH, negb_andb, negb_involutive, andb_comm. simpl.
  by destruct s.
Qed.

Lemma ReplaceAll_none s old new :
  strings.Contains s old = false → strings.ReplaceAll s old new = s.
Proof.
  unfold strings.ReplaceAll. induction s as [|c s IH]; [done|].
  intros [Hp Hc]%orb_false_iff. cbn [strings.replace_from]. by rewrite Hp, IH.
Qed.

(** Replacing a byte by a text that does not hold it leaves no occurrence. *)
Lemma ReplaceAll_char_gone s c new :
  strings.forall_chars (λ x, negb (Ascii.eqb c x)) new = true →
  strings.forall_chars (λ x, negb (Ascii.eqb c x))
    (strings.ReplaceAll s (String c EmptyString) new) = true.
Proof.
  intros Hnew. unfold strings.ReplaceAll.
  induction s as [|x s IH]; [done|]. cbn [strings.replace_from strings.HasPrefix].
  destruct (Ascii.eqb c x) eqn:E; simpl.
  - destruct s; simpl; rewrite forall_chars_app, Hnew; [done|]. apply IH.
  - rewrite E. apply IH.
Qed.

(** ** Numbers as text *)

(** [strconv.Itoa(n)] and [fmt.Sprintf("%d", n)]. *)
Definition Itoa (n : Z) : string := pretty n.

Fixpoint digits (acc : Z) (s : string) : option Z :=
  match s with
  | EmptyString => Some acc
  | String c s' =>
      match Ascii.is_nat c with
      | Some d => digits (acc * 10 + Z.of_nat d) s'
      | None => None
      end
  end.

Definition in_int_range (z : Z) : bool := ((min_int <=? z) && (z <=? max_int))%Z.

(** A leading sign, and the rest. *)
Definition take_sign (s : string) : string * string :=
  match s with
  | String c r => if Ascii.eqb c "-" then ("-", r) else if Ascii.eqb c "+" then ("+", r) else ("", s)
  | EmptyString => ("", s)
  end.

(** [strconv.Atoi]: an optional sign, at least one decimal digit, in range. *)
Definition Atoi (s : string) : option Z :=
  let '(sgn, body) := take_sign s in
  let sign := if String.eqb sgn "-" then (-1)%Z else 1%Z in
  match body with
  | EmptyString => None
  | _ =>
      match digits 0 body with
      | Some n => if in_int_range (sign * n) then Some (sign * n)%Z else None
      | None => None
      end
  end.

(** The longest prefix of decimal digits. *)
Fixpoint digit_prefix (s : string) : string :=
  match s with
  | EmptyString => EmptyString
  | String c s' =>
      match Ascii.is_nat c with
      | Some _ => String c (digit_prefix s')
      | None => EmptyString
      end
  end.

(** [fmt.Sscanf(s, "%d", &x)] with [x] initially 0, on an [s] that holds no
    newline: leading space is skipped, then a sign and the longest run of digits
    are read; 0 is kept when there is none or the number is out of range. *)
Definition Sscanf_d (s : string) : Z :=
  let s := strings.trim_left (String.length s) s in
  let '(sgn, body) := take_sign s in
  default 0%Z (Atoi (sgn +:+ digit_prefix body)).

(** The host part [net.SplitHostPort] finds; [None] is an error. *)
Definition SplitHostPort (s : string) : option string :=
  let has c r := bool_decide (is_Some (strings.IndexByte r c)) in
  match strings.LastIndexByte s ":" with
  | None => None
  | Some i =>
      if strings.HasPrefix s "[" then
        match strings.IndexByte s "]" with
        | None => None
        | Some e =>
            if bool_decide (e + 1 = i) then
              if has "["%char (strings.drop 1 s) || has "]"%char (strings.drop (e + 1) s) then None
              else Some (strings.drop 1 (strings.take e s))
            else None
        end
      else
        let host := strings.take i s in
        if has ":"%char host || has "["%char s || has "]"%char s then None else Some host
  end.

(** [host, _, _ := net.SplitHostPort(s)]: empty when there is an error. *)
Definition SplitHost (s : string) : string := default "" (SplitHostPort s).

Example SplitHost_ex :
  SplitHost <$> ["n1:7900"; "[::1]:7900"; "::1:7900"; "n1"] = ["n1"; "::1"; ""; ""].
Proof. reflexivity. Qed.

(** ** Package [regexp]

    Every pattern of the program is [^p$].  In the fragment the topic names
    reach, [p] is made of literal bytes, of [.] (one character other than a
    newline) and of [.*].  *)

Inductive retok : Type :=
| RLit (c : ascii)
| RAny
| RStar.
#[global] Instance retok_eq_dec : EqDecision retok.
Proof. solve_decision. Defined.

Definition newline : ascii := "010"%char.

(** Go's regular-expression metacharacters other than [.] and [*]. *)
Definition is_meta (c : ascii) : bool :=
  match c with
  | "\" | "+" | "?" | "(" | ")" | "|" | "[" | "]" | "{" | "}" | "^" | "$" => true
  | _ => false
  end%char.

(** Parsing of the text between [^] and [$]; [None] outside the fragment. *)
Fixpoint parse_plain (s : string) : option (list retok) :=
  match s with
  | EmptyString => Some []
  | String "." s' =>
      match s' with
      | String "*" s'' => cons RStar <$> parse_plain s''
      | _ => cons RAny <$> parse_plain s'
      end
  | String "*" _ => None
  | String c s' =>
      if is_meta c || (128 <=? N_of_ascii c)%N then None
      else cons (RLit c) <$> parse_plain s'
  end.

Fixpoint match_toks (r : list retok) (s : string) : bool :=
  match r with
  | [] => match s with EmptyString => true | _ => false end
  | RLit c :: r' =>
      match s with
      | String x s' => Ascii.eqb c x && match_toks r' s'
      | EmptyString => false
      end
  | RAny :: r' =>
      match s with
      | String x s' => negb (Ascii.eqb newline x) && match_toks r' s'
      | EmptyString => false
      end
  | RStar :: r' =>
      (fix star (s : string) : bool :=
         match_toks r' s ||
         match s with
         | String x s' => negb (Ascii.eqb newline x) && star s'
         | EmptyString => false
         end) s
  end.

(** ** The process's inputs *)

Class Runtime : Type := {
  (** [os.Getenv]: the empty string for an unset variable *)
  getenv : string → string;
  (** the 16 bytes of the [k]-th call of [crypto/rand.Read] *)
  rand_read : nat → bytes;
  (** the order in which [range] visits the entries of a map *)
  map_range : ∀ {A : Type}, list A → list A;
  (** [regexp] outside the fragment above: which patterns compile, and what
      they match *)
  regexp_valid : string → bool;
  regexp_match : string → string → bool;
  (** HMAC-SHA256 of a message under a key *)
  hmac_sha256 : bytes → bytes → bytes;
  (** [os.Hostname]: the empty string when it fails *)
  hostname : string
}.

(** What the program may rely on. *)
Class RuntimeLaws (R : Runtime) : Prop := {
  rand_read_length k : length (rand_read k) = 16;
  map_range_perm {A} (l : list A) : map_range l ≡ₚ l;
  hmac_length k m : length (hmac_sha256 k m) = 32
}.

(** A compiled pattern keeps its source. *)
Record Regexp : Type := MkRegexp { re_src : string; re_toks : option (list retok) }.

Section regexp.
Context `{R : Runtime}.

(** [regexp.Compile("^" + src + "$")] *)
Definition regexp_Compile (src : string) : option Regexp :=
  match parse_plain src with
  | Some toks => Some (MkRegexp src (Some toks))
  | None => if regexp_valid src then Some (MkRegexp src None) else None
  end.

(** [re.MatchString(s)] *)
Definition MatchString (re : Regexp) (s : string) : bool :=
  match re_toks re with
  | Some toks =>
      if strings.is_ascii s then match_toks toks s else regexp_match (re_src re) s
  | None => regexp_match (re_src re) s
  end.

End regexp.

(** The language a token list denotes. *)
Inductive toks_lang : list retok → string → Prop :=
| lang_nil : toks_lang [] EmptyString
| lang_lit c r s : toks_lang r s → toks_lang (RLit c :: r) (String c s)
| lang_any c r s : c ≠ newline → toks_lang r s → toks_lang (RAny :: r) (String c s)
| lang_star_nil r s : toks_lang r s → toks_lang (RStar :: r) s
| lang_star_cons c r s :
    c ≠ newline → toks_lang (RStar :: r) s → toks_lang (RStar :: r) (String c s).

Lemma match_toks_star r s :
  match_toks (RStar :: r) s =
  match_toks r s ||
  match s with
  | String x s' => negb (Ascii.eqb newline x) && match_toks (RStar :: r) s'
  | EmptyString => false
  end.
Proof. by destruct s. Qed.

Lemma negb_eqb_ascii c x : negb (Ascii.eqb c x) = true ↔ x ≠ c.
Proof. rewrite negb_true_iff, Ascii.eqb_neq. naive_solver. Qed.

(** The matcher decides the language. *)
Lemma match_toks_correct r s : match_toks r s = true ↔ toks_lang r s.
Proof.
  split.
  - revert s. induction r as [|t r IH]; intros s.
    { destruct s; [constructor|done]. }
    destruct t.
    + destruct s as [|x s]; [done|].
      intros [->%Ascii.eqb_eq ?]%andb_true_iff. constructor; auto.
    + destruct s as [|x s]; [done|].
      intros [?%negb_eqb_ascii ?]%andb_true_iff. constructor; auto.
    + induction s as [|x s IHs]; rewrite match_toks_star.
      * rewrite orb_false_r. intros. constructor. auto.
      * intros [?|[?%negb_eqb_ascii ?]%andb_true_iff]%orb_true_iff.
        -- constructor. auto.
        -- apply lang_star_cons; auto.
  - induction 1 as [|c r s _ IH|c r s Hc _ IH|r s _ IH|c r s Hc _ IH].
    + done.
    + simpl. by rewrite Ascii.eqb_refl.
    + cbn [match_toks]. rewrite IH, andb_true_r. by apply negb_eqb_ascii.
    + by rewrite match_toks_star, IH.
    + rewrite match_toks_star, IH.
      apply orb_true_iff. right. rewrite andb_true_r. by apply negb_eqb_ascii.
Qed.
