(* ===== verification/Base64.v ===== *)
(** * Package [encoding/base64]: [StdEncoding]

    The cluster protocol carries payloads as base64 text.  Only what the program
    uses: padded encoding, and decoding that skips line breaks, insists on
    padding and ignores the unused low bits of the last character. *)

From Stdlib Require Import Ascii.
From Stdlib Require Import Strings.Byte.
From S2P Require Import Prelude.
From S2P Require Import GoLib.

Definition b64_char (z : Z) : ascii :=
  ascii_of_N (Z.to_N
    (if z <? 26 then 65 + z else if z <? 52 then 71 + z else if z <? 62 then z - 4
     else if z =? 62 then 43 else 47)%Z).

Definition b64_val (c : ascii) : option Z :=
  let n := Z.of_N (N_of_ascii c) in
  if ((65 <=? n) && (n <=? 90))%Z then Some (n - 65)%Z
  else if ((97 <=? n) && (n <=? 122))%Z then Some (n - 71)%Z
  else if ((48 <=? n) && (n <=? 57))%Z then Some (n + 4)%Z
  else if (n =? 43)%Z then Some 62%Z
  else if (n =? 47)%Z then Some 63%Z
  else None.

(** [base64.StdEncoding.EncodeToString] *)
Fixpoint EncodeToString (b : bytes) : string :=
  match b with
  | [] => EmptyString
  | [x] =>
      let a := byteZ x in
      String (b64_char (a / 4)) (String (b64_char (a mod 4 * 16)) "==")
  | [x; y] =>
      let a := byteZ x in let b := byteZ y in
      String (b64_char (a / 4)) (String (b64_char (a mod 4 * 16 + b / 16))
        (String (b64_char (b mod 16 * 4)) "="))
  | x :: y :: z :: rest =>
      let a := byteZ x in let b := byteZ y in let c := byteZ z in
      String (b64_char (a / 4)) (String (b64_char (a mod 4 * 16 + b / 16))
        (String (b64_char (b mod 16 * 4 + c / 64)) (String (b64_char (c mod 64))
          (EncodeToString rest))))
  end%Z.

Fixpoint skip_breaks (s : string) : string :=
  match s with
  | EmptyString => EmptyString
  | String c s' =>
      if Ascii.eqb c "010" || Ascii.eqb c "013" then skip_breaks s'
      else String c (skip_breaks s')
  end.

Fixpoint decode_quads (s : string) : option bytes :=
  match s with
  | EmptyString => Some []
  | String a (String b (String c (String d rest))) =>
      va ← b64_val a; vb ← b64_val b;
      let x := Zbyte (va * 4 + vb / 16) in
      if Ascii.eqb c "=" then
        if Ascii.eqb d "=" && String.eqb rest "" then Some [x] else None
      else
        vc ← b64_val c;
        let y := Zbyte (vb mod 16 * 16 + vc / 4) in
        if Ascii.eqb d "=" then if String.eqb rest "" then Some [x; y] else None
        else
          vd ← b64_val d;
          let z := Zbyte (vc mod 4 * 64 + vd) in
          l ← decode_quads rest;
          Some (x :: y :: z :: l)
  | _ => None
  end%Z.

(** [base64.StdEncoding.DecodeString]; [None] is an error. *)
Definition DecodeString (s : string) : option bytes := decode_quads (skip_breaks s).

(** ** Round trip *)

Definition sextet_ok (z : Z) : bool :=
  bool_decide (b64_val (b64_char z) = Some z) && negb (Ascii.eqb (b64_char z) "=") &&
  negb (Ascii.eqb (b64_char z) "010") && negb (Ascii.eqb (b64_char z) "013") &&
  negb (Ascii.eqb (b64_char z) " ").

Lemma sextets_ok : forallb (λ n, sextet_ok (Z.of_nat n)) (seq 0 64) = true.
Proof. vm_compute. reflexivity. Qed.

Lemma b64_char_spec z :
  (0 ≤ z < 64)%Z →
  b64_val (b64_char z) = Some z ∧ Ascii.eqb (b64_char z) "=" = false ∧
  Ascii.eqb (b64_char z) "010" = false ∧ Ascii.eqb (b64_char z) "013" = false ∧
  Ascii.eqb (b64_char z) " " = false.
Proof.
  intros Hz. pose proof sextets_ok as Hall. rewrite forallb_forall in Hall.
  specialize (Hall (Z.to_nat z)). rewrite Z2Nat.id in Hall by lia.
  assert (sextet_ok z = true) as Hok by (apply Hall, in_seq; lia).
  unfold sextet_ok in Hok. rewrite !andb_true_iff, !negb_true_iff, bool_decide_eq_true in Hok.
  tauto.
Qed.

(** The bytes come in threes. *)
Lemma bytes_ind3 (P : bytes → Prop) :
  P [] → (∀ x, P [x]) → (∀ x y, P [x; y]) → (∀ x y z l, P l → P (x :: y :: z :: l)) → ∀ l, P l.
Proof.
  intros H0 H1 H2 H3. fix IH 1. intros [|x [|y [|z l]]]; [done|apply H1|apply H2|]. apply H3, IH.
Qed.

(** No character of the encoding is a space or a line break. *)
Lemma Encode_plain b :
  strings.forall_chars (λ c, negb (Ascii.eqb c " ") && negb (Ascii.eqb c "010") &&
    negb (Ascii.eqb c "013")) (EncodeToString b) = true.
Proof.
  assert (∀ z s, (0 ≤ z < 64)%Z → strings.forall_chars (λ c, negb (Ascii.eqb c " ") &&
    negb (Ascii.eqb c "010") && negb (Ascii.eqb c "013")) s = true →
    strings.forall_chars (λ c, negb (Ascii.eqb c " ") && negb (Ascii.eqb c "010") &&
    negb (Ascii.eqb c "013")) (String (b64_char z) s) = true) as Hs.
  { intros z s Hz Hs. cbn [strings.forall_chars].
    destruct (b64_char_spec z Hz) as (_ & _ & -> & -> & ->). done. }
  induction b as [|x|x y|x y z l IH] using bytes_ind3; [done|..];
    pose proof (byteZ_range x); try (pose proof (byteZ_range y)); try (pose proof (byteZ_range z));
    cbn [EncodeToString]; repeat (apply Hs; [Z.to_euclidean_division_equations; lia|]); done.
Qed.

Lemma skip_breaks_plain s :
  strings.forall_chars (λ c, negb (Ascii.eqb c " ") && negb (Ascii.eqb c "010") &&
    negb (Ascii.eqb c "013")) s = true → skip_breaks s = s.
Proof.
  induction s as [|c s IH]; [done|]. cbn [strings.forall_chars skip_breaks].
  intros [[[_ H1]%andb_true_iff H2]%andb_true_iff Hs]%andb_true_iff.
  apply negb_true_iff in H1, H2. rewrite H1, H2. simpl. by rewrite IH.
Qed.

Lemma byte_join (x : byte) (v : Z) : v = byteZ x → Zbyte v = x.
Proof. intros ->. apply Zbyte_byteZ. Qed.

Lemma sextet_char v :
  (0 ≤ v < 64)%Z → b64_val (b64_char v) = Some v ∧ Ascii.eqb (b64_char v) "=" = false.
Proof. intros Hv. destruct (b64_char_spec v Hv) as (? & ? & _). done. Qed.

(** The sextets of a byte that is cut in two by a divisor [d] of 256. *)
Lemma div_range a d k : (0 ≤ a < d * k → 0 < d → 0 ≤ a / d < k)%Z.
Proof. intros. split; [apply Z.div_pos; lia|apply Z.div_lt_upper_bound; lia]. Qed.

Lemma mod_join a d : (0 < d → a / d * d + a mod d = a)%Z.
Proof. intros. pose proof (Z.div_mod a d). lia. Qed.

Lemma div_plain a k r : (0 ≤ r < k → (a * k + r) / k = a)%Z.
Proof. intros. rewrite Z.div_add_l by lia. rewrite Z.div_small; lia. Qed.

Lemma mod_plain a k r : (0 ≤ r < k → (a * k + r) mod k = r)%Z.
Proof. intros. rewrite Z.add_comm, Z.mod_add by lia. apply Z.mod_small. lia. Qed.

Ltac byte_bounds x :=
  let r := constr:(byteZ_range x) in
  pose proof r;
  pose proof (div_range (byteZ x) 4 64 ltac:(destruct r; lia) ltac:(lia));
  pose proof (div_range (byteZ x) 16 16 ltac:(destruct r; lia) ltac:(lia));
  pose proof (div_range (byteZ x) 64 4 ltac:(destruct r; lia) ltac:(lia));
  pose proof (Z.mod_pos_bound (byteZ x) 4 ltac:(lia));
  pose proof (Z.mod_pos_bound (byteZ x) 16 ltac:(lia));
  pose proof (Z.mod_pos_bound (byteZ x) 64 ltac:(lia));
  pose proof (mod_join (byteZ x) 4 ltac:(lia));
  pose proof (mod_join (byteZ x) 16 ltac:(lia));
  pose proof (mod_join (byteZ x) 64 ltac:(lia)).

Ltac sextet v E F := destruct (sextet_char v) as [E F]; [lia|].

Lemma decode_encode_quads b : decode_quads (EncodeToString b) = Some b.
Proof.
  induction b as [|x|x y|x y z l IH] using bytes_ind3; [done|byte_bounds x|
    byte_bounds x; byte_bounds y|byte_bounds x; byte_bounds y; byte_bounds z];
    cbn [EncodeToString].
  - sextet (byteZ x / 4)%Z E1 F1. sextet (byteZ x mod 4 * 16)%Z E2 F2.
    cbn [decode_quads]. rewrite E1, E2. cbn. do 2 f_equal. apply byte_join.
    rewrite Z.div_mul by lia. lia.
  - sextet (byteZ x / 4)%Z E1 F1. sextet (byteZ x mod 4 * 16 + byteZ y / 16)%Z E2 F2.
    sextet (byteZ y mod 16 * 4)%Z E3 F3.
    cbn [decode_quads]. rewrite E1, E2, F3, E3. cbn [mbind option_bind andb].
    rewrite div_plain, mod_plain, Z.div_mul by lia. cbn.
    do 2 f_equal; [|f_equal]; apply byte_join; lia.
  - sextet (byteZ x / 4)%Z E1 F1. sextet (byteZ x mod 4 * 16 + byteZ y / 16)%Z E2 F2.
    sextet (byteZ y mod 16 * 4 + byteZ z / 64)%Z E3 F3. sextet (byteZ z mod 64)%Z E4 F4.
    cbn [decode_quads]. rewrite E1, E2, F3, E3, F4, E4, IH. cbn [mbind option_bind].
    rewrite !div_plain, !mod_plain by lia.
    do 2 f_equal; [|f_equal; [|f_equal]]; apply byte_join; lia.
Qed.

Lemma decode_encode b : DecodeString (EncodeToString b) = Some b.
Proof.
  unfold DecodeString. rewrite skip_breaks_plain by apply Encode_plain. apply decode_encode_quads.
Qed.

Example base64_ex :
  EncodeToString [x68; x65; x6c; x6c; x6f] = "aGVsbG8=" ∧ DecodeString "aGVsbG8" = None.
Proof. by vm_compute. Qed.
