(* ===== verification/Message.v ===== *)
(** * Messages and their identifiers

    [internal/message/message.go] (the record every component exchanges) and
    [internal/helper/uuid.go] (the identifiers the broker draws). *)

From Stdlib Require Import Ascii.
From Stdlib Require Import Strings.Byte.
From S2P Require Import Prelude.
From S2P Require Import GoLib.

(** Times and durations are nanosecond counts; a [*time.Time] is an option. *)
Record Message : Type := MkMessage {
  ID : string;
  Topic : string;
  Payload : bytes;
  Timestamp : Z;
  ExpiresAt : option Z;
  DeliverAt : option Z;
  RetryCount : Z;
  Headers : gmap string string
}.

#[global] Instance Message_eq_dec : EqDecision Message.
Proof. solve_decision. Defined.

(** [msg.Topic = t], [msg.RetryCount = n] *)
Definition set_Topic (t : string) (m : Message) : Message :=
  MkMessage (ID m) t (Payload m) (Timestamp m) (ExpiresAt m) (DeliverAt m)
    (RetryCount m) (Headers m).
Definition set_RetryCount (n : Z) (m : Message) : Message :=
  MkMessage (ID m) (Topic m) (Payload m) (Timestamp m) (ExpiresAt m) (DeliverAt m)
    n (Headers m).

(** [m.ID == id] *)
Definition has_id (id : string) (m : Message) : bool := bool_decide (ID m = id).

(** The two tests of [extractMessages] and the one of [purgeExpiredMessages]
    (strict comparisons: [After], [Before]). *)
Definition expired (now : Z) (m : Message) : bool :=
  match ExpiresAt m with
  | Some e => (e <? now)%Z
  | None => false
  end.
Definition delayed (now : Z) (m : Message) : bool :=
  match DeliverAt m with
  | Some d => (now <? d)%Z
  | None => false
  end.

(** What a consumer may be handed at time [now]. *)
Definition deliverable (now : Z) (m : Message) : bool :=
  negb (expired now m) && negb (delayed now m).

(** ** [helper.NewUUID] *)

Definition hex_digit (n : Z) : ascii :=
  ascii_of_N (Z.to_N (if (n <? 10)%Z then 48 + n else 87 + n)).

(** [fmt.Sprintf("%x", b)] *)
Fixpoint hex (b : bytes) : string :=
  match b with
  | [] => ""
  | x :: b' =>
      String (hex_digit (byteZ x `div` 16)) (String (hex_digit (byteZ x `mod` 16)) (hex b'))
  end.

Definition set_byte (i : nat) (f : Z → Z) (b : bytes) : bytes :=
  alter (λ x, Zbyte (f (byteZ x))) i b.

(** The identifier made of the 16 random bytes [b]. *)
Definition NewUUID (b : bytes) : string :=
  let b := set_byte 6 (λ z, Z.lor (Z.land z 15) 64) b in
  let b := set_byte 8 (λ z, Z.lor (Z.land z 63) 128) b in
  hex (take 4 b) +:+ "-" +:+ hex (take 2 (drop 4 b)) +:+ "-" +:+
  hex (take 2 (drop 6 b)) +:+ "-" +:+ hex (take 2 (drop 8 b)) +:+ "-" +:+
  hex (drop 10 b).

Example NewUUID_ex :
  NewUUID [xff;xff;xff;xff;xff;xff;xff;xff;xff;xff;xff;xff;xff;xff;xff;x0a] =
  "ffffffff-ffff-4fff-bfff-ffffffffff0a".
Proof. vm_compute. reflexivity. Qed.

(** ** Lemmas *)

Lemma hex_length b : String.length (hex b) = 2 * length b.
Proof. induction b as [|x b IH]; simpl; [done|]. rewrite IH. lia. Qed.

Lemma set_byte_length i f b : length (set_byte i f b) = length b.
Proof. apply length_alter. Qed.

Lemma NewUUID_length b : length b = 16 → String.length (NewUUID b) = 36.
Proof.
  intros Hb. unfold NewUUID. rewrite !str_length_app, !hex_length.
  autorewrite with tmq_list. rewrite !set_byte_length, Hb. done.
Qed.

(** [x & 0x0f | 0x40] has the high nibble 4. *)
Lemma version_nibble z : (0 ≤ z < 256)%Z →
  (Z.lor (Z.land z 15) 64 = 64 + z `mod` 16)%Z.
Proof.
  intros Hz. change 15%Z with (Z.ones 4). rewrite Z.land_ones by lia.
  rewrite Z.lor_comm. apply (lor_shiftl_low 4 _ 4); [lia|].
  apply Z.mod_pos_bound. lia.
Qed.

(** [x & 0x3f | 0x80] has the two high bits 10. *)
Lemma variant_bits z : (0 ≤ z < 256)%Z →
  (Z.lor (Z.land z 63) 128 = 128 + z `mod` 64)%Z.
Proof.
  intros Hz. change 63%Z with (Z.ones 6). rewrite Z.land_ones by lia.
  rewrite Z.lor_comm. apply (lor_shiftl_low 2 _ 6); [lia|].
  apply Z.mod_pos_bound. lia.
Qed.
