(* ===== verification/Wal.v ===== *)
(** * The contract between the broker and its storage

    The broker sees the disk as one append-only log of [PUT] and [ACK] events
    per topic.  This file states that contract: the events, the messages a log
    leaves outstanding, the operations ([Storage], the methods of
    [storage.DiskStorage] the broker calls) and the laws they obey
    ([StorageLaws]).  [Storage.v] discharges the laws for the file-backed
    implementation; the broker's durability theorems use only the laws. *)

From S2P Require Import Prelude.
From S2P Require Import GoLib.
From S2P Require Import Message.

Inductive wal_event : Type :=
| WPut (m : Message)
| WAck (id : string).

(** ** The outstanding messages of a log: the abstract specification

    A put adds a message at the end, an acknowledgement removes every message
    with its identifier. *)

Definition live_step (l : list Message) (e : wal_event) : list Message :=
  match e with
  | WPut m => l ++ [m]
  | WAck id => filter (λ m, ID m ≠ id) l
  end.
Definition live (es : list wal_event) : list Message := foldl live_step [] es.

Definition put_ids (es : list wal_event) : list string :=
  omap (λ e, match e with WPut m => Some (ID m) | WAck _ => None end) es.

Lemma live_snoc es e : live (es ++ [e]) = live_step (live es) e.
Proof. unfold live. by rewrite foldl_app. Qed.

Lemma put_ids_app es es' : put_ids (es ++ es') = put_ids es ++ put_ids es'.
Proof. apply omap_app. Qed.

Lemma live_ids es m : m ∈ live es → ID m ∈ put_ids es.
Proof.
  induction es as [|e es IH] using rev_ind; [set_solver|].
  rewrite live_snoc, put_ids_app, elem_of_app. destruct e as [m'|id]; simpl.
  - rewrite elem_of_app, list_elem_of_singleton. intros [?| ->]; [auto|]. right. set_solver.
  - rewrite list_elem_of_filter. intros [_ ?]. auto.
Qed.

(** Distinct puts leave distinct outstanding messages. *)
Lemma live_nodup es : NoDup (put_ids es) → NoDup (ID <$> live es).
Proof.
  induction es as [|e es IH] using rev_ind; [constructor|].
  rewrite put_ids_app, live_snoc. intros (Hes & Hd & _)%NoDup_app. specialize (IH Hes).
  destruct e as [m|id]; simpl in *.
  - rewrite fmap_app. apply NoDup_app. split_and!; [done| |apply NoDup_singleton].
    intros i (m' & -> & Hm')%list_elem_of_fmap Hin. apply live_ids in Hm'.
    apply list_elem_of_singleton in Hin. apply (Hd _ Hm'). rewrite Hin. set_solver.
  - eapply sublist_NoDup; [exact IH|]. apply fmap_sublist, sublist_filter.
Qed.

(** ** The operations the broker calls *)

Class Storage (St : Type) : Type := {
  (** [now] is the time stamped on the record *)
  AppendPut : string → Message → Z → M St error;
  AppendAck : string → string → Z → M St error;
  LoadMessages : string → M St (list Message * error);
  ClearLog : string → M St error;
  DeleteLog : string → M St error
}.

(** ** What the operations promise

    [log s t] is the sequence of intact records of topic [t]; [ready s t] holds
    when the log of [t] is in a state where an append is not lost; [apart t t']
    says that the two topics do not share a log.  Every law speaks of a call
    that reported success. *)
Class StorageLaws (St : Type) `{Storage St} : Type := {
  log : St → string → list wal_event;
  ready : St → string → Prop;
  apart : string → string → Prop;
  storable : string → Message → Z → Prop;
  ackable : string → string → Z → Prop;
  AppendPut_ok s s' t m now :
    ready s t → storable t m now → AppendPut t m now s = (Ret None, s') →
    log s' t = log s t ++ [WPut m] ∧ ready s' t ∧
    ∀ t', apart t t' → ready s t' → log s' t' = log s t' ∧ ready s' t';
  AppendAck_ok s s' t id now :
    ready s t → ackable t id now → AppendAck t id now s = (Ret None, s') →
    log s' t = log s t ++ [WAck id] ∧ ready s' t ∧
    ∀ t', apart t t' → ready s t' → log s' t' = log s t' ∧ ready s' t';
  LoadMessages_ok s t :
    ready s t → NoDup (put_ids (log s t)) →
    wlp (LoadMessages t) (λ '(ms, err) s',
      err = None → ms = live (log s t) ∧ log s' t = log s t ∧ ready s' t) s
}.

(** The operations also never panic and never block: an error is a value. *)
Class StorageSafe (St : Type) `{Storage St} : Prop := {
  AppendPut_safe t m now : safe (AppendPut t m now);
  AppendAck_safe t id now : safe (AppendAck t id now);
  LoadMessages_safe t : safe (LoadMessages t);
  ClearLog_safe t : safe (ClearLog t);
  DeleteLog_safe t : safe (DeleteLog t)
}.
#[export] Hint Resolve AppendPut_safe AppendAck_safe LoadMessages_safe ClearLog_safe
  DeleteLog_safe : tmq.
