(* ===== verification/Storage.v ===== *)
(** * The write-ahead log on disk ([internal/storage/storage.go])

    One file per topic, one JSON record per line.  The file system is a
    directory of names onto inodes; every system call may succeed, fail or be
    the last one before the process dies, as the [fault] oracle says, and a
    failing or interrupted write leaves a prefix of its data. *)

From Stdlib Require Import Ascii.
From Stdlib Require Import Strings.Byte.
From S2P Require Import Prelude.
From S2P Require Import GoLib.
From S2P Require Import Message.
From S2P Require Import Wal.

(** ** Records *)

Definition RecordPut : string := "PUT".
Definition RecordAck : string := "ACK".

Record LogRecord : Type := MkLogRecord {
  rec_Type : string;
  rec_Message : option Message;
  rec_MessageID : string;
  rec_Timestamp : Z;
  rec_Checksum : Z
}.

Definition set_Checksum (c : Z) (r : LogRecord) : LogRecord :=
  MkLogRecord (rec_Type r) (rec_Message r) (rec_MessageID r) (rec_Timestamp r) c.

(** [encoding/json] on [LogRecord]: [json_Marshal] fails on a time it cannot
    print, [json_Unmarshal] on text that is not such a record. *)
Class LogCodec : Type := {
  json_Marshal : LogRecord → option bytes;
  json_Unmarshal : bytes → option LogRecord;
  (** the records JSON text can carry: valid UTF-8 throughout *)
  printable : LogRecord → Prop
}.

(** The documented behaviour the log relies on: compact JSON has no raw line
    breaks, decoding inverts encoding on valid UTF-8, a decoded record is valid
    UTF-8, and no strict prefix of an object is an object. *)
Class LogCodecLaws (C : LogCodec) : Prop := {
  marshal_no_break r b : json_Marshal r = Some b → (x0a ∉ b) ∧ (x0d ∉ b);
  marshal_nonempty r b : json_Marshal r = Some b → b ≠ [];
  unmarshal_marshal r b : printable r → json_Marshal r = Some b → json_Unmarshal b = Some r;
  unmarshal_printable b r : json_Unmarshal b = Some r → printable r;
  unmarshal_prefix r b b' :
    json_Marshal r = Some b → prefix b' b → b' ≠ b → json_Unmarshal b' = None;
  printable_checksum r c : (0 ≤ c < 2^32)%Z → printable r → printable (set_Checksum c r)
}.

(** ** [hash/crc32] with the IEEE polynomial *)

Definition crc_bit (c : Z) : Z :=
  if Z.odd c then Z.lxor (Z.shiftr c 1) 0xEDB88320%Z else Z.shiftr c 1.
Definition crc_byte (c : Z) (b : byte) : Z := Nat.iter 8 crc_bit (Z.lxor c (byteZ b)).
Definition ChecksumIEEE (b : bytes) : Z :=
  Z.lxor (foldl crc_byte 0xFFFFFFFF%Z b) 0xFFFFFFFF%Z.

Example crc32_check : ChecksumIEEE (bytes_of_string "123456789") = 0xCBF43926%Z.
Proof. vm_compute. reflexivity. Qed.

(** ** File names *)

Definition isSafePath (topic : string) : error :=
  if strings.Contains topic ".." || strings.Contains topic "\" ||
     strings.HasPrefix topic "/" || strings.HasPrefix topic "@"
  then Some "unsafe topic name detected, path traversal aborted"
  else None.

Definition topicToFilename (topic : string) : string :=
  let safe := strings.ReplaceAll topic "/" "_b_" in
  strings.ReplaceAll safe "@" "_a_".

(** [filepath.Join(dataDir, name)] for a cleaned [dataDir] and a [name] with no
    separator. *)
Definition Join (dataDir name : string) : string := dataDir +:+ "/" +:+ name.

Definition logFilePath (dataDir topic : string) : string :=
  Join dataDir (topicToFilename topic +:+ ".log").

Definition legacyFilePath (dataDir topic : string) : string :=
  Join dataDir (strings.ReplaceAll topic "/" "@" +:+ ".log").

Definition FilenameToTopic (filename : string) : string :=
  let topic := strings.ReplaceAll filename "_b_" "/" in
  strings.ReplaceAll topic "_a_" "@".

(** ** The file system *)

(** An [*os.File]: [h_off] is the write position, [None] for a file opened with
    [O_APPEND]; [h_open] is false after [Close]. *)
Record Handle : Type := MkHandle { h_ino : nat; h_off : option nat; h_open : bool }.
Definition Close (h : Handle) : Handle := MkHandle (h_ino h) (h_off h) false.

Record DiskStorage : Type := MkDisk {
  dataDir : string;
  activeFiles : gmap string Handle;
  syncWrites : bool;
  (** the directory, the inodes and the number of system calls so far *)
  dir : gmap string nat;
  inodes : gmap nat bytes;
  next_ino : nat;
  ticks : nat
}.

Inductive fault : Type :=
| FNone
| FErr (n : nat)
| FCrash (n : nat).

Definition set_activeFiles (f : gmap string Handle) (d : DiskStorage) : DiskStorage :=
  MkDisk (dataDir d) f (syncWrites d) (dir d) (inodes d) (next_ino d) (ticks d).
Definition set_inodes (i : gmap nat bytes) (d : DiskStorage) : DiskStorage :=
  MkDisk (dataDir d) (activeFiles d) (syncWrites d) (dir d) i (next_ino d) (ticks d).
Definition set_dir (x : gmap string nat) (d : DiskStorage) : DiskStorage :=
  MkDisk (dataDir d) (activeFiles d) (syncWrites d) x (inodes d) (next_ino d) (ticks d).
Definition tick (d : DiskStorage) : DiskStorage :=
  MkDisk (dataDir d) (activeFiles d) (syncWrites d) (dir d) (inodes d) (next_ino d)
    (S (ticks d)).

(** Creating the empty file [path]. *)
Definition create (path : string) (d : DiskStorage) : DiskStorage :=
  MkDisk (dataDir d) (activeFiles d) (syncWrites d) (<[path := next_ino d]> (dir d))
    (<[next_ino d := []]> (inodes d)) (S (next_ino d)) (ticks d).

Definition content (d : DiskStorage) (i : nat) : bytes := default [] (inodes d !! i).

(** The bytes of the file [path], when it exists. *)
Definition file (d : DiskStorage) (path : string) : option bytes :=
  content d <$> dir d !! path.

(** What [write(2)] does to the file's bytes. *)
Definition write_at (off : option nat) (data old : bytes) : bytes :=
  match off with
  | None => old ++ data
  | Some o =>
      take o old ++ replicate (o - length old) x00 ++ data ++ drop (o + length data) old
  end.

Section syscalls.
Variable faults : nat → fault.

(** A system call: its effect when it succeeds, its result and effect when it
    fails after [n] bytes, and the state a crash after [n] bytes leaves. *)
Definition syscall {A} (ok : DiskStorage → A * DiskStorage)
    (err : nat → DiskStorage → A * DiskStorage) (cut : nat → DiskStorage → DiskStorage)
    : M DiskStorage A := λ d0,
  let d := tick d0 in
  match faults (ticks d0) with
  | FNone => let '(a, d') := ok d in (Ret a, d')
  | FErr n => let '(a, d') := err n d in (Ret a, d')
  | FCrash n => (Crash, cut n d)
  end.

(** A call without partial effects dies before or after its effect. *)
Definition syscall_atomic {A} (ok : DiskStorage → A * DiskStorage) (e : A) : M DiskStorage A :=
  syscall ok (λ _ d, (e, d)) (λ n d, match n with O => d | S _ => (ok d).2 end).

(** [os.OpenFile(path, O_WRONLY|O_CREATE|O_APPEND)] and
    [os.OpenFile(path, O_WRONLY|O_CREATE|O_TRUNC)] *)
Definition sys_open_append (path : string) : M DiskStorage (option Handle) :=
  syscall_atomic (λ d,
    match dir d !! path with
    | Some i => (Some (MkHandle i None true), d)
    | None => (Some (MkHandle (next_ino d) None true), create path d)
    end) None.
Definition sys_open_trunc (path : string) : M DiskStorage (option Handle) :=
  syscall_atomic (λ d,
    match dir d !! path with
    | Some i => (Some (MkHandle i (Some 0) true), set_inodes (<[i := []]> (inodes d)) d)
    | None => (Some (MkHandle (next_ino d) (Some 0) true), create path d)
    end) None.

(** [file.Write(data)]: whether it succeeded, and the handle's new position.
    A failing write stops short of the end of [data]; a write on a closed file
    fails before it reaches the system. *)
Definition do_write (h : Handle) (data : bytes) (d : DiskStorage) : DiskStorage :=
  set_inodes (<[h_ino h := write_at (h_off h) data (content d (h_ino h))]> (inodes d)) d.
Definition advance (h : Handle) (n : nat) : Handle :=
  MkHandle (h_ino h) ((λ o, o + n) <$> h_off h) (h_open h).
Definition sys_write (h : Handle) (data : bytes) : M DiskStorage (bool * Handle) :=
  if h_open h then
    syscall
      (λ d, ((true, advance h (length data)), do_write h data d))
      (λ n d, let part := take (min n (length data - 1)) data in
              ((false, advance h (length part)), do_write h part d))
      (λ n d, do_write h (take n data) d)
  else mret (false, h).

(** [file.Sync()], [os.Rename], [os.Remove] *)
Definition sys_sync : M DiskStorage bool := syscall_atomic (λ d, (true, d)) false.
Definition do_rename (from to : string) (d : DiskStorage) : DiskStorage :=
  match dir d !! from with
  | Some i => set_dir (<[to := i]> (delete from (dir d))) d
  | None => d
  end.
Definition sys_rename (from to : string) : M DiskStorage bool :=
  syscall_atomic (λ d, (bool_decide (is_Some (dir d !! from)), do_rename from to d)) false.
Inductive rm_result : Type := RmOk | RmNotExist | RmErr.
Definition sys_remove (path : string) : M DiskStorage rm_result :=
  syscall_atomic (λ d,
    match dir d !! path with
    | Some _ => (RmOk, set_dir (delete path (dir d)) d)
    | None => (RmNotExist, d)
    end) RmErr.

(** [os.Open] followed by reading to the end: [None] when the open fails, else
    the bytes read and whether the read ended with an error. *)
Definition sys_read (path : string) : M DiskStorage (option (bytes * bool)) :=
  syscall
    (λ d, ((λ b, (b, false)) <$> file d path, d))
    (λ n d, (match n with
             | O => None
             | S n' => (λ b, (take n' b, true)) <$> file d path
             end, d))
    (λ _ d, d).

(** [os.Stat] *)
Definition sys_exists (path : string) : M DiskStorage bool :=
  gets (λ d, bool_decide (is_Some (dir d !! path))).

End syscalls.

(** ** [bufio.Scanner] over a log file *)

(** [scanner.Buffer(_, 4<<20)] *)
Definition max_line : Z := Z.shiftl 4 20.

(** The pieces between line feeds; the last one is the unterminated rest. *)
Fixpoint pieces (b : bytes) : list bytes :=
  match b with
  | [] => [[]]
  | c :: b' =>
      if bool_decide (c = x0a) then [] :: pieces b'
      else match pieces b' with
           | l :: ls => (c :: l) :: ls
           | [] => [[c]]
           end
  end.

(** [bufio.ScanLines] drops one carriage return at the end of a line. *)
Definition dropCR (l : bytes) : bytes :=
  match last l with
  | Some c => if bool_decide (c = x0d) then take (length l - 1) l else l
  | None => l
  end.

(** The tokens the scanner returns, and whether it stopped with [ErrTooLong];
    an empty rest after the last line feed is no token. *)
Fixpoint scan (ls : list bytes) : list bytes * bool :=
  match ls with
  | [] => ([], false)
  | l :: ls' =>
      if (max_line <=? Z.of_nat (length l))%Z then ([], true)
      else if bool_decide (l = [] ∧ ls' = []) then ([], false)
      else let '(ts, e) := scan ls' in (dropCR l :: ts, e)
  end.
Definition Scan (b : bytes) : list bytes * bool := scan (pieces b).

Section storage.
Context `{C : LogCodec}.
Variable faults : nat → fault.

Definition checksumFor (r : LogRecord) : Z :=
  match json_Marshal (set_Checksum 0 r) with
  | Some b => ChecksumIEEE b
  | None => 0
  end.

Definition validateRecord (r : LogRecord) : bool :=
  if bool_decide (rec_Checksum r = 0%Z) then true
  else bool_decide (checksumFor r = rec_Checksum r).

(** The body of the two scanning loops: a line that does not parse or whose
    checksum does not match is skipped. *)
Definition decode_line (l : bytes) : option LogRecord :=
  match json_Unmarshal l with
  | None => None
  | Some r => if validateRecord r then Some r else None
  end.

(** [s.getOrOpenFile(topic)] *)
Definition getOrOpenFile (topic : string) : M DiskStorage (option Handle) :=
  d ← get;
  match activeFiles d !! topic with
  | Some h => mret (Some h)
  | None =>
      oh ← sys_open_append faults (logFilePath (dataDir d) topic);
      match oh with
      | None => mret None
      | Some h =>
          modify (λ d, set_activeFiles (<[topic := h]> (activeFiles d)) d) ;;
          mret (Some h)
      end
  end.

Definition writeRecord (topic : string) (record : LogRecord) : M DiskStorage error :=
  match isSafePath topic with
  | Some e => mret (Some e)
  | None =>
      let record := set_Checksum (checksumFor record) record in
      oh ← getOrOpenFile topic;
      match oh with
      | None => mret (Some "open failed")
      | Some h =>
          match json_Marshal record with
          | None => mret (Some "json: unsupported value")
          | Some b =>
              '(ok, h') ← sys_write faults h (b ++ [x0a]);
              modify (λ d, set_activeFiles (<[topic := h']> (activeFiles d)) d) ;;
              d ← get;
              if syncWrites d && ok then
                synced ← sys_sync faults;
                mret (if (synced : bool) then None else Some "sync failed")
              else mret (if (ok : bool) then None else Some "write failed")
          end
      end
  end.

Definition disk_AppendPut (topic : string) (msg : Message) (now : Z) : M DiskStorage error :=
  writeRecord topic (MkLogRecord RecordPut (Some msg) "" now 0).

Definition disk_AppendAck (topic : string) (msgID : string) (now : Z) : M DiskStorage error :=
  writeRecord topic (MkLogRecord RecordAck None msgID now 0).

(** One record of [LoadMessages]' loop: [msgMap] and [orderedIDs]. *)
Definition load_step (acc : gmap string Message * list string) (r : LogRecord)
    : gmap string Message * list string :=
  let '(msgMap, orderedIDs) := acc in
  if bool_decide (rec_Type r = RecordPut) then
    match rec_Message r with
    | Some m => (<[ID m := m]> msgMap, orderedIDs ++ [ID m])
    | None => acc
    end
  else if bool_decide (rec_Type r = RecordAck) then
    (delete (rec_MessageID r) msgMap, orderedIDs)
  else acc.

Definition load_records (rs : list LogRecord) : list Message :=
  let '(msgMap, orderedIDs) := foldl load_step (∅, []) rs in
  omap (λ id, msgMap !! id) orderedIDs.

Definition disk_LoadMessages (topic : string) : M DiskStorage (list Message * error) :=
  match isSafePath topic with
  | Some e => mret ([], Some e)
  | None =>
      d ← get;
      let filename := logFilePath (dataDir d) topic in
      let legacy := legacyFilePath (dataDir d) topic in
      ex ← sys_exists filename;
      exl ← sys_exists legacy;
      if negb ex && negb exl then mret ([], None)
      else
        r ← sys_read faults (if (ex : bool) then filename else legacy);
        match r with
        | None => mret ([], Some "open failed")
        | Some (b, readErr) =>
            let '(tokens, tooLong) := Scan b in
            let active := load_records (omap decode_line tokens) in
            mret (active,
              if (tooLong : bool) then Some "bufio.Scanner: token too long"
              else if (readErr : bool) then Some "read failed" else None)
        end
  end.

(** One record of [CompactLog]'s loop: the map keeps whole records. *)
Definition compact_step (acc : gmap string LogRecord * list string) (r : LogRecord)
    : gmap string LogRecord * list string :=
  let '(msgMap, orderedIDs) := acc in
  if bool_decide (rec_Type r = RecordPut) then
    match rec_Message r with
    | Some m => (<[ID m := r]> msgMap, orderedIDs ++ [ID m])
    | None => acc
    end
  else if bool_decide (rec_Type r = RecordAck) then
    (delete (rec_MessageID r) msgMap, orderedIDs)
  else acc.

Definition compact_records (rs : list LogRecord) : list LogRecord :=
  let '(msgMap, orderedIDs) := foldl compact_step (∅, []) rs in
  omap (λ id, msgMap !! id) orderedIDs.

(** The loop that writes the surviving records to the temporary file. *)
Fixpoint write_records (tmp : string) (h : Handle) (rs : list LogRecord)
    : M DiskStorage error :=
  match rs with
  | [] => mret None
  | r :: rs' =>
      let r := set_Checksum (checksumFor r) r in
      match json_Marshal r with
      | None => sys_remove faults tmp ;; mret (Some "json: unsupported value")
      | Some b =>
          '(ok, h') ← sys_write faults h (b ++ [x0a]);
          if (ok : bool) then write_records tmp h' rs'
          else sys_remove faults tmp ;; mret (Some "write failed")
      end
  end.

Definition disk_CompactLog (topic : string) : M DiskStorage error :=
  match isSafePath topic with
  | Some e => mret (Some e)
  | None =>
      modify (λ d, set_activeFiles (delete topic (activeFiles d)) d) ;;
      d ← get;
      let filename := logFilePath (dataDir d) topic in
      ex ← sys_exists filename;
      if negb ex then mret None
      else
        r ← sys_read faults filename;
        match r with
        | None => mret (Some "open failed")
        | Some (b, readErr) =>
            let '(tokens, tooLong) := Scan b in
            if (tooLong || readErr : bool) then
              mret (Some "error scanning log file during compaction")
            else
              let tmpFilename := filename +:+ ".tmp" in
              oh ← sys_open_trunc faults tmpFilename;
              match oh with
              | None => mret (Some "open failed")
              | Some h =>
                  err ← write_records tmpFilename h (compact_records (omap decode_line tokens));
                  match err with
                  | Some e => mret (Some e)
                  | None =>
                      synced ← sys_sync faults;
                      if negb synced then
                        sys_remove faults tmpFilename ;;
                        mret (Some "failed to sync compacted log")
                      else
                        renamed ← sys_rename faults tmpFilename filename;
                        if negb renamed then
                          mret (Some "failed to replace old log with compacted version")
                        else
                          sys_sync faults ;; mret None
                  end
              end
        end
  end.

(** [storage.New]: the files of an earlier process stay, none is open. *)
Definition disk_New (dataDir : string) (syncWrites : bool) : M DiskStorage error :=
  made ← syscall_atomic faults (λ d, (true, d)) false;
  if (made : bool) then
    modify (λ d, MkDisk dataDir ∅ syncWrites (dir d) (inodes d) (next_ino d) (ticks d)) ;;
    mret None
  else mret (Some "failed to create data directory").

Definition disk_CloseAll : M DiskStorage error :=
  d ← get;
  forM_ (λ _, sys_sync faults ;; mret ()) (map_to_list (activeFiles d)) ;;
  modify (set_activeFiles ∅) ;;
  mret None.

Definition disk_ClearLog (topic : string) : M DiskStorage error :=
  match isSafePath topic with
  | Some e => mret (Some e)
  | None =>
      modify (λ d, set_activeFiles (alter Close topic (activeFiles d)) d) ;;
      d ← get;
      oh ← sys_open_trunc faults (logFilePath (dataDir d) topic);
      match oh with
      | None => mret (Some "open failed")
      | Some h =>
          modify (λ d, set_activeFiles (<[topic := h]> (activeFiles d)) d) ;; mret None
      end
  end.

Definition disk_DeleteLog (topic : string) : M DiskStorage error :=
  match isSafePath topic with
  | Some e => mret (Some e)
  | None =>
      modify (λ d, set_activeFiles (delete topic (activeFiles d)) d) ;;
      d ← get;
      r ← sys_remove faults (logFilePath (dataDir d) topic);
      mret (match r with
            | RmOk | RmNotExist => None
            | RmErr => Some "remove failed"
            end)
  end.

#[global] Instance disk_storage : Storage DiskStorage := {
  AppendPut := disk_AppendPut;
  AppendAck := disk_AppendAck;
  LoadMessages := disk_LoadMessages;
  ClearLog := disk_ClearLog;
  DeleteLog := disk_DeleteLog
}.

End storage.
