(* ===== verification/StorageFacts.v ===== *)
(** * Correctness of the write-ahead log *)

From Stdlib Require Import Ascii.
From Stdlib Require Import Strings.Byte.
From S2P Require Import Prelude.
From S2P Require Import GoLib.
From S2P Require Import Message.
From S2P Require Import Wal.
From S2P Require Import Storage.

(** ** Lines *)

Lemma pieces_nonempty b : pieces b ≠ [].
Proof. destruct b as [|c b]; simpl; [done|]. by repeat case_match. Qed.

Lemma pieces_app_nl a y : pieces (a ++ x0a :: y) = pieces a ++ pieces y.
Proof.
  induction a as [|c a IH]; [done|]. cbn [pieces app]. rewrite IH.
  case_bool_decide; [done|].
  pose proof (pieces_nonempty a). by destruct (pieces a).
Qed.

Lemma pieces_no_nl b : x0a ∉ b → pieces b = [b].
Proof.
  induction b as [|c b IH]; [done|]. intros [? ?]%not_elem_of_cons. cbn [pieces].
  rewrite bool_decide_false by congruence. by rewrite IH.
Qed.

Lemma dropCR_none l : x0d ∉ l → dropCR l = l.
Proof.
  intros Hl. unfold dropCR. destruct (last l) as [c|] eqn:E; [|done].
  rewrite bool_decide_false; [done|]. intros ->. apply Hl.
  by apply last_Some_elem_of.
Qed.

(** A line the scanner accepts. *)
Definition short (l : bytes) : Prop := (Z.of_nat (length l) < max_line)%Z.
Definition good_line (l : bytes) : Prop := short l ∧ x0a ∉ l.

Definition unlines (ls : list bytes) : bytes := mjoin ((λ l, l ++ [x0a]) <$> ls).

(** A file made of short, terminated lines. *)
Definition clean (b : bytes) : Prop := ∃ ls, b = unlines ls ∧ Forall good_line ls.

Lemma unlines_snoc ls l : unlines (ls ++ [l]) = unlines ls ++ l ++ [x0a].
Proof. unfold unlines. rewrite fmap_app, join_app. simpl. by rewrite app_nil_r. Qed.

Lemma clean_nil : clean [].
Proof. by exists []. Qed.

Lemma clean_line b l : clean b → good_line l → clean (b ++ l ++ [x0a]).
Proof.
  intros (ls & -> & Hls) Hl. exists (ls ++ [l]).
  by rewrite unlines_snoc, Forall_app, Forall_singleton.
Qed.

Lemma pieces_unlines ls y :
  Forall good_line ls → pieces (unlines ls ++ y) = ls ++ pieces y.
Proof.
  induction 1 as [|l ls [_ Hl] _ IH]; [done|].
  change (unlines (l :: ls)) with ((l ++ [x0a]) ++ unlines ls).
  rewrite <-!app_assoc. simpl. by rewrite pieces_app_nl, pieces_no_nl, IH.
Qed.

(** Scanning short lines followed by an unterminated short rest. *)
Lemma scan_lines ls rest :
  Forall short ls → short rest →
  scan (ls ++ [rest]) =
    ((dropCR <$> ls) ++ (if decide (rest = []) then [] else [dropCR rest]), false).
Proof.
  intros Hls Hr. induction Hls as [|l ls Hl _ IH]; cbn [scan app].
  - unfold short in Hr.
    destruct (Z.leb_spec max_line (Z.of_nat (length rest))); [lia|].
    case_bool_decide; case_decide; naive_solver.
  - unfold short in Hl.
    destruct (Z.leb_spec max_line (Z.of_nat (length l))); [lia|].
    rewrite bool_decide_false by (intros [_ ?]; by destruct ls).
    by rewrite IH.
Qed.

Lemma Scan_rest ls rest :
  Forall good_line ls → x0a ∉ rest → short rest →
  Scan (unlines ls ++ rest) =
    ((dropCR <$> ls) ++ (if decide (rest = []) then [] else [dropCR rest]), false).
Proof.
  intros Hls Hnl Hr. unfold Scan. rewrite pieces_unlines, pieces_no_nl by done.
  apply scan_lines; [|done]. eapply Forall_impl; [done|]. by intros ? [].
Qed.

Section records.
Context `{C : LogCodec}.

(** The intact records of a file's bytes. *)
Definition records (b : bytes) : list LogRecord := omap decode_line (Scan b).1.

Lemma records_rest ls rest :
  Forall good_line ls → x0a ∉ rest → short rest →
  records (unlines ls ++ rest) =
    records (unlines ls) ++
    (if decide (rest = []) then [] else option_list (decode_line (dropCR rest))).
Proof.
  intros Hls Hnl Hr. unfold records. rewrite Scan_rest by done.
  rewrite <-(app_nil_r (unlines ls)) at 1. rewrite Scan_rest; [|done|set_solver|done].
  simpl. rewrite app_nil_r, omap_app. case_decide; [done|]. simpl. by case_match.
Qed.

Lemma records_line b l :
  clean b → good_line l → x0d ∉ l → l ≠ [] →
  records (b ++ l ++ [x0a]) = records b ++ option_list (decode_line l).
Proof.
  intros (ls & -> & Hls) Hl Hcr Hne.
  rewrite <-unlines_snoc, <-(app_nil_r (unlines (ls ++ [l]))).
  unfold records. rewrite Scan_rest; [|by apply Forall_app_2; [|constructor]|set_solver|done].
  rewrite <-(app_nil_r (unlines ls)) at 1. rewrite Scan_rest; [|done|set_solver|done].
  simpl. rewrite !app_nil_r, fmap_app, omap_app. f_equal. simpl.
  rewrite dropCR_none by done. by case_match.
Qed.

(** ** Checksums *)

Lemma set_Checksum_twice c c' r : set_Checksum c (set_Checksum c' r) = set_Checksum c r.
Proof. done. Qed.

Lemma checksumFor_set c r : checksumFor (set_Checksum c r) = checksumFor r.
Proof. unfold checksumFor. by rewrite set_Checksum_twice. Qed.

(** A record stamped with its checksum validates. *)
Lemma validateRecord_stamped r : validateRecord (set_Checksum (checksumFor r) r) = true.
Proof.
  unfold validateRecord. rewrite checksumFor_set. simpl.
  case_bool_decide; [done|]. by apply bool_decide_true.
Qed.

End records.

Lemma lxor_u32 a b : (0 ≤ a < 2^32 → 0 ≤ b < 2^32 → 0 ≤ Z.lxor a b < 2^32)%Z.
Proof.
  intros [Ha Ha'] [Hb Hb'].
  assert (0 ≤ Z.lxor a b)%Z as H0 by (apply Z.lxor_nonneg; lia).
  split; [done|]. destruct (decide (Z.lxor a b = 0)%Z) as [->|]; [lia|].
  apply Z.log2_lt_pow2; [lia|]. eapply Z.le_lt_trans; [by apply Z.log2_lxor|].
  apply Z.max_lub_lt.
  - destruct (decide (a = 0)%Z) as [->|]; [done|]. apply Z.log2_lt_pow2; lia.
  - destruct (decide (b = 0)%Z) as [->|]; [done|]. apply Z.log2_lt_pow2; lia.
Qed.

Lemma crc_bit_range c : (0 ≤ c < 2^32 → 0 ≤ crc_bit c < 2^32)%Z.
Proof.
  intros Hc. unfold crc_bit. rewrite Z.shiftr_div_pow2 by lia. change (2^1)%Z with 2%Z.
  assert (0 ≤ c `div` 2 < 2^32)%Z.
  { split; [apply Z.div_pos; lia|apply Z.div_lt_upper_bound; lia]. }
  case_match; [|done]. by apply lxor_u32.
Qed.

Lemma crc_byte_range c b : (0 ≤ c < 2^32 → 0 ≤ crc_byte c b < 2^32)%Z.
Proof.
  intros Hc. unfold crc_byte. cbn [Nat.iter].
  repeat apply crc_bit_range. apply lxor_u32; [done|].
  pose proof (byteZ_range b). lia.
Qed.

(** The checksum is a 32-bit value. *)
Lemma ChecksumIEEE_range b : (0 ≤ ChecksumIEEE b < 2^32)%Z.
Proof.
  unfold ChecksumIEEE. apply lxor_u32; [|done].
  assert (∀ c, 0 ≤ c < 2^32 → 0 ≤ foldl crc_byte c b < 2^32)%Z as H; [|by apply H].
  induction b as [|x b IH]; intros c Hc; simpl; [done|]. by apply IH, crc_byte_range.
Qed.

Lemma checksumFor_range `{LogCodec} r : (0 ≤ checksumFor r < 2^32)%Z.
Proof. unfold checksumFor. case_match; [apply ChecksumIEEE_range|done]. Qed.

(** ** Replaying a log *)

Definition to_event (r : LogRecord) : option wal_event :=
  if bool_decide (rec_Type r = RecordPut) then WPut <$> rec_Message r
  else if bool_decide (rec_Type r = RecordAck) then Some (WAck (rec_MessageID r))
  else None.
Definition events (rs : list LogRecord) : list wal_event := omap to_event rs.

Lemma omap_lookup_insert_fresh {A} (mm : gmap string A) (ids : list string) k x :
  k ∉ ids → omap (λ id, <[k:=x]> mm !! id) ids = omap (λ id, mm !! id) ids.
Proof.
  intros Hk. induction ids as [|i ids IH]; [done|].
  apply not_elem_of_cons in Hk as [? ?]. by rewrite !omap_cons, lookup_insert_ne, IH.
Qed.

Lemma omap_lookup_delete (mm : gmap string Message) (ids : list string) k :
  (∀ id m, mm !! id = Some m → ID m = id) →
  omap (λ id, delete k mm !! id) ids = filter (λ m, ID m ≠ k) (omap (λ id, mm !! id) ids).
Proof.
  intros Hid. induction ids as [|i ids IH]; [done|].
  rewrite !omap_cons, filter_app, <-IH. f_equal.
  destruct (decide (i = k)) as [->|Hne].
  - rewrite lookup_delete_eq. destruct (mm !! k) as [m|] eqn:E; [|done].
    simpl. rewrite filter_cons_False by (apply Hid in E; naive_solver). done.
  - rewrite lookup_delete_ne by done. destruct (mm !! i) as [m|] eqn:E; [|done].
    simpl. by rewrite filter_cons_True by (apply Hid in E; naive_solver).
Qed.

(** The loop's state: the identifiers put so far, and a map keyed by
    identifier. *)
Lemma load_state rs :
  let '(mm, ids) := foldl load_step (∅, []) rs in
  ids = put_ids (events rs) ∧ (∀ id m, mm !! id = Some m → ID m = id ∧ id ∈ ids).
Proof.
  induction rs as [|r rs IH] using rev_ind; [done|].
  rewrite foldl_app. destruct (foldl load_step (∅, []) rs) as [mm ids].
  destruct IH as [-> Hmm]. unfold events. rewrite omap_app, put_ids_app. simpl.
  unfold to_event. case_bool_decide; [destruct (rec_Message r) as [m|]|case_bool_decide].
  - split; [done|]. intros id m'. simpl. rewrite lookup_insert_Some.
    intros [[<- <-]|[? Hm]]; [set_solver|]. apply Hmm in Hm as [? ?]. set_solver.
  - split; [by rewrite app_nil_r|]. naive_solver set_solver.
  - split; [by rewrite app_nil_r|]. intros id m'. rewrite lookup_delete_Some.
    intros [_ Hm]. naive_solver set_solver.
  - split; [by rewrite app_nil_r|]. naive_solver set_solver.
Qed.

(** The loop computes the outstanding messages of the abstract log, provided no
    identifier was put twice. *)
Lemma load_records_live rs :
  NoDup (put_ids (events rs)) → load_records rs = live (events rs).
Proof.
  unfold load_records. induction rs as [|r rs IH] using rev_ind; [done|].
  pose proof (load_state rs) as Hst. revert IH Hst.
  rewrite foldl_app. destruct (foldl load_step (∅, []) rs) as [mm ids].
  unfold events. rewrite omap_app, put_ids_app. fold (events rs).
  intros IH [-> Hmm] Hnd.
  assert (NoDup (put_ids (events rs))) as Hnd' by by apply NoDup_app in Hnd as [? _].
  specialize (IH Hnd'). revert Hnd. simpl. unfold to_event.
  case_bool_decide; [destruct (rec_Message r) as [m|]|case_bool_decide]; simpl; intros Hnd.
  - rewrite live_snoc. simpl. rewrite omap_app. simpl. rewrite lookup_insert_eq.
    rewrite omap_lookup_insert_fresh, IH; [done|].
    apply NoDup_app in Hnd as (_ & Hdisj & _). intros Hin. apply (Hdisj _ Hin). constructor.
  - by rewrite app_nil_r.
  - rewrite live_snoc. simpl. rewrite omap_lookup_delete, IH; [done|]. naive_solver.
  - by rewrite app_nil_r.
Qed.

(** ** Compaction keeps the outstanding messages *)

(** A record that [compact_step] keeps under its identifier. *)
Definition is_put (id : string) (r : LogRecord) : Prop :=
  rec_Type r = RecordPut ∧ ∃ m, rec_Message r = Some m ∧ ID m = id.

(** The two loops run in lock step: same identifiers, and the load map is the
    message part of the compaction map. *)
Lemma compact_load_state rs :
  let '(cm, ids) := foldl compact_step (∅, []) rs in
  let '(mm, ids') := foldl load_step (∅, []) rs in
  ids' = ids ∧ (∀ id r, cm !! id = Some r → is_put id r) ∧
  (∀ id, mm !! id = cm !! id ≫= rec_Message).
Proof.
  induction rs as [|r rs IH] using rev_ind; [done|].
  rewrite !foldl_app. destruct (foldl compact_step (∅, []) rs) as [cm ids].
  destruct (foldl load_step (∅, []) rs) as [mm ids'].
  destruct IH as (-> & Hput & Hmm). simpl.
  case_bool_decide as Ht; [destruct (rec_Message r) as [m|] eqn:Em|case_bool_decide];
    [|done| |done].
  - split; [done|]. split.
    + intros id r'. rewrite lookup_insert_Some. intros [[<- <-]|[_ ?]]; [|auto].
      split; [done|]. by exists m.
    + intros id. rewrite !lookup_insert. case_decide; [by simpl|]. apply Hmm.
  - split; [done|]. split.
    + intros id r'. rewrite lookup_delete_Some. intros [_ ?]. auto.
    + intros id. rewrite !lookup_delete. case_decide; [done|]. apply Hmm.
Qed.

(** Loading a list of put records that agree with the map [cm]. *)
Lemma load_puts (cm : gmap string LogRecord) (ids : list string) (upd : LogRecord → LogRecord)
    (mm0 : gmap string Message) ids0 :
  (∀ id r, cm !! id = Some r → is_put id r) →
  (∀ r, rec_Type (upd r) = rec_Type r ∧ rec_Message (upd r) = rec_Message r) →
  let '(mm, ids') := foldl load_step (mm0, ids0) (upd <$> omap (λ id, cm !! id) ids) in
  ids' = ids0 ++ filter (λ id, is_Some (cm !! id)) ids ∧
  (∀ id, id ∈ ids → is_Some (cm !! id) → mm !! id = cm !! id ≫= rec_Message) ∧
  (∀ id, id ∉ ids ∨ cm !! id = None → mm !! id = mm0 !! id).
Proof.
  intros Hput Hupd. revert mm0 ids0.
  induction ids as [|i ids IH]; intros mm0 ids0.
  { simpl. rewrite app_nil_r. split_and!; [done|set_solver|done]. }
  rewrite omap_cons, fmap_app, foldl_app.
  destruct (cm !! i) as [r|] eqn:Ei; simpl.
  - destruct (Hput _ _ Ei) as (Ht & m & Em & Hm). destruct (Hupd r) as [Ht' Em'].
    rewrite Ht', Ht, bool_decide_true, Em', Em by done.
    specialize (IH (<[ID m:=m]> mm0) (ids0 ++ [ID m])).
    destruct (foldl _ _ _) as [mm ids']. destruct IH as (-> & IH1 & IH2). split_and!.
    + rewrite filter_cons_True by (rewrite Ei; eauto). by rewrite <-app_assoc, Hm.
    + intros id Hin Hs. destruct (decide (id ∈ ids)) as [|Hni]; [auto|].
      apply elem_of_cons in Hin as [->|]; [|done].
      rewrite IH2 by auto. rewrite Hm, lookup_insert_eq, Ei. simpl. by rewrite Em.
    + intros id Hid. destruct (decide (id = i)) as [->|].
      * destruct Hid as [Hni|]; [|congruence]. set_solver.
      * rewrite IH2, Hm, lookup_insert_ne by set_solver. done.
  - specialize (IH mm0 ids0). destruct (foldl _ _ _) as [mm ids'].
    destruct IH as (-> & IH1 & IH2). split_and!.
    + by rewrite filter_cons_False by (rewrite Ei; by intros [??]).
    + intros id Hin [? Hs]. apply elem_of_cons in Hin as [->|]; [congruence|]. eauto.
    + intros id Hid. apply IH2. set_solver.
Qed.

Lemma omap_filter_some {A} (f : string → option A) (ids : list string) :
  omap f (filter (λ id, is_Some (f id)) ids) = omap f ids.
Proof.
  induction ids as [|i ids IH]; [done|]. destruct (f i) as [x|] eqn:E.
  - rewrite filter_cons_True by (rewrite E; eauto). by rewrite !omap_cons, IH.
  - rewrite filter_cons_False by (rewrite E; by intros [??]).
    by rewrite omap_cons, E, IH.
Qed.

Lemma omap_ext_in {A} (f g : string → option A) (ids : list string) :
  (∀ id, id ∈ ids → f id = g id) → omap f ids = omap g ids.
Proof.
  induction ids as [|i ids IH]; intros H; [done|].
  rewrite !omap_cons, H, IH by set_solver. done.
Qed.

(** Loading the compacted records, re-stamped in any way, gives the messages of
    the original log, whatever that log holds. *)
Lemma load_compact (upd : LogRecord → LogRecord) rs :
  (∀ r, rec_Type (upd r) = rec_Type r ∧ rec_Message (upd r) = rec_Message r) →
  load_records (upd <$> compact_records rs) = load_records rs.
Proof.
  intros Hupd. unfold load_records, compact_records.
  pose proof (compact_load_state rs) as Hst. revert Hst.
  destruct (foldl compact_step (∅, []) rs) as [cm ids].
  destruct (foldl load_step (∅, []) rs) as [mm ids'].
  intros (-> & Hput & Hmm). pose proof (load_puts cm ids upd ∅ [] Hput Hupd) as Hl.
  destruct (foldl load_step (∅, []) _) as [mm' ids'']. destruct Hl as (-> & Hl & _).
  simpl. rewrite <-(omap_filter_some (λ id, mm !! id) ids).
  assert (filter (λ id, is_Some (mm !! id)) ids = filter (λ id, is_Some (cm !! id)) ids) as ->.
  { apply list_filter_iff. intros id. rewrite Hmm. split.
    - intros [? H]. destruct (cm !! id); [eauto|done].
    - intros [r Hr]. destruct (Hput _ _ Hr) as (_ & m & Em & _). rewrite Hr. simpl. eauto. }
  apply omap_ext_in. intros id [Hs Hin]%list_elem_of_filter. rewrite Hmm. auto.
Qed.

Lemma compact_records_in rs r : r ∈ compact_records rs → r ∈ rs.
Proof.
  unfold compact_records.
  assert (let '(cm, _) := foldl compact_step (∅, []) rs in
          ∀ id r, cm !! id = Some r → r ∈ rs) as H.
  { induction rs as [|r' rs IH] using rev_ind; [done|].
    rewrite foldl_app. destruct (foldl compact_step (∅, []) rs) as [cm ids]. simpl.
    case_all; intros id r''; rewrite ?lookup_insert_Some, ?lookup_delete_Some; set_solver. }
  destruct (foldl compact_step (∅, []) rs) as [cm ids].
  rewrite list_elem_of_omap. naive_solver.
Qed.

(** ** The system calls under faults *)

Lemma wpx_syscall {A} faults (ok : DiskStorage → A * DiskStorage) err cut
    (Q : A → DiskStorage → Prop) (E : DiskStorage → Prop) d :
  Q (ok (tick d)).1 (ok (tick d)).2 →
  (∀ n, Q (err n (tick d)).1 (err n (tick d)).2) →
  (∀ n, E (cut n (tick d))) →
  wpx (syscall faults ok err cut) Q E d.
Proof.
  intros Hok Herr Hcut. unfold wpx, syscall. destruct (faults (ticks d)) as [|n|n].
  - by destruct (ok (tick d)).
  - specialize (Herr n). by destruct (err n (tick d)).
  - apply Hcut.
Qed.

Lemma wpx_syscall_atomic {A} faults (ok : DiskStorage → A * DiskStorage) (e : A)
    (Q : A → DiskStorage → Prop) (E : DiskStorage → Prop) d :
  Q (ok (tick d)).1 (ok (tick d)).2 → Q e (tick d) →
  E (tick d) → E (ok (tick d)).2 →
  wpx (syscall_atomic faults ok e) Q E d.
Proof. intros. apply wpx_syscall; [done..|]. by intros [|n]. Qed.

(** Distinct names have distinct inodes, all of them allocated. *)
Definition disk_wf (d : DiskStorage) : Prop :=
  (∀ p1 p2 i, dir d !! p1 = Some i → dir d !! p2 = Some i → p1 = p2) ∧
  (∀ p i, dir d !! p = Some i → i < next_ino d) ∧
  (∀ t h, activeFiles d !! t = Some h → h_ino h < next_ino d).

Lemma file_tick d p : file (tick d) p = file d p.
Proof. done. Qed.

Lemma disk_wf_tick d : disk_wf d → disk_wf (tick d).
Proof. done. Qed.

Lemma disk_wf_set_inodes d i : disk_wf d → disk_wf (set_inodes i d).
Proof. done. Qed.

Lemma disk_wf_delete_active d t :
  disk_wf d → disk_wf (set_activeFiles (delete t (activeFiles d)) d).
Proof.
  intros (H1 & H2 & H3). split_and!; [done..|]. intros t' h. simpl.
  rewrite lookup_delete_Some. naive_solver.
Qed.

Lemma disk_wf_set_active d t h :
  disk_wf d → h_ino h < next_ino d →
  disk_wf (set_activeFiles (<[t := h]> (activeFiles d)) d).
Proof.
  intros (H1 & H2 & H3) Hh. split_and!; [done..|]. intros t' h'. simpl.
  rewrite lookup_insert_Some. naive_solver.
Qed.

Lemma disk_wf_create d p : disk_wf d → disk_wf (create p d).
Proof.
  intros (H1 & H2 & H3). split_and!; simpl.
  - intros p1 p2 i. rewrite !lookup_insert_Some.
    intros [[<- <-]|[? Hp1]] [[<- ?]|[? Hp2]]; [done| | |by eauto].
    + apply H2 in Hp2. lia.
    + apply H2 in Hp1. lia.
  - intros p' i. rewrite lookup_insert_Some. intros [[_ <-]|[_ Hp]]; [lia|].
    apply H2 in Hp. lia.
  - intros t h Hh. apply H3 in Hh. lia.
Qed.

Lemma disk_wf_remove d p : disk_wf d → disk_wf (set_dir (delete p (dir d)) d).
Proof.
  intros (H1 & H2 & H3). split_and!; simpl; [|intros p' i|done].
  - intros p1 p2 i. rewrite !lookup_delete_Some. naive_solver.
  - rewrite lookup_delete_Some. naive_solver.
Qed.

Lemma disk_wf_rename d p q : disk_wf d → disk_wf (do_rename p q d).
Proof.
  intros (H1 & H2 & H3). unfold do_rename. destruct (dir d !! p) as [i|] eqn:Ep; [|done].
  split_and!; simpl; [|intros p' j|done].
  - intros p1 p2 j. rewrite !lookup_insert_Some, !lookup_delete_Some. naive_solver.
  - rewrite lookup_insert_Some, lookup_delete_Some. naive_solver.
Qed.

(** Writing to one file leaves the others alone. *)
Lemma file_set_inode_other d p i b :
  dir d !! p ≠ Some i → file (set_inodes (<[i := b]> (inodes d)) d) p = file d p.
Proof.
  intros Hp. unfold file, content. simpl. destruct (dir d !! p) as [j|] eqn:E; [|done].
  simpl. rewrite lookup_insert_ne by congruence. done.
Qed.

Lemma file_set_inode d p i b :
  dir d !! p = Some i → file (set_inodes (<[i := b]> (inodes d)) d) p = Some b.
Proof. intros Hp. unfold file, content. simpl. rewrite Hp. simpl. by rewrite lookup_insert_eq. Qed.

Lemma file_create_other d p q : disk_wf d → p ≠ q → file (create q d) p = file d p.
Proof.
  intros (_ & H2 & _) Hne. unfold file, content. simpl. rewrite lookup_insert_ne by done.
  destruct (dir d !! p) as [j|] eqn:E; [|done]. simpl.
  rewrite lookup_insert_ne; [done|]. apply H2 in E. lia.
Qed.

Lemma file_create d p : file (create p d) p = Some [].
Proof. unfold file, content. simpl. by rewrite lookup_insert_eq; simpl; rewrite lookup_insert_eq. Qed.

Lemma file_remove_other d p q : p ≠ q → file (set_dir (delete q (dir d)) d) p = file d p.
Proof. intros. unfold file. simpl. by rewrite lookup_delete_ne. Qed.

Lemma file_rename_to d p q i :
  dir d !! p = Some i → file (do_rename p q d) q = Some (content d i).
Proof. intros Hp. unfold do_rename. rewrite Hp. unfold file. simpl. by rewrite lookup_insert_eq. Qed.

#[export] Hint Resolve disk_wf_tick disk_wf_set_inodes disk_wf_delete_active
  disk_wf_set_active disk_wf_create disk_wf_remove disk_wf_rename : tmq.

(** ** Compaction survives every fault *)

Section compaction.
Context `{C : LogCodec}.
Context {CL : LogCodecLaws C}.
Variable faults : nat → fault.

(** The stamp [CompactLog] and [writeRecord] put on a record. *)
Definition stamp (r : LogRecord) : LogRecord := set_Checksum (checksumFor r) r.

Definition line_of (r : LogRecord) (l : bytes) : Prop := json_Marshal (stamp r) = Some l.

Lemma stamp_same r : rec_Type (stamp r) = rec_Type r ∧ rec_Message (stamp r) = rec_Message r.
Proof. done. Qed.

Lemma printable_stamp r : printable r → printable (stamp r).
Proof. apply printable_checksum, checksumFor_range. Qed.

Lemma decode_stamped r l : printable r → line_of r l → decode_line l = Some (stamp r).
Proof.
  intros Hp Hl. unfold decode_line.
  rewrite (unmarshal_marshal (stamp r)); [|by apply printable_stamp|done].
  unfold stamp. by rewrite validateRecord_stamped.
Qed.

Lemma decode_line_printable l r : decode_line l = Some r → printable r.
Proof.
  unfold decode_line. destruct (json_Unmarshal l) eqn:E; [|done].
  case_match; [|done]. intros [= <-]. by eapply unmarshal_printable.
Qed.

Lemma records_printable b r : r ∈ records b → printable r.
Proof.
  unfold records. rewrite list_elem_of_omap. intros (l & _ & H).
  by eapply decode_line_printable.
Qed.

Lemma lines_good rs ls : Forall2 line_of rs ls → Forall short ls → Forall good_line ls.
Proof.
  induction 1 as [|r l rs ls Hl _ IH]; intros Hs; [constructor|].
  apply Forall_cons in Hs as [? ?]. constructor; [|auto].
  split; [done|]. by apply marshal_no_break in Hl as [? _].
Qed.

(** Reading back a file made of the lines of [rs]. *)
Lemma records_lines rs ls :
  Forall2 line_of rs ls → Forall printable rs → Forall short ls →
  records (unlines ls) = stamp <$> rs.
Proof.
  intros Hl Hp Hs. unfold records. rewrite <-(app_nil_r (unlines ls)).
  rewrite Scan_rest; [|by eapply lines_good|set_solver|done]. simpl. rewrite app_nil_r.
  clear Hs. induction Hl as [|r l rs ls Hrl _ IH]; [done|].
  apply Forall_cons in Hp as [Hr Hp]. rewrite !fmap_cons, omap_cons, IH by done.
  rewrite dropCR_none by by apply marshal_no_break in Hrl as [_ ?].
  by rewrite (decode_stamped r).
Qed.

Variables (fn tmp : string) (b : bytes).
Hypothesis Htmp : tmp ≠ fn.

(** The log still holds [b]. *)
Definition intact (d : DiskStorage) : Prop := disk_wf d ∧ file d fn = Some b.

(** The temporary file holds [done]. *)
Definition tmp_holds (h : Handle) (written : bytes) (d : DiskStorage) : Prop :=
  intact d ∧ dir d !! tmp = Some (h_ino h) ∧ content d (h_ino h) = written ∧
  h_off h = Some (length written) ∧ h_open h = true.

Lemma tmp_other d h : intact d → dir d !! tmp = Some (h_ino h) → dir d !! fn ≠ Some (h_ino h).
Proof. intros [(H1 & _) _] Ht Hf. apply Htmp. by eapply H1. Qed.

Lemma intact_do_write d h data :
  intact d → dir d !! tmp = Some (h_ino h) → intact (do_write h data d).
Proof.
  intros Hi Ht. pose proof (tmp_other d h Hi Ht). destruct Hi as [Hwf Hf].
  split; [by apply disk_wf_set_inodes|]. unfold do_write. by rewrite file_set_inode_other.
Qed.

Lemma intact_remove d : intact d → intact (set_dir (delete tmp (dir d)) d).
Proof. intros [? ?]. split; [auto with tmq|]. by rewrite file_remove_other by congruence. Qed.

Lemma wpx_remove_tmp d : intact d → wpx (sys_remove faults tmp) (λ _, intact) intact d.
Proof.
  intros Hi. assert (intact (tick d)) by done.
  apply wpx_syscall_atomic; simpl; try case_match; simpl;
    try apply (intact_remove (tick d)); done.
Qed.

Lemma wpx_write_tmp d h w data :
  tmp_holds h w d →
  wpx (sys_write faults h data)
    (λ '(ok, h') d', intact d' ∧ (ok = true → tmp_holds h' (w ++ data) d')) intact d.
Proof.
  intros (Hi & Ht & Hc & Ho & Hop). unfold sys_write. rewrite Hop.
  assert (intact (tick d)) as Hi' by done.
  apply wpx_syscall; simpl; [|intros n; split; [by apply intact_do_write|done]|
    intros n; by apply intact_do_write].
  split; [by apply intact_do_write|]. intros _. split_and!; simpl.
  - by apply intact_do_write.
  - done.
  - unfold do_write, content. simpl. rewrite lookup_insert_eq. simpl.
    unfold write_at. rewrite Ho.
    change (default [] (inodes d !! h_ino h)) with (content d (h_ino h)). rewrite Hc.
    by rewrite firstn_all, Nat.sub_diag, drop_ge, app_nil_r by lia.
  - rewrite Ho. simpl. by rewrite length_app.
  - done.
Qed.

(** The writing loop either fails with the log intact, or leaves the lines of
    all the records in the temporary file. *)
Lemma wpx_write_records rs : ∀ h w d,
  tmp_holds h w d →
  wpx (write_records faults tmp h rs)
    (λ err d', intact d' ∧
       (err = None → ∃ ls h', Forall2 line_of rs ls ∧ tmp_holds h' (w ++ unlines ls) d'))
    intact d.
Proof.
  induction rs as [|r rs IH]; intros h w d Hh; cbn [write_records].
  { apply wpx_ret. split; [by apply Hh|]. intros _. exists [], h.
    split; [constructor|]. by rewrite app_nil_r. }
  fold (stamp r). destruct (json_Marshal (stamp r)) as [l|] eqn:El.
  - apply wpx_bind. eapply wpx_mono; [by apply wpx_write_tmp| |done].
    intros [ok h'] d' [Hi Hok]. destruct ok.
    + eapply wpx_mono; [by apply IH, Hok| |done].
      intros err d'' [Hi' Herr]. split; [done|]. intros He.
      destruct (Herr He) as (ls & h'' & Hls & Hh''). exists (l :: ls), h''.
      split; [by constructor|]. unfold unlines in *. simpl.
      by rewrite <-!app_assoc in *.
    + apply wpx_bind. eapply wpx_mono; [by apply wpx_remove_tmp|by intros; apply wpx_ret|done].
  - apply wpx_bind.
    eapply wpx_mono; [apply wpx_remove_tmp; by destruct Hh|by intros; apply wpx_ret|done].
Qed.

Lemma wpx_open_tmp d :
  intact d →
  wpx (sys_open_trunc faults tmp)
    (λ oh d', intact d' ∧ (∀ h, oh = Some h → tmp_holds h [] d')) intact d.
Proof.
  intros [Hwf Hf]. assert (intact (tick d)) as Hi' by done.
  assert (intact (create tmp (tick d))) as Hcr.
  { split; [auto with tmq|]. by rewrite file_create_other by (done || congruence). }
  destruct (dir d !! tmp) as [i|] eqn:E.
  - assert (intact (set_inodes (<[i:=[]]> (inodes d)) (tick d))).
    { split; [auto with tmq|]. rewrite (file_set_inode_other (tick d)); [done|].
      simpl. intros Hfn. apply Htmp. destruct Hwf as [H1 _]. by eapply H1. }
    apply wpx_syscall_atomic; simpl; rewrite ?E; simpl; try done.
    split; [done|]. intros h [= <-]. split_and!; simpl; try done.
    unfold content. simpl. by rewrite lookup_insert_eq.
  - apply wpx_syscall_atomic; simpl; rewrite ?E; simpl; try done.
    split; [done|]. intros h [= <-]. split_and!; simpl; try done.
    + by rewrite lookup_insert_eq.
    + unfold content. simpl. by rewrite lookup_insert_eq.
Qed.

(** The messages a restart would find in the file [fn]. *)
Definition outstanding (d : DiskStorage) : list Message :=
  load_records (records (default [] (file d fn))).

Definition survives (d : DiskStorage) : Prop := outstanding d = load_records (records b).

Lemma intact_survives d : intact d → survives d.
Proof. intros [_ Hf]. unfold survives, outstanding. by rewrite Hf. Qed.

(** The temporary file, once it holds the compacted records, is as good as the
    log. *)
Lemma renamed_survives d h ls :
  (∀ r l, r ∈ compact_records (records b) → line_of r l → short l) →
  Forall2 line_of (compact_records (records b)) ls →
  tmp_holds h (unlines ls) d → survives (do_rename tmp fn d).
Proof.
  intros Hfit Hls (_ & Ht & Hc & _). unfold survives, outstanding.
  rewrite (file_rename_to _ _ _ _ Ht), Hc. simpl.
  rewrite (records_lines (compact_records (records b))); [|done| |].
  - apply load_compact, stamp_same.
  - apply Forall_forall. intros r Hr. by eapply records_printable, compact_records_in.
  - clear -Hfit Hls. revert Hfit. induction Hls as [|r l rs ls Hrl _ IH]; [constructor|].
    intros Hfit. constructor; [eapply Hfit; [constructor|done]|].
    apply IH. intros. eapply Hfit; [by constructor|done].
Qed.

Lemma wpx_sync_intact d (P : DiskStorage → Prop) :
  P (tick d) → wpx (sys_sync faults) (λ _, P) P d.
Proof. intros. by apply wpx_syscall_atomic. Qed.

Lemma wpx_read_log d :
  intact d →
  wpx (sys_read faults fn)
    (λ r d', intact d' ∧ (∀ b' , r = Some (b', false) → b' = b)) intact d.
Proof using fn b.
  intros Hi. assert (intact (tick d)) as Hi' by done. destruct Hi as [_ Hf].
  apply wpx_syscall; simpl; [|intros n|done].
  - split; [done|]. rewrite file_tick, Hf. by intros ? [= <-].
  - split; [done|]. destruct n; [done|]. by rewrite file_tick, Hf.
Qed.

End compaction.

Section compaction_safety.
Context `{C : LogCodec}.
Context {CL : LogCodecLaws C}.

Lemma tmp_ne_fn fn : fn +:+ ".tmp" ≠ fn.
Proof. intros H. apply (f_equal String.length) in H. rewrite str_length_app in H. simpl in H. lia. Qed.

(** The tail of [CompactLog], from the temporary file on. *)
Lemma wpx_compact_tail faults fn b d :
  let tmp := fn +:+ ".tmp" in
  (∀ r l, r ∈ compact_records (records b) → line_of r l → short l) →
  intact fn b d →
  wpx (oh ← sys_open_trunc faults tmp;
       match oh with
       | None => mret (Some "open failed")
       | Some h =>
           err ← write_records faults tmp h (compact_records (records b));
           match err with
           | Some e => mret (Some e)
           | None =>
               synced ← sys_sync faults;
               if negb synced then
                 sys_remove faults tmp ;; mret (Some "failed to sync compacted log")
               else
                 renamed ← sys_rename faults tmp fn;
                 if negb renamed then
                   mret (Some "failed to replace old log with compacted version")
                 else
                   sys_sync faults ;; mret None
           end
       end)
    (λ _, survives fn b) (survives fn b) d.
Proof.
  intros tmp Hfit Hi. pose proof (tmp_ne_fn fn) as Hne.
  pose proof (intact_survives fn b) as Hsv.
  apply wpx_bind. eapply wpx_mono; [by apply (wpx_open_tmp faults fn tmp b)| |done].
  intros [h|] d1 [Hi1 Hh]; [|by apply wpx_ret, Hsv].
  apply wpx_bind.
  eapply wpx_mono; [by apply (wpx_write_records faults fn tmp b), Hh| |done].
  intros [e|] d2 [Hi2 Herr]; [by apply wpx_ret, Hsv|].
  destruct (Herr eq_refl) as (ls & h' & Hls & Hh').
  apply wpx_bind.
  eapply wpx_mono; [apply (wpx_sync_intact faults d2 (tmp_holds fn tmp b h' (unlines ls)));
    exact Hh'| |by intros ? [? _]; apply Hsv].
  intros synced d3 Hd3. assert (intact fn b d3) as Hi3 by by destruct Hd3. destruct synced; simpl.
  - apply wpx_bind. apply wpx_syscall_atomic; simpl.
    + case_bool_decide; simpl.
      * apply wpx_bind.
        eapply wpx_mono; [apply (wpx_sync_intact faults _ (survives fn b))|..]; [|done..].
        by eapply (renamed_survives fn tmp b (tick d3)).
      * apply wpx_ret. by eapply (renamed_survives fn tmp b (tick d3)).
    + by apply wpx_ret, Hsv.
    + by apply Hsv.
    + by eapply (renamed_survives fn tmp b (tick d3)).
  - apply wpx_bind.
    eapply wpx_mono; [by apply (wpx_remove_tmp faults fn tmp b)|by intros; apply wpx_ret, Hsv|done].
Qed.

(** However the system calls of [CompactLog] turn out, and wherever the process
    dies, the log afterwards holds the messages it held before. *)
Lemma CompactLog_survives faults topic d b :
  let fn := logFilePath (dataDir d) topic in
  disk_wf d → file d fn = Some b →
  (∀ r l, r ∈ compact_records (records b) → line_of r l → short l) →
  wpx (disk_CompactLog faults topic) (λ _, survives fn b) (survives fn b) d.
Proof.
  intros fn Hwf Hf Hfit. unfold disk_CompactLog.
  assert (intact fn b (set_activeFiles (delete topic (activeFiles d)) d)) as Hi0
    by (split; [auto with tmq|done]).
  assert (intact fn b d) as Hid by done.
  pose proof (intact_survives fn b) as Hsv.
  destruct (isSafePath topic); [by apply wpx_ret, Hsv|].
  apply wpx_bind, wpx_modify, wpx_bind, wpx_get, wpx_bind, wpx_gets.
  case_bool_decide; simpl; [|by apply wpx_ret, Hsv].
  apply wpx_bind. eapply wpx_mono; [by apply (wpx_read_log faults fn b)| |done].
  intros [[b' re]|] d1 [Hi1 Hb]; [|by apply wpx_ret, Hsv].
  destruct (Scan b') as [tokens tooLong] eqn:Escan.
  destruct tooLong; [by apply wpx_ret, Hsv|]. destruct re; [by apply wpx_ret, Hsv|].
  rewrite (Hb b' eq_refl) in *.
  replace (omap decode_line tokens) with (records b) by (unfold records; by rewrite Escan).
  by apply wpx_compact_tail.
Qed.

End compaction_safety.

(** ** Appending a record *)

Section append.
Context `{C : LogCodec}.
Context {CL : LogCodecLaws C}.
Variable faults : nat → fault.

Definition log_path (d : DiskStorage) (t : string) : string := logFilePath (dataDir d) t.

(** The open file of [t], if any, is positioned at the end of its log. *)
Definition at_end (d : DiskStorage) (t : string) (h : Handle) : Prop :=
  h_open h = true ∧ dir d !! log_path d t = Some (h_ino h) ∧
  (h_off h = None ∨ h_off h = length <$> file d (log_path d t)).

Definition disk_log (d : DiskStorage) (t : string) : list wal_event :=
  events (records (default [] (file d (log_path d t)))).

(** An append to [t] reaches the end of its log: what an append needs to find
    the file, whatever the file holds. *)
Definition disk_open (d : DiskStorage) (t : string) : Prop :=
  disk_wf d ∧ isSafePath t = None ∧ (∀ h, activeFiles d !! t = Some h → at_end d t h).

(** Moreover the log consists of whole lines. *)
Definition disk_ready (d : DiskStorage) (t : string) : Prop :=
  disk_wf d ∧ isSafePath t = None ∧ clean (default [] (file d (log_path d t))) ∧
  (∀ h, activeFiles d !! t = Some h → at_end d t h) ∧
  (is_Some (dir d !! log_path d t) ∨ dir d !! legacyFilePath (dataDir d) t = None).

Lemma disk_ready_open d t : disk_ready d t → disk_open d t.
Proof. intros (? & ? & _ & ? & _). by split_and!. Qed.

(** [d'] differs from [d] at most in the log of [t]. *)
Definition only_log (t : string) (d d' : DiskStorage) : Prop :=
  disk_wf d' ∧ dataDir d' = dataDir d ∧
  (∀ p, p ≠ log_path d t → dir d' !! p = dir d !! p ∧ file d' p = file d p) ∧
  (∀ t', t' ≠ t → activeFiles d' !! t' = activeFiles d !! t').

Lemma only_log_refl t d : disk_wf d → only_log t d d.
Proof. intros. split_and!; naive_solver. Qed.

Lemma only_log_trans t d1 d2 d3 : only_log t d1 d2 → only_log t d2 d3 → only_log t d1 d3.
Proof.
  intros (H1 & H2 & H3 & H4) (H1' & H2' & H3' & H4').
  assert (log_path d2 t = log_path d1 t) as Hp by (unfold log_path; by rewrite H2).
  split_and!; [done|congruence| |].
  - intros p Hne. rewrite <-(proj1 (H3 p Hne)), <-(proj2 (H3 p Hne)). apply H3'. congruence.
  - intros t' Hne. by rewrite <-H4, H4'.
Qed.

(** The state right after the file of [t] was opened on the bytes [b]. *)
Definition opened (t : string) (b : bytes) (d0 : DiskStorage) (h : Handle)
    (d : DiskStorage) : Prop :=
  only_log t d0 d ∧ at_end d t h ∧ activeFiles d !! t = Some h ∧
  file d (log_path d t) = Some b.

(** The log of [t] holds [b], maybe as a missing file. *)
Definition holds (t : string) (b : bytes) (d0 d : DiskStorage) : Prop :=
  only_log t d0 d ∧ default [] (file d (log_path d t)) = b.

Lemma opened_holds t b d0 h d : opened t b d0 h d → holds t b d0 d.
Proof. intros (? & _ & _ & Hf). split; [done|]. by rewrite Hf. Qed.

Lemma wpx_getOrOpenFile t d :
  disk_open d t →
  let b := default [] (file d (log_path d t)) in
  wpx (getOrOpenFile faults t)
    (λ oh d', holds t b d d' ∧ (∀ h, oh = Some h → opened t b d h d')) (holds t b d) d.
Proof.
  intros (Hwf & _ & Hh) b. unfold getOrOpenFile. apply wpx_bind, wpx_get.
  destruct (activeFiles d !! t) as [h|] eqn:Ea.
  { apply wpx_ret. assert (opened t b d h d) as Ho.
    { destruct (Hh h eq_refl) as (Ho & Hd & Hoff).
      split_and!; [by apply only_log_refl|by split_and!|done|].
      unfold b, file. by rewrite Hd. }
    split; [by eapply opened_holds|]. by intros ? [= <-]. }
  assert (holds t b d (tick d)) as Htick by (split; [exact (only_log_refl t d Hwf)|done]).
  apply wpx_bind. fold (log_path d t).
  destruct (dir d !! log_path d t) as [i|] eqn:Ed.
  - apply wpx_syscall_atomic; simpl; rewrite ?Ed; simpl; try done.
    + apply wpx_bind, wpx_modify, wpx_ret.
      assert (opened t b d (MkHandle i None true)
                (set_activeFiles (<[t:=MkHandle i None true]> (activeFiles d)) (tick d))) as Ho.
      { split_and!; simpl.
        - split_and!; [|done|by split|].
          + apply (disk_wf_set_active (tick d)); [done|]. simpl. by eapply Hwf.
          + intros. simpl. by rewrite lookup_insert_ne.
        - split_and!; [done|exact Ed|by left].
        - by rewrite lookup_insert_eq.
        - unfold b, file, log_path in *. simpl. by rewrite Ed. }
      split; [by eapply opened_holds|]. by intros ? [= <-].
  - assert (b = []) as Hb0 by (unfold b, file; by rewrite Ed).
    assert (only_log t d (create (log_path d t) (tick d))) as Hol.
    { split_and!; [by apply (disk_wf_create (tick d))|done| |done].
      intros p Hne. simpl. rewrite lookup_insert_ne by done. split; [done|].
      by apply (file_create_other (tick d)). }
    assert (file (create (log_path d t) (tick d)) (log_path d t) = Some []) as Hfc
      by apply (file_create (tick d)).
    apply wpx_syscall_atomic; simpl; rewrite ?Ed; simpl; try done.
    + apply wpx_bind, wpx_modify, wpx_ret.
      set (h := MkHandle (next_ino d) None true).
      assert (opened t b d h
        (set_activeFiles (<[t:=h]> (activeFiles d)) (create (log_path d t) (tick d)))) as Ho.
      { split_and!; simpl.
        - destruct Hol as (? & ? & ? & ?). split_and!; [|done|done|].
          + apply (disk_wf_set_active (create (log_path d t) (tick d))); [done|]. simpl. lia.
          + intros. simpl. by rewrite lookup_insert_ne.
        - split_and!; [done| |by left]. simpl. by rewrite lookup_insert_eq.
        - by rewrite lookup_insert_eq.
        - by rewrite Hb0. }
      split; [by eapply opened_holds|]. by intros ? [= <-].
    + split; [done|]. change (log_path (create (log_path d t) (tick d)) t) with (log_path d t).
      by rewrite Hfc, Hb0.
Qed.

Lemma write_at_end off data b :
  off = None ∨ off = Some (length b) → write_at off data b = b ++ data.
Proof.
  intros [->| ->]; [done|]. simpl.
  by rewrite firstn_all, Nat.sub_diag, drop_ge, app_nil_r by lia.
Qed.

(** Writing [data] at the end of the log. *)
Lemma do_write_log t b d0 h d data :
  opened t b d0 h d →
  only_log t d0 (do_write h data d) ∧
  file (do_write h data d) (log_path d t) = Some (b ++ data).
Proof.
  intros ((Hwf & Hdd & Hother & Hact) & (Ho & Hd & Hoff) & _ & Hf).
  assert (content d (h_ino h) = b) as Hc.
  { unfold file in Hf. rewrite Hd in Hf. by injection Hf. }
  assert (log_path d t = log_path d0 t) as Hp by (unfold log_path; by rewrite Hdd).
  split.
  - split_and!; [by apply disk_wf_set_inodes|done| |done].
    intros p Hne. destruct (Hother p Hne) as [Hdp Hfp]. split; [done|].
    unfold do_write. rewrite file_set_inode_other; [done|].
    intros Hpi. apply Hne. rewrite <-Hp. destruct Hwf as [Hinj _]. by eapply Hinj.
  - unfold do_write. rewrite file_set_inode by done. rewrite Hc. f_equal.
    apply write_at_end. by rewrite Hf in Hoff.
Qed.

Lemma opened_set_active t b d0 h d :
  opened t b d0 h d → ∀ h', at_end d t h' →
  opened t b d0 h' (set_activeFiles (<[t := h']> (activeFiles d)) d).
Proof.
  intros ((Hwf & Hdd & Hother & Hact) & _ & _ & Hf) h' Hh'.
  split_and!; [|done|by simpl; rewrite lookup_insert_eq|done].
  split_and!; [|done|done|].
  - apply disk_wf_set_active; [done|]. destruct Hh' as (_ & Hd & _).
    destruct Hwf as (_ & H2 & _). by eapply H2.
  - intros t' Hne. simpl. rewrite lookup_insert_ne by done. auto.
Qed.

(** A part of the line reached the log. *)
Definition torn (t : string) (b l : bytes) (d0 d : DiskStorage) : Prop :=
  ∃ k, holds t (b ++ take k (l ++ [x0a])) d0 d.

Lemma torn_active t b l d0 d h :
  torn t b l d0 d → h_ino h < next_ino d →
  torn t b l d0 (set_activeFiles (<[t := h]> (activeFiles d)) d).
Proof.
  intros (k & (Hwf & Hdd & Hother & Hact) & Hf) Hh. exists k. split; [|done].
  split_and!; [by apply disk_wf_set_active|done|done|].
  intros t' Hne. simpl. rewrite lookup_insert_ne by done. auto.
Qed.

Lemma wpx_writeRecord t r l d :
  disk_open d t → line_of r l →
  let b := default [] (file d (log_path d t)) in
  wpx (writeRecord faults t r)
    (λ err d', torn t b l d d' ∧ (err = None → ∃ h, opened t (b ++ l ++ [x0a]) d h d'))
    (torn t b l d) d.
Proof.
  intros Hr Hl b. unfold writeRecord.
  assert (isSafePath t = None) as -> by by destruct Hr as (_ & ? & _).
  fold (stamp r).
  assert (∀ d', holds t b d d' → torn t b l d d') as Hht.
  { intros d' ?. exists 0. by rewrite take_0, app_nil_r. }
  apply wpx_bind. eapply wpx_mono; [by apply wpx_getOrOpenFile| |auto].
  intros [h|] d1 [Hh Ho]; [|apply wpx_ret; split; [by apply Hht|done]].
  specialize (Ho h eq_refl). unfold line_of in Hl. rewrite Hl.
  assert (h_open h = true ∧ h_ino h < next_ino d1) as [Hop Hino].
  { destruct Ho as (((_ & H2 & _) & _) & (Hop & Hd & _) & _). split; [done|]. by eapply H2. }
  assert (opened t b d h (tick d1)) as Ho' by done.
  assert (∀ data, only_log t d (do_write h data (tick d1)) ∧
    file (do_write h data (tick d1)) (log_path (tick d1) t) = Some (b ++ data)) as Hw.
  { intros data. by apply do_write_log. }
  assert (∀ k, torn t b l d (do_write h (take k (l ++ [x0a])) (tick d1))) as Htorn.
  { intros k. exists k. destruct (Hw (take k (l ++ [x0a]))) as [? Hf]. split; [done|].
    change (log_path (do_write h (take k (l ++ [x0a])) (tick d1)) t) with (log_path (tick d1) t).
    by rewrite Hf. }
  apply wpx_bind. unfold sys_write. rewrite Hop.
  apply wpx_syscall; [|intros n|intros n; apply Htorn].
  - (* the write succeeded *)
    cbv beta iota. cbn [fst snd]. set (data := l ++ [x0a]).
    assert (opened t (b ++ data) d (advance h (length data))
      (set_activeFiles (<[t:=advance h (length data)]> (activeFiles d1))
         (do_write h data (tick d1)))) as Hod.
    { destruct (Hw data) as [Hol Hf]. destruct Ho' as (_ & (_ & Hd & Hoff) & _ & Hfd).
      assert (at_end (do_write h data (tick d1)) t (advance h (length data))) as Hae.
      { split_and!; [done|exact Hd|]. unfold advance. simpl.
        change (log_path (do_write h data (tick d1)) t) with (log_path (tick d1) t).
        rewrite Hf. simpl. rewrite Hfd in Hoff.
        destruct Hoff as [->| ->]; [by left|right]. simpl. by rewrite length_app. }
      destruct Hol as (Hwf & Hdd & Hother & Hact). split_and!.
      - split_and!; [|done|done|].
        + apply (disk_wf_set_active (do_write h data (tick d1))); done.
        + intros t' Hne. simpl. rewrite lookup_insert_ne by done. by apply Hact.
      - done.
      - simpl. by rewrite lookup_insert_eq.
      - done. }
    assert (∀ d', opened t (b ++ data) d (advance h (length data)) d' → torn t b l d d') as Hot.
    { intros d' Hd'. exists (length data). rewrite firstn_all. by eapply opened_holds. }
    apply wpx_bind, wpx_modify, wpx_bind, wpx_get.
    change (activeFiles (do_write h data (tick d1))) with (activeFiles d1).
    case_match; simpl.
    + apply wpx_bind, wpx_syscall_atomic; simpl; [|split; [by apply Hot|done]|by apply Hot..].
      split; [by apply Hot|eauto].
    + split; [by apply Hot|eauto].
  - (* the write failed *)
    cbv beta iota zeta. cbn [fst snd].
    set (k := min n (length (l ++ [x0a]) - 1)).
    apply wpx_bind, wpx_modify, wpx_bind, wpx_get. rewrite andb_false_r. apply wpx_ret.
    split; [|done]. apply torn_active; [apply Htorn|done].
Qed.

(** What a torn write leaves: the old records, or the new one as well. *)
Lemma records_torn b l r k :
  clean b → printable r → line_of r l → short l →
  records (b ++ take k (l ++ [x0a])) = records b ∨
  records (b ++ take k (l ++ [x0a])) = records b ++ [stamp r].
Proof.
  intros Hb Hp Hl Hs. destruct (marshal_no_break _ _ Hl) as [Hnl Hcr].
  assert (l ≠ []) as Hne by by eapply marshal_nonempty.
  pose proof (decode_stamped _ _ Hp Hl) as Hdec.
  destruct (decide (length l < k)) as [Hk|Hk].
  { right. rewrite take_ge by (rewrite length_app; simpl; lia).
    by rewrite records_line, Hdec. }
  rewrite take_app_le by lia. destruct Hb as (ls & -> & Hls).
  assert (∀ x, x ∉ l → x ∉ take k l) as Hsub.
  { intros x Hx Hin. apply Hx. by eapply subseteq_take. }
  rewrite records_rest; [|done|by apply Hsub|].
  - case_decide as Hz; [left; by rewrite app_nil_r|].
    rewrite dropCR_none by by apply Hsub.
    destruct (decide (k = length l)) as [->|Hkl].
    + right. by rewrite firstn_all, Hdec.
    + left. unfold decode_line. rewrite (unmarshal_prefix (stamp r) l); [by rewrite app_nil_r|done| |].
      * by apply prefix_take.
      * intros Heq. apply (f_equal length) in Heq. rewrite length_take in Heq. lia.
  - unfold short in *. rewrite length_take. lia.
Qed.

End append.

(** ** The disk implements the broker's storage contract *)

Section contract.
Context `{C : LogCodec}.
Context {CL : LogCodecLaws C}.
Variable faults : nat → fault.

Definition put_record (m : Message) (now : Z) : LogRecord :=
  MkLogRecord RecordPut (Some m) "" now 0.
Definition ack_record (id : string) (now : Z) : LogRecord :=
  MkLogRecord RecordAck None id now 0.

(** The record is valid UTF-8 and its line is below the scanner's limit. *)
Definition fits (r : LogRecord) : Prop := printable r ∧ ∀ l, line_of r l → short l.

(** The two topics have different files, the legacy one included. *)
Definition disk_apart (t t' : string) : Prop :=
  topicToFilename t ≠ topicToFilename t' ∧
  topicToFilename t +:+ ".log" ≠ strings.ReplaceAll t' "/" "@" +:+ ".log".

Lemma str_app_inj_r a b c : a +:+ c = b +:+ c → a = b.
Proof.
  intros H. rewrite <-(str_take_app a c), H.
  replace (String.length a) with (String.length b); [apply str_take_app|].
  apply (f_equal String.length) in H. rewrite !str_length_app in H. lia.
Qed.

Lemma apart_paths d t t' :
  disk_apart t t' →
  log_path d t' ≠ log_path d t ∧ legacyFilePath (dataDir d) t' ≠ log_path d t ∧ t' ≠ t.
Proof.
  intros [H1 H2]. unfold log_path, logFilePath, legacyFilePath, Join. split_and!.
  - intros H. apply str_app_inj, str_app_inj, str_app_inj_r in H. congruence.
  - intros H. apply str_app_inj, str_app_inj in H. congruence.
  - congruence.
Qed.

Lemma only_log_apart t t' d d' :
  only_log t d d' → disk_apart t t' → disk_ready d t' →
  disk_log d' t' = disk_log d t' ∧ disk_ready d' t'.
Proof.
  intros (Hwf & Hdd & Hother & Hact) Hap (_ & Hsafe & Hcl & Hh & Hleg).
  destruct (apart_paths d t t' Hap) as (Hp & Hl & Ht).
  assert (log_path d' t' = log_path d t') as Hpe by (unfold log_path; by rewrite Hdd).
  destruct (Hother _ Hp) as [Hdp Hfp]. destruct (Hother _ Hl) as [Hdl _].
  split; [unfold disk_log; by rewrite Hpe, Hfp|].
  split_and!; [done|done|by rewrite Hpe, Hfp| |].
  - intros h. rewrite Hact by done. intros Hah. destruct (Hh h Hah) as (? & ? & ?).
    split_and!; [done|by rewrite Hpe, Hdp|by rewrite Hpe, Hfp].
  - by rewrite Hpe, Hdp, Hdd, Hdl.
Qed.

(** A successful call had a line to write. *)
Lemma writeRecord_line t r d d' :
  disk_ready d t → writeRecord faults t r d = (Ret None, d') → ∃ l, line_of r l.
Proof.
  intros Hr Hrun. unfold line_of. destruct (json_Marshal (stamp r)) as [l|] eqn:E; [eauto|].
  exfalso. enough (wpx (writeRecord faults t r) (λ err _, err ≠ None) (λ _, True) d) as H.
  { unfold wpx in H. by rewrite Hrun in H. }
  unfold writeRecord. assert (isSafePath t = None) as -> by by destruct Hr as (_ & ? & _).
  fold (stamp r). apply wpx_bind. eapply wpx_mono; [by apply wpx_getOrOpenFile, disk_ready_open| |done].
  intros [h|] d1 _; [|by apply wpx_ret]. rewrite E. by apply wpx_ret.
Qed.

(** A successful append, at the level of the abstract log. *)
Lemma writeRecord_ok t r e d d' :
  disk_ready d t → fits r → to_event r = Some e →
  writeRecord faults t r d = (Ret None, d') →
  disk_log d' t = disk_log d t ++ [e] ∧ disk_ready d' t ∧
  ∀ t', disk_apart t t' → disk_ready d t' → disk_log d' t' = disk_log d t' ∧ disk_ready d' t'.
Proof.
  intros Hr [Hp Hfit] He Hrun.
  destruct (writeRecord_line _ _ _ _ Hr Hrun) as [l Hl]. specialize (Hfit l Hl).
  pose proof (wpx_writeRecord faults t r l d (disk_ready_open _ _ Hr) Hl) as H. unfold wpx in H. rewrite Hrun in H.
  destruct H as [_ Ho]. destruct (Ho eq_refl) as [h Hop].
  destruct (marshal_no_break _ _ Hl) as [Hnl Hcr].
  assert (l ≠ []) as Hne by by eapply marshal_nonempty.
  destruct Hr as (Hwf & Hsafe & Hcl & Hh & Hleg).
  destruct Hop as (Hol & Hae & Hact & Hf).
  assert (log_path d' t = log_path d t) as Hpe
    by (unfold log_path; by destruct Hol as (_ & -> & _)).
  split_and!.
  - unfold disk_log. rewrite Hf. simpl. rewrite records_line by done.
    unfold events. rewrite omap_app. f_equal. rewrite (decode_stamped r) by done.
    simpl. unfold to_event in *. simpl. by rewrite He.
  - split_and!; [by destruct Hol|done| | |].
    + rewrite Hf. simpl. by apply clean_line.
    + intros h'. rewrite Hact. by intros [= <-].
    + left. destruct Hae as (_ & -> & _). eauto.
  - intros t' Hap Hr'. by apply (only_log_apart t t' d d').
Qed.

Lemma Scan_clean b : clean b → (Scan b).2 = false.
Proof.
  intros (ls & -> & Hls). rewrite <-(app_nil_r (unlines ls)).
  by rewrite Scan_rest; [|done|set_solver|done].
Qed.

Lemma LoadMessages_live d t :
  disk_ready d t → NoDup (put_ids (disk_log d t)) →
  wlp (disk_LoadMessages faults t) (λ '(ms, err) d',
    err = None → ms = live (disk_log d t) ∧ disk_log d' t = disk_log d t ∧ disk_ready d' t) d.
Proof.
  intros Hr Hnd. unfold disk_LoadMessages.
  pose proof Hr as (Hwf & -> & Hcl & Hh & Hleg).
  assert (load_records (records (default [] (file d (log_path d t)))) = live (disk_log d t))
    as Hload by by apply load_records_live.
  unfold wlp, mbind, M_bind, get, sys_exists, gets.
  fold (log_path d t). cbv beta iota zeta.
  destruct (dir d !! log_path d t) as [i|] eqn:Ed.
  - rewrite (bool_decide_true (is_Some (Some i))) by eauto. simpl.
    unfold sys_read, syscall. destruct (faults (ticks d)) as [|n|n]; [| |done].
    + rewrite file_tick. destruct (file d (log_path d t)) as [b|] eqn:Ef; simpl; [|done].
      pose proof (Scan_clean b Hcl) as Hs. unfold records in Hload. simpl in Hload.
      destruct (Scan b) as [tokens tooLong]. simpl in *. subst tooLong. simpl.
      intros _. split_and!; [done|done|exact Hr].
    + destruct n; simpl; [done|]. rewrite file_tick.
      destruct (file d (log_path d t)) as [b|]; simpl; [|done].
      by destruct (Scan (take n b)) as [tokens []].
  - destruct Hleg as [[? ?]|Hleg]; [done|]. rewrite Hleg. simpl. intros _.
    split_and!; [|done|exact Hr]. rewrite <-Hload. unfold file. by rewrite Ed.
Qed.

#[global] Instance disk_laws : StorageLaws DiskStorage (H:=disk_storage faults).
Proof.
  refine {| log := disk_log; ready := disk_ready; apart := disk_apart;
    storable t m now := fits (put_record m now); ackable t id now := fits (ack_record id now) |}.
  - intros s s' t m now Hr Hf Hrun. by eapply (writeRecord_ok t (put_record m now)).
  - intros s s' t id now Hr Hf Hrun. by eapply (writeRecord_ok t (ack_record id now)).
  - apply LoadMessages_live.
Defined.

End contract.

(** ** No operation panics or blocks *)

Section safety.
Context `{C : LogCodec}.
Variable faults : nat → fault.

Lemma syscall_safe {A} (ok : DiskStorage → A * DiskStorage) err cut :
  safe (syscall faults ok err cut).
Proof.
  intros d. unfold wpx, syscall.
  destruct (faults (ticks d)) as [|n|n]; [|destruct (err n (tick d))|done]; try done.
  by destruct (ok (tick d)).
Qed.

Lemma write_safe h data : safe (sys_write faults h data).
Proof. unfold sys_write. case_match; [apply syscall_safe|done]. Qed.

#[local] Hint Resolve syscall_safe write_safe : tmq.

#[local] Hint Extern 0 (safe (sys_open_append _ _)) => apply syscall_safe : tmq.
#[local] Hint Extern 0 (safe (sys_open_trunc _ _)) => apply syscall_safe : tmq.
#[local] Hint Extern 0 (safe (sys_remove _ _)) => apply syscall_safe : tmq.
#[local] Hint Extern 0 (safe (sys_read _ _)) => apply syscall_safe : tmq.
#[local] Hint Extern 0 (safe (sys_sync _)) => apply syscall_safe : tmq.
#[local] Hint Extern 0 (safe (sys_exists _)) => apply safe_gets : tmq.

Ltac go_safe :=
  repeat (cbv zeta; first [progress auto with tmq | apply safe_bind; [|intros ?] | case_match]).

Lemma writeRecord_safe t r : safe (writeRecord faults t r).
Proof. unfold writeRecord, getOrOpenFile. go_safe. Qed.

Lemma write_records_safe tmp rs : ∀ h, safe (write_records faults tmp h rs).
Proof. induction rs as [|r rs IH]; intros h; cbn [write_records]; go_safe. Qed.

#[local] Hint Resolve write_records_safe : tmq.
#[local] Hint Extern 0 (safe (sys_rename _ _ _)) => apply syscall_safe : tmq.

Lemma disk_CompactLog_safe topic : safe (disk_CompactLog faults topic).
Proof. unfold disk_CompactLog. go_safe. Qed.

#[global] Instance disk_safe : StorageSafe DiskStorage (H:=disk_storage faults).
Proof.
  split; simpl; intros.
  - apply writeRecord_safe.
  - apply writeRecord_safe.
  - unfold disk_LoadMessages. go_safe.
  - unfold disk_ClearLog. go_safe.
  - unfold disk_DeleteLog. go_safe.
Qed.

End safety.
