(* ===== verification/DiskFrame.v ===== *)
(** * Which files a disk operation touches

    [changes_only P d d'] says that [d'] differs from [d] at most in the files whose paths
    satisfy [P]; the rules for the system calls, and what compaction touches.  A disk on
    which no call fails answers every call. *)

From S2P Require Import Prelude.
From S2P Require Import GoLib.
From S2P Require Import Message.
From S2P Require Import Wal.
From S2P Require Import Storage.
From S2P Require Import StorageFacts.

Definition changes_only (P : string → Prop) (d d' : DiskStorage) : Prop :=
  disk_wf d' ∧ dataDir d' = dataDir d ∧
  ∀ p, ¬ P p → file d' p = file d p ∧ dir d' !! p = dir d !! p.

Section frame.
Context (P : string → Prop).

Lemma changes_refl d : disk_wf d → changes_only P d d.
Proof. by split. Qed.

Lemma changes_trans d1 d2 d3 : changes_only P d1 d2 → changes_only P d2 d3 → changes_only P d1 d3.
Proof.
  intros (_ & D12 & H12) (Hwf & D23 & H23). split_and!; [done|congruence|]. intros p Hp.
  destruct (H12 p Hp) as [E1 E2], (H23 p Hp) as [E3 E4]. split; congruence.
Qed.

Lemma changes_tick d : disk_wf d → changes_only P d (tick d).
Proof. intros. split_and!; [by apply disk_wf_tick|done..]. Qed.

Lemma changes_write d p i b :
  disk_wf d → P p → dir d !! p = Some i → changes_only P d (set_inodes (<[i := b]> (inodes d)) d).
Proof.
  intros Hwf Hp Hi. split_and!; [auto with tmq|done|]. intros q Hq. split; [|done].
  apply file_set_inode_other. intros Hqi. destruct Hwf as (Hinj & _).
  by rewrite (Hinj _ _ _ Hqi Hi) in Hq.
Qed.

Lemma changes_create d p : disk_wf d → P p → changes_only P d (create p d).
Proof.
  intros Hwf Hp. split_and!; [auto with tmq|done|]. intros q Hq.
  assert (q ≠ p) by (by intros ->). split; [by apply file_create_other|]. cbn. by rewrite lookup_insert_ne.
Qed.

Lemma changes_remove d p : disk_wf d → P p → changes_only P d (set_dir (delete p (dir d)) d).
Proof.
  intros Hwf Hp. split_and!; [auto with tmq|done|]. intros q Hq.
  assert (q ≠ p) by (by intros ->). split; [by apply file_remove_other|]. cbn. by rewrite lookup_delete_ne.
Qed.

Lemma changes_rename d p q : disk_wf d → P p → P q → changes_only P d (do_rename p q d).
Proof.
  intros Hwf Hp Hq. split_and!; [auto with tmq|by unfold do_rename; case_match|]. intros r Hr.
  assert (r ≠ p ∧ r ≠ q) as [Hrp Hrq] by (by split; intros ->).
  assert (dir (do_rename p q d) !! r = dir d !! r) as Hdir.
  { unfold do_rename. case_match; [|done]. cbn. by rewrite lookup_insert_ne, lookup_delete_ne. }
  split; [|done]. unfold file. rewrite Hdir. unfold do_rename. by case_match.
Qed.

Context (faults : nat → fault).

(** A call without partial effects. *)
Lemma wpx_atomic_only {A} (ok : DiskStorage → A * DiskStorage) (e : A) d :
  disk_wf d → changes_only P (tick d) (ok (tick d)).2 →
  wpx (syscall_atomic faults ok e) (λ _ d', changes_only P d d') (changes_only P d) d.
Proof.
  intros Hwf Hok. pose proof (changes_tick d Hwf) as Ht.
  apply wpx_syscall_atomic; [|done|done|]; (eapply changes_trans; [exact Ht|]).
  - by destruct (ok (tick d)).
  - done.
Qed.

Lemma wpx_open_only p d : disk_wf d → P p →
  wpx (sys_open_trunc faults p)
    (λ oh d', changes_only P d d' ∧ ∀ h, oh = Some h → dir d' !! p = Some (h_ino h)) (changes_only P d) d.
Proof.
  intros Hwf Hp. unfold sys_open_trunc. pose proof (changes_tick d Hwf) as Htick.
  assert (disk_wf (tick d)) as Hwf' by (by apply disk_wf_tick).
  change (dir d) with (dir (tick d)) in *.
  apply wpx_syscall_atomic; cbn [fst snd].
  all: destruct (dir (tick d) !! p) as [i|] eqn:E; cbn [fst snd].
  all: try done.
  - split; [eapply changes_trans; [done|]; by apply changes_write with p|]. by intros h [= <-].
  - split; [eapply changes_trans; [done|]; by apply changes_create|].
    intros h [= <-]. cbn. by rewrite lookup_insert_eq.
  - eapply changes_trans; [done|]. by apply changes_write with p.
  - eapply changes_trans; [done|]. by apply changes_create.
Qed.

Lemma wpx_write_only p h data d : disk_wf d → P p → dir d !! p = Some (h_ino h) →
  wpx (sys_write faults h data)
    (λ res d', changes_only P d d' ∧ dir d' !! p = Some (h_ino res.2)) (changes_only P d) d.
Proof.
  intros Hwf Hp Hh.
  assert (∀ data, changes_only P d (do_write h data (tick d))) as Hw.
  { intros data'. eapply changes_trans; [by apply changes_tick|]. by apply changes_write with p. }
  unfold sys_write. destruct (h_open h); [|by apply wpx_ret; split; [apply changes_refl|]].
  apply wpx_syscall; [|intros|intros; apply Hw]; (split; [apply Hw|exact Hh]).
Qed.

Lemma wpx_remove_only p d : disk_wf d → P p →
  wpx (sys_remove faults p) (λ _ d', changes_only P d d') (changes_only P d) d.
Proof.
  intros Hwf Hp. apply wpx_atomic_only; [done|]. cbn. case_match; cbn; [|by apply changes_refl, disk_wf_tick].
  by apply (changes_remove (tick d)).
Qed.

End frame.

Lemma wpx_changes_after {A} P (c : M DiskStorage A) (Q : A → DiskStorage → Prop) d d1 :
  changes_only P d d1 →
  wpx c (λ a d', changes_only P d1 d' ∧ Q a d') (changes_only P d1) d1 →
  wpx c (λ a d', changes_only P d d' ∧ Q a d') (changes_only P d) d1.
Proof.
  intros H1 Hc. eapply wpx_mono; [exact Hc| |].
  - intros a d' [H2 HQ]. split; [by eapply changes_trans|done].
  - intros d' H2. by eapply changes_trans.
Qed.

(** ** Compaction touches its log and the temporary file *)

Section compaction_frame.
Context `{C : LogCodec}.
Context (faults : nat → fault).

(** The log [fn] and its temporary file. *)
Definition log_or_tmp (fn p : string) : Prop := p = fn ∨ p = fn +:+ ".tmp".

Lemma wpx_write_records_only fn rs : ∀ h d,
  disk_wf d → dir d !! (fn +:+ ".tmp") = Some (h_ino h) →
  wpx (write_records faults (fn +:+ ".tmp") h rs)
    (λ _ d', changes_only (log_or_tmp fn) d d') (changes_only (log_or_tmp fn) d) d.
Proof.
  induction rs as [|r rs IH]; intros h d Hwf Hh; cbn [write_records]; [by apply wpx_ret, changes_refl|].
  cbv zeta. assert (log_or_tmp fn (fn +:+ ".tmp")) as Hp by (by right).
  destruct (json_Marshal _) as [b|].
  - apply wpx_bind. eapply wpx_mono; [by apply (wpx_write_only (log_or_tmp fn) faults (fn +:+ ".tmp"))| |done].
    intros [ok h'] d1 [H1 Hh1]. assert (disk_wf d1) as Hwf1 by (by destruct H1).
    destruct ok.
    + eapply wpx_mono; [by apply IH| |]; intros; by (eapply changes_trans; [exact H1|]).
    + apply wpx_bind. eapply wpx_mono; [by apply (wpx_remove_only (log_or_tmp fn))| |]; intros.
      * apply wpx_ret. by (eapply changes_trans; [exact H1|]).
      * by (eapply changes_trans; [exact H1|]).
  - apply wpx_bind. eapply wpx_mono; [by apply (wpx_remove_only (log_or_tmp fn))| |done]. intros. by apply wpx_ret.
Qed.

Lemma wpx_sync_only P d : disk_wf d → wpx (sys_sync faults) (λ _ d', changes_only P d d') (changes_only P d) d.
Proof. intros Hwf. apply wpx_atomic_only; [done|]. by apply changes_refl, disk_wf_tick. Qed.

Lemma wpx_read_only P path d : disk_wf d →
  wpx (sys_read faults path) (λ _ d', changes_only P d d') (changes_only P d) d.
Proof.
  intros Hwf. pose proof (changes_tick P d Hwf). apply wpx_syscall; [done|by intros [|n]|done].
Qed.

(** The steps after the temporary file is complete. *)
Lemma wpx_replace_only fn d : disk_wf d →
  wpx (synced ← sys_sync faults;
       if negb synced then sys_remove faults (fn +:+ ".tmp") ;; mret (Some "failed to sync compacted log")
       else
         renamed ← sys_rename faults (fn +:+ ".tmp") fn;
         if negb renamed then mret (Some "failed to replace old log with compacted version")
         else sys_sync faults ;; mret None)
    (λ _ d', changes_only (log_or_tmp fn) d d') (changes_only (log_or_tmp fn) d) d.
Proof.
  intros Hwf. assert (log_or_tmp fn (fn +:+ ".tmp") ∧ log_or_tmp fn fn) as [Hp Hq] by (by split; [right|left]).
  apply wpx_bind. eapply wpx_mono; [by apply (wpx_sync_only (log_or_tmp fn))| |done].
  intros synced d1 H1. assert (disk_wf d1) as Hwf1 by (by destruct H1).
  assert (∀ d2, changes_only (log_or_tmp fn) d1 d2 → changes_only (log_or_tmp fn) d d2) as Hgo
    by (intros d2 H2; exact (changes_trans _ _ _ _ H1 H2)).
  destruct synced; cbn [negb]; apply wpx_bind.
  - eapply wpx_mono; [apply (wpx_atomic_only (log_or_tmp fn)); [done|by apply (changes_rename _ (tick d1))]| |auto].
    intros renamed d2 H2. destruct renamed; cbn [negb]; [|by apply wpx_ret, Hgo].
    assert (disk_wf d2) as Hwf2 by (by destruct H2). apply wpx_bind.
    eapply wpx_mono; [by apply (wpx_sync_only (log_or_tmp fn))| |]; intros; [apply wpx_ret|]; apply Hgo; by (eapply changes_trans; [exact H2|]).
  - eapply wpx_mono; [by apply (wpx_remove_only (log_or_tmp fn))| |auto]. intros. by apply wpx_ret, Hgo.
Qed.

(** However its system calls turn out, compacting a log changes no other file. *)
Lemma CompactLog_only topic d : disk_wf d →
  let fn := logFilePath (dataDir d) topic in
  wpx (disk_CompactLog faults topic) (λ _ d', changes_only (log_or_tmp fn) d d') (changes_only (log_or_tmp fn) d) d.
Proof.
  intros Hwf fn. unfold disk_CompactLog. destruct (isSafePath topic); [by apply wpx_ret, changes_refl|].
  set (d0 := set_activeFiles (delete topic (activeFiles d)) d).
  assert (changes_only (log_or_tmp fn) d d0) as H0 by (split_and!; [by apply disk_wf_delete_active|done..]).
  assert (∀ d2, changes_only (log_or_tmp fn) d0 d2 → changes_only (log_or_tmp fn) d d2) as Hgo
    by (intros d2 H2; exact (changes_trans _ _ _ _ H0 H2)).
  assert (disk_wf d0) as Hwf0 by (by destruct H0).
  apply wpx_bind, wpx_modify, wpx_bind, wpx_get, wpx_bind, wpx_gets. cbv zeta.
  change (set_activeFiles (delete topic (activeFiles d)) d) with d0. change (logFilePath (dataDir d0) topic) with fn.
  destruct (negb _); [by apply wpx_ret, Hgo, changes_refl|].
  apply wpx_bind. eapply wpx_mono; [by apply (wpx_read_only (log_or_tmp fn))| |auto].
  intros [[b re]|] d1 H1; [|by apply wpx_ret, Hgo]. assert (disk_wf d1) as Hwf1 by (by destruct H1).
  destruct (Scan b) as [tokens tooLong]. destruct (tooLong || re); [by apply wpx_ret, Hgo|]. cbv zeta.
  apply wpx_bind. eapply wpx_mono; [apply (wpx_open_only (log_or_tmp fn)); [done|by right]| |].
  2: { intros d2 H2. apply Hgo. by (eapply changes_trans; [exact H1|]). }
  intros [h|] d2 [H2 Hh]; [|apply wpx_ret, Hgo; by (eapply changes_trans; [exact H1|])].
  assert (disk_wf d2) as Hwf2 by (by destruct H2).
  assert (∀ d3, changes_only (log_or_tmp fn) d2 d3 → changes_only (log_or_tmp fn) d d3) as Hgo2.
  { intros. apply Hgo. eapply changes_trans; [exact H1|]. by (eapply changes_trans; [exact H2|]). }
  apply wpx_bind. eapply wpx_mono; [apply wpx_write_records_only; [done|by apply Hh]| |auto].
  intros [e|] d3 H3; [by apply wpx_ret, Hgo2|]. assert (disk_wf d3) as Hwf3 by (by destruct H3).
  eapply wpx_mono; [by apply wpx_replace_only| |]; intros; apply Hgo2; by (eapply changes_trans; [exact H3|]).
Qed.

End compaction_frame.

(** ** A disk that does not fail *)

Definition completes {S A} (c : M S A) : Prop := ∀ s, ∃ a s', c s = (Ret a, s').

Lemma completes_ret {S A} (a : A) : completes (mret a : M S A).
Proof. intros s. by eexists _, _. Qed.
Lemma completes_get {S} : completes (get : M S S).
Proof. intros s. by eexists _, _. Qed.
Lemma completes_gets {S A} (f : S → A) : completes (gets f).
Proof. intros s. by eexists _, _. Qed.
Lemma completes_modify {S} (f : S → S) : completes (modify f).
Proof. intros s. by eexists _, _. Qed.
Lemma completes_bind {S A B} (c : M S A) (k : A → M S B) : completes c → (∀ a, completes (k a)) → completes (c ≫= k).
Proof. intros Hc Hk s. destruct (Hc s) as (a & s1 & Ha). rewrite (run_bind _ _ _ _ _ Ha). apply Hk. Qed.
Lemma completes_forM {S A} (f : A → M S unit) l : (∀ x, completes (f x)) → completes (forM_ f l).
Proof. intros Hf. induction l as [|x l IH]; [apply completes_ret|]. apply completes_bind; auto. Qed.
Lemma wpx_completes {S A} (c : M S A) (Q : A → S → Prop) E s :
  completes c → wpx c Q E s → ∃ a s', c s = (Ret a, s') ∧ Q a s'.
Proof. intros Hc Hw. destruct (Hc s) as (a & s' & Hr). exists a, s'. split; [done|]. unfold wpx in Hw. by rewrite Hr in Hw. Qed.

#[export] Hint Resolve completes_ret completes_get completes_gets completes_modify completes_bind completes_forM : tmq.

Section no_faults.
Context `{C : LogCodec}.
Context (faults : nat → fault) (Hok : ∀ n, faults n = FNone).

Lemma completes_syscall {A} (ok : DiskStorage → A * DiskStorage) err cut : completes (syscall faults ok err cut).
Proof. intros d. unfold syscall. rewrite Hok. destruct (ok (tick d)). by eexists _, _. Qed.
Lemma completes_write h data : completes (sys_write faults h data).
Proof. unfold sys_write. destruct (h_open h); [apply completes_syscall|apply completes_ret]. Qed.
Lemma completes_write_records tmp rs : ∀ h, completes (write_records faults tmp h rs).
Proof.
  induction rs as [|r rs IH]; intros h; cbn [write_records]; [apply completes_ret|]. cbv zeta.
  case_match; (apply completes_bind; [apply completes_write || apply completes_syscall|]); [intros [[] h']|]; [apply IH| |];
    [apply completes_bind; [apply completes_syscall|]|]; intros; apply completes_ret.
Qed.

Lemma completes_CompactLog topic : completes (disk_CompactLog faults topic).
Proof.
  unfold disk_CompactLog. case_match; [apply completes_ret|].
  apply completes_bind; [apply completes_modify|]. intros []. apply completes_bind; [apply completes_get|]. intros d.
  apply completes_bind; [apply completes_gets|]. intros []; cbn [negb]; [|apply completes_ret].
  apply completes_bind; [apply completes_syscall|]. intros [[b re]|]; [|apply completes_ret].
  destruct (Scan b) as [tokens tooLong]. destruct (tooLong || re); [apply completes_ret|].
  apply completes_bind; [apply completes_syscall|]. intros [h|]; [|apply completes_ret].
  apply completes_bind; [apply completes_write_records|]. intros [e|]; [apply completes_ret|].
  apply completes_bind; [apply completes_syscall|]. intros []; cbn [negb].
  - apply completes_bind; [apply completes_syscall|]. intros []; cbn [negb]; [|apply completes_ret].
    apply completes_bind; [apply completes_syscall|]. intros. apply completes_ret.
  - apply completes_bind; [apply completes_syscall|]. intros. apply completes_ret.
Qed.

End no_faults.
