(* ===== verification/Codec.v ===== *)
(** * A codec for log records

    [Storage.v] takes the encoding of records as a parameter, since
    [encoding/json] is a library.  This file shows that the laws it asks for can
    be met: a record is flattened to a tree, the tree to a bit string written
    with the characters [0] and [1], closed by a brace as a JSON object is. *)

From stdpp Require Import countable.
From Stdlib Require Import Strings.Byte.
From S2P Require Import Prelude.
From S2P Require Import GoLib.
From S2P Require Import Message.
From S2P Require Import Storage.

Abbreviation tree := (gen_tree (string + Z)).

Definition leaf_s (s : string) : tree := GenLeaf (inl s).
Definition leaf_z (z : Z) : tree := GenLeaf (inr z).
Definition opt_z (o : option Z) : tree :=
  GenNode 0 (match o with Some z => [leaf_z z] | None => [] end).
Definition get_opt (t : tree) : option (option Z) :=
  match t with
  | GenNode 0 [] => Some None
  | GenNode 0 [GenLeaf (inr z)] => Some (Some z)
  | _ => None
  end.

Definition bytes_tree (b : bytes) : tree := leaf_s (string_of_bytes b).

Definition header_tree (kv : string * string) : tree :=
  GenNode 0 [leaf_s kv.1; leaf_s kv.2].
Definition get_header (t : tree) : option (string * string) :=
  match t with
  | GenNode 0 [GenLeaf (inl k); GenLeaf (inl v)] => Some (k, v)
  | _ => None
  end.

Definition message_tree (m : Message) : tree :=
  GenNode 1 [leaf_s (ID m); leaf_s (Topic m); bytes_tree (Payload m); leaf_z (Timestamp m);
    opt_z (ExpiresAt m); opt_z (DeliverAt m); leaf_z (RetryCount m);
    GenNode 0 (header_tree <$> map_to_list (Headers m))].
Definition get_message (t : tree) : option Message :=
  match t with
  | GenNode 1 [GenLeaf (inl id); GenLeaf (inl topic); GenLeaf (inl payload);
      GenLeaf (inr ts); e; d; GenLeaf (inr retry); GenNode 0 hs] =>
      e ← get_opt e; d ← get_opt d; hs ← mapM get_header hs;
      Some (MkMessage id topic (bytes_of_string payload) ts e d retry (list_to_map hs))
  | _ => None
  end.

Definition record_tree (r : LogRecord) : tree :=
  GenNode 2 [leaf_s (rec_Type r);
    GenNode 0 (match rec_Message r with Some m => [message_tree m] | None => [] end);
    leaf_s (rec_MessageID r); leaf_z (rec_Timestamp r); leaf_z (rec_Checksum r)].
Definition get_record (t : tree) : option LogRecord :=
  match t with
  | GenNode 2 [GenLeaf (inl ty); GenNode 0 ms; GenLeaf (inl id); GenLeaf (inr ts);
      GenLeaf (inr c)] =>
      m ← (match ms with
           | [] => Some None
           | [m] => Some <$> get_message m
           | _ => None
           end);
      Some (MkLogRecord ty m id ts c)
  | _ => None
  end.

Lemma get_message_tree m : get_message (message_tree m) = Some m.
Proof.
  destruct m as [id topic payload ts e d retry hs]. unfold message_tree, get_message.
  destruct e, d; simpl; rewrite (mapM_fmap_Some get_header header_tree) by (by intros []);
    simpl; by rewrite list_to_map_to_list, bytes_of_string_of_bytes.
Qed.

Lemma get_record_tree r : get_record (record_tree r) = Some r.
Proof.
  destruct r as [ty [m|] id ts c]; [|done]. unfold record_tree, get_record.
  cbn -[get_message message_tree]. by rewrite get_message_tree.
Qed.

(** ** Bits as text *)

Fixpoint bits (p : positive) : bytes :=
  match p with
  | xH => []
  | xO p' => x30 :: bits p'
  | xI p' => x31 :: bits p'
  end.
(** The bits up to the closing brace, which must be the last byte. *)
Fixpoint unbits (b : bytes) : option positive :=
  match b with
  | [x7d] => Some xH
  | x30 :: b' => xO <$> unbits b'
  | x31 :: b' => xI <$> unbits b'
  | _ => None
  end.

Lemma unbits_bits p : unbits (bits p ++ [x7d]) = Some p.
Proof. induction p as [p IH|p IH|]; simpl; [by rewrite IH..|done]. Qed.

Lemma unbits_prefix p b : prefix b (bits p ++ [x7d]) → b ≠ bits p ++ [x7d] → unbits b = None.
Proof.
  revert b. induction p as [p IH|p IH|]; intros [|c b] Hp Hne; try done; simpl in *.
  - apply prefix_cons_inv_1 in Hp as Hc. apply prefix_cons_inv_2 in Hp. subst c.
    rewrite IH; [done..|]. congruence.
  - apply prefix_cons_inv_1 in Hp as Hc. apply prefix_cons_inv_2 in Hp. subst c.
    rewrite IH; [done..|]. congruence.
  - apply prefix_cons_inv_1 in Hp as Hc. apply prefix_cons_inv_2 in Hp. subst c.
    apply prefix_nil_inv in Hp. by subst b.
Qed.

Lemma bits_plain p c : c ∈ bits p → c = x30 ∨ c = x31.
Proof. induction p; simpl; set_solver. Qed.

(** ** The codec *)

#[global] Instance bit_codec : LogCodec := {
  json_Marshal r := Some (bits (encode (record_tree r)) ++ [x7d]);
  json_Unmarshal b := p ← unbits b; t ← decode p; get_record t;
  printable _ := True
}.

#[global] Instance bit_codec_laws : LogCodecLaws bit_codec.
Proof.
  split; simpl.
  - intros r b [= <-]. split;
      intros [[?|?]%bits_plain|?%list_elem_of_singleton]%elem_of_app; discriminate.
  - intros r b [= <-]. by destruct (bits _).
  - intros r b _ [= <-]. rewrite unbits_bits. simpl. rewrite decode_encode. simpl.
    apply get_record_tree.
  - done.
  - intros r b b' [= <-] Hp Hne. by rewrite (unbits_prefix _ _ Hp Hne).
  - done.
Qed.
