(* ===== verification/Demo.v ===== *)
(** * Concrete instances

    A runtime and a disk on which the theorems with hypotheses are run: an empty
    environment, counters for random bytes, maps visited in stored order. *)

From Stdlib Require Import Strings.Byte.
From S2P Require Import Prelude.
From S2P Require Import GoLib.
From S2P Require Import Message.
From S2P Require Import Wal.
From S2P Require Import Storage.
From S2P Require Import StorageFacts.
From S2P Require Import Codec.

(** [demo_hmac] is not a MAC; no theorem needs it to be one. *)
Definition demo_hmac (key data : bytes) : bytes := take 32 (key ++ data ++ replicate 32 x00).

(** A process with the environment [env]. *)
Definition env_runtime (env : string → string) : Runtime := {|
  getenv := env;
  rand_read k := replicate 15 x00 ++ [Zbyte (Z.of_nat k)];
  map_range A l := l;
  regexp_valid _ := false;
  regexp_match _ _ := false;
  hmac_sha256 := demo_hmac;
  hostname := "localhost"
|}.

Lemma env_runtime_laws env : RuntimeLaws (env_runtime env).
Proof.
  split; [done..|]. intros. simpl. unfold demo_hmac. autorewrite with tmq_list.
  rewrite length_replicate. lia.
Qed.

#[global] Instance demo_runtime : Runtime := env_runtime (λ _, "").
#[global] Instance demo_runtime_laws : RuntimeLaws demo_runtime := env_runtime_laws _.

(** A disk that never fails, and an empty one in directory [data]. *)
Definition no_faults (_ : nat) : fault := FNone.

#[global] Instance demo_storage : Storage DiskStorage := disk_storage no_faults.
#[global] Instance demo_storage_safe : StorageSafe DiskStorage (H:=demo_storage) :=
  disk_safe no_faults.

Definition demo_disk : DiskStorage := MkDisk "data" ∅ false ∅ ∅ 0 0.

#[global] Instance demo_laws : StorageLaws DiskStorage (H:=demo_storage) := disk_laws no_faults.

Definition demo_msg : Message := MkMessage "id-1" "t" [x68; x69] 7 None None 0 ∅.
Definition demo_rec : LogRecord := put_record demo_msg 7.
Definition demo_line : bytes := default [] (json_Marshal (stamp demo_rec)).

(** The same disk with one record in the log of topic [t]. *)
Definition demo_log_disk : DiskStorage :=
  MkDisk "data" ∅ false {["data/t.log" := 0]} {[0 := demo_line ++ [x0a]]} 1 0.

Lemma demo_line_of : line_of demo_rec demo_line.
Proof. done. Qed.

Lemma demo_line_short : short demo_line.
Proof. unfold short. vm_compute. reflexivity. Qed.

Lemma demo_fits : fits demo_rec.
Proof.
  split; [done|]. intros l Hl. unfold line_of in Hl.
  assert (l = demo_line) as -> by (unfold demo_line; by rewrite Hl). apply demo_line_short.
Qed.

Lemma demo_disk_ready t : isSafePath t = None → disk_ready demo_disk t.
Proof.
  intros Ht. split; [by split_and!|]. split_and!; [done|apply clean_nil|by intros h|by right].
Qed.
