(* ===== verification/StorageProps.v ===== *)
(** * What the write-ahead log guarantees *)

From Stdlib Require Import Ascii.
From Stdlib Require Import Strings.Byte.
From S2P Require Import Prelude.
From S2P Require Import GoLib.
From S2P Require Import Message.
From S2P Require Import Wal.
From S2P Require Import Storage.
From S2P Require Import StorageFacts.
From S2P Require Import Codec.
From S2P Require Import Demo.

Section claims.
Context `{C : LogCodec}.
Context {CL : LogCodecLaws C}.

(** [C2] Compaction is crash safe: whichever of its system calls fail, and
    wherever the process dies, a restart finds exactly the messages that were
    outstanding before. *)
Theorem CompactLog_crash_safe faults topic d b
    (fn := logFilePath (dataDir d) topic)
    (Hwf : disk_wf d) (Hf : file d fn = Some b)
    (Hshort : ∀ r l, r ∈ compact_records (records b) → line_of r l → short l) :
  wpx (disk_CompactLog faults topic)
    (λ _ d', outstanding fn d' = outstanding fn d)
    (λ d', outstanding fn d' = outstanding fn d) d.
Proof.
  assert (outstanding fn d = load_records (records b)) as ->
    by (unfold outstanding; by rewrite Hf).
  by apply CompactLog_survives.
Qed.

Lemma holds_log t b d0 d : holds t b d0 d → disk_log d t = events (records b).
Proof. intros [_ Hb]. unfold disk_log. by rewrite Hb. Qed.

Lemma torn_log t r l e d d' :
  disk_ready d t → fits r → line_of r l → to_event r = Some e →
  torn t (default [] (file d (log_path d t))) l d d' →
  disk_log d' t = disk_log d t ∨ disk_log d' t = disk_log d t ++ [e].
Proof.
  intros (_ & _ & Hcl & _) [Hp Hs] Hl He (k & Hk). rewrite (holds_log _ _ _ _ Hk).
  destruct (records_torn _ l r k Hcl Hp Hl (Hs l Hl)) as [->| ->]; [by left|right].
  unfold events at 1. rewrite omap_app. f_equal. unfold to_event in *. simpl. by rewrite He.
Qed.

(** [C11] One append is atomic: on a log of whole lines (every line ended by a
    line feed and below the scanner's limit), after [AppendPut] of a record that
    fits a line, whether it succeeded, failed half way through the write or was
    cut by a crash at any byte, the log holds the records it held before, with
    the new one complete or not at all; a reported success means that it is
    there and that the log consists of whole lines again.  (A failed write may
    leave half a line behind, and then the next append is outside this premise:
    see [append_after_torn_line_lost].) *)
Theorem AppendPut_atomic faults t m now l d
    (Hr : disk_ready d t) (Hfit : fits (put_record m now)) (Hl : line_of (put_record m now) l)
    (before := disk_log d t) (after := disk_log d t ++ [WPut m]) :
  wpx (disk_AppendPut faults t m now)
    (λ err d', (disk_log d' t = before ∨ disk_log d' t = after) ∧
       (err = None → disk_log d' t = after ∧ disk_ready d' t))
    (λ d', disk_log d' t = before ∨ disk_log d' t = after) d.
Proof.
  assert (to_event (put_record m now) = Some (WPut m)) as He by done.
  pose proof (wpx_writeRecord faults t (put_record m now) l d (disk_ready_open _ _ Hr) Hl) as Hw.
  unfold disk_AppendPut. fold (put_record m now). unfold wpx in *.
  destruct (writeRecord faults t (put_record m now) d) as [[err|?| |] d'] eqn:Hrun; try done.
  - destruct Hw as [Ht _]. split; [by eapply torn_log|]. intros ->.
    destruct (writeRecord_ok faults t _ _ _ _ Hr Hfit He Hrun) as (? & ? & _). done.
  - by eapply torn_log.
Qed.

(** An append does not look at what the log ends with: after half a line, the
    new record goes to the same line.  The call reports success, and the message
    is not in the log ([Hglue]: half an object followed by an object is not
    JSON). *)
Theorem append_after_torn_line_lost faults t m now l r0 l0 k b d
    (Hopen : disk_open d t) (Hclean : clean b)
    (Hl0 : line_of r0 l0) (Hk : 0 < k < length l0)
    (Hfile : file d (log_path d t) = Some (b ++ take k l0))
    (Hl : line_of (put_record m now) l) (Hglue : json_Unmarshal (take k l0 ++ l) = None)
    (Hshort : short (take k l0 ++ l)) :
  wpx (disk_AppendPut faults t m now)
    (λ err d', err = None → disk_log d' t = disk_log d t) (λ _, True) d.
Proof.
  destruct (marshal_no_break _ _ Hl0) as [Hnl0 Hcr0], (marshal_no_break _ _ Hl) as [Hnl Hcr].
  assert (∀ x, x ∉ l0 → x ∉ take k l0) as Hsub
    by (intros x Hx Hin; apply Hx; by eapply subseteq_take).
  assert (take k l0 ≠ []) as Hne
    by (intros Heq; apply (f_equal length) in Heq; rewrite length_take in Heq; simpl in Heq; lia).
  eapply wpx_mono; [by apply wpx_writeRecord| |done].
  intros err d' [_ Hok] Herr. destruct (Hok Herr) as (h & _ & _ & _ & Hf').
  rewrite Hfile in Hf'. unfold disk_log. rewrite Hf', Hfile. simpl. f_equal.
  rewrite <-app_assoc, (app_assoc (take k l0)), records_line; [|done|split; set_solver|set_solver|].
  - unfold decode_line. rewrite Hglue. simpl. rewrite app_nil_r.
    destruct Hclean as (ls & -> & Hls). rewrite records_rest; [|done|by apply Hsub|].
    + rewrite decide_False by done. rewrite dropCR_none by by apply Hsub.
      unfold decode_line. rewrite (unmarshal_prefix (stamp r0) l0); [by rewrite app_nil_r|done| |].
      * by apply prefix_take.
      * intros Heq. apply (f_equal length) in Heq. rewrite length_take in Heq. lia.
    + unfold short in *. rewrite length_app in Hshort. lia.
  - intros [? _]%app_nil. done.
Qed.

(** [C15] [LoadMessages] returns the outstanding messages of the log, in the
    order they were put, and leaves the log alone: the file-backed reader
    refines the abstract log.  This is about a log of whole lines in which no
    two PUT records have the same identifier (a requeue writes a second one,
    and its message is then loaded twice: [duplicate_put_loads_twice]), and a
    read that reports no error. *)
Theorem LoadMessages_refines faults t d
    (Hr : disk_ready d t) (Hids : NoDup (put_ids (disk_log d t))) :
  wlp (disk_LoadMessages faults t) (λ '(ms, err) d',
    err = None → ms = live (disk_log d t) ∧ disk_log d' t = disk_log d t ∧ disk_ready d' t) d.
Proof. by apply LoadMessages_live. Qed.

End claims.

(** ** Without faults, the calls succeed *)

Section no_fault_runs.
Context `{C : LogCodec}.
Context {CL : LogCodecLaws C}.
Variable faults : nat → fault.
Hypothesis Hfaults : ∀ n, faults n = FNone.

Lemma writeRecord_succeeds t r l d :
  disk_ready d t → line_of r l → ∃ d', writeRecord faults t r d = (Ret None, d').
Proof.
  intros Hr Hl. pose proof Hr as (_ & Hsafe & _ & Hh & _).
  assert (∃ h d1, getOrOpenFile faults t d = (Ret (Some h), d1) ∧ h_open h = true)
    as (h & d1 & Hopen & Hop).
  { unfold getOrOpenFile, mbind, M_bind, get.
    destruct (activeFiles d !! t) as [h|] eqn:Ea.
    - exists h, d. split; [done|]. by destruct (Hh h eq_refl) as (? & _).
    - unfold sys_open_append, syscall_atomic, syscall. rewrite Hfaults.
      by destruct (dir (tick d) !! _); eauto. }
  unfold writeRecord. rewrite Hsafe. unfold mbind, M_bind. rewrite Hopen.
  fold (stamp r). unfold line_of in Hl. rewrite Hl.
  unfold sys_write. rewrite Hop. unfold syscall. rewrite Hfaults. unfold modify, get.
  rewrite andb_true_r. case_match; [|eauto].
  unfold sys_sync, syscall_atomic, syscall. rewrite Hfaults. eauto.
Qed.

Lemma LoadMessages_succeeds t d :
  disk_ready d t → ∃ ms d', disk_LoadMessages faults t d = (Ret (ms, None), d').
Proof.
  intros (_ & Hsafe & Hcl & _ & Hleg). unfold disk_LoadMessages. rewrite Hsafe.
  unfold mbind, M_bind, get, sys_exists, gets. fold (log_path d t).
  destruct (dir d !! log_path d t) as [i|] eqn:Ed.
  - rewrite (bool_decide_true (is_Some (Some i))) by eauto. simpl.
    unfold sys_read, syscall. rewrite Hfaults, file_tick.
    destruct (file d (log_path d t)) as [b|] eqn:Ef; simpl in *.
    + pose proof (Scan_clean b Hcl) as Hs. destruct (Scan b) as [ts tl]. simpl in *. subst. eauto.
    + unfold file in Ef. by rewrite Ed in Ef.
  - destruct Hleg as [[? ?]|Hleg]; [done|]. rewrite Hleg. simpl. eauto.
Qed.

(** Put, then load: on a disk that does not fail, [AppendPut] succeeds and
    the next [LoadMessages] returns what was outstanding before followed by the
    new message. *)
Theorem put_then_load t m now l d
    (Hr : disk_ready d t) (Hfit : fits (put_record m now)) (Hl : line_of (put_record m now) l)
    (Hids : NoDup (put_ids (disk_log d t ++ [WPut m]))) :
  wp (disk_AppendPut faults t m now ;; disk_LoadMessages faults t)
    (λ '(ms, err) _, err = None ∧ ms = live (disk_log d t) ++ [m]) d.
Proof.
  destruct (writeRecord_succeeds t (put_record m now) l d Hr Hl) as [d1 Hput].
  assert (to_event (put_record m now) = Some (WPut m)) as He by done.
  destruct (writeRecord_ok faults t _ _ _ _ Hr Hfit He Hput) as (Hlog & Hr1 & _).
  destruct (LoadMessages_succeeds t d1 Hr1) as (ms & d2 & Hload).
  rewrite <-Hlog in Hids.
  pose proof (LoadMessages_live faults d1 t Hr1 Hids) as Hlive.
  apply wp_bind. eapply wp_of_run; [exact Hput|]. eapply wp_of_run; [exact Hload|].
  unfold wlp in Hlive. rewrite Hload in Hlive. destruct (Hlive eq_refl) as (-> & _).
  by rewrite Hlog, live_snoc.
Qed.

End no_fault_runs.

(** ** File names *)

Definition no_char (c : ascii) (s : string) : bool :=
  strings.forall_chars (λ x, negb (Ascii.eqb c x)) s.

(** Replacing something else by a text without [c] keeps [c] out. *)
Lemma replace_keeps_out c old new k s :
  no_char c new = true → no_char c s = true → no_char c (strings.replace_from old new k s) = true.
Proof.
  intros Hnew. unfold no_char in *. revert k. induction s as [|x s IH]; intros k Hs; [done|].
  simpl in Hs. apply andb_true_iff in Hs as [Hx Hs].
  cbn [strings.replace_from]. destruct k; [|by apply IH]. destruct (strings.HasPrefix _ _).
  - rewrite forall_chars_app, Hnew. by apply IH.
  - simpl. rewrite Hx. by apply IH.
Qed.

(** Path confinement: whatever the topic is called, its log is a file
    directly inside the data directory: the file name holds no slash. *)
Theorem log_confined dataDir topic :
  ∃ base, logFilePath dataDir topic = dataDir +:+ "/" +:+ base +:+ ".log" ∧
    no_char "/" base = true.
Proof.
  exists (topicToFilename topic). split; [done|].
  unfold topicToFilename. apply replace_keeps_out; [done|]. by apply ReplaceAll_char_gone.
Qed.

Lemma replace_skip old new o s :
  strings.replace_from old new (String.length o) (o +:+ s) = strings.replace_from old new 0 s.
Proof. induction o as [|c o IH]; [done|]. exact IH. Qed.

(** An occurrence at the front is replaced. *)
Lemma replace_hit c o new s :
  strings.replace_from (String c o) new 0 (String c o +:+ s) =
  new +:+ strings.replace_from (String c o) new 0 s.
Proof.
  change (String c o +:+ s) with (String c (o +:+ s)). cbn [strings.replace_from].
  change (String c (o +:+ s)) with (String c o +:+ s). rewrite HasPrefix_app.
  cbn [String.length]. rewrite Nat.sub_1_r. cbn [Nat.pred]. by rewrite replace_skip.
Qed.

(** A byte that does not start an occurrence is kept. *)
Lemma replace_miss c o new x s :
  Ascii.eqb c x = false →
  strings.replace_from (String c o) new 0 (String x s) =
  String x (strings.replace_from (String c o) new 0 s).
Proof. intros Hx. cbn [strings.replace_from strings.HasPrefix]. by rewrite Hx. Qed.

(** The name with its slashes written out. *)
Lemma filename_decode_slashes s :
  no_char "_" s = true →
  strings.ReplaceAll (strings.ReplaceAll s "/" "_b_") "_b_" "/" = s.
Proof.
  unfold strings.ReplaceAll, no_char. induction s as [|c s IH]; intros Hs; [done|].
  simpl in Hs. apply andb_true_iff in Hs as [Hc Hs]. specialize (IH Hs).
  apply negb_true_iff in Hc. destruct (Ascii.eqb "/" c) eqn:Ec.
  - apply Ascii.eqb_eq in Ec as <-. change (String "/" s) with ("/" +:+ s).
    rewrite (replace_hit "/" ""), (replace_hit "_" "b_"). by rewrite IH.
  - rewrite !replace_miss by done. by rewrite IH.
Qed.

Lemma ReplaceAll_no_char c old new s :
  no_char c s = true → strings.ReplaceAll s (String c old) new = s.
Proof.
  unfold strings.ReplaceAll, no_char. induction s as [|x s IH]; intros Hs; [done|].
  simpl in Hs. apply andb_true_iff in Hs as [Hc Hs]. apply negb_true_iff in Hc.
  rewrite replace_miss by done. by rewrite IH.
Qed.

(** File names and topic names: a topic whose name has no underscore and no
    [@] is recovered under its own name when the server scans the data
    directory, and no two such topics share a file. *)
Theorem filename_roundtrip topic
    (Hus : no_char "_" topic = true) (Hat : no_char "@" topic = true) :
  FilenameToTopic (topicToFilename topic) = topic.
Proof.
  unfold topicToFilename, FilenameToTopic.
  rewrite (ReplaceAll_no_char "@" "" "_a_" (strings.ReplaceAll topic "/" "_b_"))
    by (apply replace_keeps_out; done).
  rewrite filename_decode_slashes by done. by apply ReplaceAll_no_char.
Qed.

Lemma filename_roundtrip_witness :
  FilenameToTopic (topicToFilename "sensors/room.1/temp") = "sensors/room.1/temp".
Proof. apply filename_roundtrip; reflexivity. Defined.

(** The encoding is not injective on the names the broker accepts: the
    topics [a/c] and [a_b_c] write to one log file, and after a restart
    [a_b_c] comes back as [a/c]. *)
Theorem filename_collision :
  topicToFilename "a/c" = topicToFilename "a_b_c" ∧
  FilenameToTopic (topicToFilename "a_b_c") = "a/c".
Proof. split; reflexivity. Qed.

(** A message put twice under one identifier, as a requeue does, is loaded
    twice: the map holds one entry but the order list names it two times. *)
Theorem duplicate_put_loads_twice (m : Message) (now now' : Z) :
  load_records [put_record m now; put_record m now'] = [m; m].
Proof.
  unfold load_records. simpl. rewrite !lookup_insert_eq. done.
Qed.

(** ** Concrete runs *)

Lemma demo_log_disk_wf : disk_wf demo_log_disk.
Proof.
  split_and!; cbn [demo_log_disk dir activeFiles next_ino].
  - intros p1 p2 i [<- <-]%lookup_singleton_Some [? _]%lookup_singleton_Some. done.
  - intros p i [_ <-]%lookup_singleton_Some. lia.
  - intros t h. by rewrite lookup_empty.
Qed.

Lemma CompactLog_crash_safe_witness :
  let fn := logFilePath (dataDir demo_log_disk) "t" in
  wpx (disk_CompactLog (λ n, if decide (n = 3) then FCrash 2 else FNone) "t")
    (λ _ d', outstanding fn d' = outstanding fn demo_log_disk)
    (λ d', outstanding fn d' = outstanding fn demo_log_disk) demo_log_disk.
Proof.
  apply (CompactLog_crash_safe _ "t" demo_log_disk (demo_line ++ [x0a])).
  - apply demo_log_disk_wf.
  - vm_compute. reflexivity.
  - assert (compact_records (records (demo_line ++ [x0a])) = [stamp demo_rec]) as ->
      by (vm_compute; reflexivity).
    intros r l ->%list_elem_of_singleton Hl.
    assert (l = demo_line) as ->; [|apply demo_line_short].
    unfold line_of in Hl. unfold demo_line.
    assert (stamp (stamp demo_rec) = stamp demo_rec) as Hst by (vm_compute; reflexivity).
    rewrite Hst in Hl. by rewrite Hl.
Defined.

Lemma AppendPut_atomic_witness :
  let before := disk_log demo_disk "t" in
  let after := disk_log demo_disk "t" ++ [WPut demo_msg] in
  wpx (disk_AppendPut (λ n, if decide (n = 1) then FErr 9 else FNone) "t" demo_msg 7)
    (λ err d', (disk_log d' "t" = before ∨ disk_log d' "t" = after) ∧
       (err = None → disk_log d' "t" = after ∧ disk_ready d' "t"))
    (λ d', disk_log d' "t" = before ∨ disk_log d' "t" = after) demo_disk.
Proof.
  apply (AppendPut_atomic _ "t" demo_msg 7 demo_line demo_disk).
  - by apply demo_disk_ready.
  - apply demo_fits.
  - apply demo_line_of.
Defined.

Lemma demo_log_disk_ready : disk_ready demo_log_disk "t".
Proof.
  split; [apply demo_log_disk_wf|]. split_and!; [done| |by intros h|left; by eexists].
  change (default [] (file demo_log_disk (log_path demo_log_disk "t"))) with ([] ++ demo_line ++ [x0a]).
  apply clean_line; [apply clean_nil|]. split; [apply demo_line_short|].
  apply (bool_decide_unpack _). vm_compute. exact I.
Qed.

Lemma LoadMessages_refines_witness :
  disk_log demo_log_disk "t" = [WPut demo_msg] ∧
  (disk_LoadMessages no_faults "t" demo_log_disk).1 = Ret ([demo_msg], None) ∧
  wlp (disk_LoadMessages no_faults "t") (λ '(ms, err) d',
    err = None → ms = live (disk_log demo_log_disk "t") ∧
      disk_log d' "t" = disk_log demo_log_disk "t" ∧ disk_ready d' "t") demo_log_disk.
Proof.
  split_and!; [vm_compute; reflexivity..|].
  apply LoadMessages_refines; [apply demo_log_disk_ready|].
  apply (bool_decide_unpack _). vm_compute. exact I.
Defined.

(** The lost append, run: the first write fails after nine bytes, the second
    reports success, and the log holds neither message. *)
Definition torn_faults (n : nat) : fault := if decide (n = 1) then FErr 9 else FNone.

Example torn_append_run :
  let '(r1, d1) := disk_AppendPut torn_faults "t" demo_msg 7 demo_disk in
  let '(r2, d2) := disk_AppendPut torn_faults "t" demo_msg 8 d1 in
  r1 = Ret (Some "write failed") ∧ r2 = Ret None ∧ disk_log d2 "t" = [] ∧
  (disk_LoadMessages torn_faults "t" d2).1 = Ret ([], None).
Proof. vm_compute. by split_and!. Qed.

Lemma put_then_load_witness :
  wp (disk_AppendPut no_faults "t" demo_msg 7 ;; disk_LoadMessages no_faults "t")
    (λ '(ms, err) _, err = None ∧ ms = live (disk_log demo_disk "t") ++ [demo_msg]) demo_disk.
Proof.
  apply (put_then_load no_faults (λ _, eq_refl) "t" demo_msg 7 demo_line).
  - by apply demo_disk_ready.
  - apply demo_fits.
  - apply demo_line_of.
  - apply NoDup_singleton.
Defined.
