(* ===== verification/Broker.v ===== *)
(** * The broker ([internal/broker/broker.go])

    Topics, channels and the broker's maps live in one [World].  A [*Topic] is
    an address in [heap], so that a topic removed from [Topics] stays reachable
    through the pointers taken earlier; a [chan message.Message] is an address
    in [chans].  Each topic carries its mutex: locking a held mutex blocks for
    ever, because the operations below run one at a time.  The broker's own
    [RWMutex] guards plain map accesses only and is released before anything
    else happens, so those sections are single steps here.

    An operation receives the time [now] it runs at.  Work the code hands to
    another goroutine ([time.AfterFunc], [go func]) is queued in [pending] and
    run by [run_task]. *)

From Stdlib Require Import Ascii.
From Stdlib Require Import Strings.Byte.
From S2P Require Import Prelude.
From S2P Require Import GoLib.
From S2P Require Import Message.
From S2P Require Import Wal.

Record WebhookConfig : Type := MkWebhook { URL : string; Secret : string }.

Record Topic : Type := MkTopic {
  Name : string;
  Messages : list Message;
  HighMessages : list Message;
  LowMessages : list Message;
  waitingConsumers : list nat;
  spies : list nat;
  Policy : string;
  Deleted : bool;
  Retention : Z;
  (** the mutex: held or free *)
  mu : bool
}.

(** A buffered channel. *)
Record Chan : Type := MkChan { cap : nat; buf : list Message; closed : bool }.

(** The HTTP request a webhook goroutine sends. *)
Record Delivery : Type := MkDelivery {
  dl_url : string; dl_body : bytes; dl_signature : option string
}.

(** What [pushFunc] closes over. *)
Record PushJob : Type := MkPush {
  pj_topicName : string;
  pj_t : nat;
  pj_wildcards : list nat;
  pj_msg : Message;
  pj_isBroadcast : bool
}.

Inductive Task : Type :=
| TDelayed (at_time : Z) (job : PushJob)
| TBroadcast (channels : list nat) (m : Message).

Record World (St : Type) : Type := MkWorld {
  Topics : gmap string nat;
  wildcards : gmap string nat;
  storage : option St;
  compiledRegex : gmap string Regexp;
  webhooks : gmap string (list WebhookConfig);
  (** the deliveries holding a slot of [webhookSem] *)
  inflight : list Delivery;
  idempotencyKeys : gmap string Z;
  bindings : gmap string (gset string);
  maxMessages : Z;
  maxTopics : Z;
  OnPublish : option (string → bytes → error);
  OnGroupCreate : option (string → string → error);
  heap : gmap nat Topic;
  chans : gmap nat Chan;
  next_addr : nat;
  draws : nat;
  pending : list Task
}.
Arguments MkWorld {_} _ _ _ _ _ _ _ _ _ _ _ _ _ _ _ _ _.
Arguments Topics {_} _. Arguments wildcards {_} _. Arguments storage {_} _.
Arguments compiledRegex {_} _. Arguments webhooks {_} _. Arguments inflight {_} _.
Arguments idempotencyKeys {_} _. Arguments bindings {_} _. Arguments maxMessages {_} _.
Arguments maxTopics {_} _. Arguments OnPublish {_} _. Arguments OnGroupCreate {_} _.
Arguments heap {_} _. Arguments chans {_} _. Arguments next_addr {_} _.
Arguments draws {_} _. Arguments pending {_} _.

(** ** Field updates *)

Definition set_Messages (x : list Message) (t : Topic) : Topic :=
  MkTopic (Name t) x (HighMessages t) (LowMessages t) (waitingConsumers t) (spies t) (Policy t) (Deleted t) (Retention t) (mu t).
Definition set_HighMessages (x : list Message) (t : Topic) : Topic :=
  MkTopic (Name t) (Messages t) x (LowMessages t) (waitingConsumers t) (spies t) (Policy t) (Deleted t) (Retention t) (mu t).
Definition set_LowMessages (x : list Message) (t : Topic) : Topic :=
  MkTopic (Name t) (Messages t) (HighMessages t) x (waitingConsumers t) (spies t) (Policy t) (Deleted t) (Retention t) (mu t).
Definition set_waitingConsumers (x : list nat) (t : Topic) : Topic :=
  MkTopic (Name t) (Messages t) (HighMessages t) (LowMessages t) x (spies t) (Policy t) (Deleted t) (Retention t) (mu t).
Definition set_spies (x : list nat) (t : Topic) : Topic :=
  MkTopic (Name t) (Messages t) (HighMessages t) (LowMessages t) (waitingConsumers t) x (Policy t) (Deleted t) (Retention t) (mu t).
Definition set_Deleted (x : bool) (t : Topic) : Topic :=
  MkTopic (Name t) (Messages t) (HighMessages t) (LowMessages t) (waitingConsumers t) (spies t) (Policy t) x (Retention t) (mu t).
Definition set_mu (x : bool) (t : Topic) : Topic :=
  MkTopic (Name t) (Messages t) (HighMessages t) (LowMessages t) (waitingConsumers t) (spies t) (Policy t) (Deleted t) (Retention t) x.

Section world_updates.
Context {St : Type}.
Implicit Types w : World St.

Definition set_Topics (x : gmap string nat) (w : World St) : World St :=
  MkWorld x (wildcards w) (storage w) (compiledRegex w) (webhooks w) (inflight w)
    (idempotencyKeys w) (bindings w) (maxMessages w) (maxTopics w) (OnPublish w)
    (OnGroupCreate w) (heap w) (chans w) (next_addr w) (draws w) (pending w).
Definition set_wildcards (x : gmap string nat) (w : World St) : World St :=
  MkWorld (Topics w) x (storage w) (compiledRegex w) (webhooks w) (inflight w)
    (idempotencyKeys w) (bindings w) (maxMessages w) (maxTopics w) (OnPublish w)
    (OnGroupCreate w) (heap w) (chans w) (next_addr w) (draws w) (pending w).
Definition set_storage (x : option St) (w : World St) : World St :=
  MkWorld (Topics w) (wildcards w) x (compiledRegex w) (webhooks w) (inflight w)
    (idempotencyKeys w) (bindings w) (maxMessages w) (maxTopics w) (OnPublish w)
    (OnGroupCreate w) (heap w) (chans w) (next_addr w) (draws w) (pending w).
Definition set_compiledRegex (x : gmap string Regexp) (w : World St) : World St :=
  MkWorld (Topics w) (wildcards w) (storage w) x (webhooks w) (inflight w)
    (idempotencyKeys w) (bindings w) (maxMessages w) (maxTopics w) (OnPublish w)
    (OnGroupCreate w) (heap w) (chans w) (next_addr w) (draws w) (pending w).
Definition set_webhooks (x : gmap string (list WebhookConfig)) (w : World St) : World St :=
  MkWorld (Topics w) (wildcards w) (storage w) (compiledRegex w) x (inflight w)
    (idempotencyKeys w) (bindings w) (maxMessages w) (maxTopics w) (OnPublish w)
    (OnGroupCreate w) (heap w) (chans w) (next_addr w) (draws w) (pending w).
Definition set_inflight (x : list Delivery) (w : World St) : World St :=
  MkWorld (Topics w) (wildcards w) (storage w) (compiledRegex w) (webhooks w) x
    (idempotencyKeys w) (bindings w) (maxMessages w) (maxTopics w) (OnPublish w)
    (OnGroupCreate w) (heap w) (chans w) (next_addr w) (draws w) (pending w).
Definition set_idempotencyKeys (x : gmap string Z) (w : World St) : World St :=
  MkWorld (Topics w) (wildcards w) (storage w) (compiledRegex w) (webhooks w) (inflight
    w) x (bindings w) (maxMessages w) (maxTopics w) (OnPublish w) (OnGroupCreate w)
    (heap w) (chans w) (next_addr w) (draws w) (pending w).
Definition set_bindings (x : gmap string (gset string)) (w : World St) : World St :=
  MkWorld (Topics w) (wildcards w) (storage w) (compiledRegex w) (webhooks w) (inflight
    w) (idempotencyKeys w) x (maxMessages w) (maxTopics w) (OnPublish w) (OnGroupCreate
    w) (heap w) (chans w) (next_addr w) (draws w) (pending w).
Definition set_heap (x : gmap nat Topic) (w : World St) : World St :=
  MkWorld (Topics w) (wildcards w) (storage w) (compiledRegex w) (webhooks w) (inflight
    w) (idempotencyKeys w) (bindings w) (maxMessages w) (maxTopics w) (OnPublish w)
    (OnGroupCreate w) x (chans w) (next_addr w) (draws w) (pending w).
Definition set_chans (x : gmap nat Chan) (w : World St) : World St :=
  MkWorld (Topics w) (wildcards w) (storage w) (compiledRegex w) (webhooks w) (inflight
    w) (idempotencyKeys w) (bindings w) (maxMessages w) (maxTopics w) (OnPublish w)
    (OnGroupCreate w) (heap w) x (next_addr w) (draws w) (pending w).
Definition set_next_addr (x : nat) (w : World St) : World St :=
  MkWorld (Topics w) (wildcards w) (storage w) (compiledRegex w) (webhooks w) (inflight
    w) (idempotencyKeys w) (bindings w) (maxMessages w) (maxTopics w) (OnPublish w)
    (OnGroupCreate w) (heap w) (chans w) x (draws w) (pending w).
Definition set_draws (x : nat) (w : World St) : World St :=
  MkWorld (Topics w) (wildcards w) (storage w) (compiledRegex w) (webhooks w) (inflight
    w) (idempotencyKeys w) (bindings w) (maxMessages w) (maxTopics w) (OnPublish w)
    (OnGroupCreate w) (heap w) (chans w) (next_addr w) x (pending w).
Definition set_pending (x : list Task) (w : World St) : World St :=
  MkWorld (Topics w) (wildcards w) (storage w) (compiledRegex w) (webhooks w) (inflight
    w) (idempotencyKeys w) (bindings w) (maxMessages w) (maxTopics w) (OnPublish w)
    (OnGroupCreate w) (heap w) (chans w) (next_addr w) (draws w) x.

End world_updates.

(** ** Names *)

(** The character class of [validTopicRegex], [[a-zA-Z0-9._:\-/]]. *)
Definition topic_char (c : ascii) : bool :=
  let n := N_of_ascii c in
  ((97 <=? n) && (n <=? 122) || (65 <=? n) && (n <=? 90) || (48 <=? n) && (n <=? 57))%N ||
  match c with
  | "." | "_" | ":" | "-" | "/" => true
  | _ => false
  end%char.

(** [^[a-zA-Z0-9._:\-/]+$] *)
Definition validTopicRegex (s : string) : bool :=
  match s with
  | EmptyString => false
  | _ => strings.forall_chars topic_char s
  end.

(** A valid topic name followed by one star, or the star alone. *)
Definition validWildcardRegex (s : string) : bool :=
  strings.HasSuffix s "*" &&
  (String.eqb s "*" || validTopicRegex (strings.TrimSuffix s "*")).

Definition IsValidTopicName (name : string) : bool :=
  if strings.Contains name ".." then false
  else validTopicRegex name || validWildcardRegex name.

(** ** Queues: the loops over a topic's message slices *)

(** [extractFrom], one message at a time: [results], [expiredIDs] and [keep]. *)
Definition extract_step (now limit : Z) (acc : list Message * list string * list Message)
    (msg : Message) : list Message * list string * list Message :=
  let '(results, expiredIDs, keep) := acc in
  if (limit <=? Z.of_nat (length results))%Z then (results, expiredIDs, keep ++ [msg])
  else if expired now msg then (results, expiredIDs ++ [ID msg], keep)
  else if delayed now msg then (results, expiredIDs, keep ++ [msg])
  else (results ++ [msg], expiredIDs, keep).

Definition extractFrom (now limit : Z) (results : list Message) (expiredIDs : list string)
    (queue : list Message) : list Message * list string * list Message :=
  foldl (extract_step now limit) (results, expiredIDs, []) queue.

(** The results, the identifiers of the expired messages and the topic left. *)
Definition extractMessages (now limit : Z) (t : Topic)
    : list Message * list string * Topic :=
  let '(results, expiredIDs, high) := extractFrom now limit [] [] (HighMessages t) in
  let t := set_HighMessages high t in
  let '(results, expiredIDs, t) :=
    if (Z.of_nat (length results) <? limit)%Z then
      let '(results, expiredIDs, normal) := extractFrom now limit results expiredIDs (Messages t) in
      (results, expiredIDs, set_Messages normal t)
    else (results, expiredIDs, t) in
  if (Z.of_nat (length results) <? limit)%Z then
    let '(results, expiredIDs, low) := extractFrom now limit results expiredIDs (LowMessages t) in
    (results, expiredIDs, set_LowMessages low t)
  else (results, expiredIDs, t).

(** [removeFromSlice]: the queue without its first message of that identifier,
    when there is one. *)
Definition removeFromSlice (id : string) (queue : list Message) : option (list Message) :=
  if existsb (has_id id) queue then Some (remove_first (has_id id) queue) else None.

(** [removeMessageByID] and the queue part of [Ack]: the three queues are tried
    in the order high, normal, low. *)
Definition removeMessageByID (id : string) (t : Topic) : option Topic :=
  match removeFromSlice id (HighMessages t) with
  | Some q => Some (set_HighMessages q t)
  | None =>
      match removeFromSlice id (Messages t) with
      | Some q => Some (set_Messages q t)
      | None =>
          match removeFromSlice id (LowMessages t) with
          | Some q => Some (set_LowMessages q t)
          | None => None
          end
      end
  end.

(** One queue of [purgeExpiredMessages]: the expired identifiers, the rest. *)
Definition purge (now : Z) (queue : list Message) : list string * list Message :=
  (ID <$> filter (λ m, expired now m = true) queue, filter (λ m, expired now m = false) queue).

Definition totalActiveMessages (t : Topic) : Z :=
  Z.of_nat (length (HighMessages t)) + Z.of_nat (length (Messages t)) +
  Z.of_nat (length (LowMessages t)).

(** The ring buffer's victim: the oldest message of the lowest class that has
    one.  [None]: all three queues are empty and [t.HighMessages[0]] panics. *)
Definition evict (t : Topic) : option (Message * Topic) :=
  match LowMessages t with
  | m :: q => Some (m, set_LowMessages q t)
  | [] =>
      match Messages t with
      | m :: q => Some (m, set_Messages q t)
      | [] =>
          match HighMessages t with
          | m :: q => Some (m, set_HighMessages q t)
          | [] => None
          end
      end
  end.

(** Appending to the queue the priority selects. *)
Definition enqueue (priority : string) (msg : Message) (t : Topic) : Topic :=
  if String.eqb priority "high" then set_HighMessages (HighMessages t ++ [msg]) t
  else if String.eqb priority "low" then set_LowMessages (LowMessages t ++ [msg]) t
  else set_Messages (Messages t ++ [msg]) t.

(** [appendUpToLimit] over the three queues of [Peek]. *)
Definition appendUpToLimit (limit : Z) (results source : list Message) : list Message :=
  foldl (λ acc m, if (limit <=? Z.of_nat (length acc))%Z then acc else acc ++ [m]) results source.
Definition peek_queues (limit : Z) (t : Topic) : list Message :=
  appendUpToLimit limit
    (appendUpToLimit limit (appendUpToLimit limit [] (HighMessages t)) (Messages t))
    (LowMessages t).

(** ** Primitive steps *)

Section primitives.
Context {St : Type}.
Abbreviation MB := (M (World St)).

(** Reading through a [*Topic]; a dangling address is a nil dereference. *)
Definition load_topic (t : nat) : MB Topic :=
  w ← get;
  match heap w !! t with
  | Some x => mret x
  | None => panic "nil pointer dereference"
  end.
Definition store_topic (t : nat) (x : Topic) : MB unit :=
  modify (λ w, set_heap (<[t := x]> (heap w)) w).
Definition update_topic (t : nat) (f : Topic → Topic) : MB unit :=
  x ← load_topic t; store_topic t (f x).

(** [t.mu.Lock()], [t.mu.Unlock()] *)
Definition Lock (t : nat) : MB unit :=
  x ← load_topic t;
  if mu x then deadlock else store_topic t (set_mu true x).
Definition Unlock (t : nat) : MB unit :=
  x ← load_topic t;
  if mu x then store_topic t (set_mu false x)
  else panic "fatal error: sync: unlock of unlocked mutex".

(** [&Topic{...}] and [make(chan message.Message, n)] *)
Definition new_topic (x : Topic) : MB nat :=
  w ← get;
  let a := next_addr w in
  modify (λ w, set_next_addr (S a) (set_heap (<[a := x]> (heap w)) w)) ;;
  mret a.
Definition make_chan (n : nat) : MB nat :=
  w ← get;
  let a := next_addr w in
  modify (λ w, set_next_addr (S a) (set_chans (<[a := MkChan n [] false]> (chans w)) w)) ;;
  mret a.

(** [select { case ch <- m: default: }]: whether the send happened. *)
Definition try_send (ch : nat) (m : Message) : MB bool :=
  w ← get;
  match chans w !! ch with
  | None => mret false
  | Some c =>
      if closed c then panic "send on closed channel"
      else if (length (buf c) <? cap c)%nat then
        modify (λ w, set_chans (<[ch := MkChan (cap c) (buf c ++ [m]) false]> (chans w)) w) ;;
        mret true
      else mret false
  end.

(** [close(ch)] *)
Definition close_chan (ch : nat) : MB unit :=
  w ← get;
  match chans w !! ch with
  | None => panic "close of nil channel"
  | Some c =>
      if closed c then panic "close of closed channel"
      else modify (λ w, set_chans (<[ch := MkChan (cap c) (buf c) true]> (chans w)) w)
  end.

(** [<-ch] by the channel's owner, without blocking. *)
Definition try_recv (ch : nat) : MB (option Message) :=
  w ← get;
  match chans w !! ch with
  | Some (MkChan n (m :: b) cl) =>
      modify (λ w, set_chans (<[ch := MkChan n b cl]> (chans w)) w) ;; mret (Some m)
  | _ => mret None
  end.

(** A call on [b.storage], skipped when it is nil. *)
Definition with_storage {A} (absent : A) (c : M St A) : MB A := λ w,
  match storage w with
  | None => (Ret absent, w)
  | Some s => let '(o, s') := c s in (o, set_storage (Some s') w)
  end.

End primitives.

(** ** The broker's methods *)

Section broker.
Context `{R : Runtime} {St : Type} `{Storage St}.
Abbreviation MB := (M (World St)).

(** A positive integer environment variable, or the default. *)
Definition env_limit (name : string) (dflt : Z) : Z :=
  if String.eqb (getenv name) "" then dflt
  else match Atoi (getenv name) with
       | Some n => if (0 <? n)%Z then n else dflt
       | None => dflt
       end.

(** [broker.New(store)] *)
Definition New (store : option St) : World St :=
  MkWorld ∅ ∅ store ∅ ∅ [] ∅ ∅ (env_limit "TINYMQ_MAX_MESSAGES" 100000)
    (env_limit "TINYMQ_MAX_TOPICS" 10000) None None ∅ ∅ 0 0 [].

Definition default_policy : string :=
  let policy := getenv "TINYMQ_DEFAULT_POLICY" in
  if String.eqb policy "drop-oldest" then policy else "reject".

Definition compileWildcardRegex (name : string) : MB unit :=
  w ← get;
  match compiledRegex w !! name with
  | Some _ => mret ()
  | None =>
      match regexp_Compile (strings.ReplaceAll name "*" ".*") with
      | Some re => modify (λ w, set_compiledRegex (<[name := re]> (compiledRegex w)) w)
      | None => mret ()
      end
  end.

(** The common end of the four places that add a topic to the maps. *)
Definition install_topic (name : string) (x : Topic) : MB nat :=
  t ← new_topic x;
  modify (λ w, set_Topics (<[name := t]> (Topics w)) w) ;;
  (if strings.Contains name "*" then
     modify (λ w, set_wildcards (<[name := t]> (wildcards w)) w) ;;
     compileWildcardRegex name
   else mret ()) ;;
  mret t.

Definition empty_topic (name policy : string) (retention : Z) : Topic :=
  MkTopic name [] [] [] [] [] policy false retention false.

(** [None] when the topic limit is reached. *)
Definition getOrCreateTopic (name : string) : MB (option nat) :=
  w ← get;
  match Topics w !! name with
  | Some t => mret (Some t)
  | None =>
      if (maxTopics w <=? Z.of_nat (size (Topics w)))%Z then mret None
      else t ← install_topic name (empty_topic name default_policy 0); mret (Some t)
  end.

(** [b.bindings[source][name] = true] *)
Definition add_binding (source name : string) : MB unit :=
  modify (λ w, set_bindings
    (<[source := {[name]} ∪ default ∅ (bindings w !! source)]> (bindings w)) w).

Definition load_existing_topic (name : string) : MB unit :=
  (if strings.Contains name "::" then
     match strings.SplitN name "::" 2 with
     | sourceTopic :: _ => add_binding sourceTopic name
     | [] => mret ()
     end
   else mret ()) ;;
  w ← get;
  '(msgs, err) ←
    (match storage w with
     | Some _ => with_storage ([], None) (LoadMessages name)
     | None => panic "nil pointer dereference"
     end);
  match err with
  | Some _ => mret ()
  | None =>
      install_topic name (set_Messages msgs (empty_topic name default_policy 0)) ;; mret ()
  end.
Definition LoadExistingTopics (topicNames : list string) : MB unit :=
  forM_ load_existing_topic topicNames.

(** The wildcard topics whose pattern matches. *)
Definition matchingWildcards (topicName : string) : MB (list nat) :=
  gets (λ w, omap (λ '(name, t),
    match compiledRegex w !! name with
    | Some re => if MatchString re topicName then Some t else None
    | None => None
    end) (map_range (map_to_list (wildcards w)))).

(** [helper.NewUUID()] on the next 16 random bytes. *)
Definition fresh_uuid : MB string :=
  w ← get;
  modify (set_draws (S (draws w))) ;;
  mret (NewUUID (rand_read (draws w))).

(** The capacity of [webhookSem]. *)
Definition webhook_slots : nat := 64.

Definition delivery (wh : WebhookConfig) (data : bytes) : Delivery :=
  MkDelivery (URL wh) data
    (if String.eqb (Secret wh) "" then None
     else Some ("sha256=" +:+ hex (hmac_sha256 (bytes_of_string (Secret wh)) data))).

(** The webhook loop of [pushFunc]: a delivery that finds no free slot is
    dropped. *)
Definition push_webhooks (topicName : string) (payload : bytes) : MB unit :=
  w ← get;
  forM_ (λ wh,
    modify (λ w,
      if (length (inflight w) <? webhook_slots)%nat
      then set_inflight (inflight w ++ [delivery wh payload]) w else w))
    (default [] (webhooks w !! topicName)).

(** [<-b.webhookSem] when the [i]-th delivery has ended. *)
Definition webhook_done (i : nat) : MB unit :=
  modify (λ w, set_inflight (delete i (inflight w)) w).

Definition push_spies (t : nat) (msg : Message) : MB unit :=
  Lock t ;;
  x ← load_topic t;
  forM_ (λ spy, try_send spy msg ;; mret ()) (spies x) ;;
  Unlock t.

(** [append(channels, t.waitingConsumers...); t.waitingConsumers = nil] *)
Definition take_consumers (t : nat) : MB (list nat) :=
  Lock t ;;
  x ← load_topic t;
  store_topic t (set_waitingConsumers [] x) ;;
  Unlock t ;;
  mret (waitingConsumers x).

Fixpoint take_all_consumers (ts : list nat) : MB (list nat) :=
  match ts with
  | [] => mret []
  | t :: ts' => cs ← take_consumers t; cs' ← take_all_consumers ts'; mret (cs ++ cs')
  end.

(** [t.mu.Lock(); b.removeMessageByID(t, id); t.mu.Unlock()] *)
Definition remove_message (t : nat) (id : string) : MB unit :=
  Lock t ;;
  update_topic t (λ x, default x (removeMessageByID id x)) ;;
  Unlock t.

(** The wildcard part of [pushFunc]; true when the message was handed over.  The
    [default] branch of its [select] locks [t.mu] and goes on. *)
Fixpoint push_wildcards (t : nat) (msg : Message) (ws : list nat) : MB bool :=
  match ws with
  | [] => mret false
  | wt :: ws' =>
      Lock wt ;;
      x ← load_topic wt;
      match waitingConsumers x with
      | consumerChan :: rest =>
          store_topic wt (set_waitingConsumers rest x) ;;
          Unlock wt ;;
          sent ← try_send consumerChan msg;
          if (sent : bool) then remove_message t (ID msg) ;; mret true
          else Lock t ;; push_wildcards t msg ws'
      | [] => Unlock wt ;; push_wildcards t msg ws'
      end
  end.

(** The last part of [pushFunc]: the first consumer waiting on the topic. *)
Definition push_consumer (t : nat) (msg : Message) : MB unit :=
  Lock t ;;
  x ← load_topic t;
  (match waitingConsumers x with
   | pendingConsumer :: rest =>
       store_topic t (set_waitingConsumers rest x) ;;
       Unlock t ;;
       sent ← try_send pendingConsumer msg;
       if (sent : bool) then remove_message t (ID msg) else mret ()
   | [] => Unlock t
   end).

Definition pushFunc (job : PushJob) : MB unit :=
  let '(MkPush topicName t ws msg isBroadcast) := job in
  push_webhooks topicName (Payload msg) ;;
  push_spies t msg ;;
  forM_ (λ wt, push_spies wt msg) ws ;;
  if isBroadcast then
    wcs ← take_all_consumers ws;
    tcs ← take_consumers t;
    modify (λ w, set_pending (pending w ++ [TBroadcast (wcs ++ tcs) msg]) w)
  else
    handed ← push_wildcards t msg ws;
    if (handed : bool) then mret () else push_consumer t msg.

(** The capacity check of [publishCore], the append and [t.mu.Unlock()]; [x] is
    the locked topic. *)
Definition store_limited (t : nat) (x : Topic) (topicName : string) (msg : Message)
    (priority : string) (now : Z) : MB error :=
  w ← get;
  if (maxMessages w <=? totalActiveMessages x)%Z then
    if String.eqb (Policy x) "drop-oldest" then
      match evict x with
      | None => panic "index out of range [0] with length 0"
      | Some (oldestMsg, x') =>
          with_storage None (AppendAck topicName (ID oldestMsg) now) ;;
          store_topic t (enqueue priority msg x') ;;
          Unlock t ;; mret None
      end
    else
      Unlock t ;;
      mret (Some ("queue capacity reached (max " +:+ Itoa (maxMessages w) +:+ " messages)"))
  else
    store_topic t (enqueue priority msg x) ;;
    Unlock t ;; mret None.

(** The part of [publishCore] under [t.mu]. *)
Definition publish_locked (t : nat) (topicName : string) (msg : Message) (priority : string)
    (isBroadcast : bool) (now : Z) : MB error :=
  Lock t ;;
  x ← load_topic t;
  if Deleted x then Unlock t ;; mret (Some "topic was concurrently deleted")
  else
    (if isBroadcast then mret None
     else with_storage None (AppendPut topicName msg now)) ;;
    store_limited t x topicName msg priority now.

Definition invalid_length_msg : string :=
  "invalid topic name length (must be between 1 and 255 characters)".
Definition topic_limit_msg : string := "broker maximum topic limit reached".

(** [publishCore] from [b.getOrCreateTopic(topicName)] on. *)
Definition publish_one (now : Z) (topicName : string) (payload : bytes)
    (headers : gmap string string) (priority : string) (expiresAt deliverAt : option Z)
    (isBroadcast isReplication : bool) : MB error :=
  ot ← getOrCreateTopic topicName;
  match ot with
  | None => mret (Some topic_limit_msg)
  | Some t =>
      ws ← matchingWildcards topicName;
      x ← load_topic t;
      let expiresAt :=
        match expiresAt with
        | None => if (0 <? Retention x)%Z then Some (now + Retention x)%Z else None
        | e => e
        end in
      id ← fresh_uuid;
      let msg := MkMessage id topicName payload now expiresAt deliverAt 0 headers in
      w ← get;
      let replicated :=
        match OnPublish w with
        | Some f => if isReplication then None else f topicName payload
        | None => None
        end in
      match replicated with
      | Some err => mret (Some err)
      | None =>
          err ← publish_locked t topicName msg priority isBroadcast now;
          match err with
          | Some e => mret (Some e)
          | None =>
              let job := MkPush topicName t ws msg isBroadcast in
              (if delayed now msg then
                 modify (λ w, set_pending (pending w ++ [TDelayed (default now deliverAt) job]) w)
               else pushFunc job) ;;
              mret None
          end
      end
  end.

(** [publishCore] at [depth = 11 - left]: the test [depth > 10] is [left = 0]. *)
Fixpoint publishCore (left : nat) (now : Z) (topicName : string) (payload : bytes)
    (headers : gmap string string) (priority : string) (expiresAt deliverAt : option Z)
    (isBroadcast isReplication : bool) {struct left} : MB error :=
  match left with
  | O => mret (Some "binding loop detected")
  | S left' =>
      if bool_decide (String.length topicName = 0 ∨ 255 < String.length topicName)
      then mret (Some invalid_length_msg)
      else if negb (validTopicRegex topicName) then mret (Some "invalid topic name")
      else
        (if strings.Contains topicName "::" then mret ()
         else
           w ← get;
           let boundTopics := map_range (elements (default ∅ (bindings w !! topicName))) in
           forM_ (λ dest,
             publishCore left' now dest payload headers priority expiresAt deliverAt
               isBroadcast isReplication ;; mret ()) boundTopics) ;;
        publish_one now topicName payload headers priority expiresAt deliverAt
          isBroadcast isReplication
  end.

Definition max_depth_left : nat := 11.

Definition Publish (now : Z) (topicName : string) (payload : bytes)
    (headers : gmap string string) (priority : string) (expiresAt deliverAt : option Z)
    (isBroadcast : bool) : MB error :=
  publishCore max_depth_left now topicName payload headers priority expiresAt deliverAt
    isBroadcast false.

Definition PublishReplicated (now : Z) (topicName : string) (payload : bytes) : MB error :=
  publishCore max_depth_left now topicName payload ∅ "normal" None None false true.

(** Running the work queued for another goroutine. *)
Definition run_task (task : Task) : MB unit :=
  match task with
  | TDelayed _ job => pushFunc job
  | TBroadcast channels m => forM_ (λ ch, try_send ch m ;; mret ()) channels
  end.

(** The scheduler runs the [i]-th pending task; a timer only once it is due. *)
Definition run_pending (now : Z) (i : nat) : MB unit :=
  w ← get;
  match pending w !! i with
  | None => mret ()
  | Some task =>
      let due := match task with TDelayed d _ => (d <=? now)%Z | TBroadcast _ _ => true end in
      if (due : bool) then
        modify (λ w, set_pending (delete i (pending w)) w) ;; run_task task
      else mret ()
  end.

(** [ackExpired] *)
Definition ackExpired (now : Z) (topicName : string) (expiredIDs : list string) : MB unit :=
  forM_ (λ id, with_storage None (AppendAck topicName id now) ;; mret ()) expiredIDs.

(** [t.mu.Lock(); b.extractMessages(t, limit); t.mu.Unlock()], then the
    acknowledgement of what had expired. *)
Definition extract_locked (now limit : Z) (t : nat) : MB (list Message) :=
  Lock t ;;
  x ← load_topic t;
  let '(results, expiredIDs, x') := extractMessages now limit x in
  store_topic t x' ;;
  Unlock t ;;
  ackExpired now (Name x) expiredIDs ;;
  mret results.

(** The loop over the topics a wildcard matches: the first that has something. *)
Fixpoint consume_matching (now limit : Z) (ts : list nat) : MB (list Message) :=
  match ts with
  | [] => mret []
  | t :: ts' =>
      results ← extract_locked now limit t;
      match results with
      | [] => consume_matching now limit ts'
      | _ => mret results
      end
  end.

(** The messages and the boolean [Consume] returns. *)
Definition Consume (now : Z) (topicName : string) (limit : Z) (notifyChan : nat)
    : MB (list Message * bool) :=
  if (0 <? String.length topicName)%nat && negb (IsValidTopicName topicName)
  then mret ([], false)
  else
    ot ← getOrCreateTopic topicName;
    match ot with
    | None => mret ([], false)
    | Some targetTopic =>
        w ← get;
        let matchingTopics :=
          if strings.Contains topicName "*" then
            match compiledRegex w !! topicName with
            | Some reg =>
                omap (λ '(name, t), if MatchString reg name then Some t else None)
                  (map_range (map_to_list (Topics w)))
            | None => []
            end
          else [] in
        early ← consume_matching now limit matchingTopics;
        match early with
        | _ :: _ => mret (early, true)
        | [] =>
            Lock targetTopic ;;
            x ← load_topic targetTopic;
            let '(results, expiredIDs, x') := extractMessages now limit x in
            store_topic targetTopic
              (match results with
               | [] => set_waitingConsumers (waitingConsumers x' ++ [notifyChan]) x'
               | _ => x'
               end) ;;
            Unlock targetTopic ;;
            ackExpired now (Name x) expiredIDs ;;
            mret (match results with [] => ([], false) | _ => (results, true) end)
        end
    end.

Record TopicStat : Type := MkStat {
  st_Name : string; st_MessageCount : Z; st_WaitingConsumers : Z;
  st_IsDLQ : bool; st_HasWebhooks : bool
}.

Fixpoint topic_stats (hooks : gmap string (list WebhookConfig)) (ts : list (string * nat))
    : MB (list TopicStat) :=
  match ts with
  | [] => mret []
  | (name, t) :: ts' =>
      Lock t ;; x ← load_topic t; Unlock t ;;
      rest ← topic_stats hooks ts';
      mret (MkStat name (totalActiveMessages x) (Z.of_nat (length (waitingConsumers x)))
        (strings.HasSuffix name ".dlq") (bool_decide (is_Some (hooks !! name))) :: rest)
  end.

Definition GetStats : MB (list TopicStat * Z) :=
  w ← get;
  stats ← topic_stats (webhooks w) (map_range (map_to_list (Topics w)));
  mret (stats, Z.of_nat (sum_list (length ∘ snd <$> map_to_list (webhooks w)))).

Definition RemoveWaitingConsumer (topicName : string) (notifyChan : nat) : MB unit :=
  w ← get;
  match Topics w !! topicName with
  | None => mret ()
  | Some t =>
      Lock t ;;
      update_topic t (λ x, set_waitingConsumers
        (remove_first (λ ch, bool_decide (ch = notifyChan)) (waitingConsumers x)) x) ;;
      Unlock t
  end.

Definition Ack (now : Z) (topicName msgID : string) : MB bool :=
  w ← get;
  match Topics w !! topicName with
  | None => mret false
  | Some t =>
      Lock t ;;
      x ← load_topic t;
      match removeMessageByID msgID x with
      | Some x' =>
          store_topic t x' ;;
          with_storage None (AppendAck topicName msgID now) ;;
          Unlock t ;; mret true
      | None => Unlock t ;; mret false
      end
  end.

(** The message [Requeue] stores and the topic it goes to. *)
Definition requeue_target (msg : Message) : Message * string :=
  let n := wrap_int ((if RetryCount msg <? 0 then 0 else RetryCount msg) + 1)%Z in
  let msg := set_RetryCount n msg in
  if (3 <=? n)%Z
  then (set_Topic (Message.Topic msg +:+ ".dlq") msg, Message.Topic msg +:+ ".dlq")
  else (msg, Message.Topic msg).

Definition Requeue (now : Z) (msg : Message) : MB unit :=
  let '(msg, targetTopic) := requeue_target msg in
  ot ← getOrCreateTopic targetTopic;
  match ot with
  | None => mret ()
  | Some t =>
      with_storage None (AppendPut targetTopic msg now) ;;
      Lock t ;;
      x ← load_topic t;
      match waitingConsumers x with
      | consumerChan :: rest =>
          store_topic t (set_waitingConsumers rest x) ;;
          sent ← try_send consumerChan msg;
          if (sent : bool) then Unlock t
          else update_topic t (λ x, set_Messages (Messages x ++ [msg]) x) ;; Unlock t
      | [] => update_topic t (λ x, set_Messages (Messages x ++ [msg]) x) ;; Unlock t
      end
  end.

Definition purge_topic (now : Z) (t : nat) : MB unit :=
  Lock t ;;
  x ← load_topic t;
  let '(ids1, high) := purge now (HighMessages x) in
  let '(ids2, normal) := purge now (Messages x) in
  let '(ids3, low) := purge now (LowMessages x) in
  store_topic t (set_LowMessages low (set_Messages normal (set_HighMessages high x))) ;;
  Unlock t ;;
  ackExpired now (Name x) (ids1 ++ ids2 ++ ids3).
Definition purgeExpiredMessages (now : Z) : MB unit :=
  w ← get;
  forM_ (purge_topic now) (map_range (snd <$> map_to_list (Topics w))).

(** The loop of [RedriveDLQ]: how many messages were published again. *)
Fixpoint redrive (now : Z) (dlqName targetTopic : string) (msgs : list Message) : MB Z :=
  match msgs with
  | [] => mret 0%Z
  | msg :: msgs' =>
      with_storage None (AppendAck dlqName (ID msg) now) ;;
      err ← publishCore max_depth_left now targetTopic (Payload msg) (Headers msg) "normal"
              (ExpiresAt msg) None false false;
      n ← redrive now dlqName targetTopic msgs';
      mret (match err with None => n + 1 | Some _ => n end)%Z
  end.

Definition RedriveDLQ (now : Z) (targetTopic : string) : MB (Z * error) :=
  let '(dlqName, targetTopic) :=
    if strings.HasSuffix targetTopic ".dlq"
    then (targetTopic, strings.TrimSuffix targetTopic ".dlq")
    else (targetTopic +:+ ".dlq", targetTopic) in
  w ← get;
  match Topics w !! dlqName with
  | None => mret (0%Z, Some ("DLQ topic '" +:+ dlqName +:+ "' not found"))
  | Some dlqT =>
      Lock dlqT ;;
      x ← load_topic dlqT;
      match Messages x with
      | [] => Unlock dlqT ;; mret (0%Z, None)
      | msgsToRedrive =>
          store_topic dlqT (set_Messages [] x) ;;
          Unlock dlqT ;;
          redriven ← redrive now dlqName targetTopic msgsToRedrive;
          mret (redriven, None)
      end
  end.

Definition RegisterWebhook (topicName callbackURL secret : string) : MB error :=
  w ← get;
  let configs := default [] (webhooks w !! topicName) in
  if existsb (λ wh, String.eqb (URL wh) callbackURL) configs
  then mret (Some "webhook already registered for this topic")
  else
    modify (λ w, set_webhooks
      (<[topicName := configs ++ [MkWebhook callbackURL secret]]> (webhooks w)) w) ;;
    mret None.

Definition CreateTopic (topicName policy : string) (retention : Z) : MB error :=
  if bool_decide (String.length topicName = 0 ∨ 255 < String.length topicName)
  then mret (Some "Invalid name length (1-255 characters)")
  else if negb (validTopicRegex topicName)
  then mret (Some "The name can only contain letters, numbers, '.', '-' and '_'")
  else
    w ← get;
    if (maxTopics w <=? Z.of_nat (size (Topics w)))%Z then mret (Some topic_limit_msg)
    else if bool_decide (is_Some (Topics w !! topicName))
    then mret (Some "the Topic already exists")
    else
      let policy := if String.eqb policy "drop-oldest" then policy else "reject" in
      install_topic topicName (empty_topic topicName policy retention) ;;
      mret None.

Definition Peek (topicName : string) (limit : Z) : MB (list Message) :=
  w ← get;
  match Topics w !! topicName with
  | None => mret []
  | Some t =>
      Lock t ;; x ← load_topic t; Unlock t ;; mret (peek_queues limit x)
  end.

Definition TopicExists (name : string) : MB bool :=
  gets (λ w, bool_decide (is_Some (Topics w !! name))).

Definition Purge (topicName : string) : MB error :=
  w ← get;
  match Topics w !! topicName with
  | None => mret (Some "queue not found")
  | Some t =>
      Lock t ;;
      update_topic t (λ x, set_LowMessages [] (set_HighMessages [] (set_Messages [] x))) ;;
      Unlock t ;;
      with_storage None (ClearLog topicName) ;;
      mret None
  end.

Definition DeleteTopic (topicName : string) : MB error :=
  w ← get;
  match Topics w !! topicName with
  | None => mret (Some "queue not found")
  | Some t =>
      Lock t ;;
      update_topic t (set_Deleted true) ;;
      Unlock t ;;
      modify (λ w, set_Topics (delete topicName (Topics w)) w) ;;
      modify (λ w, set_wildcards (delete topicName (wildcards w)) w) ;;
      modify (λ w, set_webhooks (delete topicName (webhooks w)) w) ;;
      modify (λ w, set_compiledRegex (delete topicName (compiledRegex w)) w) ;;
      with_storage None (DeleteLog topicName) ;;
      mret None
  end.

Definition GetWebhooks (topicName : string) : MB (list string) :=
  gets (λ w, URL <$> default [] (webhooks w !! topicName)).

(** [5 * time.Minute], in nanoseconds *)
Definition idempotency_window : Z := 300000000000.
Definition idempotency_sweep : Z := 5000.
Definition maxIdempotencyKeys : Z := 20000.

Definition IsIdempotent (now : Z) (key : string) : MB bool :=
  if String.eqb key "" then mret false
  else
    w ← get;
    let live := match idempotencyKeys w !! key with
                | Some exp => (now <? exp)%Z
                | None => false
                end in
    if (live : bool) then mret true
    else
      (if (idempotency_sweep <? Z.of_nat (size (idempotencyKeys w)))%Z then
         modify (λ w, set_idempotencyKeys
           (filter (λ kv, (now <=? kv.2)%Z = true) (idempotencyKeys w)) w)
       else mret ()) ;;
      w ← get;
      if (maxIdempotencyKeys <=? Z.of_nat (size (idempotencyKeys w)))%Z then mret false
      else
        modify (λ w, set_idempotencyKeys
          (<[key := (now + idempotency_window)%Z]> (idempotencyKeys w)) w) ;;
        mret false.

(** The buffer of a spy channel. *)
Definition spy_buffer : nat := Z.to_nat 1024.

Definition AddSpy (topicName : string) : MB (string + nat) :=
  if negb (IsValidTopicName topicName) then mret (inl "invalid topic name")
  else
    ot ← getOrCreateTopic topicName;
    match ot with
    | None => mret (inl topic_limit_msg)
    | Some t =>
        Lock t ;;
        ch ← make_chan spy_buffer;
        update_topic t (λ x, set_spies (spies x ++ [ch]) x) ;;
        Unlock t ;;
        mret (inr ch)
    end.

Definition RemoveSpy (topicName : string) (ch : nat) : MB unit :=
  w ← get;
  match Topics w !! topicName with
  | None => mret ()
  | Some t =>
      Lock t ;;
      x ← load_topic t;
      (if bool_decide (ch ∈ spies x) then
         store_topic t (set_spies (remove_first (λ spy, bool_decide (spy = ch)) (spies x)) x) ;;
         close_chan ch
       else mret ()) ;;
      Unlock t
  end.

(** The result of [b.OnGroupCreate] is discarded and it leaves the broker
    alone. *)
Definition CreateGroup (topicName groupName : string) : MB (string + string) :=
  if negb (validTopicRegex groupName) then mret (inl "invalid group name format")
  else
    let virtualName := topicName +:+ "::" +:+ groupName in
    add_binding topicName virtualName ;;
    ot ← getOrCreateTopic virtualName;
    match ot with
    | None => mret (inl topic_limit_msg)
    | Some _ => mret (inr virtualName)
    end.

Definition GetGroups (topicName : string) : MB (list string) :=
  gets (λ w, (λ vt, strings.TrimPrefix vt (topicName +:+ "::")) <$>
    map_range (elements (default ∅ (bindings w !! topicName)))).

Fixpoint snapshot (ts : list nat) : MB (list Message) :=
  match ts with
  | [] => mret []
  | t :: ts' =>
      Lock t ;; x ← load_topic t; Unlock t ;;
      rest ← snapshot ts';
      mret (HighMessages x ++ Messages x ++ LowMessages x ++ rest)
  end.
Definition GetStateSnapshot : MB (list Message) :=
  w ← get; snapshot (map_range (snd <$> map_to_list (Topics w))).

End broker.
