(* ===== verification/BrokerQueue.v ===== *)
(** * The broker's queues: selection, eviction, removal *)

From S2P Require Import Prelude.
From S2P Require Import GoLib.
From S2P Require Import Message.
From S2P Require Import Wal.
From S2P Require Import Broker.

(** The messages of a topic in delivery order. *)
Definition all_messages (t : Topic) : list Message :=
  HighMessages t ++ Messages t ++ LowMessages t.

(** ** [extractMessages] *)

(** What one pass over a queue does: the results are the first deliverable
    messages within the limit, what is dropped had expired, the rest is kept in
    order. *)
Lemma extractFrom_spec now limit q : ∀ r0 e0 k0,
  ∃ r xs keep,
    foldl (extract_step now limit) (r0, e0, k0) q = (r0 ++ r, e0 ++ (ID <$> xs), k0 ++ keep) ∧
    r = take (Z.to_nat limit - length r0) (filter (λ m, deliverable now m = true) q) ∧
    Forall (λ m, expired now m = true) xs ∧
    q ≡ₚ r ++ xs ++ keep ∧ sublist keep q.
Proof.
  induction q as [|m q IH]; intros r0 e0 k0.
  { exists [], [], []. cbn [foldl fmap list_fmap app]. rewrite !app_nil_r, filter_nil, take_nil. split_and!; [done..|constructor]. }
  simpl. destruct (Z.leb_spec limit (Z.of_nat (length r0))) as [Hle|Hgt].
  { destruct (IH r0 e0 (k0 ++ [m])) as (r & xs & keep & -> & Hr & Hx & Hp & Hs).
    replace (Z.to_nat limit - length r0) with 0 in * by lia. simpl in *. subst r.
    exists [], xs, (m :: keep). rewrite <-app_assoc. split_and!; [done..| |by constructor].
    simpl in *. rewrite Hp. by rewrite Permutation_middle. }
  destruct (expired now m) eqn:Ex.
  { destruct (IH r0 (e0 ++ [ID m]) k0) as (r & xs & keep & -> & Hr & Hx & Hp & Hs).
    exists r, (m :: xs), keep. rewrite filter_cons_False by (unfold deliverable; by rewrite Ex).
    rewrite <-app_assoc. split_and!; [done|done|by constructor| |by constructor].
    rewrite Hp. solve_Permutation. }
  destruct (delayed now m) eqn:Ed.
  { destruct (IH r0 e0 (k0 ++ [m])) as (r & xs & keep & -> & Hr & Hx & Hp & Hs).
    exists r, xs, (m :: keep).
    rewrite filter_cons_False by (unfold deliverable; by rewrite Ex, Ed).
    rewrite <-app_assoc. split_and!; [done|done|done| |by constructor].
    rewrite Hp at 1. simpl. by rewrite !Permutation_middle. }
  destruct (IH (r0 ++ [m]) e0 k0) as (r & xs & keep & -> & Hr & Hx & Hp & Hs).
  exists (m :: r), xs, keep.
  rewrite filter_cons_True by (unfold deliverable; by rewrite Ex, Ed).
  rewrite <-app_assoc. split_and!; [done| |done|by simpl; rewrite <-Hp|by constructor].
  rewrite Hr, length_app. simpl.
  replace (Z.to_nat limit - length r0) with (S (Z.to_nat limit - (length r0 + 1))) by lia.
  done.
Qed.

(** Everything but the three queues is unchanged. *)
Definition same_but_queues (t t' : Topic) : Prop :=
  Name t' = Name t ∧ waitingConsumers t' = waitingConsumers t ∧ spies t' = spies t ∧
  Policy t' = Policy t ∧ Deleted t' = Deleted t ∧ Retention t' = Retention t ∧ mu t' = mu t.

Lemma same_but_queues_refl t : same_but_queues t t.
Proof. by split_and!. Qed.

Lemma take_filter_app now (n : nat) (a b : list Message) :
  let f := filter (λ m, deliverable now m = true) in
  take n (f (a ++ b)) = take n (f a) ++ take (n - length (take n (f a))) (f b).
Proof.
  simpl. rewrite filter_app, length_take, take_app. f_equal. f_equal.
  destruct (decide (n ≤ length (filter (λ m, deliverable now m = true) a))); lia.
Qed.

(** The specification of [extractMessages]. *)
Lemma extractMessages_spec now limit t :
  ∃ xs t' results,
    extractMessages now limit t = (results, ID <$> xs, t') ∧
    results = take (Z.to_nat limit) (filter (λ m, deliverable now m = true) (all_messages t)) ∧
    Forall (λ m, expired now m = true) xs ∧
    all_messages t ≡ₚ results ++ xs ++ all_messages t' ∧
    sublist (HighMessages t') (HighMessages t) ∧ sublist (Messages t') (Messages t) ∧
    sublist (LowMessages t') (LowMessages t) ∧ same_but_queues t t'.
Proof.
  unfold extractMessages, all_messages, extractFrom.
  destruct (extractFrom_spec now limit (HighMessages t) [] [] [])
    as (r1 & x1 & k1 & -> & Hr1 & Hx1 & Hp1 & Hs1).
  simpl in Hr1. rewrite Nat.sub_0_r in Hr1. cbn [app].
  rewrite take_filter_app, <-Hr1.
  destruct (Z.ltb_spec (Z.of_nat (length r1)) limit) as [Hlt|Hge].
  2:{ (* the limit was reached in the first queue *)
    replace (Z.to_nat limit - length r1) with 0 by lia. rewrite take_0, app_nil_r.
    destruct (Z.ltb_spec (Z.of_nat (length r1)) limit); [lia|].
    eexists x1, _, r1. split_and!; [done|done|done| |done|done..].
    simpl. rewrite Hp1 at 1. by rewrite !app_assoc. }
  destruct (extractFrom_spec now limit (Messages t) r1 (ID <$> x1) [])
    as (r2 & x2 & k2 & Hf2 & Hr2 & Hx2 & Hp2 & Hs2).
  cbn [set_HighMessages Messages LowMessages]. rewrite Hf2. cbn [app].
  rewrite take_filter_app, <-Hr2.
  assert (length (r1 ++ r2) = length r1 + length r2) as Hlen by apply length_app.
  destruct (Z.ltb_spec (Z.of_nat (length (r1 ++ r2))) limit) as [Hlt2|Hge2].
  2:{ replace (Z.to_nat limit - length r1 - length r2) with 0 by lia.
    rewrite take_0, app_nil_r. eexists (x1 ++ x2), _, (r1 ++ r2).
    split_and!; [by rewrite fmap_app|done|by apply Forall_app| |done|done|done|done..].
    simpl. rewrite Hp1, Hp2 at 1. solve_Permutation. }
  destruct (extractFrom_spec now limit (LowMessages t) (r1 ++ r2) ((ID <$> x1) ++ (ID <$> x2)) [])
    as (r3 & x3 & k3 & Hf3 & Hr3 & Hx3 & Hp3 & Hs3).
  cbn [set_Messages set_HighMessages LowMessages]. rewrite Hf3. cbn [app].
  exists (x1 ++ x2 ++ x3), (set_LowMessages k3 (set_Messages k2 (set_HighMessages k1 t))), (r1 ++ r2 ++ r3).
  split_and!; [| | | |done..].
  - rewrite !fmap_app, !app_assoc. reflexivity.
  - rewrite Hr3, Hlen. by replace (Z.to_nat limit - length r1 - length r2) with
      (Z.to_nat limit - (length r1 + length r2)) by lia.
  - by rewrite !Forall_app.
  - simpl. rewrite Hp1, Hp2, Hp3 at 1. solve_Permutation.
Qed.

(** ** Removal by identifier *)

Lemma removeFromSlice_fresh id q : (∀ m, m ∈ q → ID m ≠ id) → removeFromSlice id q = None.
Proof.
  intros Hq. unfold removeFromSlice. rewrite (proj2 (existsb_false_elem _ _)); [done|].
  intros m Hm. unfold has_id. apply bool_decide_eq_false. auto.
Qed.

Lemma removeFromSlice_last m q :
  (∀ m', m' ∈ q → ID m' ≠ ID m) → removeFromSlice (ID m) (q ++ [m]) = Some q.
Proof.
  intros Hq.
  assert (existsb (has_id (ID m)) q = false) as Hex.
  { apply existsb_false_elem. intros m' Hm'. unfold has_id. apply bool_decide_eq_false. auto. }
  assert (has_id (ID m) m = true) as Hm by (unfold has_id; by apply bool_decide_eq_true).
  unfold removeFromSlice. rewrite existsb_app, Hex. simpl. rewrite Hm. simpl.
  f_equal. by apply remove_first_app_last.
Qed.

(** Taking back the message just queued. *)
Lemma removeMessageByID_enqueue p m x :
  (∀ m', m' ∈ all_messages x → ID m' ≠ ID m) →
  removeMessageByID (ID m) (enqueue p m x) = Some x.
Proof.
  unfold all_messages. intros Hx. unfold removeMessageByID, enqueue.
  assert (∀ q, (∀ m', m' ∈ q → m' ∈ HighMessages x ++ Messages x ++ LowMessages x) →
    removeFromSlice (ID m) q = None) as Hnone.
  { intros q Hq. apply removeFromSlice_fresh. auto. }
  destruct (String.eqb p "high"); [|destruct (String.eqb p "low")]; simpl.
  - rewrite removeFromSlice_last by set_solver. by destruct x.
  - rewrite !Hnone by set_solver. rewrite removeFromSlice_last by set_solver. by destruct x.
  - rewrite !Hnone by set_solver. rewrite removeFromSlice_last by set_solver. by destruct x.
Qed.

Lemma has_id_true id m : has_id id m = true ↔ ID m = id.
Proof. unfold has_id. apply bool_decide_eq_true. Qed.

Lemma removeFromSlice_None id q : removeFromSlice id q = None ↔ ∀ m, m ∈ q → ID m ≠ id.
Proof.
  unfold removeFromSlice. destruct (existsb (has_id id) q) eqn:E; split; try done.
  - intros Hq. apply existsb_exists in E as (m & Hm & Hid%has_id_true).
    apply list_elem_of_In in Hm. by destruct (Hq m Hm).
  - intros _ m Hm Hid%has_id_true. pose proof (proj1 (existsb_false_elem _ _) E m Hm). congruence.
Qed.

Lemma removeFromSlice_Some id q q' :
  removeFromSlice id q = Some q' → ∃ m, ID m = id ∧ q ≡ₚ m :: q'.
Proof.
  unfold removeFromSlice. rewrite existsb_find. intros Hq.
  destruct (List.find (has_id id) q) as [m|] eqn:E; simpl in Hq; [|done].
  injection Hq as <-. exists m. apply find_some in E as Hm. destruct Hm as [_ ?%has_id_true].
  split; [done|]. by apply remove_first_perm.
Qed.

(** [removeMessageByID] takes one message with that identifier, if there is one. *)
Lemma removeMessageByID_spec id x :
  match removeMessageByID id x with
  | Some x' => ∃ m, ID m = id ∧ all_messages x ≡ₚ m :: all_messages x' ∧ same_but_queues x x'
  | None => ∀ m, m ∈ all_messages x → ID m ≠ id
  end.
Proof.
  unfold removeMessageByID, all_messages.
  destruct (removeFromSlice id (HighMessages x)) as [q|] eqn:E1.
  { destruct (removeFromSlice_Some _ _ _ E1) as (m & ? & Hp). exists m. simpl.
    split_and!; [done|by rewrite Hp|done..]. }
  destruct (removeFromSlice id (Messages x)) as [q|] eqn:E2.
  { destruct (removeFromSlice_Some _ _ _ E2) as (m & ? & Hp). exists m. simpl.
    split_and!; [done| |done..]. rewrite Hp. solve_Permutation. }
  destruct (removeFromSlice id (LowMessages x)) as [q|] eqn:E3.
  { destruct (removeFromSlice_Some _ _ _ E3) as (m & ? & Hp). exists m. simpl.
    split_and!; [done| |done..]. rewrite Hp.
    solve_Permutation. }
  intros m Hm. rewrite !elem_of_app in Hm.
  rewrite removeFromSlice_None in E1, E2, E3. naive_solver.
Qed.
