(* ===== verification/BrokerSteps.v ===== *)
(** * What each critical section of the broker does

    A sequence [Lock; ...; Unlock] on a free mutex is one update of the topic.
    This file turns every such section into that update, so that the broker's
    theorems never look at the mutex again.  All specifications are stated with
    [wps]: the code returns, or the process crashes inside a storage call; it
    does not panic and does not block. *)

From S2P Require Import Prelude.
From S2P Require Import GoLib.
From S2P Require Import Message.
From S2P Require Import Wal.
From S2P Require Import Broker.
From S2P Require Import BrokerQueue.

(** [wpx] with nothing to show after a crash. *)
Abbreviation wps c Q w := (wpx c Q (λ _, True) w).

(** ** The mutex bit does not matter to the queue operations *)

Lemma set_mu_idem b c t : set_mu b (set_mu c t) = set_mu b t.
Proof. done. Qed.

Lemma set_mu_same t : mu t = false → set_mu false t = t.
Proof. by destruct t; simpl; intros ->. Qed.

Lemma set_mu_waiting b l t :
  mu t = false → set_mu false (set_waitingConsumers l (set_mu b t)) = set_waitingConsumers l t.
Proof. by destruct t; simpl; intros ->. Qed.

Lemma set_mu_eta b t : mu t = b → t = set_mu b t.
Proof. by destruct t; simpl; intros ->. Qed.

Lemma extractMessages_mu now limit b t :
  extractMessages now limit (set_mu b t) =
  let '(r, e, t') := extractMessages now limit t in (r, e, set_mu b t').
Proof.
  unfold extractMessages. simpl.
  destruct (extractFrom now limit [] [] (HighMessages t)) as [[r e] k].
  destruct (Z.of_nat (length r) <? limit)%Z eqn:H1; simpl; [|by rewrite H1].
  destruct (extractFrom now limit r e (Messages t)) as [[r2 e2] k2]. simpl.
  destruct (Z.of_nat (length r2) <? limit)%Z; [|done].
  by destruct (extractFrom now limit r2 e2 (LowMessages t)) as [[??]?].
Qed.

Lemma removeMessageByID_mu id b t :
  removeMessageByID id (set_mu b t) = set_mu b <$> removeMessageByID id t.
Proof. unfold removeMessageByID. simpl. by repeat case_match. Qed.

Lemma evict_mu b t :
  evict (set_mu b t) = (λ '(m, t'), (m, set_mu b t')) <$> evict t.
Proof. unfold evict. simpl. by repeat case_match. Qed.

Lemma enqueue_mu p m b t : enqueue p m (set_mu b t) = set_mu b (enqueue p m t).
Proof. unfold enqueue. by repeat case_match. Qed.

(** ** Primitive steps *)

(** Storing a topic. *)
Definition upd {St} (t : nat) (x : Topic) (w : World St) : World St :=
  set_heap (<[t := x]> (heap w)) w.

(** A send that does not block, on an open channel. *)
Definition push (m : Message) (ch : nat) (cs : gmap nat Chan) : gmap nat Chan :=
  match cs !! ch with
  | Some c =>
      if (length (buf c) <? cap c)%nat
      then <[ch := MkChan (cap c) (buf c ++ [m]) false]> cs else cs
  | None => cs
  end.
Definition push_all (m : Message) (chs : list nat) (cs : gmap nat Chan) : gmap nat Chan :=
  foldl (λ cs ch, push m ch cs) cs chs.

Lemma push_ne m ch ch' cs : ch ≠ ch' → push m ch cs !! ch' = cs !! ch'.
Proof. intros. unfold push. repeat case_match; [by rewrite lookup_insert_ne|done..]. Qed.

Lemma push_eq m ch c cs :
  cs !! ch = Some c → closed c = false →
  push m ch cs !! ch = Some (if (length (buf c) <? cap c)%nat
                             then MkChan (cap c) (buf c ++ [m]) false else c).
Proof. intros Hc Hcl. unfold push. rewrite Hc. case_match; [apply lookup_insert_eq|done]. Qed.

Lemma push_open m ch ch' cs :
  (∃ c, cs !! ch' = Some c ∧ closed c = false) →
  ∃ c, push m ch cs !! ch' = Some c ∧ closed c = false.
Proof.
  intros (c & Hc & Hcl). destruct (decide (ch = ch')) as [->|].
  - rewrite (push_eq _ _ c) by done. case_match; eauto.
  - rewrite push_ne by done. eauto.
Qed.

Lemma push_dom m ch cs : dom (push m ch cs) = dom cs.
Proof. unfold push. repeat case_match; [|done..]. rewrite dom_insert_lookup_L; eauto. Qed.

Lemma push_all_ne m chs ch cs : ch ∉ chs → push_all m chs cs !! ch = cs !! ch.
Proof.
  revert cs. induction chs as [|a chs IH]; intros cs Hn; [done|].
  simpl. rewrite IH by set_solver. apply push_ne. set_solver.
Qed.

Lemma push_all_open m chs ch cs :
  (∃ c, cs !! ch = Some c ∧ closed c = false) →
  ∃ c, push_all m chs cs !! ch = Some c ∧ closed c = false.
Proof.
  revert cs. induction chs as [|a chs IH]; intros cs Hc; [done|]. by apply IH, push_open.
Qed.

Lemma push_all_dom m chs cs : dom (push_all m chs cs) = dom cs.
Proof.
  revert cs. induction chs as [|a chs IH]; intros cs; [done|]. simpl. by rewrite IH, push_dom.
Qed.

Section steps.
Context {St : Type}.
Implicit Types (w : World St) (E : World St → Prop).

Lemma upd_upd t x y w : upd t y (upd t x w) = upd t y w.
Proof. unfold upd, set_heap. simpl. by rewrite insert_insert_eq. Qed.

Lemma heap_upd t x w : heap (upd t x w) !! t = Some x.
Proof. simpl. apply lookup_insert_eq. Qed.

Lemma heap_upd_ne t t' x w : t ≠ t' → heap (upd t x w) !! t' = heap w !! t'.
Proof. apply lookup_insert_ne. Qed.

Lemma upd_same t x w : heap w !! t = Some x → upd t x w = w.
Proof. intros Hx. unfold upd. rewrite insert_id by done. by destruct w. Qed.

Lemma wpx_load_topic t x Q E w :
  heap w !! t = Some x → Q x w → wpx (load_topic t) Q E w.
Proof. intros Hx HQ. apply wpx_bind, wpx_get. by rewrite Hx. Qed.

Lemma wpx_store_topic t x Q E w : Q () (upd t x w) → wpx (store_topic t x) Q E w.
Proof. done. Qed.

Lemma wpx_update_topic t f x Q E w :
  heap w !! t = Some x → Q () (upd t (f x) w) → wpx (update_topic t f) Q E w.
Proof. intros Hx HQ. apply wpx_bind. by eapply wpx_load_topic. Qed.

Lemma wpx_Lock t x Q E w :
  heap w !! t = Some x → mu x = false → Q () (upd t (set_mu true x) w) →
  wpx (Lock t) Q E w.
Proof.
  intros Hx Hm HQ. apply wpx_bind. eapply wpx_load_topic; [done|]. by rewrite Hm.
Qed.

Lemma wpx_Unlock t x Q E w :
  Q () (upd t (set_mu false x) w) → mu x = true → wpx (Unlock t) Q E (upd t x w).
Proof.
  intros HQ Hm. apply wpx_bind. eapply wpx_load_topic; [apply heap_upd|]. rewrite Hm.
  apply wpx_store_topic. by rewrite upd_upd.
Qed.

(** Entering a critical section: lock, then read the topic. *)
Lemma wpx_enter {A} t x (k : Topic → M (World St) A) Q E w :
  heap w !! t = Some x → mu x = false →
  wpx (k (set_mu true x)) Q E (upd t (set_mu true x) w) →
  wpx (Lock t ;; x ← load_topic t; k x) Q E w.
Proof.
  intros Hx Hm Hk. apply wpx_bind. eapply wpx_Lock; [done..|].
  apply wpx_bind. eapply wpx_load_topic; [apply heap_upd|done].
Qed.

(** Leaving it after a store. *)
Lemma wpx_leave {A} t x y (k : M (World St) A) Q E w :
  mu y = true → wpx k Q E (upd t (set_mu false y) w) →
  wpx (store_topic t y ;; Unlock t ;; k) Q E (upd t x w).
Proof.
  intros Hm Hk. apply wpx_bind, wpx_store_topic. rewrite upd_upd.
  apply wpx_bind. by apply wpx_Unlock.
Qed.

Lemma wpx_leave' t x y Q E w :
  mu y = true → Q () (upd t (set_mu false y) w) →
  wpx (store_topic t y ;; Unlock t) Q E (upd t x w).
Proof.
  intros Hm Hk. apply wpx_bind, wpx_store_topic. rewrite upd_upd. by apply wpx_Unlock.
Qed.

(** Leaving it with the topic as it was. *)
Lemma wpx_release t x Q E w :
  heap w !! t = Some x → mu x = false → Q () w →
  wpx (Unlock t) Q E (upd t (set_mu true x) w).
Proof.
  intros Hx Hm HQ. apply wpx_Unlock; [|done].
  rewrite set_mu_idem, set_mu_same, upd_same by done. done.
Qed.

(** A section that applies [f] to the topic. *)
Lemma wpx_section t x (f : Topic → Topic) Q E w :
  heap w !! t = Some x → mu x = false → (∀ b y, f (set_mu b y) = set_mu b (f y)) →
  mu (f x) = false → Q () (upd t (f x) w) →
  wpx (Lock t ;; update_topic t f ;; Unlock t) Q E w.
Proof.
  intros Hx Hm Hf Hmf HQ. apply wpx_bind. eapply wpx_Lock; [done..|].
  apply wpx_bind. eapply wpx_update_topic; [apply heap_upd|].
  rewrite upd_upd, Hf. apply wpx_Unlock; [|done].
  by rewrite set_mu_idem, set_mu_same.
Qed.

(** A section that only reads. *)
Lemma wpx_read {A} t x (k : Topic → M (World St) A) Q E w :
  heap w !! t = Some x → mu x = false → wpx (k (set_mu true x)) Q E w →
  wpx (Lock t ;; x ← load_topic t; Unlock t ;; k x) Q E w.
Proof.
  intros Hx Hm Hk. eapply wpx_enter; [done..|]. apply wpx_bind. by apply wpx_release.
Qed.

Lemma wpx_try_send ch c m Q E w :
  chans w !! ch = Some c → closed c = false →
  Q (length (buf c) <? cap c)%nat (set_chans (push m ch (chans w)) w) →
  wpx (try_send ch m) Q E w.
Proof.
  intros Hc Hcl HQ. apply wpx_bind, wpx_get. rewrite Hc, Hcl.
  unfold push in HQ. rewrite Hc in HQ.
  destruct (length (buf c) <? cap c)%nat; [done|]. apply wpx_ret.
  by destruct w.
Qed.

(** A loop of sends that nobody waits for. *)
Lemma wpx_send_all chs m Q E w :
  (∀ ch, ch ∈ chs → ∃ c, chans w !! ch = Some c ∧ closed c = false) →
  Q () (set_chans (push_all m chs (chans w)) w) →
  wpx (forM_ (λ ch, try_send ch m ;; mret ()) chs) Q E w.
Proof.
  revert w. induction chs as [|ch chs IH]; intros w Hop HQ; [by destruct w|].
  apply wpx_bind, wpx_bind. destruct (Hop ch) as (c & Hc & Hcl); [by left|].
  eapply wpx_try_send; [done..|]. apply wpx_ret. apply IH; [|done].
  intros ch' Hin. simpl. apply push_open. apply Hop. by right.
Qed.

(** Storage calls: any result, and only the storage has changed. *)
Lemma wps_with_storage {A} (absent : A) (c : M St A) (Q : A → World St → Prop) w :
  safe c →
  (∀ r st, (∀ s, storage w = Some s → ∃ s', c s = (Ret r, s') ∧ st = Some s') →
     (storage w = None → r = absent ∧ st = None) → Q r (set_storage st w)) →
  wps (with_storage absent c) Q w.
Proof.
  intros Hs HQ. unfold wpx, with_storage. destruct (storage w) as [s|] eqn:Ew.
  - specialize (Hs s). unfold wpx in Hs. destruct (c s) as [[r|?| |] s'] eqn:Ec; try done.
    apply HQ; [|done]. intros ? [= <-]. eauto.
  - replace w with (set_storage None w) by (rewrite <-Ew; by destruct w).
    apply HQ; [done|]. done.
Qed.

End steps.

(** ** The sections of the broker's methods *)

Section sections.
Context `{R : Runtime} {St : Type} `{Storage St} `{!StorageSafe St}.
Implicit Types (w : World St) (E : World St → Prop).

Lemma wps_ackExpired now name ids (Q : unit → World St → Prop) w :
  (∀ st, Q () (set_storage st w)) → wps (ackExpired now name ids) Q w.
Proof.
  revert w. induction ids as [|id ids IH]; intros w HQ.
  - apply wpx_ret. specialize (HQ (storage w)). by destruct w.
  - apply wpx_bind, wpx_bind, wps_with_storage; [auto with tmq|]. intros r st _ _.
    apply wpx_ret, IH. intros st'. apply HQ.
Qed.

Lemma extractMessages_same now limit x r e x' :
  extractMessages now limit x = (r, e, x') → same_but_queues x x'.
Proof.
  intros He. destruct (extractMessages_spec now limit x)
    as (? & ? & ? & He' & _ & _ & _ & _ & _ & _ & Hs). rewrite He in He'. by simplify_eq.
Qed.

Lemma wps_extract_locked now limit t x (Q : list Message → World St → Prop) w :
  heap w !! t = Some x → mu x = false →
  (∀ r e x' st, extractMessages now limit x = (r, e, x') → Q r (set_storage st (upd t x' w))) →
  wps (extract_locked now limit t) Q w.
Proof.
  intros Hx Hm HQ. eapply wpx_enter; [done..|]. rewrite extractMessages_mu.
  destruct (extractMessages now limit x) as [[r e] x'] eqn:Ee.
  apply wpx_leave; [done|]. rewrite set_mu_idem.
  destruct (extractMessages_same _ _ _ _ _ _ Ee) as (_ & _ & _ & _ & _ & _ & Hm').
  rewrite set_mu_same by congruence.
  apply wpx_bind, wps_ackExpired. intros st. apply wpx_ret. by eapply HQ.
Qed.

Lemma wpx_take_consumers t x Q E w :
  heap w !! t = Some x → mu x = false →
  Q (waitingConsumers x) (upd t (set_waitingConsumers [] x) w) →
  wpx (take_consumers t) Q E w.
Proof.
  intros Hx Hm HQ. eapply wpx_enter; [done..|]. apply wpx_leave; [done|]. apply wpx_ret.
  destruct x; simpl in *; by subst.
Qed.

Lemma wpx_push_spies t x m Q E w :
  heap w !! t = Some x → mu x = false →
  (∀ ch, ch ∈ spies x → ∃ c, chans w !! ch = Some c ∧ closed c = false) →
  Q () (set_chans (push_all m (spies x) (chans w)) w) →
  wpx (push_spies t m) Q E w.
Proof.
  intros Hx Hm Hop HQ. eapply wpx_enter; [done..|]. apply wpx_bind.
  apply wpx_send_all; [done|]. simpl.
  change (set_chans ?cs (upd t ?y w)) with (upd t y (set_chans cs w)).
  by apply wpx_release.
Qed.

Lemma removeMessageByID_same id x x' :
  removeMessageByID id x = Some x' → same_but_queues x x'.
Proof. unfold removeMessageByID. intros ?. case_all; by split_and!. Qed.

Lemma wpx_remove_message t x id Q E w :
  heap w !! t = Some x → mu x = false →
  Q () (upd t (default x (removeMessageByID id x)) w) →
  wpx (remove_message t id) Q E w.
Proof.
  intros Hx Hm HQ. eapply wpx_section; [done..| | |done].
  - intros b y. rewrite removeMessageByID_mu. by destruct (removeMessageByID id y).
  - destruct (removeMessageByID id x) eqn:Er; [|done].
    apply removeMessageByID_same in Er as (_ & _ & _ & _ & _ & _ & Hm'). simpl. congruence.
Qed.

(** [inflight] after the webhook loop: the deliveries that found a slot. *)
Lemma wpx_push_webhooks name data Q E w :
  Q () (set_inflight (inflight w ++
          take (webhook_slots - length (inflight w))
            ((λ wh, delivery wh data) <$> default [] (webhooks w !! name))) w) →
  wpx (push_webhooks name data) Q E w.
Proof.
  intros HQ. apply wpx_bind, wpx_get. revert HQ.
  generalize (default [] (webhooks w !! name)) as hs. intros hs. revert w.
  induction hs as [|h hs IH]; intros w HQ.
  - rewrite fmap_nil, take_nil, app_nil_r in HQ. apply wpx_ret. by destruct w.
  - apply wpx_bind, wpx_modify. apply IH.
    destruct (Nat.ltb_spec (length (inflight w)) webhook_slots) as [Hl|Hl].
    + simpl. rewrite length_app, <-app_assoc. simpl.
      replace (webhook_slots - length (inflight w)) with
        (S (webhook_slots - (length (inflight w) + 1))) in HQ by lia. done.
    + replace (webhook_slots - length (inflight w)) with 0 in HQ |- * by lia. done.
Qed.

(** What [publish_locked] did, by the topic it found. *)
Inductive published (limit : Z) (x : Topic) (p : string) (m : Message)
  : error → Topic → Prop :=
| pub_deleted :
    Deleted x = true → published limit x p m (Some "topic was concurrently deleted") x
| pub_full :
    Deleted x = false → (limit ≤ totalActiveMessages x)%Z → Policy x ≠ "drop-oldest" →
    published limit x p m
      (Some ("queue capacity reached (max " +:+ Itoa (limit) +:+ " messages)")) x
| pub_evict old x' :
    Deleted x = false → (limit ≤ totalActiveMessages x)%Z → Policy x = "drop-oldest" →
    evict x = Some (old, x') → published limit x p m None (enqueue p m x')
| pub_room :
    Deleted x = false → (totalActiveMessages x < limit)%Z →
    published limit x p m None (enqueue p m x).

Lemma evict_same x m x' : evict x = Some (m, x') → same_but_queues x x'.
Proof. unfold evict. intros ?. case_all; by split_and!. Qed.

Lemma enqueue_same p m x : same_but_queues x (enqueue p m x).
Proof. unfold enqueue. by repeat case_match. Qed.

Lemma evict_some x : (0 < totalActiveMessages x)%Z → ∃ m x', evict x = Some (m, x').
Proof.
  unfold totalActiveMessages, evict. intros. repeat case_match; eauto. simpl in *. lia.
Qed.

Lemma set_storage_self w : set_storage (storage w) w = w.
Proof. by destruct w. Qed.

Lemma wps_store_limited t x name m p now (Q : error → World St → Prop) w :
  heap w !! t = Some x → mu x = false → Deleted x = false → (0 < maxMessages w)%Z →
  (∀ err x' st, published (maxMessages w) x p m err x' → Q err (set_storage st (upd t x' w))) →
  wps (store_limited t (set_mu true x) name m p now) Q (upd t (set_mu true x) w).
Proof.
  intros Hx Hm Hd Hmax HQ. apply wpx_bind, wpx_get.
  change (totalActiveMessages (set_mu true x)) with (totalActiveMessages x).
  simpl. rewrite evict_mu, enqueue_mu.
  destruct (Z.leb_spec (maxMessages w) (totalActiveMessages x)) as [Hfull|Hroom].
  - destruct (String.eqb_spec (Policy x) "drop-oldest") as [Hp|Hp].
    + destruct (evict_some x) as (old & x' & Hev); [lia|]. rewrite Hev. simpl.
      apply wpx_bind, wps_with_storage; [auto with tmq|]. intros r st _ _.
      change (set_storage st (upd t ?y ?v)) with (upd t y (set_storage st v)).
      rewrite enqueue_mu. apply wpx_leave; [done|]. rewrite set_mu_idem.
      destruct (evict_same _ _ _ Hev) as (_ & _ & _ & _ & _ & _ & Hm').
      destruct (enqueue_same p m x') as (_ & _ & _ & _ & _ & _ & Hm'').
      rewrite set_mu_same by congruence. apply wpx_ret.
      by apply (HQ None _ st), (pub_evict _ _ _ _ old).
    + apply wpx_bind, wpx_release; [done..|]. apply wpx_ret.
      rewrite <-(set_storage_self w), <-(upd_same t x w) by done.
      by apply (HQ _ x), pub_full.
  - apply wpx_leave; [done|]. rewrite set_mu_idem.
    destruct (enqueue_same p m x) as (_ & _ & _ & _ & _ & _ & Hm').
    rewrite set_mu_same by congruence. apply wpx_ret.
    rewrite <-(set_storage_self (upd t _ w)). by apply (HQ None _ (storage w)), pub_room.
Qed.

Lemma wps_publish_locked t x name m p bc now (Q : error → World St → Prop) w :
  heap w !! t = Some x → mu x = false → (0 < maxMessages w)%Z →
  (∀ err x' st, published (maxMessages w) x p m err x' → Q err (set_storage st (upd t x' w))) →
  wps (publish_locked t name m p bc now) Q w.
Proof.
  intros Hx Hm Hmax HQ. eapply wpx_enter; [done..|]. simpl.
  destruct (Deleted x) eqn:Ed.
  { apply wpx_bind, wpx_release; [done..|]. apply wpx_ret.
    rewrite <-(set_storage_self w), <-(upd_same t x w) by done. by apply HQ, pub_deleted. }
  apply wpx_bind. destruct bc.
  - apply wpx_ret, wps_store_limited; done.
  - apply wps_with_storage; [auto with tmq|]. intros r st _ _.
    change (set_storage st (upd t ?y w)) with (upd t y (set_storage st w)).
    apply wps_store_limited; [done..|]. intros err x' st'. apply (HQ err x' st').
Qed.

End sections.
