(* ===== verification/BrokerSafe.v ===== *)
(** * The broker's global invariant

    [wf] collects what makes the broker's shared state consistent: every mutex
    is free between operations, the topic maps point at live topics, a channel
    is registered at one place at most, registered channels are open, a waiting
    consumer's channel has room, and the tables with a limit are within it.
    Every operation keeps [wf] and, from a [wf] state, neither panics nor blocks
    for ever. *)

From S2P Require Import Prelude.
From S2P Require Import GoLib.
From S2P Require Import Message.
From S2P Require Import Wal.
From S2P Require Import Broker.
From S2P Require Import BrokerQueue.
From S2P Require Import BrokerSteps.

(** The channels registered with a topic. *)
Definition registered (x : Topic) : list nat := spies x ++ waitingConsumers x.

Definition open_in (cs : gmap nat Chan) (ch : nat) : Prop :=
  ∃ c, cs !! ch = Some c ∧ closed c = false.

Section invariant.
Context {St : Type}.
Implicit Types w : World St.

(** A channel nobody will close: open and registered nowhere. *)
Definition unclaimed w (ch : nat) : Prop :=
  open_in (chans w) ch ∧ ∀ a x, heap w !! a = Some x → ch ∉ registered x.

Definition valid w (a : nat) : Prop := is_Some (heap w !! a).

Definition job_ok w (job : PushJob) : Prop :=
  valid w (pj_t job) ∧ Forall (valid w) (pj_wildcards job).

Definition task_ok w (task : Task) : Prop :=
  match task with
  | TDelayed _ job => job_ok w job
  | TBroadcast channels _ => Forall (unclaimed w) channels
  end.

Record wf w : Prop := {
  wf_heap a x : heap w !! a = Some x → a < next_addr w ∧ mu x = false;
  wf_chans ch c : chans w !! ch = Some c → ch < next_addr w;
  wf_topics n a : Topics w !! n = Some a →
    ∃ x, heap w !! a = Some x ∧ Name x = n ∧ Deleted x = false;
  wf_wildcards n a : wildcards w !! n = Some a →
    Topics w !! n = Some a ∧ strings.Contains n "*" = true;
  wf_nodup a x : heap w !! a = Some x → NoDup (registered x);
  wf_apart a b x y ch : heap w !! a = Some x → heap w !! b = Some y →
    ch ∈ registered x → ch ∈ registered y → a = b;
  wf_spies a x ch : heap w !! a = Some x → ch ∈ spies x → open_in (chans w) ch;
  wf_waiting a x ch : heap w !! a = Some x → ch ∈ waitingConsumers x →
    ∃ n, chans w !! ch = Some (MkChan n [] false) ∧ 0 < n;
  wf_pending : Forall (task_ok w) (pending w);
  wf_bindings n B d : bindings w !! n = Some B → d ∈ B → strings.Contains d "::" = true;
  wf_limit : (0 < maxMessages w)%Z;
  wf_slots : length (inflight w) ≤ webhook_slots;
  wf_keys : (Z.of_nat (size (idempotencyKeys w)) ≤ maxIdempotencyKeys)%Z
}.

(** Topics are never freed. *)
Definition ext w w' : Prop := ∀ a, valid w a → valid w' a.

Lemma ext_refl w : ext w w.
Proof. by intros a. Qed.

Lemma ext_trans w1 w2 w3 : ext w1 w2 → ext w2 w3 → ext w1 w3.
Proof. intros H1 H2 a Ha. auto. Qed.

Lemma ext_job w w' job : ext w w' → job_ok w job → job_ok w' job.
Proof.
  intros He [H1 H2]. split; [by apply He|]. eapply Forall_impl; [exact H2|]. apply He.
Qed.

Lemma ext_upd t y w : ext w (upd t y w).
Proof.
  intros a Ha. unfold valid in *. simpl. destruct (decide (t = a)) as [->|].
  - rewrite lookup_insert_eq. eauto.
  - by rewrite lookup_insert_ne.
Qed.

(** ** Updates that keep the invariant *)

Lemma wf_set_storage st w : wf w → wf (set_storage st w).
Proof. intros [? ? ? ? ? ? ? ? ? ? ? ? ?]. by split. Qed.

(** The topic [x'] can replace [x]: same identity, no new channels. *)
Definition shrinks (x x' : Topic) : Prop :=
  mu x' = mu x ∧ Name x' = Name x ∧ Deleted x' = Deleted x ∧
  sublist (spies x') (spies x) ∧ sublist (waitingConsumers x') (waitingConsumers x).

Lemma same_shrinks x x' : same_but_queues x x' → shrinks x x'.
Proof.
  intros (? & Hw & Hs & ? & ? & ? & ?). unfold shrinks. rewrite Hw, Hs. by split_and!.
Qed.

Lemma shrinks_registered x x' : shrinks x x' → sublist (registered x') (registered x).
Proof. intros (_ & _ & _ & ? & ?). by apply sublist_app. Qed.

(** A consumer's channel before it is registered. *)
Definition idle w (ch : nat) : Prop :=
  (∃ n, chans w !! ch = Some (MkChan n [] false) ∧ 0 < n) ∧
  (∀ a x, heap w !! a = Some x → ch ∉ registered x) ∧
  (∀ chs m, TBroadcast chs m ∈ pending w → ch ∉ chs).

(** The topic [x'] may stand where [x] stood: it registers channels of [x] and
    idle ones. *)
Definition replaces w (x x' : Topic) : Prop :=
  mu x' = false ∧ Name x' = Name x ∧ NoDup (registered x') ∧
  (∀ ch, ch ∈ spies x' → ch ∈ spies x ∨ idle w ch) ∧
  (∀ ch, ch ∈ waitingConsumers x' → ch ∈ waitingConsumers x ∨ idle w ch).

Lemma replaces_registered w x x' ch :
  replaces w x x' → ch ∈ registered x' → ch ∈ registered x ∨ idle w ch.
Proof.
  intros (_ & _ & _ & Hs & Hw). unfold registered. rewrite !elem_of_app.
  intros [[]%Hs|[]%Hw]; auto.
Qed.

(** Who holds a channel after the replacement. *)
Lemma upd_registered w t x x' a y ch :
  heap w !! t = Some x → replaces w x x' → heap (upd t x' w) !! a = Some y →
  ch ∈ registered y →
  (∃ y0, heap w !! a = Some y0 ∧ ch ∈ registered y0) ∨ (a = t ∧ idle w ch).
Proof.
  intros Hx Hr. destruct (decide (t = a)) as [<-|]; [|rewrite heap_upd_ne by done; eauto].
  rewrite heap_upd. intros [= <-] Hc. destruct (replaces_registered _ _ _ _ Hr Hc); eauto.
Qed.

Lemma upd_task w t x x' task :
  wf w → heap w !! t = Some x → replaces w x x' → task ∈ pending w →
  task_ok (upd t x' w) task.
Proof.
  intros Hwf Hx Hr Hin. pose proof (proj1 (Forall_forall _ _) (wf_pending _ Hwf) _ Hin) as Hok.
  destruct task as [d job|chs m]; simpl in *; [by eapply ext_job; [apply ext_upd|]|].
  apply Forall_forall. intros c Hc. rewrite Forall_forall in Hok.
  destruct (Hok c Hc) as [Ho Hf]. split; [done|]. intros a y Hy Hcy.
  destruct (upd_registered w t x x' a y c) as [(y0 & ? & ?)|[_ (_ & _ & Hid)]]; [done..| |].
  - by eapply Hf.
  - by eapply Hid.
Qed.

Lemma wf_replace t x x' w :
  wf w → heap w !! t = Some x → replaces w x x' →
  (Deleted x' = Deleted x ∨ ∀ n, Topics w !! n ≠ Some t) → wf (upd t x' w).
Proof.
  intros Hwf Hx Hr Hd. pose proof Hr as (Hm & Hn & Hnd & Hs & Hw).
  split; simpl; try apply Hwf.
  - intros a y. destruct (decide (t = a)) as [<-|].
    + rewrite lookup_insert_eq. intros [= <-]. split; [by eapply wf_heap|done].
    + rewrite lookup_insert_ne by done. apply Hwf.
  - intros n a Ha. destruct (wf_topics _ Hwf n a Ha) as (y & Hy & Hyn & Hyd).
    destruct (decide (t = a)) as [<-|]; [|exists y; by rewrite lookup_insert_ne].
    exists x'. rewrite lookup_insert_eq, Hn. rewrite Hx in Hy. injection Hy as <-.
    split_and!; [done..|]. destruct Hd as [->|Hd]; [done|]. by destruct (Hd n).
  - intros a y. destruct (decide (t = a)) as [<-|].
    + rewrite lookup_insert_eq. by intros [= <-].
    + rewrite lookup_insert_ne by done. apply Hwf.
  - intros a b y z c Hy Hz Hcy Hcz.
    destruct (upd_registered w t x x' a y c) as [(y0 & Hy0 & Hc0)|[-> Hi]],
      (upd_registered w t x x' b z c) as [(z0 & Hz0 & Hc1)|[-> Hi']]; try done.
    + by eapply (wf_apart _ Hwf).
    + by destruct Hi' as (_ & Hi' & _), (Hi' a y0 Hy0).
    + by destruct Hi as (_ & Hi & _), (Hi b z0 Hz0).
  - intros a y c. destruct (decide (t = a)) as [<-|];
      [|rewrite lookup_insert_ne by done; apply (wf_spies _ Hwf)].
    rewrite lookup_insert_eq. intros [= <-] [?|((n & ? & _) & _)]%Hs; [by eapply wf_spies|].
    by exists (MkChan n [] false).
  - intros a y c. destruct (decide (t = a)) as [<-|];
      [|rewrite lookup_insert_ne by done; apply (wf_waiting _ Hwf)].
    rewrite lookup_insert_eq. intros [= <-] [?|[? _]]%Hw; [by eapply wf_waiting|done].
  - apply Forall_forall. intros task Hin. by eapply upd_task.
Qed.

Lemma wf_upd t x x' w :
  wf w → heap w !! t = Some x → mu x' = false → Name x' = Name x →
  (Deleted x' = Deleted x ∨ ∀ n, Topics w !! n ≠ Some t) →
  sublist (spies x') (spies x) → sublist (waitingConsumers x') (waitingConsumers x) →
  wf (upd t x' w).
Proof.
  intros Hwf Hx Hm Hn Hd Hs Hw. apply (wf_replace t x); [done..| |done].
  split_and!; [done..| | |].
  - eapply sublist_NoDup; [by eapply wf_nodup|by apply sublist_app].
  - intros ch Hc. left. by eapply elem_of_sublist.
  - intros ch Hc. left. by eapply elem_of_sublist.
Qed.

Lemma wf_shrink t x x' w :
  wf w → heap w !! t = Some x → shrinks x x' → wf (upd t x' w).
Proof.
  intros Hwf Hx (Hm & Hn & Hd & Hs & Hw). apply (wf_upd t x); [done|done| |done|by left|done|done].
  rewrite Hm. by eapply wf_heap.
Qed.

(** Changing channels that are not waiting consumers'. *)
Lemma wf_set_chans cs w :
  wf w → dom cs = dom (chans w) →
  (∀ ch, open_in (chans w) ch →
     (∃ a x, heap w !! a = Some x ∧ ch ∈ spies x) ∨
     (∃ chs m, TBroadcast chs m ∈ pending w ∧ ch ∈ chs) → open_in cs ch) →
  (∀ a x ch, heap w !! a = Some x → ch ∈ waitingConsumers x → cs !! ch = chans w !! ch) →
  wf (set_chans cs w).
Proof.
  intros Hwf Hdom Hop Hwait. split; simpl; try apply Hwf.
  - intros ch c Hc. assert (ch ∈ dom (chans w)) as [c' ?]%elem_of_dom.
    { rewrite <-Hdom. by apply elem_of_dom_2 in Hc. }
    by eapply (wf_chans _ Hwf).
  - intros a x ch Hx Hc. apply Hop; [by eapply (wf_spies _ Hwf)|]. left; eauto.
  - intros a x ch Hx Hc. rewrite (Hwait a x) by done. by eapply (wf_waiting _ Hwf).
  - pose proof (wf_pending _ Hwf) as Hp. rewrite Forall_forall in Hp |- *.
    intros [d job|chs m] Hin; specialize (Hp _ Hin); simpl in *; [done|].
    rewrite Forall_forall in Hp |- *. intros ch Hc. destruct (Hp ch Hc) as [Ho Hf].
    split; [|done]. apply Hop; [done|]. right. eauto.
Qed.

Lemma wf_push_all m chs w :
  wf w → (∀ a x ch, heap w !! a = Some x → ch ∈ waitingConsumers x → ch ∉ chs) →
  wf (set_chans (push_all m chs (chans w)) w).
Proof.
  intros Hwf Hn. apply wf_set_chans; [done|apply push_all_dom| |].
  - intros ch Ho _. by apply push_all_open.
  - intros a x ch Hx Hc. by eapply push_all_ne, Hn.
Qed.

(** A spy is not a waiting consumer. *)
Lemma spies_not_waiting a b x y ch w :
  wf w → heap w !! a = Some x → heap w !! b = Some y → ch ∈ spies x →
  ch ∉ waitingConsumers y.
Proof.
  intros Hwf Hx Hy Hs Hc.
  assert (a = b) as <-.
  { apply (wf_apart _ Hwf a b x y ch); [done..| |]; unfold registered; set_solver. }
  simplify_eq. pose proof (wf_nodup _ Hwf a x Hx) as Hnd.
  apply NoDup_app in Hnd as (_ & Hd & _). by eapply Hd.
Qed.

(** Popping the first waiting consumer frees its channel. *)
Lemma pop_unclaimed t x ch rest w :
  wf w → heap w !! t = Some x → waitingConsumers x = ch :: rest →
  unclaimed (upd t (set_waitingConsumers rest x) w) ch.
Proof.
  intros Hwf Hx Hw. split.
  { destruct (wf_waiting _ Hwf t x ch Hx) as (n & Hc & _); [rewrite Hw; by left|].
    by exists (MkChan n [] false). }
  intros a y Hy Hin. destruct (decide (t = a)) as [<-|].
  - rewrite heap_upd in Hy. simplify_eq. pose proof (wf_nodup _ Hwf t x Hx) as Hnd.
    unfold registered in *. simpl in *. rewrite Hw in Hnd.
    apply NoDup_app in Hnd as (_ & Hd & Hnd%NoDup_cons). set_solver.
  - rewrite heap_upd_ne in Hy by done.
    destruct (wf_apart _ Hwf t a x y ch); [done..| |done|done].
    unfold registered. rewrite Hw. set_solver.
Qed.

(** ** Fresh objects *)

Lemma registered_known a x ch w :
  wf w → heap w !! a = Some x → ch ∈ registered x → ch < next_addr w.
Proof.
  intros Hwf Hx [Hs|Hw]%elem_of_app.
  - destruct (wf_spies _ Hwf a x ch Hx Hs) as (c & Hc & _). by eapply wf_chans.
  - destruct (wf_waiting _ Hwf a x ch Hx Hw) as (n & Hc & _). by eapply wf_chans.
Qed.

Definition with_chan (n : nat) w : World St :=
  set_next_addr (S (next_addr w)) (set_chans (<[next_addr w := MkChan n [] false]> (chans w)) w).

Lemma fresh_chan w : wf w → chans w !! next_addr w = None.
Proof.
  intros Hwf. destruct (chans w !! next_addr w) eqn:E; [|done].
  apply (wf_chans _ Hwf) in E. lia.
Qed.

Lemma open_with_chan n w ch : wf w → open_in (chans w) ch → open_in (chans (with_chan n w)) ch.
Proof.
  intros Hwf (c & Hc & Hcl). exists c. simpl. rewrite lookup_insert_ne; [done|].
  intros <-. rewrite fresh_chan in Hc by done. done.
Qed.

Lemma wf_with_chan n w : wf w → wf (with_chan n w).
Proof.
  intros Hwf. pose proof (fresh_chan w Hwf) as Hf. split; try apply Hwf.
  - intros a x Hx. simpl in *. apply (wf_heap _ Hwf) in Hx as [??]. split; [lia|done].
  - intros ch c. simpl. destruct (decide (next_addr w = ch)) as [<-|]; [lia|].
    rewrite lookup_insert_ne by done. intros Hc. apply (wf_chans _ Hwf) in Hc. lia.
  - intros a x ch Hx Hs. apply open_with_chan; [done|]. by eapply (wf_spies _ Hwf).
  - intros a x ch Hx Hc. simpl in *.
    destruct (wf_waiting _ Hwf a x ch Hx Hc) as (k & Hk & ?).
    exists k. split; [|done]. rewrite lookup_insert_ne; [done|]. congruence.
  - eapply Forall_impl; [apply (wf_pending _ Hwf)|]. intros [d job|chs m]; [done|].
    simpl. intros Hu. eapply Forall_impl; [exact Hu|]. intros ch [Ho Hn].
    split; [by apply open_with_chan|done].
Qed.

Lemma idle_with_chan n w : wf w → 0 < n → idle (with_chan n w) (next_addr w).
Proof.
  intros Hwf Hn. split_and!.
  - exists n. simpl. by rewrite lookup_insert_eq.
  - intros a x Hx Hc. simpl in Hx. pose proof (registered_known a x _ w Hwf Hx Hc). lia.
  - intros chs m Ht Hin. pose proof (wf_pending _ Hwf) as Hp.
    rewrite Forall_forall in Hp. specialize (Hp _ Ht). simpl in Hp.
    rewrite Forall_forall in Hp. destruct (Hp _ Hin) as [(c & Hc & _) _].
    apply (wf_chans _ Hwf) in Hc. lia.
Qed.

(** Registering a channel with a topic. *)
Lemma wf_register t x x' ch w :
  wf w → heap w !! t = Some x → idle w ch →
  mu x' = false → Name x' = Name x → Deleted x' = Deleted x →
  (spies x' = spies x ++ [ch] ∧ waitingConsumers x' = waitingConsumers x ∨
   spies x' = spies x ∧ waitingConsumers x' = waitingConsumers x ++ [ch]) →
  wf (upd t x' w).
Proof.
  intros Hwf Hx Hidle Hm Hname Hdel Hsw. apply (wf_replace t x); [done..| |by left].
  pose proof Hidle as (_ & Hnew & _).
  assert (registered x' ≡ₚ registered x ++ [ch]) as Hreg.
  { unfold registered. destruct Hsw as [[-> ->]|[-> ->]]; solve_Permutation. }
  split_and!; [done..| | |].
  - rewrite Hreg. apply NoDup_app. split_and!; [by eapply wf_nodup| |apply NoDup_singleton].
    intros c Hin. pose proof (Hnew t x Hx). set_solver.
  - intros c. destruct Hsw as [[-> _]|[-> _]]; set_solver.
  - intros c. destruct Hsw as [[_ ->]|[_ ->]]; set_solver.
Qed.

(** A new topic. *)
Definition with_topic (name : string) (x : Topic) w : World St :=
  set_Topics (<[name := next_addr w]> (Topics w))
    (set_next_addr (S (next_addr w)) (set_heap (<[next_addr w := x]> (heap w)) w)).

Lemma fresh_heap w : wf w → heap w !! next_addr w = None.
Proof.
  intros Hwf. destruct (heap w !! next_addr w) eqn:E; [|done].
  apply (wf_heap _ Hwf) in E. lia.
Qed.

Lemma ext_with_topic name x w : ext w (with_topic name x w).
Proof.
  intros a Ha. unfold valid in *. simpl.
  destruct (decide (next_addr w = a)) as [<-|].
  - rewrite lookup_insert_eq. eauto.
  - by rewrite lookup_insert_ne.
Qed.

(** The wildcard map follows the topic map. *)
Lemma wf_with_topic name x wild w :
  wf w → registered x = [] → mu x = false → Name x = name → Deleted x = false →
  wild = (if strings.Contains name "*" then <[name := next_addr w]> (wildcards w)
          else wildcards w) →
  wf (set_wildcards wild (with_topic name x w)).
Proof.
  intros Hwf Hreg Hm Hn Hd ->. pose proof (fresh_heap w Hwf) as Hf.
  assert (∀ a y ch, heap (with_topic name x w) !! a = Some y → ch ∈ registered y →
    heap w !! a = Some y) as Hr.
  { intros a y ch. simpl. destruct (decide (next_addr w = a)) as [<-|].
    - rewrite lookup_insert_eq. intros [= <-]. rewrite Hreg. set_solver.
    - by rewrite lookup_insert_ne. }
  split; simpl; try apply Hwf.
  - intros a y. destruct (decide (next_addr w = a)) as [<-|].
    + rewrite lookup_insert_eq. intros [= <-]. split; [lia|done].
    + rewrite lookup_insert_ne by done. intros [??]%(wf_heap _ Hwf). split; [lia|done].
  - intros ch c Hc%(wf_chans _ Hwf). lia.
  - intros k a. destruct (decide (name = k)) as [<-|].
    + rewrite lookup_insert_eq. intros [= <-]. exists x. by rewrite lookup_insert_eq.
    + rewrite lookup_insert_ne by done. intros (y & Hy & ?)%(wf_topics _ Hwf).
      exists y. rewrite lookup_insert_ne by congruence. done.
  - intros k a Ha. destruct (decide (name = k)) as [<-|].
    + rewrite lookup_insert_eq. destruct (strings.Contains name "*") eqn:Ec.
      * rewrite lookup_insert_eq in Ha. by simplify_eq.
      * apply (wf_wildcards _ Hwf) in Ha as [_ ?]. congruence.
    + rewrite lookup_insert_ne by done. apply (wf_wildcards _ Hwf).
      destruct (strings.Contains name "*"); by rewrite ?lookup_insert_ne in Ha by done.
  - intros a y. destruct (decide (next_addr w = a)) as [<-|].
    + rewrite lookup_insert_eq. intros [= <-]. rewrite Hreg. constructor.
    + rewrite lookup_insert_ne by done. apply Hwf.
  - intros a b y z ch Hy Hz Hcy Hcz. eapply (wf_apart _ Hwf); eauto.
  - intros a y ch Hy Hs. eapply (wf_spies _ Hwf); [|done].
    eapply Hr; [done|]. unfold registered. by apply elem_of_app; left.
  - intros a y ch Hy Hs. eapply (wf_waiting _ Hwf); [|done].
    eapply Hr; [done|]. unfold registered. by apply elem_of_app; right.
  - eapply Forall_impl; [apply (wf_pending _ Hwf)|]. intros [d job|chs m]; simpl.
    + apply ext_job, ext_with_topic.
    + intros Hu. eapply Forall_impl; [exact Hu|]. intros ch [Ho Hun]. split; [done|].
      intros a y Hy Hc. eapply Hun; [by eapply Hr|done].
Qed.

Lemma wf_set_compiledRegex re w : wf w → wf (set_compiledRegex re w).
Proof. intros [? ? ? ? ? ? ? ? ? ? ? ? ?]. by split. Qed.

(** [b.bindings[source][d] = true] *)
Lemma wf_add_binding source d w :
  wf w → strings.Contains d "::" = true →
  wf (set_bindings (<[source := {[d]} ∪ default ∅ (bindings w !! source)]> (bindings w)) w).
Proof.
  intros Hwf Hd. split; simpl; try apply Hwf. intros n B d' Hn Hin.
  destruct (decide (source = n)) as [<-|].
  - rewrite lookup_insert_eq in Hn. injection Hn as <-.
    apply elem_of_union in Hin as [->%elem_of_singleton|Hin]; [done|].
    destruct (bindings w !! source) as [B|] eqn:EB; [|set_solver].
    by eapply (wf_bindings _ Hwf).
  - rewrite lookup_insert_ne in Hn by done. by eapply (wf_bindings _ Hwf).
Qed.

Lemma wf_set_webhooks hs w : wf w → wf (set_webhooks hs w).
Proof. intros [? ? ? ? ? ? ? ? ? ? ? ? ?]. by split. Qed.

Lemma wf_set_draws n w : wf w → wf (set_draws n w).
Proof. intros [? ? ? ? ? ? ? ? ? ? ? ? ?]. by split. Qed.

Lemma wf_set_inflight l w : wf w → length l ≤ webhook_slots → wf (set_inflight l w).
Proof. intros [? ? ? ? ? ? ? ? ? ? ? ? ?] ?. by split. Qed.

Lemma wf_set_keys ks w :
  wf w → (Z.of_nat (size ks) ≤ maxIdempotencyKeys)%Z → wf (set_idempotencyKeys ks w).
Proof. intros [? ? ? ? ? ? ? ? ? ? ? ? ?] ?. by split. Qed.

Lemma wf_set_pending ts w : wf w → Forall (task_ok w) ts → wf (set_pending ts w).
Proof. intros [? ? ? ? ? ? ? ? ? ? ? ? ?] ?. by split. Qed.

(** Removing a name from the topic maps. *)
Lemma wf_forget name w :
  wf w → wf (set_wildcards (delete name (wildcards w)) (set_Topics (delete name (Topics w)) w)).
Proof.
  intros Hwf. split; simpl; try apply Hwf.
  - intros n a [_ Ha]%lookup_delete_Some. by apply (wf_topics _ Hwf).
  - intros n a [Hne Ha]%lookup_delete_Some. rewrite lookup_delete_ne by done.
    by apply (wf_wildcards _ Hwf).
Qed.

End invariant.

#[export] Hint Resolve wf_set_storage wf_set_compiledRegex wf_set_webhooks
  wf_set_draws wf_shrink : tmq.
#[export] Hint Resolve ext_refl ext_trans ext_upd ext_with_topic same_shrinks : tmq.
