(* ===== verification/BrokerOps.v ===== *)
(** * Every broker operation keeps the invariant

    [step c w Q]: run from [w], [c] returns a value and a state that satisfy
    [Q], the invariant holds again and no topic has been freed; or the process
    crashes in a storage call.  Nothing panics, nothing blocks for ever. *)

From S2P Require Import Prelude.
From S2P Require Import GoLib.
From S2P Require Import Message.
From S2P Require Import Wal.
From S2P Require Import Broker.
From S2P Require Import BrokerQueue.
From S2P Require Import BrokerSteps.
From S2P Require Import BrokerSafe.

Definition step {St A} (c : M (World St) A) (w : World St) (Q : A → World St → Prop) : Prop :=
  wps c (λ a w', wf w' ∧ ext w w' ∧ Q a w') w.

Section step_rules.
Context {St : Type}.
Implicit Types w : World St.

Lemma step_ret {A} (a : A) w (Q : A → World St → Prop) : wf w → Q a w → step (mret a) w Q.
Proof. intros. apply wpx_ret. auto with tmq. Qed.

Lemma step_bind {A B} (c : M (World St) A) (k : A → M (World St) B) w Q (Q' : B → World St → Prop) :
  step c w Q → (∀ a w', wf w' → ext w w' → Q a w' → step (k a) w' Q') →
  step (c ≫= k) w Q'.
Proof.
  intros Hc Hk. apply wpx_bind. eapply wpx_mono; [exact Hc| |done].
  intros a w' (Hwf & He & HQ). eapply wpx_mono; [by apply (Hk a w')| |done].
  intros b w'' (? & ? & ?). split_and!; [done| |done]. by eapply ext_trans.
Qed.

Lemma step_mono {A} (c : M (World St) A) w (Q Q' : A → World St → Prop) :
  step c w Q → (∀ a w', wf w' → ext w w' → Q a w' → Q' a w') → step c w Q'.
Proof.
  intros Hc HQ. eapply wpx_mono; [exact Hc| |done]. intros a w' (? & ? & ?). auto.
Qed.

Lemma step_wps {A} (c : M (World St) A) w (Q : A → World St → Prop) : step c w Q → wps c Q w.
Proof. intros Hc. eapply wpx_mono; [exact Hc| |done]. by intros a w' (_ & _ & ?). Qed.

Lemma step_get w Q : wf w → Q w w → step get w Q.
Proof. intros. apply wpx_get. auto with tmq. Qed.

Lemma step_gets {A} (f : World St → A) w (Q : A → World St → Prop) :
  wf w → Q (f w) w → step (gets f) w Q.
Proof. intros. apply wpx_gets. auto with tmq. Qed.

Lemma step_bind_get {B} (k : World St → M (World St) B) w (Q : B → World St → Prop) :
  step (k w) w Q → step (get ≫= k) w Q.
Proof. intros Hk. by apply wpx_bind, wpx_get. Qed.

Lemma step_bind_modify {B} f (k : unit → M (World St) B) w (Q : B → World St → Prop) :
  ext w (f w) → step (k ()) (f w) Q → step (modify f ≫= k) w Q.
Proof.
  intros He Hk. apply wpx_bind, wpx_modify. eapply wpx_mono; [exact Hk| |done].
  intros a w' (? & ? & ?). split_and!; [done| |done]. by eapply ext_trans.
Qed.

Lemma ext_all w w' l : ext w w' → Forall (valid w) l → Forall (valid w') l.
Proof. intros He Hl. eapply Forall_impl; [exact Hl|]. apply He. Qed.

Lemma step_modify f w (Q : unit → World St → Prop) :
  wf (f w) → ext w (f w) → Q () (f w) → step (modify f) w Q.
Proof. intros. by apply wpx_modify. Qed.

Lemma step_forM {A} (f : A → M (World St) unit) l (I : World St → Prop) w :
  wf w → I w → (∀ x w', x ∈ l → wf w' → ext w w' → I w' → step (f x) w' (λ _, I)) →
  step (forM_ f l) w (λ _, I).
Proof.
  intros Hwf HI Hf. unfold step.
  apply (wpx_forM_inv f l (λ w', wf w' ∧ ext w w' ∧ I w')); [auto with tmq|].
  intros x w' Hx (Hwf' & He & HI'). eapply wpx_mono; [by apply (Hf x w')| |done].
  intros [] w'' (? & ? & ?). split_and!; [done| |done]. by eapply ext_trans.
Qed.

Lemma step_with_storage {A} (absent : A) (c : M St A) w (Q : A → World St → Prop) :
  wf w → safe c → (∀ r st, Q r (set_storage st w)) → step (with_storage absent c) w Q.
Proof.
  intros. apply wps_with_storage; [done|]. intros r st _ _.
  split_and!; [by apply wf_set_storage|by intros a|done].
Qed.

Lemma topic_valid name t w :
  wf w → Topics w !! name = Some t → ∃ x, heap w !! t = Some x ∧ mu x = false ∧
    Name x = name ∧ Deleted x = false.
Proof.
  intros Hwf Ht. destruct (wf_topics _ Hwf _ _ Ht) as (x & ? & ? & ?). exists x.
  split_and!; [done| |done..]. by eapply wf_heap.
Qed.

Lemma valid_topic t w : wf w → valid w t → ∃ x, heap w !! t = Some x ∧ mu x = false.
Proof. intros Hwf [x Hx]. exists x. split; [done|]. by eapply wf_heap. Qed.

Lemma wf_read_mu t x w : wf w → heap w !! t = Some x → mu x = false.
Proof. intros Hwf Hx. by eapply wf_heap. Qed.

End step_rules.

#[export] Hint Resolve wf_read_mu : tmq.

Section operations.
Context `{R : Runtime} {St : Type} `{Storage St} `{!StorageSafe St}.
Implicit Types w : World St.

(** ** Topics *)

Lemma wpx_compileWildcardRegex name Q (E : World St → Prop) w :
  (∀ re, Q () (set_compiledRegex re w)) → wpx (compileWildcardRegex name) Q E w.
Proof.
  intros HQ. apply wpx_bind, wpx_get.
  assert (Q () w) by (specialize (HQ (compiledRegex w)); by destruct w).
  repeat case_match; try done. apply wpx_modify, HQ.
Qed.

(** The state after [install_topic]. *)
Definition installed (name : string) (x : Topic) re w : World St :=
  set_compiledRegex re
    (set_wildcards (if strings.Contains name "*" then <[name := next_addr w]> (wildcards w)
                    else wildcards w) (with_topic name x w)).

Lemma wpx_install_topic name x Q (E : World St → Prop) w :
  (∀ re, Q (next_addr w) (installed name x re w)) → wpx (install_topic name x) Q E w.
Proof.
  intros HQ. unfold installed in HQ. unfold install_topic, new_topic.
  apply wpx_bind, wpx_bind, wpx_get, wpx_bind, wpx_modify, wpx_ret, wpx_bind, wpx_modify,
    wpx_bind. simpl.
  destruct (strings.Contains name "*").
  - apply wpx_bind, wpx_modify, wpx_compileWildcardRegex. intros re. apply wpx_ret, HQ.
  - apply wpx_ret, wpx_ret. specialize (HQ (compiledRegex w)). by destruct w.
Qed.

Lemma wf_installed name x re w :
  wf w → registered x = [] → mu x = false → Name x = name → Deleted x = false →
  wf (installed name x re w).
Proof. intros. by apply wf_set_compiledRegex, wf_with_topic. Qed.

Lemma installed_topic name x re w :
  Topics (installed name x re w) !! name = Some (next_addr w) ∧
  heap (installed name x re w) !! next_addr w = Some x.
Proof. split; simpl; apply lookup_insert_eq. Qed.

(** The three ways out of [getOrCreateTopic]. *)
Lemma wpx_getOrCreateTopic name Q (E : World St → Prop) w :
  (∀ t, Topics w !! name = Some t → Q (Some t) w) →
  (Topics w !! name = None → (maxTopics w ≤ Z.of_nat (size (Topics w)))%Z → Q None w) →
  (∀ re, Topics w !! name = None → (Z.of_nat (size (Topics w)) < maxTopics w)%Z →
     Q (Some (next_addr w)) (installed name (empty_topic name default_policy 0) re w)) →
  wpx (getOrCreateTopic name) Q E w.
Proof.
  intros H1 H2 H3. apply wpx_bind, wpx_get.
  destruct (Topics w !! name) as [t|]; [by apply wpx_ret, H1|].
  destruct (Z.leb_spec (maxTopics w) (Z.of_nat (size (Topics w)))); [by apply wpx_ret, H2|].
  apply wpx_bind, wpx_install_topic. intros re. by apply wpx_ret, H3.
Qed.

(** What a caller of [getOrCreateTopic] may rely on. *)
Lemma step_getOrCreateTopic name w :
  wf w →
  step (getOrCreateTopic name) w (λ ot w',
    chans w' = chans w ∧ pending w' = pending w ∧ bindings w' = bindings w ∧
    (∀ ch, idle w ch → idle w' ch) ∧
    match ot with Some t => Topics w' !! name = Some t | None => True end).
Proof.
  intros Hwf. apply wpx_getOrCreateTopic; [auto 10 with tmq..|].
  intros re _ _. split; [by apply wf_installed|]. split; [apply ext_with_topic|].
  split_and!; [done..| |apply installed_topic].
  intros ch (? & Hn & ?). split_and!; [done| |done]. intros a x. simpl.
  destruct (decide (next_addr w = a)) as [<-|].
  - rewrite lookup_insert_eq. intros [= <-]. set_solver.
  - rewrite lookup_insert_ne by done. apply Hn.
Qed.

(** ** Consumers *)

Lemma idle_upd t x x' ch w :
  heap w !! t = Some x → shrinks x x' → idle w ch → idle (upd t x' w) ch.
Proof.
  intros Hx Hs (? & Hn & ?). split_and!; [done| |done]. intros a y.
  destruct (decide (t = a)) as [<-|]; [|rewrite heap_upd_ne by done; apply Hn].
  rewrite heap_upd. intros [= <-] Hc. apply (Hn t x Hx).
  eapply elem_of_sublist; [exact Hc|by apply shrinks_registered].
Qed.

Lemma step_extract_locked now limit t w :
  wf w → valid w t →
  step (extract_locked now limit t) w (λ _ w', ∀ ch, idle w ch → idle w' ch).
Proof.
  intros Hwf [x Hx]. eapply wps_extract_locked; [eauto with tmq..|].
  intros r e x' st He%extractMessages_same%same_shrinks.
  split_and!; [by eauto with tmq|apply ext_upd|]. intros ch Hi. by eapply (idle_upd t x x').
Qed.

Lemma step_consume_matching now limit ts w :
  wf w → Forall (valid w) ts →
  step (consume_matching now limit ts) w (λ _ w', ∀ ch, idle w ch → idle w' ch).
Proof.
  revert w. induction ts as [|t ts IH]; intros w Hwf Hv; [by apply step_ret|].
  apply Forall_cons in Hv as [Ht Hts].
  eapply step_bind; [by apply step_extract_locked|]. intros r w' Hwf' He Hi. simpl in Hi.
  destruct r; [|by apply step_ret].
  eapply step_mono; [apply IH; [done|by eapply ext_all]|]. simpl. auto.
Qed.

Lemma topics_valid w (p : string * nat → option nat) :
  wf w → RuntimeLaws R → (∀ n t t', p (n, t) = Some t' → t' = t) →
  Forall (valid w) (omap p (map_range (map_to_list (Topics w)))).
Proof.
  intros Hwf HR Hp. apply Forall_forall. intros t Ht.
  apply list_elem_of_omap in Ht as ([n t'] & Hin & Hpt). apply Hp in Hpt as ->.
  rewrite map_range_perm, elem_of_map_to_list in Hin.
  destruct (topic_valid _ _ _ Hwf Hin) as (x & ? & _). by exists x.
Qed.

Lemma step_Consume now name limit ch w :
  RuntimeLaws R → wf w → idle w ch → step (Consume now name limit ch) w (λ _ _, True).
Proof.
  intros HR Hwf Hidle. unfold Consume. case_match; [by apply step_ret|].
  eapply step_bind; [by apply step_getOrCreateTopic|].
  intros [t|] w1 Hwf1 He1 (_ & _ & _ & Hi & Ht); [|by apply step_ret].
  apply step_bind_get.
  eapply step_bind.
  { apply step_consume_matching; [done|]. repeat case_match; try constructor.
    apply topics_valid; [done..|]. intros n t0 t1. by case_match; intros [= ->]. }
  intros early w2 Hwf2 He2 Hi2. destruct early; [|by apply step_ret].
  destruct (topic_valid _ _ _ Hwf1 Ht) as (x0 & Hx0 & _).
  destruct (valid_topic t w2) as (x & Hx & Hm); [done|apply He2; by exists x0|].
  eapply wpx_enter; [done..|]. rewrite extractMessages_mu.
  destruct (extractMessages now limit x) as [[r e] x'] eqn:Ee.
  pose proof (extractMessages_same _ _ _ _ _ _ Ee) as Hsame.
  apply wpx_leave; [by destruct r|]. apply wpx_bind, wps_ackExpired. intros st. apply wpx_ret.
  split_and!; [|apply ext_upd|done]. apply wf_set_storage.
  destruct Hsame as (Hn & Hw & Hs & _ & Hd & _ & Hm').
  destruct r as [|m r].
  - eapply (wf_register t x); [done|done|by apply Hi2, Hi|done..|]. right.
    simpl. by rewrite Hw.
  - apply (wf_upd t x); [done..|by left| |]; simpl; [by rewrite Hs|by rewrite Hw].
Qed.

(** ** Delivery *)

Lemma unclaimed_upd t x x' ch w :
  heap w !! t = Some x → shrinks x x' → unclaimed w ch → unclaimed (upd t x' w) ch.
Proof.
  intros Hx Hs (? & Hn). split; [done|]. intros a y.
  destruct (decide (t = a)) as [<-|]; [|rewrite heap_upd_ne by done; apply Hn].
  rewrite heap_upd. intros [= <-] Hc. apply (Hn t x Hx).
  eapply elem_of_sublist; [exact Hc|by apply shrinks_registered].
Qed.

Lemma shrinks_waiting x l : sublist l (waitingConsumers x) → shrinks x (set_waitingConsumers l x).
Proof. intros. unfold shrinks. by split_and!. Qed.

(** Only channels, webhook deliveries and queued goroutines have changed. *)
Definition inert w w' : Prop :=
  ∃ cs ds ts, w' = set_pending ts (set_inflight ds (set_chans cs w)).

Lemma inert_refl w : inert w w.
Proof. exists (chans w), (inflight w), (pending w). by destruct w. Qed.

Lemma inert_trans w1 w2 w3 : inert w1 w2 → inert w2 w3 → inert w1 w3.
Proof. intros (? & ? & ? & ->) (cs & ds & ts & ->). by exists cs, ds, ts. Qed.

Lemma inert_heap w w' : inert w w' → heap w' = heap w.
Proof. by intros (? & ? & ? & ->). Qed.

Lemma step_push_spies t m w :
  wf w → valid w t → step (push_spies t m) w (λ _ w', inert w w').
Proof.
  intros Hwf [x Hx]. eapply wpx_push_spies; [eauto with tmq..| |].
  - intros ch Hc. by eapply (wf_spies _ Hwf).
  - split_and!; [|by intros a|by exists (push_all m (spies x) (chans w)), (inflight w), (pending w)].
    apply wf_push_all; [done|]. intros a y ch Hy Hc Hs. by eapply (spies_not_waiting t a x y).
Qed.

Lemma step_push_webhooks name data w :
  wf w → step (push_webhooks name data) w (λ _ w', inert w w').
Proof.
  intros Hwf. apply wpx_push_webhooks. split_and!; [|by intros a|].
  2:{ by eexists (chans w), _, (pending w). }
  apply wf_set_inflight; [done|]. pose proof (wf_slots _ Hwf).
  rewrite length_app, length_take. lia.
Qed.

Lemma step_take_consumers t w :
  wf w → valid w t →
  step (take_consumers t) w (λ chs w',
    Forall (unclaimed w') chs ∧ ∀ ch, unclaimed w ch → unclaimed w' ch).
Proof.
  intros Hwf [x Hx]. eapply wpx_take_consumers; [eauto with tmq..|].
  assert (shrinks x (set_waitingConsumers [] x)) as Hs by apply shrinks_waiting, sublist_nil_l.
  split_and!; [by eapply wf_shrink|apply ext_upd| |intros; by eapply unclaimed_upd].
  apply Forall_forall. intros ch Hc. split.
  { destruct (wf_waiting _ Hwf t x ch Hx Hc) as (n & Hn & _). by exists (MkChan n [] false). }
  intros a y Hy Hin. destruct (decide (t = a)) as [<-|].
  - rewrite heap_upd in Hy. simplify_eq. unfold registered in Hin. simpl in Hin.
    rewrite app_nil_r in Hin. by eapply (spies_not_waiting t t x x).
  - rewrite heap_upd_ne in Hy by done.
    destruct (wf_apart _ Hwf t a x y ch); [done..| |done|done].
    unfold registered. set_solver.
Qed.

Lemma step_take_all_consumers ts w :
  wf w → Forall (valid w) ts →
  step (take_all_consumers ts) w (λ chs w',
    Forall (unclaimed w') chs ∧ ∀ ch, unclaimed w ch → unclaimed w' ch).
Proof.
  revert w. induction ts as [|t ts IH]; intros w Hwf Hv; [by apply step_ret|].
  apply Forall_cons in Hv as [Ht Hts].
  eapply step_bind; [by apply step_take_consumers|]. intros cs w1 Hwf1 He1 [Hc1 Hu1].
  eapply step_bind; [apply IH; [done|by eapply ext_all]|]. intros cs' w2 Hwf2 He2 [Hc2 Hu2].
  apply step_ret; [done|]. split; [|auto]. apply Forall_app. split; [|done].
  eapply Forall_impl; [exact Hc1|]. apply Hu2.
Qed.

Lemma step_remove_message t id w :
  wf w → valid w t → step (remove_message t id) w (λ _ _, True).
Proof.
  intros Hwf [x Hx]. eapply wpx_remove_message; [eauto with tmq..|].
  split_and!; [|apply ext_upd|done]. eapply wf_shrink; [done..|].
  apply same_shrinks. destruct (removeMessageByID id x) eqn:E;
    [by eapply removeMessageByID_same|apply same_but_queues_refl].
Qed.

(** Handing a message to the popped consumer: its channel has room. *)
Lemma wpx_hand_over t x ch rest m Q w :
  wf w → heap w !! t = Some x → waitingConsumers x = ch :: rest →
  (∀ w', wf w' → ext w w' → Q true w') →
  wps (try_send ch m) Q (upd t (set_waitingConsumers rest x) w).
Proof.
  intros Hwf Hx Hw HQ.
  destruct (wf_waiting _ Hwf t x ch Hx) as (n & Hc & Hpos); [rewrite Hw; by left|].
  eapply wpx_try_send; [done..|]. simpl.
  rewrite (proj2 (Nat.ltb_lt 0 n)) by done.
  destruct (pop_unclaimed t x ch rest w Hwf Hx Hw) as [_ Hun].
  apply HQ; [|apply (ext_upd t _ w)].
  apply (wf_push_all m [ch] (upd t (set_waitingConsumers rest x) w)).
  - eapply wf_shrink; [done..|]. apply shrinks_waiting. rewrite Hw. by apply sublist_cons.
  - intros a y ch' Hy Hin ->%list_elem_of_singleton. apply (Hun a y Hy).
    unfold registered. set_solver.
Qed.

Lemma step_push_wildcards t m ws w :
  wf w → valid w t → Forall (valid w) ws → step (push_wildcards t m ws) w (λ _ _, True).
Proof.
  revert w. induction ws as [|wt ws IH]; intros w Hwf Ht Hv; [by apply step_ret|].
  apply Forall_cons in Hv as [[x Hx] Hws]. simpl.
  eapply wpx_enter; [eauto with tmq..|]. simpl.
  destruct (waitingConsumers x) as [|ch rest] eqn:Ew.
  - apply wpx_bind. eapply wpx_release; [eauto with tmq..|]. by apply IH.
  - apply wpx_leave; [done|].
    rewrite set_mu_waiting by eauto with tmq.
    apply wpx_bind. eapply wpx_hand_over; [done..|]. intros w' Hwf' He.
    assert (step (remove_message t (ID m) ;; mret true) w' (λ _ _, True)) as Hrest.
    { eapply step_bind; [by apply step_remove_message, He|]. intros. by apply step_ret. }
    eapply wpx_mono; [exact Hrest| |done]. intros b w'' (? & ? & ?).
    split_and!; [done|by eapply ext_trans|done].
Qed.

Lemma step_push_consumer t m w :
  wf w → valid w t → step (push_consumer t m) w (λ _ _, True).
Proof.
  intros Hwf [x Hx]. eapply wpx_enter; [eauto with tmq..|]. simpl.
  destruct (waitingConsumers x) as [|ch rest] eqn:Ew.
  - eapply wpx_release; [eauto with tmq..|]. auto with tmq.
  - apply wpx_leave; [done|].
    rewrite set_mu_waiting by eauto with tmq.
    apply wpx_bind. eapply wpx_hand_over; [done..|]. intros w' Hwf' He.
    eapply wpx_mono; [apply step_remove_message; [done|apply He; by exists x]| |done].
    intros b w'' (? & ? & ?). split_and!; [done|by eapply ext_trans|done].
Qed.

(** The spies of the topic and of the wildcards: nothing else changes. *)
Lemma step_push_all_spies ts m w :
  wf w → Forall (valid w) ts →
  step (forM_ (λ t, push_spies t m) ts) w (λ _ w', inert w w').
Proof.
  intros Hwf Hv. apply (step_forM _ ts (inert w)); [done|apply inert_refl|].
  intros t w' Hin Hwf' He Hi. eapply step_mono.
  - apply step_push_spies; [done|]. apply He. by eapply Forall_forall.
  - intros [] w'' _ _ Hi'. by eapply inert_trans.
Qed.

Lemma step_pushFunc job w :
  wf w → job_ok w job → step (pushFunc job) w (λ _ _, True).
Proof.
  destruct job as [name t ws m bc]. intros Hwf [Ht Hws]. simpl in *.
  eapply step_bind; [by apply step_push_webhooks|]. intros _ w1 Hwf1 He1 _.
  eapply step_bind; [apply step_push_spies; [done|by apply He1]|]. intros _ w2 Hwf2 He2 _.
  assert (Forall (valid w2) ws) as Hws2 by (eapply (ext_all w1); [done|by eapply (ext_all w)]).
  assert (valid w2 t) as Ht2 by by apply He2, He1.
  eapply step_bind; [by apply step_push_all_spies|].
  intros _ w3 Hwf3 He3 _.
  assert (Forall (valid w3) ws) as Hws3 by by eapply ext_all.
  destruct bc.
  - eapply step_bind; [by apply step_take_all_consumers|]. intros wcs w4 Hwf4 He4 [Hc4 _].
    eapply step_bind; [apply step_take_consumers; [done|by apply He4, He3]|].
    intros tcs w5 Hwf5 He5 [Hc5 Hu5]. apply step_modify; [|by intros a|done].
    apply wf_set_pending; [done|]. apply Forall_app. split; [apply Hwf5|].
    apply Forall_singleton. apply Forall_app. split; [|done].
    eapply Forall_impl; [exact Hc4|]. apply Hu5.
  - eapply step_bind; [apply step_push_wildcards; [done|by apply He3|done]|].
    intros b w4 Hwf4 He4 _. destruct b; [by apply step_ret|].
    apply step_push_consumer; [done|by apply He4, He3].
Qed.

(** With nobody waiting, delivery leaves every queue alone. *)
Definition no_waiting w (t : nat) : Prop :=
  ∃ x, heap w !! t = Some x ∧ waitingConsumers x = [].

Lemma no_waiting_valid w ts : Forall (no_waiting w) ts → Forall (valid w) ts.
Proof. intros Hn. eapply Forall_impl; [exact Hn|]. intros t (x & ? & _). by exists x. Qed.

Lemma no_waiting_inert w w' t : inert w w' → no_waiting w t → no_waiting w' t.
Proof. intros Hi%inert_heap (x & Hx & ?). exists x. by rewrite Hi. Qed.

Lemma step_take_none t w :
  wf w → no_waiting w t → step (take_consumers t) w (λ chs w', chs = [] ∧ w' = w).
Proof.
  intros Hwf (x & Hx & Hw). eapply wpx_take_consumers; [eauto with tmq..|].
  replace (set_waitingConsumers [] x) with x by (destruct x; simpl in *; by subst).
  rewrite upd_same by done. auto with tmq.
Qed.

Lemma step_take_all_none ts w :
  wf w → Forall (no_waiting w) ts →
  step (take_all_consumers ts) w (λ chs w', chs = [] ∧ w' = w).
Proof.
  intros Hwf. induction 1 as [|t ts Ht _ IH]; [by apply step_ret|].
  eapply step_bind; [by apply step_take_none|]. intros cs w1 _ _ [-> ->].
  eapply step_bind; [by apply IH|]. intros cs' w2 _ _ [-> ->]. by apply step_ret.
Qed.

Lemma step_push_wildcards_none t m ws w :
  wf w → Forall (no_waiting w) ws →
  step (push_wildcards t m ws) w (λ b w', b = false ∧ w' = w).
Proof.
  intros Hwf. induction 1 as [|wt ws (x & Hx & Hw) _ IH]; [by apply step_ret|]. simpl.
  eapply wpx_enter; [eauto with tmq..|]. simpl. rewrite Hw.
  apply wpx_bind. eapply wpx_release; [eauto with tmq..|]. by apply IH.
Qed.

Lemma step_push_consumer_none t m w :
  wf w → no_waiting w t → step (push_consumer t m) w (λ _ w', w' = w).
Proof.
  intros Hwf (x & Hx & Hw). eapply wpx_enter; [eauto with tmq..|]. simpl. rewrite Hw.
  eapply wpx_release; [eauto with tmq..|]. auto with tmq.
Qed.

Lemma step_pushFunc_quiet job w :
  wf w → no_waiting w (pj_t job) → Forall (no_waiting w) (pj_wildcards job) →
  step (pushFunc job) w (λ _ w', inert w w').
Proof.
  destruct job as [name t ws m bc]. intros Hwf Ht Hws. simpl in *.
  eapply step_bind; [by apply step_push_webhooks|]. intros [] w1 Hwf1 _ Hi1.
  pose proof (no_waiting_inert _ _ _ Hi1 Ht) as Ht1.
  eapply step_bind; [apply step_push_spies; [done|by destruct Ht1 as (x & ? & _); exists x]|].
  intros [] w2 Hwf2 _ Hi2. pose proof (inert_trans _ _ _ Hi1 Hi2) as Hi.
  assert (∀ w', inert w w' → Forall (no_waiting w') ws) as Hws'.
  { intros w' Hw'. eapply Forall_impl; [exact Hws|]. intros t'. by apply no_waiting_inert. }
  eapply step_bind; [by apply step_push_all_spies, no_waiting_valid, Hws'|].
  intros [] w3 Hwf3 _ Hi3. pose proof (inert_trans _ _ _ Hi Hi3) as Hi'.
  pose proof (no_waiting_inert _ _ _ Hi' Ht) as Ht3.
  destruct bc.
  - eapply step_bind; [by apply step_take_all_none, Hws'|]. intros wcs w4 _ _ [-> ->].
    eapply step_bind; [by apply step_take_none|]. intros tcs w5 _ _ [-> ->].
    apply step_modify; [|by intros a|].
    + apply wf_set_pending; [done|]. apply Forall_app. split; [apply Hwf3|].
      apply Forall_singleton. constructor.
    + destruct Hi' as (cs & ds & ts & ->). by eexists cs, ds, _.
  - eapply step_bind; [by apply step_push_wildcards_none, Hws'|]. intros b w4 _ _ [-> ->].
    eapply step_mono; [by apply step_push_consumer_none|]. by intros [] w5 _ _ ->.
Qed.

(** ** Publishing *)

Lemma step_matchingWildcards name w :
  RuntimeLaws R → wf w →
  step (matchingWildcards name) w (λ ws w', w' = w ∧ Forall (valid w) ws ∧
    Forall (λ a, ∃ n, wildcards w !! n = Some a) ws).
Proof.
  intros HR Hwf. apply step_gets; [done|]. split; [done|]. apply Forall_and, Forall_forall.
  intros t Ht. apply list_elem_of_omap in Ht as ([n t'] & Hin & Hpt).
  rewrite map_range_perm, elem_of_map_to_list in Hin.
  repeat case_match; simplify_eq. split; [|by exists n].
  apply (wf_wildcards _ Hwf) in Hin as [Hin _].
  destruct (topic_valid _ _ _ Hwf Hin) as (x & ? & _). by exists x.
Qed.

Lemma published_shrinks limit x p m err x' : published limit x p m err x' → shrinks x x'.
Proof.
  intros []; apply same_shrinks; try apply same_but_queues_refl; [|apply enqueue_same].
  edestruct evict_same as (? & ? & ? & ? & ? & ? & ?); [done|].
  edestruct (enqueue_same p m x'0) as (? & ? & ? & ? & ? & ? & ?).
  unfold same_but_queues. split_and!; congruence.
Qed.

Lemma step_publish_locked t name m p bc now w :
  wf w → valid w t → step (publish_locked t name m p bc now) w (λ _ _, True).
Proof.
  intros Hwf [x Hx]. eapply wps_publish_locked; [done|eauto with tmq|apply Hwf|].
  intros err x' st Hp%published_shrinks.
  split_and!; [by eauto with tmq|apply ext_upd|done].
Qed.

Lemma step_fresh_uuid w : wf w → step fresh_uuid w (λ id w',
  id = NewUUID (rand_read (draws w)) ∧ w' = set_draws (S (draws w)) w).
Proof.
  intros Hwf. apply step_bind_get, step_bind_modify; [by intros a|].
  apply step_ret; [by apply wf_set_draws|done].
Qed.

Lemma step_publish_one now name payload headers p expiresAt deliverAt bc repl w :
  RuntimeLaws R → wf w →
  step (publish_one now name payload headers p expiresAt deliverAt bc repl) w (λ _ _, True).
Proof.
  intros HR Hwf1. eapply step_bind; [by apply step_getOrCreateTopic|].
  intros [t|] w2 Hwf2 He2 (_ & _ & _ & _ & Ht); [|by apply step_ret].
  eapply step_bind; [by apply step_matchingWildcards|]. intros ws ? _ _ (-> & Hws & _).
  destruct (topic_valid _ _ _ Hwf2 Ht) as (x & Hx & Hm & _).
  apply wpx_bind. eapply wpx_load_topic; [done|]. cbv zeta.
  eapply step_bind; [by apply step_fresh_uuid|]. intros id w3 Hwf3 He3 _.
  apply step_bind_get. assert (valid w3 t) as Hv3 by (apply He3; by exists x).
  match goal with |- step (match ?r with _ => _ end) _ _ => destruct r; [by apply step_ret|] end.
  eapply step_bind; [by apply step_publish_locked|]. intros err w4 Hwf4 He4 _.
  destruct err as [e|]; [by apply step_ret|].
  match goal with |- context [MkPush name t ws ?m bc] => generalize m as msg end. intros msg.
  assert (job_ok w4 (MkPush name t ws msg bc)) as Hjob.
  { split; [by apply He4|]. simpl. eapply (ext_all w3); [done|by eapply ext_all]. }
  eapply step_bind; [|intros; by apply step_ret]. instantiate (1 := λ _ _, True).
  destruct (delayed now msg); [|by apply step_pushFunc]. apply step_modify; [|by intros a|done].
  apply wf_set_pending; [done|]. apply Forall_app. split; [apply Hwf4|].
  by apply Forall_singleton.
Qed.

Lemma step_publishCore left now name payload headers p expiresAt deliverAt bc repl w :
  RuntimeLaws R → wf w →
  step (publishCore left now name payload headers p expiresAt deliverAt bc repl) w
    (λ _ _, True).
Proof.
  intros HR. revert name w. induction left as [|left IH]; intros name w Hwf;
    [by apply step_ret|]. cbn [publishCore].
  case_match; [by apply step_ret|]. case_match; [by apply step_ret|].
  eapply step_bind; [|intros; by apply step_publish_one]. instantiate (1 := λ _ _, True).
  case_match; [by apply step_ret|]. apply step_bind_get.
  apply (step_forM _ _ (λ _, True)); [done..|]. intros dest w' _ Hwf' _ _.
  eapply step_bind; [by apply IH|]. intros. by apply step_ret.
Qed.

(** ** The remaining operations *)

Lemma step_run_pending now i w : wf w → step (run_pending now i) w (λ _ _, True).
Proof.
  intros Hwf. apply step_bind_get. destruct (pending w !! i) as [task|] eqn:Ei; [|by apply step_ret].
  pose proof (wf_pending _ Hwf) as Hp. pose proof (Forall_lookup_1 _ _ _ _ Hp Ei) as Htask.
  match goal with |- step (let due := ?d in _) _ _ => destruct d; [|by apply step_ret] end.
  apply step_bind_modify; [by intros a|].
  set (w' := set_pending (delete i (pending w)) w).
  assert (wf w') as Hwf'.
  { apply wf_set_pending; [done|]. by apply Forall_delete. }
  destruct task as [d job|chs m].
  - by apply step_pushFunc.
  - simpl in Htask. rewrite Forall_forall in Htask. apply wpx_send_all.
    { intros ch Hc. apply (Htask ch Hc). }
    split_and!; [|by intros a|done]. apply wf_push_all; [done|].
    intros a x ch Hx Hc Hin. destruct (Htask ch Hin) as [_ Hun]. apply (Hun a x Hx).
    unfold registered. set_solver.
Qed.

Lemma step_ackExpired now name ids w :
  wf w → step (ackExpired now name ids) w (λ _ _, True).
Proof.
  intros Hwf. apply wps_ackExpired. intros st.
  split_and!; [by apply wf_set_storage|by intros a|done].
Qed.

(** A section that replaces the queues or drops consumers. *)
Lemma step_section t f w :
  wf w → valid w t → (∀ b y, f (set_mu b y) = set_mu b (f y)) → (∀ y, shrinks y (f y)) →
  step (Lock t ;; update_topic t f ;; Unlock t) w (λ _ _, True).
Proof.
  intros Hwf [x Hx] Hmu Hf. destruct (Hf x) as (Hm & _).
  eapply wpx_section; [eauto with tmq..| |].
  - rewrite Hm. eauto with tmq.
  - split_and!; [by eapply wf_shrink|apply ext_upd|done].
Qed.

Lemma step_purge_topic now t w : wf w → valid w t → step (purge_topic now t) w (λ _ _, True).
Proof.
  intros Hwf [x Hx]. eapply wpx_enter; [eauto with tmq..|]. simpl.
  apply wpx_leave; [done|]. eapply wps_ackExpired. intros st.
  split_and!; [|apply ext_upd|done].
  apply wf_set_storage, (wf_upd t x); [done..|by left|done|done].
Qed.

Lemma step_purgeExpiredMessages now w :
  RuntimeLaws R → wf w → step (purgeExpiredMessages now) w (λ _ _, True).
Proof.
  intros HR Hwf. apply step_bind_get. apply (step_forM _ _ (λ _, True)); [done..|].
  intros t w' Hin Hwf' He _. apply step_purge_topic; [done|]. apply He.
  rewrite map_range_perm in Hin. apply list_elem_of_fmap in Hin as ([n t'] & -> & Hin).
  rewrite elem_of_map_to_list in Hin. destruct (topic_valid _ _ _ Hwf Hin) as (x & ? & _).
  by exists x.
Qed.

Lemma topics_all_valid w : RuntimeLaws R → wf w →
  Forall (valid w) (map_range (snd <$> map_to_list (Topics w))).
Proof.
  intros HR Hwf. apply Forall_forall. intros t Hin.
  rewrite map_range_perm in Hin. apply list_elem_of_fmap in Hin as ([n t'] & -> & Hin).
  rewrite elem_of_map_to_list in Hin. destruct (topic_valid _ _ _ Hwf Hin) as (x & ? & _).
  by exists x.
Qed.

Lemma step_RemoveWaitingConsumer name ch w :
  wf w → step (RemoveWaitingConsumer name ch) w (λ _ _, True).
Proof.
  intros Hwf. apply step_bind_get. destruct (Topics w !! name) as [t|] eqn:Et; [|by apply step_ret].
  destruct (topic_valid _ _ _ Hwf Et) as (x & Hx & _).
  apply step_section; [done|by exists x|done|].
  intros y. apply shrinks_waiting, remove_first_sublist.
Qed.

Lemma step_Ack now name id w : wf w → step (Ack now name id) w (λ _ _, True).
Proof.
  intros Hwf. apply step_bind_get. destruct (Topics w !! name) as [t|] eqn:Et; [|by apply step_ret].
  destruct (topic_valid _ _ _ Hwf Et) as (x & Hx & Hm & _).
  eapply wpx_enter; [done..|]. rewrite removeMessageByID_mu.
  destruct (removeMessageByID id x) as [x'|] eqn:Er; simpl.
  - apply removeMessageByID_same in Er. apply wpx_bind, wpx_store_topic. rewrite upd_upd.
    apply wpx_bind, wps_with_storage; [auto with tmq|]. intros r st _ _.
    change (set_storage st (upd t ?y w)) with (upd t y (set_storage st w)).
    apply wpx_bind, wpx_Unlock; [|done]. apply wpx_ret. split_and!; [|apply (ext_upd t _ w)|done].
    rewrite set_mu_idem, set_mu_same; [|by destruct Er as (_ & _ & _ & _ & _ & _ & ->)].
    apply (wf_shrink t x); auto with tmq.
  - apply wpx_bind, wpx_release; [done..|]. by apply step_ret.
Qed.

Lemma step_append_normal t m w :
  wf w → valid w t →
  step (Lock t ;; update_topic t (λ x, set_Messages (Messages x ++ [m]) x) ;; Unlock t) w
    (λ _ _, True).
Proof.
  intros Hwf Ht. apply step_section; [done..|]. intros y.
  by apply same_shrinks, (enqueue_same "normal" m y).
Qed.

Lemma step_Requeue now m w : wf w → step (Requeue now m) w (λ _ _, True).
Proof.
  intros Hwf. unfold Requeue. destruct (requeue_target m) as [msg target].
  eapply step_bind; [by apply step_getOrCreateTopic|].
  intros [t|] w1 Hwf1 He1 (_ & _ & _ & _ & Ht); [|by apply step_ret].
  eapply step_bind; [apply step_with_storage with (Q := λ _ w', Topics w' !! target = Some t);
    auto with tmq|].
  simpl. intros _ w2 Hwf2 He2 Ht2. destruct (topic_valid _ _ _ Hwf2 Ht2) as (x & Hx & Hm & _).
  eapply wpx_enter; [done..|]. simpl. destruct (waitingConsumers x) as [|ch rest] eqn:Ew.
  - apply wpx_bind. eapply wpx_update_topic; [apply heap_upd|]. rewrite upd_upd.
    apply wpx_Unlock; [|done]. split_and!; [|apply ext_upd|done].
    apply (wf_upd t x); [done..|by left|done|done].
  - apply wpx_bind, wpx_store_topic. rewrite upd_upd.
    destruct (wf_waiting _ Hwf2 t x ch Hx) as (n & Hc & Hpos); [rewrite Ew; by left|].
    apply wpx_bind. eapply wpx_try_send; [done..|]. simpl.
    rewrite (proj2 (Nat.ltb_lt 0 n)) by done.
    change (set_chans ?cs (upd t ?y w2)) with (upd t y (set_chans cs w2)).
    apply wpx_Unlock; [|done]. rewrite set_mu_waiting by done.
    change (upd t ?y (set_chans ?cs w2)) with (set_chans cs (upd t y w2)).
    pose proof (pop_unclaimed t x ch rest w2 Hwf2 Hx Ew) as [_ Hun].
    split_and!; [|apply (ext_upd t _ w2)|done].
    apply (wf_push_all msg [ch] (upd t (set_waitingConsumers rest x) w2)).
    + eapply wf_shrink; [done..|]. apply shrinks_waiting. rewrite Ew. by apply sublist_cons.
    + intros a y ch' Hy Hin ->%list_elem_of_singleton. apply (Hun a y Hy).
      unfold registered. set_solver.
Qed.

Lemma step_redrive now dlq target ms w :
  RuntimeLaws R → wf w → step (redrive now dlq target ms) w (λ _ _, True).
Proof.
  intros HR. revert w. induction ms as [|m ms IH]; intros w Hwf; [by apply step_ret|].
  cbn [redrive]. eapply step_bind; [apply step_with_storage with (Q := λ _ _, True); auto with tmq|].
  intros _ w1 Hwf1 _ _. eapply step_bind; [by apply step_publishCore|].
  intros err w2 Hwf2 _ _. eapply step_bind; [by apply IH|]. intros n w3 Hwf3 _ _.
  by apply step_ret.
Qed.

Lemma step_RedriveDLQ now target w :
  RuntimeLaws R → wf w → step (RedriveDLQ now target) w (λ _ _, True).
Proof.
  intros HR Hwf. unfold RedriveDLQ.
  match goal with |- step (let '(_, _) := ?p in _) _ _ => destruct p as [dlq tgt] end.
  apply step_bind_get. destruct (Topics w !! dlq) as [t|] eqn:Et; [|by apply step_ret].
  destruct (topic_valid _ _ _ Hwf Et) as (x & Hx & Hm & _).
  eapply wpx_enter; [done..|]. cbn [Messages set_mu]. destruct (Messages x) as [|m ms].
  - apply wpx_bind, wpx_release; [done..|]. by apply step_ret.
  - apply wpx_leave; [done|].
    assert (wf (upd t (set_mu false (set_Messages [] (set_mu true x))) w)) as Hwf1
      by by apply (wf_upd t x); [..|left| |].
    eapply wpx_mono; [eapply step_bind; [by apply step_redrive|]|..].
    + intros n w' Hwf' _ _. by apply (step_ret _ _ (λ _ _, True)).
    + intros a w' (? & He & ?). split_and!; [done| |done]. eapply ext_trans; [|exact He].
      apply ext_upd.
    + done.
Qed.

Lemma step_CreateTopic name policy retention w :
  wf w → step (CreateTopic name policy retention) w (λ _ _, True).
Proof.
  intros Hwf. unfold CreateTopic. case_match; [by apply step_ret|].
  case_match; [by apply step_ret|]. apply step_bind_get.
  case_match; [by apply step_ret|]. case_match; [by apply step_ret|].
  apply wpx_bind, wpx_install_topic. intros re. apply wpx_ret.
  split_and!; [by apply wf_installed|apply ext_with_topic|done].
Qed.

Lemma step_read {A} t (k : Topic → M (World St) A) w (Q : A → World St → Prop) :
  wf w → valid w t → (∀ x, step (k x) w Q) →
  step (Lock t ;; x ← load_topic t; Unlock t ;; k x) w Q.
Proof. intros Hwf [x Hx] Hk. eapply wpx_read; [eauto with tmq..|]. apply Hk. Qed.

Lemma step_Peek name limit w : wf w → step (Peek name limit) w (λ _ w', w' = w).
Proof.
  intros Hwf. apply step_bind_get. destruct (Topics w !! name) as [t|] eqn:Et; [|by apply step_ret].
  destruct (topic_valid _ _ _ Hwf Et) as (x & Hx & _).
  apply step_read; [done|by exists x|]. intros. by apply step_ret.
Qed.

Lemma step_topic_stats hooks ts w :
  wf w → Forall (λ '(_, t), valid w t) ts → step (topic_stats hooks ts) w (λ _ w', w' = w).
Proof.
  intros Hwf. induction ts as [|[n t] ts IH]; intros Hv; [by apply step_ret|].
  apply Forall_cons in Hv as [Ht Hts]. apply step_read; [done..|]. intros x.
  eapply step_bind; [by apply IH|]. intros rest w' Hwf' _ ->. by apply step_ret.
Qed.

Lemma step_GetStats w : RuntimeLaws R → wf w → step GetStats w (λ _ w', w' = w).
Proof.
  intros HR Hwf. apply step_bind_get. eapply step_bind.
  - apply step_topic_stats; [done|]. apply Forall_forall. intros [n t].
    rewrite map_range_perm, elem_of_map_to_list. intros Hin.
    destruct (topic_valid _ _ _ Hwf Hin) as (x & ? & _). by exists x.
  - intros stats w' Hwf' _ ->. by apply step_ret.
Qed.

Lemma step_snapshot ts w :
  wf w → Forall (valid w) ts → step (snapshot ts) w (λ _ w', w' = w).
Proof.
  intros Hwf. induction ts as [|t ts IH]; intros Hv; [by apply step_ret|].
  apply Forall_cons in Hv as [Ht Hts]. apply step_read; [done..|]. intros x.
  eapply step_bind; [by apply IH|]. intros rest w' Hwf' _ ->. by apply step_ret.
Qed.

Lemma step_GetStateSnapshot w : RuntimeLaws R → wf w → step GetStateSnapshot w (λ _ w', w' = w).
Proof. intros HR Hwf. apply step_bind_get, step_snapshot; [done|]. by apply topics_all_valid. Qed.

Lemma step_Purge name w : wf w → step (Purge name) w (λ _ _, True).
Proof.
  intros Hwf. apply step_bind_get. destruct (Topics w !! name) as [t|] eqn:Et; [|by apply step_ret].
  destruct (topic_valid _ _ _ Hwf Et) as (x & Hx & Hm & _).
  apply wpx_bind. eapply wpx_Lock; [done..|]. apply wpx_bind.
  eapply wpx_update_topic; [apply heap_upd|]. rewrite upd_upd. apply wpx_bind, wpx_Unlock; [|done].
  apply wpx_bind, wps_with_storage; [auto with tmq|]. intros r st _ _. apply wpx_ret.
  split_and!; [|apply ext_upd|done].
  by apply wf_set_storage, (wf_upd t x); [..|left| |].
Qed.

Lemma step_DeleteTopic name w : wf w → step (DeleteTopic name) w (λ _ _, True).
Proof.
  intros Hwf. apply step_bind_get. destruct (Topics w !! name) as [t|] eqn:Et; [|by apply step_ret].
  destruct (topic_valid _ _ _ Hwf Et) as (x & Hx & Hm & Hn & _).
  apply wpx_bind. eapply wpx_Lock; [done..|]. apply wpx_bind.
  eapply wpx_update_topic; [apply heap_upd|]. rewrite upd_upd. apply wpx_bind, wpx_Unlock; [|done].
  apply wpx_bind, wpx_modify, wpx_bind, wpx_modify, wpx_bind, wpx_modify, wpx_bind, wpx_modify.
  apply wpx_bind, wps_with_storage; [auto with tmq|]. intros r st _ _. apply wpx_ret.
  split_and!; [|apply (ext_upd t _ w)|done].
  apply wf_set_storage, wf_set_compiledRegex, wf_set_webhooks.
  change (wf (upd t (set_mu false (set_Deleted true (set_mu true x)))
    (set_wildcards (delete name (wildcards w)) (set_Topics (delete name (Topics w)) w)))).
  apply (wf_upd t x); try done.
  - by apply wf_forget.
  - right. simpl. intros n [Hne Ht]%lookup_delete_Some.
    destruct (topic_valid _ _ _ Hwf Ht) as (y & Hy & _ & Hny & _). congruence.
Qed.

Lemma step_IsIdempotent now key w : wf w → step (IsIdempotent now key) w (λ _ _, True).
Proof.
  intros Hwf. unfold IsIdempotent. case_match; [by apply step_ret|]. apply step_bind_get.
  destruct (match idempotencyKeys w !! key with Some exp => (now <? exp)%Z | None => false end);
    [by apply step_ret|].
  eapply step_bind.
  { instantiate (1 := λ _ _, True). case_match; [|by apply step_ret].
    apply step_modify; [|by intros a|done]. apply wf_set_keys; [done|].
    pose proof (wf_keys _ Hwf). etrans; [|done]. apply inj_le, map_subseteq_size, map_filter_subseteq. }
  intros _ w1 Hwf1 _ _. apply step_bind_get.
  destruct (Z.leb_spec maxIdempotencyKeys (Z.of_nat (size (idempotencyKeys w1))));
    [by apply step_ret|].
  apply step_bind_modify; [by intros a|]. apply step_ret; [|done]. apply wf_set_keys; [done|].
  rewrite map_size_insert. case_match; unfold id; lia.
Qed.

Lemma step_AddSpy name w : wf w → step (AddSpy name) w (λ _ _, True).
Proof.
  intros Hwf. unfold AddSpy. case_match; [by apply step_ret|].
  eapply step_bind; [by apply step_getOrCreateTopic|].
  intros [t|] w1 Hwf1 He1 (_ & _ & _ & _ & Ht); [|by apply step_ret].
  destruct (topic_valid _ _ _ Hwf1 Ht) as (x & Hx & Hm & _).
  apply wpx_bind. eapply wpx_Lock; [done..|]. unfold make_chan.
  apply wpx_bind, wpx_bind, wpx_get, wpx_bind, wpx_modify, wpx_ret.
  apply wpx_bind. eapply wpx_update_topic; [simpl; apply lookup_insert_eq|].
  match goal with |- wpx _ _ _ ?v =>
    change v with (upd t (set_spies (spies x ++ [next_addr w1]) (set_mu true x))
      (upd t (set_mu true x) (with_chan spy_buffer w1))) end.
  rewrite upd_upd. apply wpx_bind, wpx_Unlock; [|done]. apply wpx_ret.
  split_and!; [|apply (ext_upd t _ w1)|done].
  eapply (wf_register t x _ (next_addr w1)); [by apply wf_with_chan|done|..|by left]; [|done..].
  apply idle_with_chan; [done|]. unfold spy_buffer. lia.
Qed.

(** Closing a spy's channel once it is unregistered. *)
Lemma wf_close t x c ch w :
  wf w → heap w !! t = Some x → ch ∈ spies x → chans w !! ch = Some c →
  wf (set_chans (<[ch := MkChan (cap c) (buf c) true]> (chans w))
    (upd t (set_spies (remove_first (λ spy, bool_decide (spy = ch)) (spies x)) x) w)).
Proof.
  intros Hwf Hx Hs Hc. set (x' := set_spies _ x).
  assert (sublist (spies x') (spies x)) as Hsub by apply remove_first_sublist.
  assert (shrinks x x') as Hsh by (unfold shrinks; by split_and!).
  assert (ch ∉ registered x') as Hout.
  { pose proof (wf_nodup _ Hwf t x Hx) as Hnd. apply NoDup_app in Hnd as (Hnd & Hdis & _).
    intros [Hin|Hin]%elem_of_app; [|by eapply Hdis]. simpl in Hin.
    assert (List.find (λ spy, bool_decide (spy = ch)) (spies x) = Some ch) as Hf.
    { clear -Hs. induction (spies x) as [|a l IH]; [set_solver|]. simpl.
      case_bool_decide; [by subst|]. apply IH. set_solver. }
    rewrite (remove_first_perm _ _ _ Hf) in Hnd. by apply NoDup_cons in Hnd as [? _]. }
  assert (∀ a y, heap (upd t x' w) !! a = Some y → ch ∉ registered y) as Hnone.
  { intros a y. destruct (decide (t = a)) as [<-|]; [rewrite heap_upd; by intros [= <-]|].
    rewrite heap_upd_ne by done. intros Hy Hin.
    destruct (wf_apart _ Hwf t a x y ch); [done..| |done|done]. unfold registered. set_solver. }
  apply (wf_set_chans _ (upd t x' w)); [by eapply wf_shrink| | |].
  - simpl. rewrite dom_insert_lookup_L; eauto.
  - intros ch' (c' & Hc' & Hcl) Hwhere. exists c'. split; [|done]. simpl.
    rewrite lookup_insert_ne; [done|]. intros <-.
    destruct Hwhere as [(a & y & Hy & Hin)|(chs & m & Hp & Hin)].
    + apply (Hnone a y Hy). unfold registered. set_solver.
    + pose proof (wf_pending _ Hwf) as Hpd. rewrite Forall_forall in Hpd.
      specialize (Hpd _ Hp). simpl in Hpd. rewrite Forall_forall in Hpd.
      destruct (Hpd _ Hin) as [_ Hun]. apply (Hun t x Hx). unfold registered. set_solver.
  - intros a y ch' Hy Hin. simpl. rewrite lookup_insert_ne; [done|]. intros <-.
    apply (Hnone a y Hy). unfold registered. set_solver.
Qed.

Lemma step_RemoveSpy name ch w : wf w → step (RemoveSpy name ch) w (λ _ _, True).
Proof.
  intros Hwf. apply step_bind_get. destruct (Topics w !! name) as [t|] eqn:Et; [|by apply step_ret].
  destruct (topic_valid _ _ _ Hwf Et) as (x & Hx & Hm & _).
  eapply wpx_enter; [done..|]. simpl. case_bool_decide as Hin.
  - destruct (wf_spies _ Hwf t x ch Hx Hin) as (c & Hc & Hcl).
    apply wpx_bind, wpx_bind, wpx_store_topic. rewrite upd_upd. apply wpx_bind, wpx_get. simpl.
    rewrite Hc, Hcl. apply wpx_modify.
    change (set_chans ?cs (upd t ?y w)) with (upd t y (set_chans cs w)).
    apply wpx_Unlock; [|done]. split_and!; [|apply (ext_upd t _ w)|done].
    match goal with |- wf (upd t ?y _) =>
      replace y with (set_spies (remove_first (λ spy, bool_decide (spy = ch)) (spies x)) x)
        by (destruct x; simpl in *; by subst) end.
    by apply (wf_close t x c ch w).
  - apply wpx_bind, wpx_ret, wpx_release; [done..|]. auto with tmq.
Qed.

Lemma step_CreateGroup name group w : wf w → step (CreateGroup name group) w (λ _ _, True).
Proof.
  intros Hwf. unfold CreateGroup. case_match; [by apply step_ret|]. cbv zeta.
  apply step_bind_modify; [by intros a|].
  eapply step_bind; [by apply step_getOrCreateTopic, wf_add_binding, Contains_app|].
  intros [t|] w1 Hwf1 _ _; by apply step_ret.
Qed.

Lemma step_RegisterWebhook name url secret w :
  wf w → step (RegisterWebhook name url secret) w (λ _ _, True).
Proof.
  intros Hwf. apply step_bind_get. cbv zeta. destruct (existsb _ _); [by apply step_ret|].
  apply step_bind_modify; [by intros a|]. apply step_ret; [by apply wf_set_webhooks|done].
Qed.

Lemma step_webhook_done i w : wf w → step (webhook_done i) w (λ _ _, True).
Proof.
  intros Hwf. apply step_modify; [|by intros a|done]. apply wf_set_inflight; [done|].
  etrans; [apply sublist_length, sublist_delete|apply Hwf].
Qed.

Lemma step_try_recv ch w : wf w → step (try_recv ch) w (λ _ _, True).
Proof.
  intros Hwf. apply step_bind_get. destruct (chans w !! ch) as [[n [|m b] cl]|] eqn:Ec;
    [by apply step_ret| |by apply step_ret].
  apply step_bind_modify; [by intros a|]. apply step_ret; [|done].
  apply wf_set_chans; [done| | |].
  - rewrite dom_insert_lookup_L; eauto.
  - intros ch' (c & Hc & Hcl) _. destruct (decide (ch = ch')) as [<-|].
    + exists (MkChan n b cl). rewrite lookup_insert_eq. by simplify_eq.
    + exists c. by rewrite lookup_insert_ne.
  - intros a x ch' Hx Hin. destruct (decide (ch = ch')) as [<-|]; [|by rewrite lookup_insert_ne].
    destruct (wf_waiting _ Hwf a x ch Hx Hin) as (k & Hk & _). congruence.
Qed.

Lemma step_load_existing_topic name w :
  wf w → is_Some (storage w) →
  step (load_existing_topic name) w (λ _ w', is_Some (storage w')).
Proof.
  intros Hwf [s0 Hs]. unfold load_existing_topic.
  eapply step_bind with (Q := λ _ w', is_Some (storage w')).
  { case_match; [|by apply step_ret]. case_match; [by apply step_ret|].
    apply step_modify; [by apply wf_add_binding|by intros a|by exists s0]. }
  intros _ w1 Hwf1 _ [s1 Hs1]. apply step_bind_get. rewrite Hs1. apply wpx_bind.
  apply wps_with_storage; [auto with tmq|]. intros [msgs err] st Hst _.
  destruct (Hst s1 Hs1) as (s' & _ & ->). destruct err.
  - apply wpx_ret. split_and!; [by apply wf_set_storage|by intros a|by exists s'].
  - apply wpx_bind, wpx_install_topic. intros re. apply wpx_ret.
    split_and!; [|apply (ext_with_topic name _ w1)|by exists s'].
    by apply wf_installed; [apply wf_set_storage|..].
Qed.

Lemma step_LoadExistingTopics names w :
  wf w → is_Some (storage w) →
  step (LoadExistingTopics names) w (λ _ w', is_Some (storage w')).
Proof.
  intros Hwf Hs. apply (step_forM _ _ (λ w', is_Some (storage w'))); [done..|].
  intros name w' _ Hwf' _ Hs'. by apply step_load_existing_topic.
Qed.

End operations.
