(* ===== verification/BrokerSafety.v ===== *)
(** * Safety of every run of the broker

    The operations as one type of actions, and the theorem that no sequence of
    them panics, blocks for ever or leaves the invariant. *)

From S2P Require Import Prelude.
From S2P Require Import GoLib.
From S2P Require Import Message.
From S2P Require Import Wal.
From S2P Require Import Storage.
From S2P Require Import Codec.
From S2P Require Import Demo.
From S2P Require Import Broker.
From S2P Require Import BrokerQueue.
From S2P Require Import BrokerSteps.
From S2P Require Import BrokerSafe.
From S2P Require Import BrokerOps.

(** What clients, timers and goroutines may ask of the broker. *)
Inductive action : Type :=
| APublish (name : string) (payload : bytes) (headers : gmap string string)
    (priority : string) (expiresAt deliverAt : option Z) (isBroadcast : bool)
| APublishReplicated (name : string) (payload : bytes)
| AConsume (name : string) (limit : Z)
| AReceive (ch : nat)
| AStopWaiting (name : string) (ch : nat)
| AAck (name id : string)
| ARequeue (m : Message)
| APurgeExpired
| ARedrive (name : string)
| ARegisterWebhook (name url secret : string)
| AWebhookDone (i : nat)
| ACreateTopic (name policy : string) (retention : Z)
| APeek (name : string) (limit : Z)
| APurge (name : string)
| ADelete (name : string)
| AIdempotent (key : string)
| AAddSpy (name : string)
| ARemoveSpy (name : string) (ch : nat)
| ACreateGroup (name group : string)
| AStats
| ASnapshot
| ATask (i : nat).

Section runs.
Context `{R : Runtime} {St : Type} `{Storage St}.
Abbreviation MB := (M (World St)).

(** Every consumer brings its own channel of one slot, as the transports do. *)
Definition do_action (now : Z) (a : action) : MB unit :=
  match a with
  | APublish name payload headers p e d bc => Publish now name payload headers p e d bc ;; mret ()
  | APublishReplicated name payload => PublishReplicated now name payload ;; mret ()
  | AConsume name limit => ch ← make_chan 1; Consume now name limit ch ;; mret ()
  | AReceive ch => try_recv ch ;; mret ()
  | AStopWaiting name ch => RemoveWaitingConsumer name ch
  | AAck name id => Ack now name id ;; mret ()
  | ARequeue m => Requeue now m
  | APurgeExpired => purgeExpiredMessages now
  | ARedrive name => RedriveDLQ now name ;; mret ()
  | ARegisterWebhook name url secret => RegisterWebhook name url secret ;; mret ()
  | AWebhookDone i => webhook_done i
  | ACreateTopic name policy retention => CreateTopic name policy retention ;; mret ()
  | APeek name limit => Peek name limit ;; mret ()
  | APurge name => Purge name ;; mret ()
  | ADelete name => DeleteTopic name ;; mret ()
  | AIdempotent key => IsIdempotent now key ;; mret ()
  | AAddSpy name => AddSpy name ;; mret ()
  | ARemoveSpy name ch => RemoveSpy name ch
  | ACreateGroup name group => CreateGroup name group ;; mret ()
  | AStats => GetStats ;; mret ()
  | ASnapshot => GetStateSnapshot ;; mret ()
  | ATask i => run_pending now i
  end.

(** [main]: the recovered topics, when there is a disk. *)
Definition boot (names : list string) : MB unit :=
  w ← get;
  match storage w with
  | Some _ => LoadExistingTopics names
  | None => mret ()
  end.

Definition run (names : list string) (acts : list (Z * action)) : MB unit :=
  boot names ;; forM_ (λ '(now, a), do_action now a) acts.

End runs.

Section safety.
Context `{R : Runtime} {St : Type} `{Storage St} `{!StorageSafe St}.
Context (HR : RuntimeLaws R).
Implicit Types w : World St.

Lemma env_limit_pos name d : (0 < d → 0 < env_limit name d)%Z.
Proof.
  intros. unfold env_limit. repeat case_match; try done. by apply Z.ltb_lt.
Qed.

Lemma wf_New (store : option St) : wf (New store).
Proof.
  split; simpl; try (intros *; rewrite ?lookup_empty; done).
  - by apply env_limit_pos.
  - unfold webhook_slots. lia.
Qed.

Lemma step_make_chan n w :
  wf w → 0 < n → step (make_chan n) w (λ ch w', idle w' ch).
Proof.
  intros Hwf Hn. apply wpx_bind, wpx_get, wpx_bind, wpx_modify, wpx_ret.
  split_and!; [by apply (wf_with_chan n)|by intros a|by apply (idle_with_chan n)].
Qed.

Lemma step_then_unit {A} (c : M (World St) A) w Q :
  step c w Q → step (c ;; mret ()) w (λ _ _, True).
Proof. intros Hc. eapply step_bind; [exact Hc|]. intros. by apply step_ret. Qed.

Lemma step_do_action now a w : wf w → step (do_action now a) w (λ _ _, True).
Proof.
  intros Hwf. destruct a; cbn [do_action];
    try (eapply step_then_unit; eauto using step_publishCore, step_try_recv, step_Ack,
      step_RedriveDLQ, step_RegisterWebhook, step_CreateTopic, step_Peek, step_Purge,
      step_DeleteTopic, step_IsIdempotent, step_AddSpy, step_CreateGroup, step_GetStats,
      step_GetStateSnapshot; fail);
    try solve [eauto using step_RemoveWaitingConsumer, step_Requeue,
      step_purgeExpiredMessages, step_webhook_done, step_RemoveSpy, step_run_pending].
  all: try (eapply step_then_unit; by apply step_publishCore).
  eapply step_bind; [by apply step_make_chan; [|lia]|]. intros ch w' Hwf' _ Hi.
  eapply step_then_unit. by apply step_Consume.
Qed.

Lemma step_boot names w : wf w → step (boot names) w (λ _ _, True).
Proof.
  intros Hwf. apply step_bind_get. destruct (storage w) eqn:Es; [|by apply step_ret].
  eapply step_mono; [apply step_LoadExistingTopics; [done|by rewrite Es]|done].
Qed.

Lemma step_run names acts w : wf w → step (run names acts) w (λ _ _, True).
Proof.
  intros Hwf. eapply step_bind; [by apply step_boot|]. intros _ w' Hwf' _ _.
  apply (step_forM _ _ (λ _, True)); [done..|]. intros [now a] w'' _ Hwf'' _ _.
  by apply step_do_action.
Qed.

End safety.

(** [C1] From the state [broker.New] creates, no sequence of client calls,
    timers and goroutines, whatever the storage answers, makes the broker panic
    or block for ever: the run ends with a return, or with the process killed
    during a storage call.  In particular it never sends on or closes a closed
    channel, never unlocks a free mutex, never locks one it holds, never indexes
    an empty queue.  When it returns the global invariant holds: all mutexes are
    free, the topic maps agree, registered channels are open and registered
    once, and the webhook slots and idempotency keys are within their limits. *)
Theorem broker_run_safe `{R : Runtime} {St : Type} `{Storage St} `{!StorageSafe St}
    (HR : RuntimeLaws R) (store : option St) (names : list string) (acts : list (Z * action)) :
  wpx (run names acts) (λ _ w, wf w) (λ _, True) (New store).
Proof.
  eapply wpx_mono; [apply (step_run HR), wf_New| |done]. by intros [] w (? & _).
Qed.

Lemma broker_run_safe_witness :
  wpx (run ["t"] [(1%Z, APublish "t" [] ∅ "high" None None false); (2%Z, AConsume "t" 1)])
    (λ _ w, wf w) (λ _, True) (New (Some demo_disk)).
Proof. apply (broker_run_safe demo_runtime_laws). Defined.
