(* ===== verification/BrokerPublish.v ===== *)
(** * What publishing does

    The functional behaviour of [publishCore]: where the message goes, what is
    evicted, what a waiting consumer receives, and the fan-out to consumer
    groups. *)

From Stdlib Require Import Strings.Byte.
From S2P Require Import Prelude.
From S2P Require Import GoLib.
From S2P Require Import Message.
From S2P Require Import Wal.
From S2P Require Import Storage.
From S2P Require Import Codec.
From S2P Require Import Demo.
From S2P Require Import Broker.
From S2P Require Import BrokerQueue.
From S2P Require Import BrokerSteps.
From S2P Require Import BrokerSafe.
From S2P Require Import BrokerOps.
From S2P Require Import BrokerSafety.

Section views.
Context {St : Type}.
Implicit Types w : World St.

(** The topic a name refers to. *)
Definition topic_at w (name : string) : option Topic :=
  t ← Topics w !! name; heap w !! t.

(** Nobody waits for a message. *)
Definition quiet w : Prop := ∀ a x, heap w !! a = Some x → waitingConsumers x = [].

(** The settings publishing reads and never writes. *)
Definition same_config w w' : Prop :=
  bindings w' = bindings w ∧ maxMessages w' = maxMessages w ∧ maxTopics w' = maxTopics w ∧
  OnPublish w' = OnPublish w.

Lemma same_config_trans w1 w2 w3 : same_config w1 w2 → same_config w2 w3 → same_config w1 w3.
Proof. unfold same_config. intuition congruence. Qed.

Lemma topic_at_inert w w' name : inert w w' → topic_at w' name = topic_at w name.
Proof. by intros (? & ? & ? & ->). Qed.

Lemma topic_at_upd t y w name :
  wf w → Topics w !! name = Some t →
  topic_at (upd t y w) name = Some y ∧ ∀ n, n ≠ name → topic_at (upd t y w) n = topic_at w n.
Proof.
  intros Hwf Ht. unfold topic_at. split.
  - simpl. rewrite Ht. simpl. apply lookup_insert_eq.
  - intros n Hn. simpl. destruct (Topics w !! n) as [t'|] eqn:En; [|done]. simpl.
    rewrite lookup_insert_ne; [done|]. intros <-.
    destruct (topic_valid _ _ _ Hwf Ht) as (? & ? & _ & ? & _).
    destruct (topic_valid _ _ _ Hwf En) as (? & ? & _ & ? & _). congruence.
Qed.

Lemma quiet_upd t y w : quiet w → waitingConsumers y = [] → quiet (upd t y w).
Proof.
  intros Hq Hy a x. destruct (decide (t = a)) as [<-|].
  - rewrite heap_upd. by intros [= <-].
  - rewrite heap_upd_ne by done. apply Hq.
Qed.

Lemma quiet_no_waiting w ts : quiet w → Forall (valid w) ts → Forall (no_waiting w) ts.
Proof.
  intros Hq Hv. eapply Forall_impl; [exact Hv|]. intros t [x Hx]. exists x. eauto.
Qed.

End views.

Section publishing.
Context `{R : Runtime} {St : Type} `{Storage St} `{!StorageSafe St}.
Context (HR : RuntimeLaws R).
Implicit Types w : World St.

(** The topic a publication to [name] works on: the existing one, or a new one
    when there is room for it. *)
Definition target w (name : string) (x : Topic) : Prop :=
  topic_at w name = Some x ∨
  (Topics w !! name = None ∧ (Z.of_nat (size (Topics w)) < maxTopics w)%Z ∧
   x = empty_topic name default_policy 0).

(** The expiry a message gets. *)
Definition expiry (now : Z) (x : Topic) (expiresAt : option Z) : option Z :=
  match expiresAt with
  | None => if (0 <? Retention x)%Z then Some (now + Retention x)%Z else None
  | e => e
  end.

Lemma step_target name x w :
  wf w → target w name x →
  step (getOrCreateTopic name) w (λ ot w',
    ∃ t, ot = Some t ∧ Topics w' !! name = Some t ∧ heap w' !! t = Some x ∧
      (∀ n, n ≠ name → topic_at w' n = topic_at w n) ∧ same_config w w' ∧
      (quiet w → quiet w') ∧ storage w' = storage w ∧ draws w' = draws w ∧
      (size (Topics w') ≤ size (Topics w) + (if bool_decide (is_Some (Topics w !! name)) then 0 else 1))).
Proof.
  intros Hwf Hx. apply wpx_getOrCreateTopic.
  - intros t Ht. split_and!; [done|auto with tmq|]. exists t.
    destruct Hx as [Hx|[? _]]; [|congruence]. unfold topic_at in Hx. rewrite Ht in Hx.
    split_and!; done || lia.
  - intros Hn Hfull. exfalso. destruct Hx as [Hx|(_ & ? & _)]; [|lia].
    unfold topic_at in Hx. by rewrite Hn in Hx.
  - intros re Hn Hroom. destruct Hx as [Hx|(_ & _ & ->)].
    { unfold topic_at in Hx. by rewrite Hn in Hx. }
    split; [by apply wf_installed|]. split; [apply ext_with_topic|].
    exists (next_addr w). pose proof (fresh_heap w Hwf) as Hf.
    split_and!; [done|apply installed_topic..| |done| |done|done|].
    + intros n Hne. unfold topic_at. simpl. rewrite lookup_insert_ne by done.
      destruct (Topics w !! n) as [t'|] eqn:En; [|done]. simpl.
      destruct (topic_valid _ _ _ Hwf En) as (y & Hy & _).
      rewrite lookup_insert_ne; [done|]. congruence.
    + intros Hq a y. simpl. destruct (decide (next_addr w = a)) as [<-|].
      * rewrite lookup_insert_eq. by intros [= <-].
      * rewrite lookup_insert_ne by done. apply Hq.
    + simpl. rewrite map_size_insert, Hn. case_bool_decide as Hs; [by destruct Hs|lia].
Qed.

Lemma step_publish_room t name m p bc now x w :
  wf w → heap w !! t = Some x → Deleted x = false → (totalActiveMessages x < maxMessages w)%Z →
  step (publish_locked t name m p bc now) w (λ err w',
    err = None ∧ ∃ st, w' = set_storage st (upd t (enqueue p m x) w)).
Proof.
  intros Hwf Hx Hd Hroom.
  apply (wps_publish_locked t x); [done|by apply (wf_heap _ Hwf t x)|apply Hwf|].
  intros err x' st Hp. split; [|split; [apply (ext_upd t _ w)|]].
  - apply published_shrinks in Hp. apply wf_set_storage. by eapply wf_shrink.
  - destruct Hp; first [congruence|lia|eauto].
Qed.

(** The message a publication builds. *)
Definition new_message w (now : Z) (name : string) (payload : bytes)
    (headers : gmap string string) (e d : option Z) (x : Topic) : Message :=
  MkMessage (NewUUID (rand_read (draws w))) name payload now (expiry now x e) d 0 headers.

(** One publication with nobody waiting, given what its locked section does to
    the storage ([P]): the message ends up in the queue of its priority, and no
    other topic changes. *)
Lemma step_publish_one_with (P : option St → Prop) now name payload headers p e d bc repl x w
    (msg := new_message w now name payload headers e d x) :
  wf w → quiet w → OnPublish w = None → target w name x →
  (∀ t w2, wf w2 → heap w2 !! t = Some x → storage w2 = storage w → maxMessages w2 = maxMessages w →
    step (publish_locked t name msg p bc now) w2 (λ err w',
      err = None ∧ ∃ st, P st ∧ w' = set_storage st (upd t (enqueue p msg x) w2))) →
  step (publish_one now name payload headers p e d bc repl) w (λ err w',
    err = None ∧ quiet w' ∧ same_config w w' ∧
    (size (Topics w') ≤ size (Topics w) + (if bool_decide (is_Some (Topics w !! name)) then 0 else 1)) ∧
    (∀ n, n ≠ name → topic_at w' n = topic_at w n) ∧ P (storage w') ∧
    topic_at w' name = Some (enqueue p msg x)).
Proof.
  intros Hwf Hq Hon Htg Hlocked.
  eapply step_bind; [by apply step_target|].
  intros ot w1 Hwf1 _ (t & -> & Ht & Hx & Hoth & Hcfg & Hq1 & Hst & Hdr & Hsz).
  eapply step_bind; [by apply step_matchingWildcards|]. intros ws ? _ _ (-> & Hws & _).
  apply wpx_bind. eapply wpx_load_topic; [done|]. cbv zeta.
  eapply step_bind; [by apply step_fresh_uuid|]. intros id w2 Hwf2 _ [-> ->].
  apply step_bind_get. set (w2 := set_draws _ w1) in *.
  assert (OnPublish w2 = None) as ->
    by (transitivity (OnPublish w1); [done|]; by destruct Hcfg as (_ & _ & _ & ->)).
  fold (expiry now x e). rewrite Hdr. fold (new_message w now name payload headers e d x). fold msg.
  eapply step_bind; [apply (Hlocked t w2); [done|done|done|apply Hcfg]|].
  intros err w3 Hwf3 He3 [-> [st [HP ->]]]. set (w3 := set_storage st _) in *.
  assert (waitingConsumers (enqueue p msg x) = []) as Hwx.
  { destruct (enqueue_same p msg x) as (_ & -> & _). by eapply (Hq1 Hq). }
  assert (quiet w3) as Hq3 by (apply (quiet_upd t _ w2); [by apply Hq1|done]).
  eapply step_bind with (Q := λ _ w', inert w3 w').
  { destruct (delayed now msg).
    - apply step_modify; [|by intros a|].
      + apply wf_set_pending; [done|]. apply Forall_app. split; [apply Hwf3|].
        apply Forall_singleton. split; [by apply He3; exists x|by eapply ext_all].
      + by eexists (chans w3), (inflight w3), _.
    - apply step_pushFunc_quiet; [done| |].
      + eexists. split; [apply (heap_upd t _ w2)|done].
      + apply (quiet_no_waiting w3); [done|by eapply ext_all]. }
  intros [] w4 Hwf4 _ Hi. apply step_ret; [done|].
  destruct (topic_at_upd t (enqueue p msg x) w2 name Hwf2 Ht) as [Hat Hato].
  split_and!; [done|..].
  - intros a y. rewrite (inert_heap _ _ Hi). apply Hq3.
  - destruct Hi as (? & ? & ? & ->). apply Hcfg.
  - destruct Hi as (? & ? & ? & ->). apply Hsz.
  - intros n Hn. rewrite (topic_at_inert w3 w4) by done. rewrite <-Hoth by done.
    by apply Hato.
  - by destruct Hi as (? & ? & ? & ->).
  - rewrite (topic_at_inert w3 w4) by done. apply Hat.
Qed.

Lemma step_publish_one_quiet now name payload headers p e d bc repl x w :
  wf w → quiet w → OnPublish w = None → target w name x → Deleted x = false →
  (totalActiveMessages x < maxMessages w)%Z →
  step (publish_one now name payload headers p e d bc repl) w (λ err w',
    err = None ∧ quiet w' ∧ same_config w w' ∧
    (size (Topics w') ≤ size (Topics w) + (if bool_decide (is_Some (Topics w !! name)) then 0 else 1)) ∧
    (∀ n, n ≠ name → topic_at w' n = topic_at w n) ∧
    topic_at w' name = Some (enqueue p (new_message w now name payload headers e d x) x)).
Proof.
  intros Hwf Hq Hon Htg Hdel Hroom. eapply step_mono.
  - apply (step_publish_one_with (λ _, True)); [done..|]. intros t w2 Hwf2 Hx _ Hmax.
    eapply step_mono; [apply step_publish_room; [done..|by rewrite Hmax]|].
    intros err w' _ _ [-> [st ->]]. eauto.
  - intros err w' _ _ (-> & ? & ? & ? & ? & _ & ?). done.
Qed.

(** A name [publishCore] accepts. *)
Definition publishable (name : string) : Prop :=
  0 < String.length name ≤ 255 ∧ validTopicRegex name = true.

Lemma publishable_guards {A} name (a b c : A) :
  publishable name →
  (if bool_decide (String.length name = 0 ∨ 255 < String.length name) then a
   else if negb (validTopicRegex name) then b else c) = c.
Proof.
  intros [Hl ->]. rewrite bool_decide_false by lia. done.
Qed.

Lemma target_live w name x : wf w → target w name x → Deleted x = false.
Proof.
  intros Hwf [Hx|(_ & _ & ->)]; [|done]. unfold topic_at in Hx.
  destruct (Topics w !! name) as [t|] eqn:Et; [|done]. simpl in Hx.
  destruct (wf_topics _ Hwf _ _ Et) as (y & Hy & _ & Hd). congruence.
Qed.

(** The message a publication puts into the queue of [name]. *)
Definition enqueued_as (now : Z) (name : string) (payload : bytes)
    (headers : gmap string string) (p : string) (e d : option Z) (x x' : Topic) : Prop :=
  ∃ id, x' = enqueue p (MkMessage id name payload now (expiry now x e) d 0 headers) x.

(** The loop over the bound queues of a name that has none. *)
Lemma step_no_groups (f : string → M (World St) unit) name w :
  wf w → strings.Contains name "::" = true ∨ bindings w !! name = None →
  step (if strings.Contains name "::" then mret ()
        else w ← get; forM_ f (map_range (elements (default ∅ (bindings w !! name))))) w
    (λ _ w', w' = w).
Proof.
  intros Hwf Hleaf. destruct (strings.Contains name "::"); [by apply step_ret|].
  destruct Hleaf as [|Hb]; [done|]. apply step_bind_get. rewrite Hb. cbn [default].
  rewrite elements_empty. pose proof (map_range_perm (A:=string) []) as Hp.
  symmetry in Hp. apply Permutation_nil in Hp. rewrite Hp. by apply step_ret.
Qed.

(** A name with no groups of its own: [publishCore] at any depth. *)
Lemma step_publish_leaf left now name payload headers p e d bc repl x w :
  wf w → quiet w → OnPublish w = None → target w name x →
  (totalActiveMessages x < maxMessages w)%Z → publishable name →
  strings.Contains name "::" = true ∨ bindings w !! name = None →
  step (publishCore (S left) now name payload headers p e d bc repl) w (λ err w',
    err = None ∧ quiet w' ∧ same_config w w' ∧
    (size (Topics w') ≤ size (Topics w) + (if bool_decide (is_Some (Topics w !! name)) then 0 else 1)) ∧
    (∀ n, n ≠ name → topic_at w' n = topic_at w n) ∧
    ∃ x', topic_at w' name = Some x' ∧ enqueued_as now name payload headers p e d x x').
Proof.
  intros Hwf Hq Hon Htg Hroom Hname Hleaf. cbn [publishCore].
  rewrite publishable_guards by done.
  eapply step_bind with (Q := λ _ w', w' = w).
  { by apply step_no_groups. }
  intros [] w' _ _ ->. eapply step_mono.
  - apply step_publish_one_quiet; [done..| |done]. by eapply target_live.
  - intros err w' _ _ (-> & ? & ? & ? & ? & ?). split_and!; [done..|].
    eexists. split; [done|]. by eexists.
Qed.

(** The loop over the bound queues. *)
Lemma step_fanout left now payload headers p e d bc repl l : ∀ w,
  wf w → quiet w → OnPublish w = None → NoDup l →
  (∀ dest, dest ∈ l → publishable dest ∧ strings.Contains dest "::" = true ∧
     ∃ x, topic_at w dest = Some x ∧ (totalActiveMessages x < maxMessages w)%Z) →
  step (forM_ (λ dest, publishCore (S left) now dest payload headers p e d bc repl ;; mret ()) l) w
    (λ _ w', quiet w' ∧ same_config w w' ∧ size (Topics w') ≤ size (Topics w) ∧
      (∀ n, n ∉ l → topic_at w' n = topic_at w n) ∧
      ∀ dest, dest ∈ l → ∃ x x', topic_at w dest = Some x ∧ topic_at w' dest = Some x' ∧
        enqueued_as now dest payload headers p e d x x').
Proof.
  induction l as [|dest l IH]; intros w Hwf Hq Hon Hnd Hl.
  { apply step_ret; [done|]. split_and!; [done..|]. set_solver. }
  apply NoDup_cons in Hnd as [Hnot Hnd].
  destruct (Hl dest) as (Hpub & Hgrp & x & Hx & Hroom); [by left|].
  assert (is_Some (Topics w !! dest)) as Hsome.
  { unfold topic_at in Hx. destruct (Topics w !! dest); [eauto|done]. }
  eapply step_bind; [eapply step_bind;
    [apply (step_publish_leaf _ _ _ _ _ _ _ _ _ _ x); [done..|by left|done|done|by left]|]|].
  { intros err w1 Hwf1 _ HQ. apply step_ret; [done|].
    instantiate (1 := λ _ w1, quiet w1 ∧ same_config w w1 ∧ size (Topics w1) ≤ size (Topics w) ∧
      (∀ n, n ≠ dest → topic_at w1 n = topic_at w n) ∧
      ∃ x', topic_at w1 dest = Some x' ∧ enqueued_as now dest payload headers p e d x x').
    simpl in HQ. rewrite bool_decide_true in HQ by done.
    destruct HQ as (_ & ? & ? & Hsz & ? & ?). split_and!; [done|done|lia|done|done]. }
  intros [] w1 Hwf1 _ (Hq1 & Hcfg1 & Hsz1 & Hoth1 & x' & Hx' & Hmsg).
  eapply step_mono; [apply IH; [done..| |done|]|].
  - destruct Hcfg1 as (_ & _ & _ & ->). done.
  - intros dest' Hin. destruct (Hl dest') as (? & ? & y & Hy & ?); [by right|].
    split_and!; [done..|]. exists y. destruct Hcfg1 as (_ & -> & _).
    split; [|done]. rewrite Hoth1; [done|]. congruence.
  - intros [] w2 _ _ (Hq2 & Hcfg2 & Hsz2 & Hoth2 & Hdone).
    split_and!; [done|by eapply same_config_trans|lia|..].
    + intros n Hn. rewrite Hoth2, Hoth1; [done|set_solver..].
    + intros dest' [->|Hin]%elem_of_cons.
      * exists x, x'. split_and!; [done| |done]. by rewrite Hoth2.
      * destruct (Hdone dest' Hin) as (y & y' & Hy & ? & ?). exists y, y'.
        split_and!; [|done..]. rewrite <-Hy. symmetry. apply Hoth1. congruence.
Qed.

(** ** Handing over to a waiting consumer *)

(** Popping the consumer, sending, and taking the message back from the queue. *)
Lemma step_push_consumer_handoff t x ch rest p m w :
  wf w → heap w !! t = Some (enqueue p m x) → waitingConsumers x = ch :: rest →
  (∀ m', m' ∈ all_messages x → ID m' ≠ ID m) →
  step (push_consumer t m) w (λ _ w', ∃ n,
    chans w' !! ch = Some (MkChan n [m] false) ∧
    w' = upd t (set_waitingConsumers rest x) (set_chans (push m ch (chans w)) w)).
Proof.
  intros Hwf Hx Hw Hfresh. set (y := enqueue p m x) in *.
  assert (waitingConsumers y = ch :: rest) as Hwy by (by rewrite <-Hw; apply enqueue_same).
  assert (mu y = false) as Hm by by eapply wf_heap.
  eapply wpx_enter; [done..|]. change (waitingConsumers (set_mu true y)) with (waitingConsumers y).
  rewrite Hwy. apply wpx_leave; [done|]. rewrite set_mu_waiting by done. apply wpx_bind.
  destruct (wf_waiting _ Hwf t y ch Hx) as (n & Hc & Hpos); [rewrite Hwy; by left|].
  assert (wf (set_chans (push m ch (chans w)) (upd t (set_waitingConsumers rest y) w))) as Hwf1.
  { destruct (pop_unclaimed t y ch rest w Hwf Hx Hwy) as [_ Hun].
    apply (wf_push_all m [ch] (upd t (set_waitingConsumers rest y) w)).
    - eapply wf_shrink; [done..|]. apply shrinks_waiting. rewrite Hwy. by apply sublist_cons.
    - intros a z ch' Hz Hin ->%list_elem_of_singleton. apply (Hun a z Hz).
      unfold registered. set_solver. }
  eapply wpx_try_send; [done..|]. simpl. rewrite (proj2 (Nat.ltb_lt 0 n)) by done.
  assert (removeMessageByID (ID m) (set_waitingConsumers rest y) =
    Some (set_waitingConsumers rest x)) as Hrm.
  { assert (set_waitingConsumers rest y = enqueue p m (set_waitingConsumers rest x)) as ->.
    { subst y. unfold enqueue. by repeat case_match. }
    by apply removeMessageByID_enqueue. }
  eapply wpx_remove_message; [apply (heap_upd t _ w)|done|]. rewrite Hrm. simpl.
  change (set_chans ?cs (upd t ?z w)) with (upd t z (set_chans cs w)). rewrite upd_upd.
  split_and!; [|apply (ext_upd t _ w)|].
  - apply removeMessageByID_same, same_shrinks in Hrm.
    change (upd t ?z (set_chans ?cs w)) with (set_chans cs (upd t z w)).
    pose proof (wf_shrink t _ _ _ Hwf1 (heap_upd t _ w) Hrm) as Hfin.
    change (upd t ?z (set_chans ?cs (upd t ?z' w))) with (set_chans cs (upd t z (upd t z' w))) in Hfin.
    by rewrite upd_upd in Hfin.
  - exists n. simpl. rewrite (push_eq _ _ (MkChan n [] false)) by done. simpl.
    by rewrite (proj2 (Nat.ltb_lt 0 n)).
Qed.

Lemma step_pushFunc_handoff name t ws m p x ch rest w :
  wf w → heap w !! t = Some (enqueue p m x) → Forall (no_waiting w) ws →
  waitingConsumers x = ch :: rest → (∀ m', m' ∈ all_messages x → ID m' ≠ ID m) →
  step (pushFunc (MkPush name t ws m false)) w (λ _ w',
    Topics w' = Topics w ∧ heap w' !! t = Some (set_waitingConsumers rest x) ∧
    (∃ n, chans w' !! ch = Some (MkChan n [m] false)) ∧
    ∀ a, a ≠ t → heap w' !! a = heap w !! a).
Proof.
  intros Hwf Hx Hws Hw Hfresh. unfold pushFunc.
  eapply step_bind; [by apply step_push_webhooks|]. intros [] w1 Hwf1 He1 Hi1.
  eapply step_bind; [apply step_push_spies; [done|apply He1; by eexists]|].
  intros [] w2 Hwf2 _ Hi2. pose proof (inert_trans _ _ _ Hi1 Hi2) as Hi.
  assert (∀ w', inert w w' → Forall (no_waiting w') ws) as Hws'.
  { intros w' Hw'. eapply Forall_impl; [exact Hws|]. intros t'. by apply no_waiting_inert. }
  eapply step_bind; [by apply step_push_all_spies, no_waiting_valid, Hws'|].
  intros [] w3 Hwf3 _ Hi3. pose proof (inert_trans _ _ _ Hi Hi3) as Hi'.
  eapply step_bind; [by apply step_push_wildcards_none, Hws'|]. intros b w4 _ _ [-> ->].
  pose proof (inert_heap _ _ Hi') as Hheap.
  eapply step_mono; [by apply (step_push_consumer_handoff t x ch rest p); [|rewrite Hheap|..]|].
  intros [] w5 _ _ (n & Hc & ->). split_and!.
  - by destruct Hi' as (? & ? & ? & ->).
  - by rewrite heap_upd.
  - eauto.
  - intros a Ha. rewrite heap_upd_ne by done. simpl. by rewrite Hheap.
Qed.

Lemma step_publish_one_handoff now name payload headers p e repl t x ch rest w :
  wf w → OnPublish w = None → Topics w !! name = Some t → heap w !! t = Some x →
  waitingConsumers x = ch :: rest →
  (∀ n a y, wildcards w !! n = Some a → heap w !! a = Some y → waitingConsumers y = []) →
  (∀ m', m' ∈ all_messages x → ID m' ≠ NewUUID (rand_read (draws w))) →
  (totalActiveMessages x < maxMessages w)%Z →
  step (publish_one now name payload headers p e None false repl) w (λ err w',
    err = None ∧ topic_at w' name = Some (set_waitingConsumers rest x) ∧
    ∃ n, chans w' !! ch = Some (MkChan n
      [MkMessage (NewUUID (rand_read (draws w))) name payload now (expiry now x e) None 0 headers] false)).
Proof.
  intros Hwf Hon Ht Hx Hw Hwild Hfresh Hroom.
  eapply step_bind with (Q := λ ot w', ot = Some t ∧ w' = w).
  { apply step_bind_get. rewrite Ht. by apply step_ret. }
  intros ot w' _ _ [-> ->].
  eapply step_bind; [by apply step_matchingWildcards|]. intros ws ? _ _ (-> & Hws & Hin).
  apply wpx_bind. eapply wpx_load_topic; [done|]. cbv zeta.
  eapply step_bind; [by apply step_fresh_uuid|]. intros id w2 Hwf2 _ [-> ->].
  apply step_bind_get. set (w2 := set_draws _ w) in *.
  change (OnPublish w2) with (OnPublish w). rewrite Hon.
  fold (expiry now x e). set (msg := MkMessage _ _ _ _ _ _ _ _).
  destruct (topic_valid _ _ _ Hwf Ht) as (x0 & ? & _ & _ & Hd). simplify_eq.
  eapply step_bind; [by apply (step_publish_room t name msg p false now x w2)|].
  intros err w3 Hwf3 _ [-> [st ->]]. set (w3 := set_storage st _) in *.
  change (delayed now msg) with false.
  eapply step_bind; [apply (step_pushFunc_handoff name t ws msg p x ch rest w3); [done| | |done|done]|].
  - apply (heap_upd t _ w2).
  - rewrite Forall_forall in Hws, Hin |- *. intros a Ha. destruct (Hin a Ha) as [n Hn].
    destruct (Hws a Ha) as [y Hy]. exists y. split; [|by eapply Hwild].
    change (heap (upd t (enqueue p msg x) w2) !! a = Some y). rewrite heap_upd_ne; [done|].
    intros <-. specialize (Hwild n t x Hn Hx). congruence.
  - intros [] w4 Hwf4 _ (HT & Ht4 & [n Hc] & _). apply step_ret; [done|].
    split_and!; [done| |by exists n]. unfold topic_at. rewrite HT.
    change (Topics w3) with (Topics w). by rewrite Ht.
Qed.

Lemma target_frame w w' name x :
  wf w' → target w name x → topic_at w' name = topic_at w name →
  size (Topics w') ≤ size (Topics w) → maxTopics w' = maxTopics w → target w' name x.
Proof.
  intros Hwf' [Hx|(Hn & Hroom & ->)] Hat Hsz Hmax; [left; congruence|right].
  split_and!; [|lia|done]. destruct (Topics w' !! name) as [t|] eqn:Et; [|done].
  destruct (wf_topics _ Hwf' _ _ Et) as (y & Hy & _). unfold topic_at in Hat.
  rewrite Et, Hn in Hat. simpl in Hat. congruence.
Qed.

End publishing.

(** The premises shared by the publishing theorems: a consistent broker where
    nobody waits and no replication callback is installed, and an accepted name
    whose queue has room. *)
Record can_publish `{R : Runtime} {St} (w : World St) (name : string) (x : Topic) : Prop := {
  cp_wf : wf w;
  cp_quiet : quiet w;
  cp_local : OnPublish w = None;
  cp_name : publishable name;
  cp_target : target w name x;
  cp_room : (totalActiveMessages x < maxMessages w)%Z
}.

(** ** What appending and evicting mean, queue by queue *)

(** [x'] is [x] with [m] at the end of the queue of priority [p]: "high" and
    "low" have a queue each, every other priority shares the third.  The two
    other queues and all other fields are the same. *)
Record appended (p : string) (m : Message) (x x' : Topic) : Prop := {
  ap_rest : same_but_queues x x';
  ap_high : p = "high" → HighMessages x' = HighMessages x ++ [m];
  ap_not_high : p ≠ "high" → HighMessages x' = HighMessages x;
  ap_low : p = "low" → LowMessages x' = LowMessages x ++ [m];
  ap_not_low : p ≠ "low" → LowMessages x' = LowMessages x;
  ap_normal : p ≠ "high" → p ≠ "low" → Messages x' = Messages x ++ [m];
  ap_not_normal : p = "high" ∨ p = "low" → Messages x' = Messages x
}.

(** [x'] is [x] without [old], the oldest message of the lowest priority that
    has one. *)
Record evicted (old : Message) (x x' : Topic) : Prop := {
  ev_rest : same_but_queues x x';
  ev_low : LowMessages x ≠ [] →
    LowMessages x = old :: LowMessages x' ∧ Messages x' = Messages x ∧
    HighMessages x' = HighMessages x;
  ev_normal : LowMessages x = [] → Messages x ≠ [] →
    LowMessages x' = [] ∧ Messages x = old :: Messages x' ∧ HighMessages x' = HighMessages x;
  ev_high : LowMessages x = [] → Messages x = [] →
    LowMessages x' = [] ∧ Messages x' = [] ∧ HighMessages x = old :: HighMessages x'
}.

(** The queue of [name] after a publication: one message more, with the fields
    of the request. *)
Definition published_as (now : Z) (name : string) (payload : bytes)
    (headers : gmap string string) (p : string) (e d : option Z) (x x' : Topic) : Prop :=
  ∃ id, appended p (MkMessage id name payload now (expiry now x e) d 0 headers) x x'.

(** What a publication does to the queue it finds, and what it reports. *)
Inductive publish_outcome (limit : Z) (x : Topic) (p : string) (m : Message) : error → Topic → Prop :=
| out_deleted :
    Deleted x = true → publish_outcome limit x p m (Some "topic was concurrently deleted") x
| out_rejected :
    Deleted x = false → (limit ≤ totalActiveMessages x)%Z → Policy x ≠ "drop-oldest" →
    publish_outcome limit x p m
      (Some ("queue capacity reached (max " +:+ Itoa limit +:+ " messages)")) x
| out_replaced old x1 x' :
    Deleted x = false → (limit ≤ totalActiveMessages x)%Z → Policy x = "drop-oldest" →
    evicted old x x1 → appended p m x1 x' → publish_outcome limit x p m None x'
| out_stored x' :
    Deleted x = false → (totalActiveMessages x < limit)%Z → appended p m x x' →
    publish_outcome limit x p m None x'.

Lemma enqueue_appended p m x : appended p m x (enqueue p m x).
Proof.
  split; [apply enqueue_same|..]; unfold enqueue;
    destruct (String.eqb_spec p "high"), (String.eqb_spec p "low"); naive_solver.
Qed.

Lemma evict_evicted old x x' : evict x = Some (old, x') → evicted old x x'.
Proof.
  intros Hev. split; [by eapply evict_same|..]; revert Hev; unfold evict;
    repeat case_match; naive_solver.
Qed.

Lemma published_result limit x p m err x' :
  published limit x p m err x' → publish_outcome limit x p m err x'.
Proof.
  intros []; [by apply out_deleted|by apply out_rejected|..].
  - eapply out_replaced; eauto using evict_evicted, enqueue_appended.
  - apply out_stored; auto using enqueue_appended.
Qed.

Lemma enqueued_published now name payload headers p e d x x' :
  enqueued_as now name payload headers p e d x x' →
  published_as now name payload headers p e d x x'.
Proof. intros [id ->]. exists id. apply enqueue_appended. Qed.

Section claims.
Context `{R : Runtime} {St : Type} `{Storage St} `{!StorageSafe St}.
Implicit Types w : World St.

(** [C4] Publishing to a name without consumer groups succeeds and puts exactly
    one message, with the payload, headers, expiry (the topic's retention when
    none was given) and delivery time of the request, at the end of the queue
    of its priority ("high" and "low" have their own, every other priority is
    normal); the topic's other queues and fields and every other topic are as
    before.  The premises: a consistent broker on which nobody waits for a
    message and no OnPublish callback is installed, an accepted topic name, a
    topic that exists or room for one more, and a queue below its limit. *)
Theorem Publish_enqueues (HR : RuntimeLaws R) now name payload headers p e d bc x w
    (Hcp : can_publish w name x)
    (Hleaf : strings.Contains name "::" = true ∨ bindings w !! name = None) :
  wpx (Publish now name payload headers p e d bc) (λ err w',
    err = None ∧ (∀ n, n ≠ name → topic_at w' n = topic_at w n) ∧
    ∃ x', topic_at w' name = Some x' ∧ published_as now name payload headers p e d x x')
    (λ _, True) w.
Proof.
  destruct Hcp. eapply wpx_mono; [by apply (step_publish_leaf HR)| |done].
  intros err w' (_ & _ & ? & _ & _ & _ & ? & x' & ? & ?%enqueued_published). eauto.
Qed.

(** [C8] Consumer groups: publishing to a source topic puts one copy of the
    message at the end of the right priority queue of every bound group and one
    into the source's own queue, each renamed to its queue; the topics that are
    neither the source nor one of its groups are as before.  The premises are
    those of a plain publication (nobody waits, no OnPublish callback, an
    accepted name, room for the topic and in its queue), and that every group
    queue exists, has an accepted name and has room. *)
Theorem Publish_fans_out (HR : RuntimeLaws R) now name payload headers p e d bc x w
    (B : gset string) (Hcp : can_publish w name x)
    (Hsrc : strings.Contains name "::" = false) (HB : bindings w !! name = Some B)
    (Hgroups : ∀ dest, dest ∈ B → publishable dest ∧
       ∃ y, topic_at w dest = Some y ∧ (totalActiveMessages y < maxMessages w)%Z) :
  wpx (Publish now name payload headers p e d bc) (λ err w',
    err = None ∧
    (∀ dest, dest ∈ B → ∃ y y', topic_at w dest = Some y ∧ topic_at w' dest = Some y' ∧
       published_as now dest payload headers p e d y y') ∧
    (∃ x', topic_at w' name = Some x' ∧ published_as now name payload headers p e d x x') ∧
    (∀ n, n ≠ name → n ∉ B → topic_at w' n = topic_at w n))
    (λ _, True) w.
Proof.
  destruct Hcp as [Hwf Hq Hon Hname Htg Hroom].
  assert (∀ dest, dest ∈ B → strings.Contains dest "::" = true) as Hsep
    by (intros; by eapply (wf_bindings _ Hwf)).
  assert (name ∉ B) as HnB by (intros Hin%Hsep; congruence).
  unfold Publish, max_depth_left. cbn [publishCore]. rewrite publishable_guards, Hsrc by done.
  apply step_wps. eapply step_bind.
  - apply step_bind_get. rewrite HB. cbn [default].
    apply (step_fanout HR 9); [done..| |].
    + rewrite map_range_perm. apply NoDup_elements.
    + intros dest. rewrite map_range_perm, elem_of_elements. intros Hin.
      destruct (Hgroups dest Hin) as (? & y & ? & ?). eauto 10.
  - intros [] w1 Hwf1 _ (Hq1 & Hcfg & Hsz & Hoth & Hin).
    assert (∀ n, n ∉ B → topic_at w1 n = topic_at w n) as Hoth'.
    { intros n Hn. apply Hoth. by rewrite map_range_perm, elem_of_elements. }
    destruct Hcfg as (_ & Hmax & HmaxT & Hpub).
    assert (target w1 name x) as Htg1 by (eapply (target_frame w); auto).
    eapply step_mono; [apply (step_publish_one_quiet HR _ _ _ _ _ _ _ _ _ x);
      [done|done|by rewrite Hpub|done|by eapply target_live|by rewrite Hmax]|].
    intros err w2 _ _ (-> & _ & _ & _ & Hoth2 & Hname2). split_and!; [done|..].
    + intros dest Hd. destruct (Hin dest) as (y & y' & ? & ? & ?%enqueued_published).
      { by rewrite map_range_perm, elem_of_elements. }
      exists y, y'. rewrite Hoth2 by congruence. done.
    + eexists. split; [done|]. apply enqueued_published. by eexists.
    + intros n Hn HnB'. rewrite Hoth2 by done. by apply Hoth'.
Qed.

(** [C13] A consumer already waiting on the topic receives the message itself:
    its channel holds exactly that message, it no longer waits, and the message
    is not left in the queue as well.  This is about an immediate, ordinary
    publication: neither delayed nor a broadcast, to an existing topic of an
    accepted name without consumer groups whose queue is below its limit, on a
    consistent broker without an OnPublish callback where nobody waits on a
    wildcard, and with a drawn identifier that is not in the queue. *)
Theorem Publish_hands_over (HR : RuntimeLaws R) now name payload headers p e t x ch rest w
    (Hwf : wf w) (Hon : OnPublish w = None) (Hname : publishable name)
    (Hleaf : strings.Contains name "::" = true ∨ bindings w !! name = None)
    (Ht : Topics w !! name = Some t) (Hx : heap w !! t = Some x)
    (Hw : waitingConsumers x = ch :: rest)
    (Hwild : ∀ n a y, wildcards w !! n = Some a → heap w !! a = Some y → waitingConsumers y = [])
    (Hfresh : ∀ m, m ∈ all_messages x → ID m ≠ NewUUID (rand_read (draws w)))
    (Hroom : (totalActiveMessages x < maxMessages w)%Z) :
  wpx (Publish now name payload headers p e None false) (λ err w',
    err = None ∧ topic_at w' name = Some (set_waitingConsumers rest x) ∧
    ∃ n, chans w' !! ch = Some (MkChan n [MkMessage (NewUUID (rand_read (draws w))) name payload
      now (expiry now x e) None 0 headers] false))
    (λ _, True) w.
Proof.
  apply step_wps. unfold Publish, max_depth_left. cbn [publishCore].
  rewrite publishable_guards by done. eapply step_bind with (Q := λ _ w', w' = w).
  { by apply (step_no_groups HR). }
  intros [] w' _ _ ->. by apply (step_publish_one_handoff HR _ _ _ _ _ _ _ t).
Qed.

Lemma enqueue_total p m x : (totalActiveMessages (enqueue p m x) = totalActiveMessages x + 1)%Z.
Proof.
  unfold enqueue, totalActiveMessages. repeat case_match; simpl; rewrite length_app; simpl; lia.
Qed.

Lemma evict_total x m x' :
  evict x = Some (m, x') → (totalActiveMessages x' = totalActiveMessages x - 1)%Z.
Proof.
  unfold evict, totalActiveMessages. intros ?. case_all; simpl; rewrite ?H0, ?H1, ?H2; simpl; lia.
Qed.

(** [C14] The bounded queue: under the topic's lock a publication has one of
    four outcomes.  The topic is gone; the queue is full and the policy rejects,
    leaving it as it was; the queue is full, the policy is drop-oldest, and the
    oldest low-priority message makes room (the oldest normal one when there is
    no low one, the oldest high one when there is neither) before the new
    message goes to the end of its queue; or there is room and the message goes
    to the end of its queue.  A queue within the limit stays within it, a full
    one never grows, and no other topic is touched. *)
Theorem publish_bounded t x name m p bc now w
    (Hwf : wf w) (Hx : heap w !! t = Some x) :
  wpx (publish_locked t name m p bc now) (λ err w', ∃ x',
    heap w' !! t = Some x' ∧ (∀ a, a ≠ t → heap w' !! a = heap w !! a) ∧
    publish_outcome (maxMessages w) x p m err x' ∧
    (totalActiveMessages x' ≤ Z.max (totalActiveMessages x) (maxMessages w))%Z)
    (λ _, True) w.
Proof.
  apply (wps_publish_locked t x); [done|by apply (wf_heap _ Hwf t x)|apply Hwf|].
  intros err x' st Hp. exists x'. split_and!.
  - apply (heap_upd t x' w).
  - intros a Ha. by apply (heap_upd_ne t a x' w).
  - by apply published_result.
  - destruct Hp as [| |old x1 ? ? ? Hev|]; try lia; rewrite enqueue_total; [|lia].
    rewrite (evict_total _ _ _ Hev). lia.
Qed.

Lemma forM_ext {S A} (f g : A → M S unit) l s :
  (∀ a s', a ∈ l → f a s' = g a s') → forM_ f l s = forM_ g l s.
Proof.
  revert s. induction l as [|a l IH]; intros s Hfg; [done|]. simpl. unfold mbind, M_bind.
  rewrite Hfg by by left. destruct (g a s) as [[] ?]; [|done..]. apply IH.
  intros. apply Hfg. by right.
Qed.

(** [C38] The loop guard of [publishCore] is never what stops it: bindings lead
    from a source to names with a [::], which have no bindings of their own, so
    two levels of depth give the same result as any larger limit. *)
Theorem publish_depth (HR : RuntimeLaws R) k now name payload headers p e d bc repl w
    (Hwf : wf w) :
  publishCore (S (S k)) now name payload headers p e d bc repl w =
  publishCore 2 now name payload headers p e d bc repl w.
Proof.
  cbn [publishCore]. case_match; [done|]. case_match; [done|].
  destruct (strings.Contains name "::") eqn:Ec; [done|].
  assert (∀ {A} (f g : M (World St) unit) (h : unit → M (World St) A), f w = g w →
    (f ≫= h) w = (g ≫= h) w) as Hcong.
  { intros A f g h Hfg. unfold mbind, M_bind. by rewrite Hfg. }
  apply Hcong. unfold mbind at 1 3, M_bind at 1 3. unfold get.
  apply forM_ext. intros dest s' Hin. rewrite map_range_perm, elem_of_elements in Hin.
  assert (strings.Contains dest "::" = true) as ->; [|done].
  destruct (bindings w !! name) as [B|] eqn:EB; [|set_solver]. by eapply (wf_bindings _ Hwf).
Qed.

End claims.

(** ** Concrete states *)

Definition run_state {S A} (c : M S A) (s : S) : S := (c s).2.

Lemma run_state_wf {St A} (c : M (World St) A) (w : World St) (Q : A → World St → Prop) a w' :
  step c w Q → c w = (Ret a, w') → wf w'.
Proof. intros Hs Hc. by apply (wpx_run _ _ _ _ _ _ Hs Hc). Qed.

Lemma quiet_decide {St} (w : World St) :
  bool_decide (map_Forall (λ _ x, waitingConsumers x = []) (heap w)) = true → quiet w.
Proof. rewrite bool_decide_eq_true. intros Hq a x Hx. by eapply Hq. Qed.

(** An empty broker, one with the group [t::g] and one with a consumer waiting
    on [t]; without storage and with the demonstration disk. *)
Definition demo_empty : World DiskStorage := New (Some demo_disk).
Definition demo_group : World DiskStorage := run_state (CreateGroup "t" "g") demo_empty.
Definition demo_waiting : World DiskStorage :=
  run_state (ch ← make_chan 1; Consume 0 "t" 1 ch) demo_empty.

Lemma demo_empty_wf : wf demo_empty.
Proof. apply wf_New. Qed.

Lemma demo_group_wf : wf demo_group.
Proof.
  eapply (run_state_wf (CreateGroup "t" "g") demo_empty); [apply step_CreateGroup, demo_empty_wf|].
  vm_compute. reflexivity.
Qed.

Lemma demo_waiting_wf : wf demo_waiting.
Proof.
  eapply (run_state_wf (ch ← make_chan 1; Consume 0 "t" 1 ch) demo_empty (λ _ _, True)).
  - eapply step_bind; [apply step_make_chan; [apply demo_empty_wf|lia]|].
    intros ch w' Hwf _ Hi. by apply (step_Consume _ _ _ _ _ demo_runtime_laws).
  - vm_compute. reflexivity.
Qed.

Lemma demo_can_publish : can_publish demo_empty "t" (empty_topic "t" default_policy 0).
Proof.
  split; [apply demo_empty_wf|by apply quiet_decide|done| | |done].
  - split; [simpl; lia|done].
  - right. by split_and!.
Qed.

Lemma Publish_enqueues_witness :
  wpx (Publish 5 "t" [] ∅ "high" None None false) (λ err w',
    err = None ∧ (∀ n, n ≠ "t" → topic_at w' n = topic_at demo_empty n) ∧
    ∃ x', topic_at w' "t" = Some x' ∧
      published_as 5 "t" [] ∅ "high" None None (empty_topic "t" default_policy 0) x')
    (λ _, True) demo_empty.
Proof. apply (Publish_enqueues demo_runtime_laws); [apply demo_can_publish|by right]. Defined.

Lemma Publish_fans_out_witness :
  wpx (Publish 5 "t" [] ∅ "low" None None false) (λ err w',
    err = None ∧
    (∀ dest, dest ∈ ({["t::g"]} : gset string) →
       ∃ y y', topic_at demo_group dest = Some y ∧ topic_at w' dest = Some y' ∧
       published_as 5 dest [] ∅ "low" None None y y') ∧
    (∃ x', topic_at w' "t" = Some x' ∧
       published_as 5 "t" [] ∅ "low" None None (empty_topic "t" default_policy 0) x') ∧
    (∀ n, n ≠ "t" → n ∉ ({["t::g"]} : gset string) → topic_at w' n = topic_at demo_group n))
    (λ _, True) demo_group.
Proof.
  apply (Publish_fans_out demo_runtime_laws); [|done|vm_compute; reflexivity|].
  - split; [apply demo_group_wf|apply quiet_decide; vm_compute; reflexivity|done| | |done].
    + split; [simpl; lia|done].
    + right. split_and!; vm_compute; reflexivity.
  - intros dest ->%elem_of_singleton. split; [split; [simpl; lia|done]|].
    exists (empty_topic "t::g" "reject" 0). split; [vm_compute; reflexivity|done].
Defined.

Definition demo_waiting_topic : Topic := set_waitingConsumers [0] (empty_topic "t" "reject" 0).

Lemma Publish_hands_over_witness :
  wpx (Publish 5 "t" [] ∅ "normal" None None false) (λ err w',
    err = None ∧ topic_at w' "t" = Some (set_waitingConsumers [] demo_waiting_topic) ∧
    ∃ n, chans w' !! 0 = Some (MkChan n [MkMessage (NewUUID (rand_read (draws demo_waiting))) "t"
      [] 5 (expiry 5 demo_waiting_topic None) None 0 ∅] false))
    (λ _, True) demo_waiting.
Proof.
  apply (Publish_hands_over demo_runtime_laws 5 "t" [] ∅ "normal" None 1 demo_waiting_topic 0 []).
  - apply demo_waiting_wf.
  - vm_compute. reflexivity.
  - split; [simpl; lia|done].
  - right. vm_compute. reflexivity.
  - vm_compute. reflexivity.
  - vm_compute. reflexivity.
  - vm_compute. reflexivity.
  - intros n a y Hn. by vm_compute in Hn.
  - intros m Hm. by apply elem_of_nil in Hm.
  - vm_compute. reflexivity.
Defined.

Lemma publish_bounded_witness :
  ∃ x, wpx (publish_locked 0 "t::g" (MkMessage "i" "t::g" [] 0 None None 0 ∅) "high" false 1)
    (λ err w', ∃ x', heap w' !! 0 = Some x' ∧ (∀ a, a ≠ 0 → heap w' !! a = heap demo_group !! a) ∧
      publish_outcome (maxMessages demo_group) x "high" (MkMessage "i" "t::g" [] 0 None None 0 ∅) err x' ∧
      (totalActiveMessages x' ≤ Z.max (totalActiveMessages x) (maxMessages demo_group))%Z)
    (λ _, True) demo_group.
Proof.
  eexists. apply publish_bounded; [apply demo_group_wf|vm_compute; reflexivity].
Defined.

Lemma publish_depth_witness :
  publishCore 11 5 "t" [] ∅ "normal" None None false false demo_group =
  publishCore 2 5 "t" [] ∅ "normal" None None false false demo_group.
Proof. apply (publish_depth demo_runtime_laws 9), demo_group_wf. Defined.

(** A broker with one message on [t]. *)
Definition demo_one : World DiskStorage :=
  run_state (Publish 5 "t" [x68] ∅ "normal" None None false) demo_empty.
Definition demo_topic : Topic := default (empty_topic "t" "reject" 0) (topic_at demo_one "t").

Lemma demo_one_wf : wf demo_one.
Proof.
  eapply (run_state_wf (Publish 5 "t" [x68] ∅ "normal" None None false) demo_empty).
  - apply (step_publishCore _ _ _ _ _ _ _ _ _ _ _ demo_runtime_laws), demo_empty_wf.
  - vm_compute. reflexivity.
Qed.

Lemma demo_one_topic : topic_at demo_one "t" = Some demo_topic.
Proof. vm_compute. reflexivity. Qed.
