(* ===== verification/BrokerConsume.v ===== *)
(** * What consuming, acknowledging and requeueing do *)

From Stdlib Require Import Strings.Byte.
From S2P Require Import Prelude.
From S2P Require Import GoLib.
From S2P Require Import Message.
From S2P Require Import Wal.
From S2P Require Import Storage.
From S2P Require Import Codec.
From S2P Require Import Demo.
From S2P Require Import Broker.
From S2P Require Import BrokerQueue.
From S2P Require Import BrokerSteps.
From S2P Require Import BrokerSafe.
From S2P Require Import BrokerOps.
From S2P Require Import BrokerSafety.
From S2P Require Import BrokerPublish.

(** What a consumer may be given, in the order it is given. *)
Definition ready_messages (now : Z) (x : Topic) : list Message :=
  filter (λ m, deliverable now m = true) (all_messages x).

Lemma topic_at_Some {St} (w : World St) name x :
  topic_at w name = Some x ↔ ∃ t, Topics w !! name = Some t ∧ heap w !! t = Some x.
Proof. unfold topic_at. rewrite bind_Some. naive_solver. Qed.

Lemma topic_char_not c d : topic_char d = false → topic_char c = true → Ascii.eqb d c = false.
Proof. intros Hd Hc. apply Ascii.eqb_neq. congruence. Qed.

(** No plain topic name holds a star. *)
Lemma validTopicRegex_no_star name :
  validTopicRegex name = true → strings.Contains name "*" = false.
Proof.
  intros Hv. rewrite Contains_char. apply negb_false_iff.
  destruct name as [|c name]; [done|]. unfold validTopicRegex in Hv.
  eapply forall_chars_impl; [|exact Hv]. intros d Hd. apply negb_true_iff.
  by apply topic_char_not.
Qed.

Lemma valid_name_plain name :
  validTopicRegex name = true → strings.Contains name ".." = false → IsValidTopicName name = true.
Proof. intros Hv Hd. unfold IsValidTopicName. by rewrite Hd, Hv. Qed.

Section consuming.
Context `{R : Runtime} {St : Type} `{Storage St} `{!StorageSafe St}.
Implicit Types w : World St.

(** The end of [Consume]: the target topic under its lock. *)
Definition consumed (now limit : Z) (ch : nat) (x x' : Topic) (ms : list Message) : Prop :=
  ms = take (Z.to_nat limit) (ready_messages now x) ∧
  (∃ xs, all_messages x ≡ₚ ms ++ xs ++ all_messages x' ∧
     Forall (λ m, expired now m = true) xs) ∧
  sublist (HighMessages x') (HighMessages x) ∧ sublist (Messages x') (Messages x) ∧
  sublist (LowMessages x') (LowMessages x) ∧
  waitingConsumers x' = waitingConsumers x ++ (match ms with [] => [ch] | _ => [] end) ∧
  Name x' = Name x ∧ spies x' = spies x ∧ mu x' = false ∧ Deleted x' = Deleted x ∧
  Policy x' = Policy x.

Lemma wps_Consume now name limit ch t x (Q : list Message * bool → World St → Prop) w :
  Topics w !! name = Some t → heap w !! t = Some x → mu x = false →
  name = "" ∨ IsValidTopicName name = true → strings.Contains name "*" = false →
  (∀ ms x' st, consumed now limit ch x x' ms →
     Q (ms, match ms with [] => false | _ => true end) (set_storage st (upd t x' w))) →
  wps (Consume now name limit ch) Q w.
Proof.
  intros Ht Hx Hm Hname Hstar HQ. unfold Consume.
  destruct ((0 <? String.length name)%nat && negb (IsValidTopicName name)) eqn:Eg.
  { exfalso. destruct Hname as [->|Hv]; [done|]. rewrite Hv, andb_false_r in Eg. done. }
  apply wpx_bind, wpx_bind, wpx_get. rewrite Ht. apply wpx_ret, wpx_bind, wpx_get.
  rewrite Hstar. cbn [consume_matching]. apply wpx_bind, wpx_ret.
  eapply wpx_enter; [done..|]. rewrite extractMessages_mu.
  destruct (extractMessages_spec now limit x)
    as (xs & x' & ms & -> & Hms & Hxs & Hp & H1 & H2 & H3 & Hsame).
  destruct Hsame as (Hn & Hwt & Hsp & Hpol & Hdel & _ & Hmu).
  apply wpx_leave; [by destruct ms|]. apply wpx_bind, wps_ackExpired. intros st. apply wpx_ret.
  replace (match ms with [] => ([], false) | _ => (ms, true) end)
    with (ms, match ms with [] => false | _ => true end) by by destruct ms.
  apply HQ. unfold consumed. destruct ms; split_and!; simpl;
    rewrite ?app_nil_r, ?Hwt; done || by exists xs.
Qed.

(** [Ack], with what the storage did. *)
Lemma wps_Ack now name id t x (Q : bool → World St → Prop) w :
  Topics w !! name = Some t → heap w !! t = Some x → mu x = false →
  (∀ x' r st, removeMessageByID id x = Some x' →
     (∀ s, storage w = Some s → ∃ s', AppendAck name id now s = (Ret r, s') ∧ st = Some s') →
     Q true (set_storage st (upd t x' w))) →
  (removeMessageByID id x = None → Q false w) →
  wps (Ack now name id) Q w.
Proof.
  intros Ht Hx Hm H1 H2. apply wpx_bind, wpx_get. rewrite Ht.
  eapply wpx_enter; [done..|]. rewrite removeMessageByID_mu.
  destruct (removeMessageByID id x) as [x'|] eqn:Er; simpl.
  - apply wpx_bind, wpx_store_topic. rewrite upd_upd.
    apply wpx_bind, wps_with_storage; [auto with tmq|]. intros r st Hst _.
    change (set_storage st (upd t ?y w)) with (upd t y (set_storage st w)).
    apply wpx_bind, wpx_Unlock; [|done]. apply wpx_ret.
    rewrite set_mu_idem, set_mu_same;
      [|by destruct (removeMessageByID_same _ _ _ Er) as (_ & _ & _ & _ & _ & _ & ->)].
    by apply (H1 x' r st).
  - apply wpx_bind, wpx_release; [done..|]. by apply wpx_ret, H2.
Qed.

Lemma Ack_none now name id t x w :
  Topics w !! name = Some t → heap w !! t = Some x → mu x = false →
  removeMessageByID id x = None → Ack now name id w = (Ret false, w).
Proof.
  intros Ht Hx Hm Hr. apply wpx_exact. apply wpx_bind, wpx_get. rewrite Ht.
  eapply wpx_enter; [done..|]. rewrite removeMessageByID_mu, Hr.
  apply wpx_bind, wpx_release; [done..|]. by apply wpx_ret.
Qed.

End consuming.

Section claims.
Context `{R : Runtime} {St : Type} `{Storage St} `{!StorageSafe St}.
Implicit Types w : World St.

(** [C9] [Consume] on a plain topic returns the first [limit] deliverable
    messages, high priority before normal before low and oldest first within a
    priority; it never returns an expired message or one whose delivery time
    has not come; everything it does not return stays queued in order, except
    expired messages; and when it returns nothing the caller's channel is
    registered as waiting. *)
Theorem Consume_selects now name limit ch x w
    (Hwf : wf w) (Hx : topic_at w name = Some x)
    (Hname : name = "" ∨ IsValidTopicName name = true)
    (Hstar : strings.Contains name "*" = false) :
  wpx (Consume now name limit ch) (λ '(ms, ok) w', ∃ x',
    topic_at w' name = Some x' ∧ consumed now limit ch x x' ms ∧
    Forall (λ m, deliverable now m = true) ms ∧ ok = negb (bool_decide (ms = [])) ∧
    ∀ n, n ≠ name → topic_at w' n = topic_at w n)
    (λ _, True) w.
Proof.
  apply topic_at_Some in Hx as (t & Ht & Hx).
  apply (wps_Consume _ _ _ _ t x); [done|done|by apply (wf_heap _ Hwf t x)|done|done|].
  intros ms x' st Hc. exists x'.
  destruct (topic_at_upd t x' w name Hwf Ht) as [Hat Hoth].
  split_and!; [exact Hat|done| |by destruct ms|exact Hoth].
  destruct Hc as (-> & _). apply Forall_forall. intros m Hm.
  apply elem_of_take in Hm as (i & Hi & _). apply list_elem_of_lookup_2 in Hi.
  unfold ready_messages in Hi. by apply list_elem_of_filter in Hi as [? _].
Qed.

(** A deliverable message, alone in its topic, is what the next consumer gets. *)
Lemma ready_single now p m x :
  all_messages x = [] → deliverable now m = true → ready_messages now (enqueue p m x) = [m].
Proof.
  unfold all_messages, ready_messages, enqueue. intros Hx Hm.
  apply app_eq_nil in Hx as [Hh [Hn Hl]%app_eq_nil].
  repeat case_match; unfold all_messages; simpl; rewrite Hh, Hn, Hl; simpl;
    by rewrite filter_cons_True.
Qed.

(** Publish, then consume: on a topic with an empty queue the next consumer
    receives exactly the message published, with its payload and headers, as
    long as its expiry has not passed. *)
Theorem publish_then_consume (HR : RuntimeLaws R) now now' name payload headers p e bc limit x w
    (Hcp : can_publish w name x)
    (Hleaf : strings.Contains name "::" = true ∨ bindings w !! name = None)
    (Hdots : strings.Contains name ".." = false) (Hempty : all_messages x = [])
    (Hlimit : (0 < limit)%Z) (Hlive : ∀ t, expiry now x e = Some t → (now' ≤ t)%Z) :
  wpx (Publish now name payload headers p e None bc ;;
       ch ← make_chan 1; Consume now' name limit ch)
    (λ '(ms, ok) _, ok = true ∧
       ∃ id, ms = [MkMessage id name payload now (expiry now x e) None 0 headers])
    (λ _, True) w.
Proof.
  destruct Hcp as [Hwf Hq Hon Hname Htg Hroom]. apply wpx_bind.
  eapply wpx_mono; [by apply (step_publish_leaf HR _ _ _ _ _ _ _ _ _ _ x)| |done].
  intros err w1 (Hwf1 & _ & _ & _ & _ & _ & _ & x1 & Hx1 & id & ->).
  apply wpx_bind, wpx_bind, wpx_get, wpx_bind, wpx_modify, wpx_ret.
  apply topic_at_Some in Hx1 as (t & Ht & Hx). destruct Hname as [_ Hv].
  set (m := MkMessage _ _ _ _ _ _ _ _) in *.
  apply (wps_Consume _ _ _ _ t (enqueue p m x)); [done|done|by apply (wf_heap _ Hwf1 t)|
    right; by apply valid_name_plain|by apply validTopicRegex_no_star|].
  intros ms x' st [-> _]. rewrite ready_single; [|done|].
  - rewrite take_ge by (simpl; lia). split; [done|by exists id].
  - unfold deliverable, delayed, expired. simpl. destruct (expiry now x e) as [d|]; [|done].
    rewrite (proj2 (Z.ltb_ge d now')); [done|auto].
Qed.

(** [Ack] succeeds exactly when a message with that identifier is still
    queued; it then removes the first such message and nothing else.  On
    failure nothing changes. *)
Theorem Ack_removes now name id x w (Hwf : wf w) (Hx : topic_at w name = Some x) :
  wpx (Ack now name id) (λ ok w',
    ok = bool_decide (id ∈ ID <$> all_messages x) ∧
    (∀ n, n ≠ name → topic_at w' n = topic_at w n) ∧
    (if ok then ∃ x' m, topic_at w' name = Some x' ∧ ID m = id ∧
                 all_messages x ≡ₚ m :: all_messages x' ∧ same_but_queues x x'
     else w' = w))
    (λ _, True) w.
Proof.
  apply topic_at_Some in Hx as (t & Ht & Hx).
  pose proof (removeMessageByID_spec id x) as Hspec.
  apply (wps_Ack _ _ _ t x); [done|done|by apply (wf_heap _ Hwf t x)|..].
  - intros x' r st Hr _. rewrite Hr in Hspec. destruct Hspec as (m & Hid & Hp & Hs).
    destruct (topic_at_upd t x' w name Hwf Ht) as [Hat Hoth].
    split_and!; [|exact Hoth|by exists x', m].
    symmetry. apply bool_decide_eq_true. rewrite Hp. set_solver.
  - intros Hr. rewrite Hr in Hspec. split_and!; [|done|done].
    symmetry. apply bool_decide_eq_false. intros (m & -> & Hm)%list_elem_of_fmap. by eapply Hspec.
Qed.

(** [C39] A consumed message cannot be acknowledged: [Consume] has already taken
    it out of the queue, so when identifiers are distinct [Ack] with its
    identifier reports failure and writes no acknowledgement to the log. *)
Theorem Ack_after_Consume now now' name limit ch x w
    (Hwf : wf w) (Hx : topic_at w name = Some x)
    (Hname : name = "" ∨ IsValidTopicName name = true)
    (Hstar : strings.Contains name "*" = false)
    (Hids : NoDup (ID <$> all_messages x)) :
  wpx (Consume now name limit ch) (λ '(ms, _) w', ∀ m, m ∈ ms →
    Ack now' name (ID m) w' = (Ret false, w')) (λ _, True) w.
Proof.
  apply topic_at_Some in Hx as (t & Ht & Hx).
  apply (wps_Consume _ _ _ _ t x); [done|done|by apply (wf_heap _ Hwf t x)|done|done|].
  intros ms x' st (_ & (xs & Hp & _) & _ & _ & _ & _ & _ & _ & Hmu & _) m Hm.
  assert (removeMessageByID (ID m) x' = None) as Hnone.
  { pose proof (removeMessageByID_spec (ID m) x') as Hspec.
    destruct (removeMessageByID (ID m) x') as [x2|]; [|done].
    destruct Hspec as (m' & Hid & Hp' & _). exfalso. rewrite Hp, Hp', !fmap_app in Hids.
    apply NoDup_app in Hids as (_ & Hd & _). apply (Hd (ID m)).
    - by apply list_elem_of_fmap_2.
    - apply elem_of_app. right. rewrite fmap_cons, Hid. by left. }
  by apply (Ack_none _ _ _ t x'); [|apply (heap_upd t x' w)|..].
Qed.

End claims.

(** ** Concrete runs *)

Lemma Consume_selects_witness :
  wpx (Consume 9 "t" 3 77) (λ '(ms, ok) w', ∃ x',
    topic_at w' "t" = Some x' ∧ consumed 9 3 77 demo_topic x' ms ∧
    Forall (λ m, deliverable 9 m = true) ms ∧ ok = negb (bool_decide (ms = [])) ∧
    ∀ n, n ≠ "t" → topic_at w' n = topic_at demo_one n)
    (λ _, True) demo_one.
Proof.
  apply (Consume_selects 9 "t" 3 77 demo_topic);
    [apply demo_one_wf|apply demo_one_topic|by right|done].
Defined.

Lemma publish_then_consume_witness :
  wpx (Publish 5 "t" [x68] ∅ "low" (Some 20%Z) None false ;; ch ← make_chan 1; Consume 9 "t" 1 ch)
    (λ '(ms, ok) _, ok = true ∧ ∃ id, ms = [MkMessage id "t" [x68] 5
       (expiry 5 (empty_topic "t" default_policy 0) (Some 20%Z)) None 0 ∅])
    (λ _, True) demo_empty.
Proof.
  apply (publish_then_consume demo_runtime_laws);
    [apply demo_can_publish|by right|done|done|lia|]. intros t [= <-]. lia.
Defined.

Lemma Ack_removes_witness :
  wpx (Ack 9 "t" "absent") (λ ok w',
    ok = bool_decide ("absent" ∈ ID <$> all_messages demo_topic) ∧
    (∀ n, n ≠ "t" → topic_at w' n = topic_at demo_one n) ∧
    (if ok then ∃ x' m, topic_at w' "t" = Some x' ∧ ID m = "absent" ∧
                 all_messages demo_topic ≡ₚ m :: all_messages x' ∧ same_but_queues demo_topic x'
     else w' = demo_one))
    (λ _, True) demo_one.
Proof. apply Ack_removes; [apply demo_one_wf|apply demo_one_topic]. Defined.

Lemma Ack_after_Consume_witness :
  wpx (Consume 9 "t" 3 77) (λ '(ms, _) w', ∀ m, m ∈ ms →
    Ack 10 "t" (ID m) w' = (Ret false, w')) (λ _, True) demo_one.
Proof.
  apply (Ack_after_Consume 9 10 "t" 3 77 demo_topic);
    [apply demo_one_wf|apply demo_one_topic|by right|done|].
  apply (bool_decide_unpack _). vm_compute. exact I.
Defined.
