(* ===== verification/BrokerAdmin.v ===== *)
(** * Retries, dead letters, idempotency keys and administration *)

From S2P Require Import Prelude.
From S2P Require Import GoLib.
From S2P Require Import Message.
From S2P Require Import Wal.
From S2P Require Import Storage.
From S2P Require Import Codec.
From S2P Require Import Demo.
From S2P Require Import Broker.
From S2P Require Import BrokerQueue.
From S2P Require Import BrokerSteps.
From S2P Require Import BrokerSafe.
From S2P Require Import BrokerOps.
From S2P Require Import BrokerSafety.
From S2P Require Import BrokerPublish.
From S2P Require Import BrokerConsume.

Section admin.
Context `{R : Runtime} {St : Type} `{Storage St} `{!StorageSafe St}.
Implicit Types w : World St.

(** ** Requeue *)

(** A failed message is retried on its own topic and moved to the dead
    letter queue [<topic>.dlq] when its retry count reaches three (a negative
    count, as a client may send, is read as zero; the largest [int], which
    would wrap around, is excluded).  It is appended to the
    normal-priority queue of that topic, which is created when it does not
    exist; nothing else changes. *)
Theorem Requeue_routes now m x w
    (dst := if (RetryCount m <? 2)%Z then Message.Topic m else Message.Topic m +:+ ".dlq")
    (Hwf : wf w) (Hcount : (RetryCount m < max_int)%Z)
    (Htg : target w dst x) (Hw : waitingConsumers x = []) :
  wpx (Requeue now m) (λ _ w',
    (∀ n, n ≠ dst → topic_at w' n = topic_at w n) ∧
    topic_at w' dst = Some (set_Messages (Messages x ++
      [set_Topic dst (set_RetryCount (Z.max 0 (RetryCount m) + 1) m)]) x))
    (λ _, True) w.
Proof.
  unfold Requeue.
  assert (requeue_target m = (set_Topic dst (set_RetryCount (Z.max 0 (RetryCount m) + 1) m), dst))
    as ->.
  { unfold requeue_target. subst dst.
    replace (wrap_int ((if RetryCount m <? 0 then 0 else RetryCount m) + 1)%Z)
      with (Z.max 0 (RetryCount m) + 1)%Z
      by (destruct (Z.ltb_spec (RetryCount m) 0); rewrite wrap_int_id; unfold min_int, max_int in *; lia).
    destruct (Z.ltb_spec (RetryCount m) 2), (Z.leb_spec 3 (Z.max 0 (RetryCount m) + 1));
      try lia; by destruct m. }
  set (m' := set_Topic _ _). clearbody m' dst.
  apply wpx_bind. eapply wpx_mono; [by apply step_target| |done].
  intros ot w1 (Hwf1 & _ & t & -> & Ht & Hx & Hoth & _).
  apply wpx_bind, wps_with_storage; [auto with tmq|]. intros r st _ _.
  set (w2 := set_storage st w1). assert (wf w2) as Hwf2 by by apply wf_set_storage.
  assert (mu x = false) as Hm by by apply (wf_heap _ Hwf1 t x).
  eapply (wpx_enter t x); [done..|]. simpl. rewrite Hw.
  apply wpx_bind. eapply wpx_update_topic; [apply heap_upd|]. rewrite upd_upd.
  apply wpx_Unlock; [|done].
  destruct (topic_at_upd t (set_mu false (set_Messages (Messages x ++ [m']) (set_mu true x))) w2
    dst Hwf2 Ht) as [Hat Hoth2].
  split.
  - intros n Hn. rewrite Hoth2 by done. by apply Hoth.
  - etrans; [exact Hat|]. f_equal. destruct x; simpl in *; by subst.
Qed.

(** ** Idempotency keys *)

(** The first use of a key records it, and forgets no live key. *)
Lemma IsIdempotent_first now key w :
  key ≠ "" → (∀ t, idempotencyKeys w !! key = Some t → (t ≤ now)%Z) →
  (Z.of_nat (size (idempotencyKeys w)) < maxIdempotencyKeys)%Z →
  ∃ ks, IsIdempotent now key w =
      (Ret false, set_idempotencyKeys (<[key := (now + idempotency_window)%Z]> ks) w) ∧
    ∀ k t, (now ≤ t)%Z → idempotencyKeys w !! k = Some t → ks !! k = Some t.
Proof.
  intros Hkey%String.eqb_neq Hnew Hcap. unfold IsIdempotent. rewrite Hkey. unfold mbind, M_bind, get.
  assert (match idempotencyKeys w !! key with Some t => (now <? t)%Z | None => false end = false)
    as -> by (destruct (idempotencyKeys w !! key) eqn:E; [|done]; apply Z.ltb_ge; auto).
  destruct (idempotency_sweep <? _)%Z; unfold modify, mret, M_ret; simpl.
  - set (ks := filter _ (idempotencyKeys w)).
    assert (size ks ≤ size (idempotencyKeys w)) by apply map_subseteq_size, map_filter_subseteq.
    rewrite (proj2 (Z.leb_gt _ _)) by (simpl; lia).
    exists ks. split; [done|]. intros k t Hlive Hk. apply map_lookup_filter_Some.
    split; [done|]. by apply Z.leb_le.
  - rewrite (proj2 (Z.leb_gt _ _)) by lia. exists (idempotencyKeys w). done.
Qed.

(** A key that is live is a duplicate, and stays. *)
Lemma IsIdempotent_live now key w t :
  key ≠ "" → idempotencyKeys w !! key = Some t → (now < t)%Z → IsIdempotent now key w = (Ret true, w).
Proof.
  intros Hkey%String.eqb_neq Hk Hlt. unfold IsIdempotent. rewrite Hkey. unfold mbind, M_bind, get.
  rewrite Hk. by rewrite (proj2 (Z.ltb_lt _ _)).
Qed.

(** Duplicate detection: the first use of a key is not a duplicate, every
    use within five minutes of it is, and the key is free again afterwards.
    Recording a key forgets no other key that is still live.  (The premise is
    that the table has not reached its cap of 20000 keys.) *)
Theorem IsIdempotent_window now key w
    (Hkey : key ≠ "")
    (Hnew : ∀ t, idempotencyKeys w !! key = Some t → (t ≤ now)%Z)
    (Hcap : (Z.of_nat (size (idempotencyKeys w)) < maxIdempotencyKeys)%Z) :
  ∃ w1, IsIdempotent now key w = (Ret false, w1) ∧
    (∀ now', (now' < now + idempotency_window)%Z → IsIdempotent now' key w1 = (Ret true, w1)) ∧
    (∀ now', (now + idempotency_window ≤ now')%Z → (IsIdempotent now' key w1).1 = Ret false) ∧
    (∀ k t, k ≠ key → (now ≤ t)%Z → idempotencyKeys w !! k = Some t →
       idempotencyKeys w1 !! k = Some t).
Proof.
  destruct (IsIdempotent_first now key w Hkey Hnew Hcap) as (ks & Hrun & Hks).
  eexists. split; [exact Hrun|]. split_and!.
  - intros now' Hlt. eapply IsIdempotent_live; [done|apply lookup_insert_eq|done].
  - intros now' Hle. apply String.eqb_neq in Hkey. unfold IsIdempotent. rewrite Hkey.
    unfold mbind, M_bind, get. cbn [idempotencyKeys set_idempotencyKeys]. rewrite lookup_insert_eq.
    rewrite (proj2 (Z.ltb_ge _ _)) by done.
    destruct (idempotency_sweep <? _)%Z; unfold modify, mret, M_ret; simpl; by case_match.
  - intros k t Hne Hlive Hk. simpl. rewrite lookup_insert_ne by done. auto.
Qed.

(** ** Peek *)

Lemma appendUpToLimit_take limit acc q :
  appendUpToLimit limit acc q = acc ++ take (Z.to_nat limit - length acc) q.
Proof.
  unfold appendUpToLimit. revert acc. induction q as [|m q IH]; intros acc; simpl.
  { by rewrite take_nil, app_nil_r. }
  destruct (Z.leb_spec limit (Z.of_nat (length acc))); rewrite IH.
  - replace (Z.to_nat limit - length acc) with 0 by lia. done.
  - rewrite <-app_assoc, length_app. simpl.
    replace (Z.to_nat limit - length acc) with (S (Z.to_nat limit - (length acc + 1))) by lia. done.
Qed.

Lemma peek_queues_take limit x : peek_queues limit x = take (Z.to_nat limit) (all_messages x).
Proof.
  unfold peek_queues, all_messages. rewrite !appendUpToLimit_take. simpl.
  rewrite !take_app, !length_app, !length_take, Nat.sub_0_r, <-app_assoc.
  f_equal; f_equal; f_equal; lia.
Qed.

(** [Peek] shows the first [limit] messages in delivery order and changes
    nothing. *)
Theorem Peek_reads name limit x w (Hwf : wf w) (Hx : topic_at w name = Some x) :
  Peek name limit w = (Ret (take (Z.to_nat limit) (all_messages x)), w).
Proof.
  apply topic_at_Some in Hx as (t & Ht & Hx). apply wpx_exact.
  apply wpx_bind, wpx_get. rewrite Ht. eapply wpx_read; [done|by apply (wf_heap _ Hwf t x)|].
  apply wpx_ret. split; [|done]. apply (peek_queues_take limit x).
Qed.

(** ** Deletion *)

(** [DeleteTopic] removes the name, its webhooks and its pattern, leaves all
    other topics alone, and a publication that still holds the old topic (its
    lookup came before the deletion) is refused without storing anything. *)
Theorem DeleteTopic_final name t x w
    (Hwf : wf w) (Ht : Topics w !! name = Some t) (Hx : heap w !! t = Some x) :
  wpx (DeleteTopic name) (λ err w',
    err = None ∧ TopicExists name w' = (Ret false, w') ∧ webhooks w' !! name = None ∧
    wildcards w' !! name = None ∧ (∀ n, n ≠ name → topic_at w' n = topic_at w n) ∧
    ∀ m p bc now, publish_locked t name m p bc now w' =
      (Ret (Some "topic was concurrently deleted"), w'))
    (λ _, True) w.
Proof.
  assert (mu x = false) as Hm by by apply (wf_heap _ Hwf t x).
  apply wpx_bind, wpx_get. rewrite Ht. apply wpx_bind. eapply wpx_Lock; [done..|].
  apply wpx_bind. eapply wpx_update_topic; [apply heap_upd|]. rewrite upd_upd.
  apply wpx_bind, wpx_Unlock; [|done].
  apply wpx_bind, wpx_modify, wpx_bind, wpx_modify, wpx_bind, wpx_modify, wpx_bind, wpx_modify.
  apply wpx_bind, wps_with_storage; [auto with tmq|]. intros r st _ _. apply wpx_ret.
  set (y := set_mu false (set_Deleted true (set_mu true x))).
  match goal with |- context [TopicExists name ?v] => set (w' := v) end.
  split_and!; [done| |apply lookup_delete_eq|apply lookup_delete_eq| |].
  - unfold TopicExists, gets. simpl. by rewrite lookup_delete_eq.
  - intros n Hn. destruct (topic_at_upd t y w name Hwf Ht) as [_ Hoth]. rewrite <-Hoth by done.
    unfold topic_at. simpl. by rewrite lookup_delete_ne.
  - intros m p bc now. apply wpx_exact.
    assert (heap w' !! t = Some y) as Hy by apply (heap_upd t y w).
    eapply wpx_enter; [exact Hy|done|]. simpl. apply wpx_bind.
    eapply wpx_release; [exact Hy|done|]. by apply wpx_ret.
Qed.

(** ** Expiry *)

(** The topic without its expired messages. *)
Definition unexpired (now : Z) (x : Topic) : Topic :=
  let keep := filter (λ m, expired now m = false) in
  set_LowMessages (keep (LowMessages x))
    (set_Messages (keep (Messages x)) (set_HighMessages (keep (HighMessages x)) x)).

Lemma wps_purge_topic now t x (Q : unit → World St → Prop) w :
  heap w !! t = Some x → mu x = false →
  (∀ st, Q () (set_storage st (upd t (unexpired now x) w))) → wps (purge_topic now t) Q w.
Proof.
  intros Hx Hm HQ. eapply wpx_enter; [done..|]. cbn. apply wpx_leave; [done|].
  apply wps_ackExpired. intros st. specialize (HQ st). by destruct x; simpl in *; subst.
Qed.

Lemma unexpired_shrinks now x : shrinks x (unexpired now x).
Proof. unfold shrinks. by split_and!. Qed.

Lemma step_purge_all now ts : ∀ w,
  wf w → NoDup ts → Forall (valid w) ts →
  step (forM_ (purge_topic now) ts) w (λ _ w',
    Topics w' = Topics w ∧ (∀ t, t ∉ ts → heap w' !! t = heap w !! t) ∧
    (∀ t, t ∈ ts → heap w' !! t = unexpired now <$> heap w !! t)).
Proof.
  induction ts as [|t ts IH]; intros w Hwf Hnd Hv.
  { apply step_ret; [done|]. split_and!; [done..|set_solver]. }
  apply NoDup_cons in Hnd as [Hn Hnd]. apply Forall_cons in Hv as [[x Hx] Hv].
  eapply step_bind with (Q := λ _ w', Topics w' = Topics w ∧ heap w' !! t = Some (unexpired now x) ∧
    ∀ a, a ≠ t → heap w' !! a = heap w !! a).
  { apply (wps_purge_topic now t x); [done|by apply (wf_heap _ Hwf t x)|]. intros st.
    split_and!; [|apply (ext_upd t _ w)|done|apply (heap_upd t _ w)|].
    - apply wf_set_storage. eapply wf_shrink; [done..|]. apply unexpired_shrinks.
    - intros a Ha. by apply (heap_upd_ne t a). }
  intros [] w1 Hwf1 He1 (HT & Ht & Hoth).
  eapply step_mono; [apply IH; [done..|by eapply ext_all]|].
  intros [] w2 _ _ (HT2 & Hout & Hin). split_and!; [congruence|..].
  - intros a Ha. rewrite Hout, Hoth; [done|set_solver..].
  - intros a [->|Ha]%elem_of_cons.
    + by rewrite Hout, Ht, Hx.
    + rewrite Hin by done. rewrite Hoth; [done|]. congruence.
Qed.

Lemma topics_nodup w : wf w → NoDup (snd <$> map_to_list (Topics w)).
Proof.
  intros Hwf. apply NoDup_fmap_2_strong; [|apply NoDup_map_to_list].
  intros [n a] [n' a'] Ha Ha' [= ->]. apply elem_of_map_to_list in Ha, Ha'.
  destruct (topic_valid _ _ _ Hwf Ha) as (? & ? & _ & ? & _).
  destruct (topic_valid _ _ _ Hwf Ha') as (? & ? & _ & ? & _). congruence.
Qed.

(** The garbage collector removes exactly the expired messages, from every
    queue of every topic, and keeps the others in order. *)
Theorem purge_removes_expired (HR : RuntimeLaws R) now w (Hwf : wf w) :
  wpx (purgeExpiredMessages now) (λ _ w',
    ∀ name, topic_at w' name = unexpired now <$> topic_at w name) (λ _, True) w.
Proof.
  apply step_wps, step_bind_get. eapply step_mono; [apply step_purge_all; [done| |]|].
  - rewrite map_range_perm. by apply topics_nodup.
  - by apply (topics_all_valid w HR).
  - intros [] w' _ _ (HT & _ & Hin) name. unfold topic_at. rewrite HT.
    destruct (Topics w !! name) as [t|] eqn:Et; [|done]. simpl. apply Hin.
    rewrite map_range_perm. apply list_elem_of_fmap. exists (name, t).
    by rewrite elem_of_map_to_list.
Qed.

(** ** Redrive *)

(** A dead letter and its replay. *)
Definition replays (dst : string) (m m' : Message) : Prop :=
  Payload m' = Payload m ∧ Headers m' = Headers m ∧ Message.Topic m' = dst ∧
  RetryCount m' = 0%Z ∧ DeliverAt m' = None.

Lemma set_Messages_twice q q' x : set_Messages q (set_Messages q' x) = set_Messages q x.
Proof. done. Qed.

Lemma step_redrive_quiet (HR : RuntimeLaws R) now dlq dst ms : ∀ x w,
  wf w → quiet w → OnPublish w = None → publishable dst →
  strings.Contains dst "::" = true ∨ bindings w !! dst = None → target w dst x →
  (totalActiveMessages x + Z.of_nat (length ms) ≤ maxMessages w)%Z →
  step (redrive now dlq dst ms) w (λ n w', n = Z.of_nat (length ms) ∧ (ms = [] → w' = w) ∧
    (∀ name, name ≠ dst → topic_at w' name = topic_at w name) ∧
    (ms ≠ [] → ∃ ms', topic_at w' dst = Some (set_Messages (Messages x ++ ms') x) ∧
       Forall2 (replays dst) ms ms')).
Proof.
  induction ms as [|m ms IH]; intros x w Hwf Hq Hon Hname Hleaf Htg Hroom.
  { by apply step_ret. }
  cbn [redrive]. cbn [length] in *.
  eapply step_bind with (Q := λ _ w', ∃ st, w' = set_storage st w).
  { apply step_with_storage; [done|auto with tmq|eauto]. }
  intros r w1 Hwf1 _ [st ->].
  eapply step_bind; [apply (step_publish_leaf HR _ _ _ _ _ _ _ _ _ _ x _ Hwf1 Hq);
    [done|done|simpl; lia|done|done]|].
  intros err w2 Hwf2 _ (-> & Hq2 & Hcfg & _ & Hoth & x1 & Hx1 & id & ->).
  set (m' := MkMessage _ _ _ _ _ _ _ _) in *.
  change (enqueue "normal" m' x) with (set_Messages (Messages x ++ [m']) x) in Hx1.
  destruct Hcfg as (Hb & Hmax & _ & Hpub). simpl in Hb, Hmax, Hpub.
  eapply step_bind; [apply (IH (set_Messages (Messages x ++ [m']) x));
    [done|done|by rewrite Hpub|done|by rewrite Hb|by left|]|].
  { rewrite Hmax. unfold totalActiveMessages in *. simpl. rewrite length_app. simpl. lia. }
  intros n w3 Hwf3 _ (-> & Hnil & Hoth3 & Hms). apply step_ret; [done|].
  split_and!; [lia|done|..].
  - intros name Hne. rewrite Hoth3 by done. by rewrite Hoth.
  - intros _. assert (replays dst m m') as Hm by by split_and!. destruct ms as [|m2 ms].
    + rewrite Hnil by done. exists [m']. split; [done|]. by repeat constructor.
    + destruct Hms as (ms' & Hat & Hf); [done|]. exists (m' :: ms'). split; [|by constructor].
      rewrite Hat. cbn [Messages set_Messages]. by rewrite set_Messages_twice, <-app_assoc.
Qed.

(** [RedriveDLQ] empties the normal queue of the dead letter topic and
    publishes each of its messages again, in order, to the original topic with
    payload and headers intact and the retry count reset; it reports how many.
    (The premises are those of a successful publication, with room for all.) *)
Theorem RedriveDLQ_replays (HR : RuntimeLaws R) now dst x y w
    (Hcp : can_publish w dst x) (Hdst : strings.HasSuffix dst ".dlq" = false)
    (Hleaf : strings.Contains dst "::" = true ∨ bindings w !! dst = None)
    (Hdlq : topic_at w (dst +:+ ".dlq") = Some y) (Hsome : Messages y ≠ [])
    (Hall : (totalActiveMessages x + Z.of_nat (length (Messages y)) ≤ maxMessages w)%Z) :
  wpx (RedriveDLQ now dst) (λ '(n, err) w',
    err = None ∧ n = Z.of_nat (length (Messages y)) ∧
    topic_at w' (dst +:+ ".dlq") = Some (set_Messages [] y) ∧
    (∃ ms', topic_at w' dst = Some (set_Messages (Messages x ++ ms') x) ∧
       Forall2 (replays dst) (Messages y) ms') ∧
    (∀ n, n ≠ dst → n ≠ dst +:+ ".dlq" → topic_at w' n = topic_at w n))
    (λ _, True) w.
Proof.
  destruct Hcp as [Hwf Hq Hon Hname Htg Hroom].
  assert (dst +:+ ".dlq" ≠ dst) as Hne.
  { intros Heq%(f_equal String.length). rewrite str_length_app in Heq. simpl in Heq. lia. }
  unfold RedriveDLQ. rewrite Hdst. apply wpx_bind, wpx_get.
  apply topic_at_Some in Hdlq as (t & Ht & Hy). rewrite Ht.
  assert (mu y = false) as Hm by by apply (wf_heap _ Hwf t y).
  eapply wpx_enter; [done..|]. cbn [Messages set_mu].
  destruct (Messages y) as [|m ms] eqn:Ems; [done|]. apply wpx_leave; [done|].
  replace (set_mu false _) with (set_Messages [] y) by (destruct y; simpl in *; by subst).
  set (w1 := upd t (set_Messages [] y) w).
  assert (wf w1) as Hwf1 by by apply (wf_shrink t y).
  destruct (topic_at_upd t (set_Messages [] y) w (dst +:+ ".dlq") Hwf Ht) as [Hat Hoth].
  apply wpx_bind. eapply wpx_mono; [apply (step_redrive_quiet HR now (dst +:+ ".dlq") dst (m :: ms) x w1);
    [done| |done|done|done| |done]| |done].
  - apply quiet_upd; [done|]. simpl. by eapply Hq.
  - eapply (target_frame w); [done|done| |done|done]. by rewrite Hoth.
  - intros n w2 (_ & _ & -> & _ & Hoth2 & Hms). apply wpx_ret. split_and!; [done..| |by apply Hms|].
    + by rewrite Hoth2.
    + intros n Hn1 Hn2. rewrite Hoth2 by done. by apply Hoth.
Qed.

End admin.

(** ** Concrete runs *)

Lemma Requeue_routes_witness :
  wpx (Requeue 9 demo_msg) (λ _ w',
    (∀ n, n ≠ "t" → topic_at w' n = topic_at demo_empty n) ∧
    topic_at w' "t" = Some (set_Messages (Messages (empty_topic "t" default_policy 0) ++
      [set_Topic "t" (set_RetryCount (Z.max 0 (RetryCount demo_msg) + 1) demo_msg)])
      (empty_topic "t" default_policy 0)))
    (λ _, True) demo_empty.
Proof.
  apply (Requeue_routes 9 demo_msg); [apply demo_empty_wf|done| |done]. right. by split_and!.
Defined.

Lemma IsIdempotent_window_witness :
  ∃ w1, IsIdempotent 3 "k" demo_empty = (Ret false, w1) ∧
    (∀ now', (now' < 3 + idempotency_window)%Z → IsIdempotent now' "k" w1 = (Ret true, w1)) ∧
    (∀ now', (3 + idempotency_window ≤ now')%Z → (IsIdempotent now' "k" w1).1 = Ret false) ∧
    (∀ k t, k ≠ "k" → (3 ≤ t)%Z → idempotencyKeys demo_empty !! k = Some t →
       idempotencyKeys w1 !! k = Some t).
Proof. by apply IsIdempotent_window. Defined.

Lemma Peek_reads_witness :
  Peek "t" 5 demo_one = (Ret (take (Z.to_nat 5) (all_messages demo_topic)), demo_one).
Proof. apply Peek_reads; [apply demo_one_wf|apply demo_one_topic]. Defined.

Lemma DeleteTopic_final_witness :
  wpx (DeleteTopic "t") (λ err w',
    err = None ∧ TopicExists "t" w' = (Ret false, w') ∧ webhooks w' !! "t" = None ∧
    wildcards w' !! "t" = None ∧ (∀ n, n ≠ "t" → topic_at w' n = topic_at demo_one n) ∧
    ∀ m p bc now, publish_locked 0 "t" m p bc now w' =
      (Ret (Some "topic was concurrently deleted"), w'))
    (λ _, True) demo_one.
Proof.
  apply (DeleteTopic_final "t" 0 demo_topic);
    [apply demo_one_wf|vm_compute; reflexivity|vm_compute; reflexivity].
Defined.

Lemma purge_removes_expired_witness :
  wpx (purgeExpiredMessages 100) (λ _ w',
    ∀ name, topic_at w' name = unexpired 100 <$> topic_at demo_one name) (λ _, True) demo_one.
Proof. apply (purge_removes_expired demo_runtime_laws), demo_one_wf. Defined.

(** A broker whose dead letter topic of [t] holds one message. *)
Definition demo_dlq : World DiskStorage :=
  run_state (Requeue 9 (set_RetryCount 2 demo_msg)) demo_empty.
Definition demo_dlq_topic : Topic :=
  default (empty_topic "t.dlq" "reject" 0) (topic_at demo_dlq "t.dlq").

Lemma demo_dlq_wf : wf demo_dlq.
Proof.
  eapply (run_state_wf (Requeue 9 (set_RetryCount 2 demo_msg)) demo_empty);
    [apply step_Requeue, demo_empty_wf|vm_compute; reflexivity].
Qed.

Lemma RedriveDLQ_replays_witness :
  wpx (RedriveDLQ 10 "t") (λ '(n, err) w',
    err = None ∧ n = Z.of_nat (length (Messages demo_dlq_topic)) ∧
    topic_at w' ("t" +:+ ".dlq") = Some (set_Messages [] demo_dlq_topic) ∧
    (∃ ms', topic_at w' "t" =
       Some (set_Messages (Messages (empty_topic "t" "reject" 0) ++ ms') (empty_topic "t" "reject" 0)) ∧
       Forall2 (replays "t") (Messages demo_dlq_topic) ms') ∧
    (∀ n, n ≠ "t" → n ≠ "t" +:+ ".dlq" → topic_at w' n = topic_at demo_dlq n))
    (λ _, True) demo_dlq.
Proof.
  apply (RedriveDLQ_replays demo_runtime_laws 10 "t" (empty_topic "t" "reject" 0)).
  - split; [apply demo_dlq_wf|apply quiet_decide; vm_compute; reflexivity|done| | |done].
    + split; [simpl; lia|done].
    + right. split_and!; vm_compute; reflexivity.
  - done.
  - right. vm_compute. reflexivity.
  - vm_compute. reflexivity.
  - vm_compute. done.
  - vm_compute. done.
Defined.
