(* ===== verification/BrokerDurable.v ===== *)
(** * Durability: the queue and its log

    The broker against the laws of [Wal.StorageLaws] alone.  A topic mirrors its
    log when its queued messages are the outstanding ones of the log.
    Publishing and acknowledging keep the mirror; consuming and a rejected
    publication do not. *)

From Stdlib Require Import Strings.Byte.
From S2P Require Import Prelude.
From S2P Require Import GoLib.
From S2P Require Import Message.
From S2P Require Import Wal.
From S2P Require Import Storage.
From S2P Require Import StorageFacts.
From S2P Require Import Codec.
From S2P Require Import Demo.
From S2P Require Import Broker.
From S2P Require Import BrokerQueue.
From S2P Require Import BrokerSteps.
From S2P Require Import BrokerSafe.
From S2P Require Import BrokerOps.
From S2P Require Import BrokerSafety.
From S2P Require Import BrokerPublish.
From S2P Require Import BrokerConsume.

Lemma wpx_with_storage_run {St A} (absent : A) (c : M St A) s r s' Q E (w : World St) :
  storage w = Some s → c s = (Ret r, s') → Q r (set_storage (Some s') w) →
  wpx (with_storage absent c) Q E w.
Proof. intros Hs Hc HQ. unfold wpx, with_storage. by rewrite Hs, Hc. Qed.

Lemma enqueue_perm p m x : all_messages (enqueue p m x) ≡ₚ all_messages x ++ [m].
Proof.
  unfold enqueue, all_messages. repeat case_match; simpl; solve_Permutation.
Qed.

Lemma evict_perm x m x' : evict x = Some (m, x') → all_messages x ≡ₚ m :: all_messages x'.
Proof.
  unfold evict, all_messages. intros ?. case_all; simpl;
    repeat match goal with E : _ = _ :: _ |- _ => rewrite E; clear E
                         | E : _ = [] |- _ => rewrite E; clear E end; solve_Permutation.
Qed.

(** With distinct identifiers an acknowledgement removes one message. *)
Lemma filter_id_perm m (l l' : list Message) :
  NoDup (ID <$> l) → l ≡ₚ m :: l' → filter (λ m', ID m' ≠ ID m) l ≡ₚ l'.
Proof.
  intros Hnd Hp. rewrite Hp in Hnd |- *. rewrite fmap_cons in Hnd.
  apply NoDup_cons in Hnd as [Hn _]. rewrite filter_cons_False by naive_solver.
  rewrite filter_all; [done|]. intros m' Hm' Heq. apply Hn. rewrite <-Heq.
  by apply list_elem_of_fmap_2.
Qed.

Section durable.
Context `{R : Runtime} {St : Type} `{Storage St} `{!StorageSafe St} `{!StorageLaws St}.
Implicit Types (w : World St) (s : St).

(** The queued messages of [x] are the outstanding ones of its log. *)
Record mirrors (s : St) (name : string) (x : Topic) : Prop := {
  mr_ready : ready s name;
  mr_live : all_messages x ≡ₚ live (log s name);
  mr_ids : NoDup (ID <$> all_messages x)
}.

Lemma mirrors_put s s' name p m x now :
  mirrors s name x → ID m ∉ ID <$> all_messages x → storable name m now →
  AppendPut name m now s = (Ret None, s') → mirrors s' name (enqueue p m x).
Proof.
  intros [Hr Hl Hn] Hfresh Hst Hrun.
  destruct (AppendPut_ok _ _ _ _ _ Hr Hst Hrun) as (Hlog & Hr' & _). split; [done|..].
  - rewrite enqueue_perm, Hlog, live_snoc. simpl. by rewrite Hl.
  - rewrite enqueue_perm, fmap_app. apply NoDup_app. split_and!; [done| |apply NoDup_singleton].
    intros id Hid. simpl. set_solver.
Qed.

Lemma mirrors_ack s s' name m x x' now :
  mirrors s name x → all_messages x ≡ₚ m :: all_messages x' → ackable name (ID m) now →
  AppendAck name (ID m) now s = (Ret None, s') → mirrors s' name x'.
Proof.
  intros [Hr Hl Hn] Hp Ha Hrun.
  destruct (AppendAck_ok _ _ _ _ _ Hr Ha Hrun) as (Hlog & Hr' & _). split; [done|..].
  - rewrite Hlog, live_snoc. simpl. symmetry. apply filter_id_perm.
    + by rewrite <-Hl.
    + by rewrite <-Hl.
  - rewrite Hp, fmap_cons in Hn. by apply NoDup_cons in Hn as [_ ?].
Qed.

(** ** Publishing *)

(** The locked section of a publication that finds room: once the storage has
    accepted the record, the message is in the queue and in the log. *)
Lemma publish_locked_mirrors t x name m p now s s' w
    (Hwf : wf w) (Hx : heap w !! t = Some x) (Hdel : Deleted x = false)
    (Hroom : (totalActiveMessages x < maxMessages w)%Z)
    (Hs : storage w = Some s) (Hmir : mirrors s name x)
    (Hfresh : ID m ∉ ID <$> all_messages x) (Hst : storable name m now)
    (Hput : AppendPut name m now s = (Ret None, s')) :
  publish_locked t name m p false now w =
    (Ret None, set_storage (Some s') (upd t (enqueue p m x) w)) ∧
  mirrors s' name (enqueue p m x) ∧ log s' name = log s name ++ [WPut m].
Proof.
  split; [|split; [by eapply mirrors_put|]].
  - apply wpx_exact. assert (mu x = false) as Hm by by apply (wf_heap _ Hwf t x).
    eapply wpx_enter; [done..|]. simpl. rewrite Hdel. apply wpx_bind.
    eapply wpx_with_storage_run; [exact Hs|exact Hput|]. apply wpx_bind, wpx_get. simpl.
    change (totalActiveMessages (set_mu true x)) with (totalActiveMessages x).
    rewrite (proj2 (Z.leb_gt _ _)) by done. rewrite enqueue_mu.
    change (set_storage ?st (upd t ?y w)) with (upd t y (set_storage st w)).
    apply wpx_leave; [done|]. apply wpx_ret. split; [done|]. rewrite set_mu_idem, set_mu_same; [done|].
    by destruct (enqueue_same p m x) as (_ & _ & _ & _ & _ & _ & ->).
  - by destruct Hmir as [Hr _ _], (AppendPut_ok _ _ _ _ _ Hr Hst Hput) as (? & _).
Qed.

Lemma step_locked_mirrors s s' t x name m p now w :
  wf w → heap w !! t = Some x → Deleted x = false → (totalActiveMessages x < maxMessages w)%Z →
  storage w = Some s → mirrors s name x → ID m ∉ ID <$> all_messages x → storable name m now →
  AppendPut name m now s = (Ret None, s') →
  step (publish_locked t name m p false now) w (λ err w',
    err = None ∧ ∃ st, st = Some s' ∧ w' = set_storage st (upd t (enqueue p m x) w)).
Proof.
  intros Hwf Hx Hdel Hroom Hs Hmir Hfresh Hst Hput.
  destruct (publish_locked_mirrors t x name m p now s s' w) as [Hrun _]; [done..|].
  eapply wpx_ran; [exact Hrun|]. split_and!; [|apply (ext_upd t _ w)|done|eauto].
  apply wf_set_storage. eapply wf_shrink; [done..|]. apply same_shrinks, enqueue_same.
Qed.

(** [C10] Durability of a whole publication: when the log of the topic mirrors
    its queue and the storage accepts the record, [Publish] succeeds with the
    message at the end of its queue and at the end of the log, and the queue
    still mirrors the log.  This is about an ordinary publication (not a
    broadcast, which is never logged) to an accepted name without consumer
    groups, whose queue is below its limit, on a consistent broker without an
    OnPublish callback where nobody waits for a message: a waiting consumer
    takes the message off the queue and no record says so.  The drawn identifier
    is not in the queue and the message fits a log line. *)
Theorem Publish_mirrors (HR : RuntimeLaws R) now name payload headers p e d x s s' w
    (m := new_message w now name payload headers e d x)
    (Hcp : can_publish w name x)
    (Hleaf : strings.Contains name "::" = true ∨ bindings w !! name = None)
    (Hs : storage w = Some s) (Hmir : mirrors s name x)
    (Hfresh : ID m ∉ ID <$> all_messages x) (Hst : storable name m now)
    (Hput : AppendPut name m now s = (Ret None, s')) :
  wpx (Publish now name payload headers p e d false) (λ err w',
    err = None ∧ storage w' = Some s' ∧ log s' name = log s name ++ [WPut m] ∧
    ∃ x', topic_at w' name = Some x' ∧ appended p m x x' ∧ mirrors s' name x')
    (λ _, True) w.
Proof.
  destruct Hcp as [Hwf Hq Hon Hname Htg Hroom].
  apply step_wps. unfold Publish, max_depth_left. cbn [publishCore].
  rewrite publishable_guards by done. eapply step_bind with (Q := λ _ w', w' = w).
  { by apply (step_no_groups HR). }
  intros [] w' _ _ ->. pose proof (target_live _ _ _ Hwf Htg) as Hdel. eapply step_mono.
  - apply (step_publish_one_with HR (λ st, st = Some s')); [done..|].
    intros t w2 Hwf2 Hx Hs2 Hmax. apply (step_locked_mirrors s); try done; congruence.
  - intros err w' _ _ (-> & _ & _ & _ & _ & -> & Hx'). split_and!; [done..| |].
    + by destruct Hmir as [Hr _ _], (AppendPut_ok _ _ _ _ _ Hr Hst Hput) as (? & _).
    + eexists. split_and!; [done|apply enqueue_appended|]. by eapply mirrors_put.
Qed.

(** The ring buffer is durable too: evicting the oldest message of a full
    queue is logged as its acknowledgement, and the mirror is kept. *)
Theorem publish_evict_mirrors t x name m p now old x' s s1 s2 w
    (Hwf : wf w) (Hx : heap w !! t = Some x) (Hdel : Deleted x = false)
    (Hfull : (maxMessages w ≤ totalActiveMessages x)%Z) (Hpol : Policy x = "drop-oldest")
    (Hev : evict x = Some (old, x'))
    (Hs : storage w = Some s) (Hmir : mirrors s name x)
    (Hfresh : ID m ∉ ID <$> all_messages x) (Hst : storable name m now)
    (Hack : ackable name (ID old) now)
    (Hput : AppendPut name m now s = (Ret None, s1))
    (Hdrop : AppendAck name (ID old) now s1 = (Ret None, s2)) :
  publish_locked t name m p false now w =
    (Ret None, set_storage (Some s2) (upd t (enqueue p m x') w)) ∧
  mirrors s2 name (enqueue p m x').
Proof.
  pose proof (evict_perm _ _ _ Hev) as Hperm. split.
  - apply wpx_exact. assert (mu x = false) as Hm by by apply (wf_heap _ Hwf t x).
    eapply wpx_enter; [done..|]. simpl. rewrite Hdel. apply wpx_bind.
    eapply wpx_with_storage_run; [exact Hs|exact Hput|]. apply wpx_bind, wpx_get. simpl.
    change (totalActiveMessages (set_mu true x)) with (totalActiveMessages x).
    rewrite (proj2 (Z.leb_le _ _)) by done. rewrite Hpol, evict_mu, Hev. simpl.
    apply wpx_bind. eapply wpx_with_storage_run; [done|exact Hdrop|].
    change (set_storage ?st (set_storage ?st' (upd t ?y w)))
      with (upd t y (set_storage st w)). rewrite enqueue_mu.
    apply wpx_leave; [done|]. apply wpx_ret. split; [done|]. rewrite set_mu_idem, set_mu_same; [done|].
    destruct (evict_same _ _ _ Hev) as (_ & _ & _ & _ & _ & _ & Hm').
    destruct (enqueue_same p m x') as (_ & _ & _ & _ & _ & _ & ->). congruence.
  - apply (mirrors_ack s1 s2 name old (enqueue "low" m x) (enqueue p m x') now); [|..|done|done].
    + by eapply mirrors_put.
    + rewrite !enqueue_perm, Hperm. done.
Qed.

(** [C40] A refused publication is on disk all the same: the record is appended
    before the capacity check, so a message the client was told to be rejected
    is outstanding in the log and comes back after a restart. *)
Theorem rejected_publish_is_logged t x name m p now s s' w
    (Hwf : wf w) (Hx : heap w !! t = Some x) (Hdel : Deleted x = false)
    (Hfull : (maxMessages w ≤ totalActiveMessages x)%Z) (Hpol : Policy x ≠ "drop-oldest")
    (Hs : storage w = Some s) (Hready : ready s name) (Hst : storable name m now)
    (Hput : AppendPut name m now s = (Ret None, s')) :
  ∃ e, publish_locked t name m p false now w = (Ret (Some e), set_storage (Some s') w) ∧
    live (log s' name) = live (log s name) ++ [m].
Proof.
  assert (mu x = false) as Hm by by apply (wf_heap _ Hwf t x).
  eexists. split.
  - apply wpx_exact. eapply wpx_enter; [done..|]. simpl. rewrite Hdel. apply wpx_bind.
    eapply wpx_with_storage_run; [exact Hs|exact Hput|]. apply wpx_bind, wpx_get. simpl.
    change (totalActiveMessages (set_mu true x)) with (totalActiveMessages x).
    rewrite (proj2 (Z.leb_le _ _)) by done. rewrite (proj2 (String.eqb_neq _ _)) by done.
    change (set_storage ?st (upd t ?y w)) with (upd t y (set_storage st w)).
    apply wpx_bind, wpx_release; [done..|]. by apply wpx_ret.
  - destruct (AppendPut_ok _ _ _ _ _ Hready Hst Hput) as (-> & _). by rewrite live_snoc.
Qed.

(** ** Acknowledging, recovering *)

(** Acknowledging a queued message is durable: it leaves the queue and the
    outstanding messages of the log together. *)
Theorem Ack_mirrors name id x x' s s' w now
    (Hwf : wf w) (Hx : topic_at w name = Some x) (Hrm : removeMessageByID id x = Some x')
    (Hs : storage w = Some s) (Hmir : mirrors s name x) (Hack : ackable name id now)
    (Hrun : AppendAck name id now s = (Ret None, s')) :
  wpx (Ack now name id) (λ ok w', ok = true ∧ storage w' = Some s' ∧
    topic_at w' name = Some x' ∧ mirrors s' name x') (λ _, True) w.
Proof.
  apply topic_at_Some in Hx as (t & Ht & Hx).
  apply (wps_Ack _ _ _ t x); [done|done|by apply (wf_heap _ Hwf t x)| |congruence].
  intros x2 r st Hrm2 Hst. simplify_eq. destruct (Hst s Hs) as (s2 & Hrun2 & ->).
  rewrite Hrun in Hrun2. injection Hrun2 as <- <-.
  destruct (topic_at_upd t x' w name Hwf Ht) as [Hat _]. split_and!; [done|done|exact Hat|].
  pose proof (removeMessageByID_spec id x) as Hspec. rewrite Hrm in Hspec.
  destruct Hspec as (m & <- & Hp & _). by eapply mirrors_ack.
Qed.

(** [C16] Recovery: loading a topic whose log holds distinct messages gives a
    queue with exactly the outstanding messages of the log, in the order they
    were written, and the queue mirrors the log again. *)
Theorem load_recovers name ms s s' w
    (Hwf : wf w) (Hs : storage w = Some s) (Hready : ready s name)
    (Hids : NoDup (put_ids (log s name)))
    (Hload : LoadMessages name s = (Ret (ms, None), s')) :
  wpx (load_existing_topic name) (λ _ w', ∃ x,
    topic_at w' name = Some x ∧ storage w' = Some s' ∧
    all_messages x = live (log s name) ∧ mirrors s' name x) (λ _, False) w.
Proof.
  pose proof (LoadMessages_ok s name Hready Hids) as Hok. unfold wlp in Hok. rewrite Hload in Hok.
  destruct (Hok eq_refl) as (-> & Hlog & Hready').
  unfold load_existing_topic. apply wpx_bind.
  assert (∀ v, storage v = Some s → wpx
    (w0 ← get; '(msgs, err) ←
      match storage w0 with
      | Some _ => with_storage ([], None) (LoadMessages name)
      | None => panic "nil pointer dereference"
      end;
      match err with
      | Some _ => mret ()
      | None => install_topic name (set_Messages msgs (empty_topic name default_policy 0)) ;; mret ()
      end) (λ _ w', ∃ x, topic_at w' name = Some x ∧ storage w' = Some s' ∧
        all_messages x = live (log s name) ∧ mirrors s' name x) (λ _, False) v) as Hrest.
  { intros v Hv. apply wpx_bind, wpx_get. rewrite Hv. apply wpx_bind.
    eapply wpx_with_storage_run; [done..|]. apply wpx_bind, wpx_install_topic. intros re.
    apply wpx_ret. eexists. split_and!.
    - apply topic_at_Some. eexists. apply installed_topic.
    - done.
    - unfold all_messages. simpl. apply app_nil_r.
    - split; [done| |]; unfold all_messages; simpl; rewrite app_nil_r; [by rewrite Hlog|].
      by apply live_nodup. }
  destruct (strings.Contains name "::"); [|by apply Hrest].
  destruct (strings.SplitN name "::" 2); [by apply wpx_ret, Hrest|].
  apply wpx_modify. by apply Hrest.
Qed.

End durable.

(** ** Concrete runs *)

(** A process limited to one message per topic. *)
Definition tiny_runtime (policy : string) : Runtime := env_runtime (λ name,
  if String.eqb name "TINYMQ_MAX_MESSAGES" then "1"
  else if String.eqb name "TINYMQ_DEFAULT_POLICY" then policy else "").

(** The topic [t], created empty with [policy]. *)
Definition demo_created (policy : string) : World DiskStorage :=
  run_state (CreateTopic (R:=tiny_runtime policy) "t" policy 0)
    (New (R:=tiny_runtime policy) (Some demo_disk)).

Lemma demo_created_wf policy : policy = "reject" ∨ policy = "drop-oldest" → wf (demo_created policy).
Proof.
  intros Hp. eapply (run_state_wf (CreateTopic (R:=tiny_runtime policy) "t" policy 0)
    (New (R:=tiny_runtime policy) (Some demo_disk))); [apply step_CreateTopic, wf_New|].
  destruct Hp as [->| ->]; vm_compute; reflexivity.
Qed.

Definition demo_t (policy : string) : Topic := empty_topic "t" policy 0.
Definition demo_disk1 : DiskStorage := run_state (AppendPut "t" demo_msg 7) demo_disk.

Lemma demo_put : AppendPut "t" demo_msg 7 demo_disk = (Ret None, demo_disk1).
Proof. vm_compute. reflexivity. Qed.

Lemma demo_mirrors policy : mirrors demo_disk "t" (demo_t policy).
Proof. split; [by apply demo_disk_ready|done|constructor]. Qed.

Definition demo_new : Message :=
  new_message demo_empty 5 "t" [x68] ∅ None None (empty_topic "t" default_policy 0).
Definition demo_disk_new : DiskStorage := run_state (AppendPut "t" demo_new 5) demo_disk.

Lemma demo_new_fits : storable "t" demo_new 5.
Proof.
  split; [done|]. intros l Hl. unfold line_of in Hl.
  assert (l = default [] (json_Marshal (stamp (put_record demo_new 5)))) as -> by by rewrite Hl.
  unfold short. vm_compute. reflexivity.
Qed.

Lemma Publish_mirrors_witness :
  wpx (Publish 5 "t" [x68] ∅ "high" None None false) (λ err w',
    err = None ∧ storage w' = Some demo_disk_new ∧
    log demo_disk_new "t" = log demo_disk "t" ++ [WPut demo_new] ∧
    ∃ x', topic_at w' "t" = Some x' ∧
      appended "high" demo_new (empty_topic "t" default_policy 0) x' ∧
      mirrors demo_disk_new "t" x')
    (λ _, True) demo_empty.
Proof.
  apply (Publish_mirrors demo_runtime_laws).
  - apply demo_can_publish.
  - by right.
  - done.
  - apply demo_mirrors.
  - set_solver.
  - apply demo_new_fits.
  - vm_compute. reflexivity.
Defined.

(** The same topic after one publication: full. *)
Definition demo_full (policy : string) : World DiskStorage :=
  set_storage (Some demo_disk1)
    (upd 0 (enqueue "normal" demo_msg (demo_t policy)) (demo_created policy)).

Lemma demo_full_wf policy : policy = "reject" ∨ policy = "drop-oldest" → wf (demo_full policy).
Proof.
  intros Hp. apply wf_set_storage. eapply wf_shrink; [by apply demo_created_wf| |].
  - destruct Hp as [->| ->]; vm_compute; reflexivity.
  - unfold shrinks. destruct Hp as [->| ->]; by split_and!.
Qed.

Definition demo_msg2 : Message := MkMessage "id-2" "t" [x6f; x6b] 8 None None 0 ∅.

Lemma demo_msg2_fits now : (now = 8)%Z → storable "t" demo_msg2 now.
Proof.
  intros ->. split; [done|]. intros l Hl. unfold line_of in Hl.
  assert (l = default [] (json_Marshal (stamp (put_record demo_msg2 8)))) as ->
    by by rewrite Hl.
  unfold short. vm_compute. reflexivity.
Qed.

Lemma demo_ack_fits : ackable "t" "id-1" 8.
Proof.
  split; [done|]. intros l Hl. unfold line_of in Hl.
  assert (l = default [] (json_Marshal (stamp (ack_record "id-1" 8)))) as -> by by rewrite Hl.
  unfold short. vm_compute. reflexivity.
Qed.

Definition demo_disk2 : DiskStorage := run_state (AppendPut "t" demo_msg2 8) demo_disk1.
Definition demo_disk3 : DiskStorage := run_state (AppendAck "t" "id-1" 8) demo_disk2.

Lemma demo_mirrors1 policy : mirrors demo_disk1 "t" (enqueue "normal" demo_msg (demo_t policy)).
Proof.
  eapply mirrors_put; [apply (demo_mirrors policy)|set_solver|apply demo_fits|apply demo_put].
Qed.

Lemma publish_evict_mirrors_witness :
  publish_locked 0 "t" demo_msg2 "normal" false 8 (demo_full "drop-oldest") =
    (Ret None, set_storage (Some demo_disk3)
      (upd 0 (enqueue "normal" demo_msg2 (demo_t "drop-oldest")) (demo_full "drop-oldest"))) ∧
  mirrors demo_disk3 "t" (enqueue "normal" demo_msg2 (demo_t "drop-oldest")).
Proof.
  apply (publish_evict_mirrors 0 (enqueue "normal" demo_msg (demo_t "drop-oldest")) "t" demo_msg2
    "normal" 8 demo_msg (demo_t "drop-oldest") demo_disk1 demo_disk2 demo_disk3).
  - apply demo_full_wf. by right.
  - vm_compute. reflexivity.
  - done.
  - vm_compute. done.
  - done.
  - done.
  - done.
  - apply demo_mirrors1.
  - apply (bool_decide_unpack _). vm_compute. exact I.
  - by apply demo_msg2_fits.
  - apply demo_ack_fits.
  - vm_compute. reflexivity.
  - vm_compute. reflexivity.
Defined.

Lemma rejected_publish_is_logged_witness :
  ∃ e, publish_locked 0 "t" demo_msg2 "normal" false 8 (demo_full "reject") =
      (Ret (Some e), set_storage (Some demo_disk2) (demo_full "reject")) ∧
    live (log demo_disk2 "t") = live (log demo_disk1 "t") ++ [demo_msg2].
Proof.
  apply (rejected_publish_is_logged 0 (enqueue "normal" demo_msg (demo_t "reject"))).
  - apply demo_full_wf. by left.
  - vm_compute. reflexivity.
  - done.
  - vm_compute. done.
  - done.
  - done.
  - apply (demo_mirrors1 "reject").
  - by apply demo_msg2_fits.
  - vm_compute. reflexivity.
Defined.

Definition demo_disk1_acked : DiskStorage := run_state (AppendAck "t" "id-1" 8) demo_disk1.

Lemma Ack_mirrors_witness :
  wpx (Ack 8 "t" "id-1") (λ ok w', ok = true ∧ storage w' = Some demo_disk1_acked ∧
    topic_at w' "t" = Some (demo_t "reject") ∧ mirrors demo_disk1_acked "t" (demo_t "reject"))
    (λ _, True) (demo_full "reject").
Proof.
  apply (Ack_mirrors "t" "id-1" (enqueue "normal" demo_msg (demo_t "reject")) (demo_t "reject")
    demo_disk1).
  - apply demo_full_wf. by left.
  - vm_compute. reflexivity.
  - vm_compute. reflexivity.
  - done.
  - apply demo_mirrors1.
  - apply demo_ack_fits.
  - vm_compute. reflexivity.
Defined.

Lemma load_recovers_witness :
  wpx (load_existing_topic "t") (λ _ w', ∃ x,
    topic_at w' "t" = Some x ∧ storage w' = Some (run_state (LoadMessages "t") demo_disk1) ∧
    all_messages x = live (log demo_disk1 "t") ∧
    mirrors (run_state (LoadMessages "t") demo_disk1) "t" x) (λ _, False)
    (New (Some demo_disk1)).
Proof.
  apply (load_recovers "t" [demo_msg] demo_disk1).
  - apply wf_New.
  - done.
  - apply (demo_mirrors1 "reject").
  - apply (bool_decide_unpack _). vm_compute. exact I.
  - vm_compute. reflexivity.
Defined.
