(* ===== verification/BrokerWild.v ===== *)
(** * Wildcard subscriptions: the compiled patterns against a reference matcher *)

From Stdlib Require Import Ascii.
From S2P Require Import Prelude.
From S2P Require Import GoLib.
From S2P Require Import Message.
From S2P Require Import Wal.
From S2P Require Import Storage.
From S2P Require Import Codec.
From S2P Require Import Demo.
From S2P Require Import StorageProps.
From S2P Require Import Broker.
From S2P Require Import BrokerPublish.

(** What the wildcard [p*] means: the topic starts with [p], where a dot stands for any
    character. *)
Fixpoint wild_prefix (p t : string) : bool :=
  match p, t with
  | EmptyString, _ => true
  | String c p', String x t' => (Ascii.eqb c "." || Ascii.eqb c x) && wild_prefix p' t'
  | String _ _, EmptyString => false
  end.

Definition char_tok (c : ascii) : retok := if Ascii.eqb c "." then RAny else RLit c.
Fixpoint toks_of (p : string) : list retok :=
  match p with
  | EmptyString => [RStar]
  | String c p' => char_tok c :: toks_of p'
  end.

Lemma topic_char_plain c :
  topic_char c = true →
  is_meta c = false ∧ (128 <=? N_of_ascii c)%N = false ∧ c ≠ "*"%char ∧ c ≠ newline.
Proof.
  assert (forallb (λ n, let c := ascii_of_nat n in
    negb (topic_char c) || negb (is_meta c) && negb (128 <=? N_of_ascii c)%N &&
      negb (Ascii.eqb c "*") && negb (Ascii.eqb c newline)) (seq 0 256) = true) as Hall
    by (vm_compute; reflexivity).
  rewrite forallb_forall in Hall. intros Hc. specialize (Hall (nat_of_ascii c)).
  cbv beta zeta in Hall. rewrite ascii_nat_embedding, Hc in Hall. cbn [negb orb] in Hall.
  assert (In (nat_of_ascii c) (seq 0 256)) as Hin
    by (apply in_seq; pose proof (nat_ascii_bounded c); lia).
  specialize (Hall Hin). rewrite !andb_true_iff, !negb_true_iff, !Ascii.eqb_neq in Hall. tauto.
Qed.

Lemma ReplaceAll_star p :
  strings.forall_chars topic_char p = true →
  strings.ReplaceAll (p +:+ "*") "*" ".*" = p +:+ ".*".
Proof.
  unfold strings.ReplaceAll. induction p as [|c p IH]; [done|]. intros [Hc Hp]%andb_true_iff.
  destruct (topic_char_plain c Hc) as (_ & _ & Hs & _).
  change (String c p +:+ "*") with (String c (p +:+ "*")).
  rewrite replace_miss by (by apply Ascii.eqb_neq). by rewrite IH.
Qed.

Lemma parse_plain_cons c s :
  is_meta c = false → (128 <=? N_of_ascii c)%N = false → c ≠ "*"%char →
  (c = "."%char → ∀ s', s ≠ String "*" s') →
  parse_plain (String c s) = cons (char_tok c) <$> parse_plain s.
Proof.
  intros Hm H8 Hs Hd. unfold char_tok. destruct (Ascii.eqb_spec c ".") as [->|Hne].
  - specialize (Hd eq_refl). destruct s as [|x s]; [done|].
    assert (x ≠ "*"%char) as Hx by (intros ->; by eapply Hd).
    by destruct x as [[] [] [] [] [] [] [] []].
  - assert (∀ A (x y z : A), match c with "."%char => x | "*"%char => y | _ => z end = z) as Hz
      by (intros A x y z; by destruct c as [[] [] [] [] [] [] [] []]).
    simpl. rewrite Hm, H8. apply Hz.
Qed.

Lemma parse_plain_prefix p :
  strings.forall_chars topic_char p = true → parse_plain (p +:+ ".*") = Some (toks_of p).
Proof.
  induction p as [|c p IH]; [done|]. intros [Hc Hp]%andb_true_iff. specialize (IH Hp).
  destruct (topic_char_plain c Hc) as (Hm & H8 & Hs & _).
  change (String c p +:+ ".*") with (String c (p +:+ ".*")).
  rewrite parse_plain_cons, IH; [done..|]. intros _ s'. destruct p as [|x p]; [done|].
  apply andb_true_iff in Hp as [Hx _]. destruct (topic_char_plain x Hx) as (_ & _ & Hx' & _).
  intros [= ? _]. done.
Qed.

Lemma match_star t : strings.forall_chars topic_char t = true → match_toks [RStar] t = true.
Proof.
  induction t as [|x t IH]; [done|]. intros [Hx Ht]%andb_true_iff. rewrite match_toks_star.
  rewrite IH by done. destruct (topic_char_plain x Hx) as (_ & _ & _ & Hn).
  apply orb_true_iff. right. rewrite andb_true_r. apply negb_true_iff, Ascii.eqb_neq. congruence.
Qed.

Lemma match_toks_of p : ∀ t,
  strings.forall_chars topic_char t = true → match_toks (toks_of p) t = wild_prefix p t.
Proof.
  induction p as [|c p IH]; intros t Ht; [by apply match_star|].
  destruct t as [|x t]; [cbn [toks_of]; unfold char_tok; by destruct (Ascii.eqb c ".")|].
  apply andb_true_iff in Ht as [Hx Ht]. cbn [toks_of wild_prefix]. unfold char_tok.
  destruct (topic_char_plain x Hx) as (_ & _ & _ & Hn).
  destruct (Ascii.eqb c "."); cbn [match_toks orb]; rewrite IH by done; [|done].
  replace (Ascii.eqb newline x) with false; [done|]. symmetry. apply Ascii.eqb_neq. congruence.
Qed.

Section wildcards.
Context `{R : Runtime} {St : Type} `{Storage St}.
Implicit Types w : World St.

(** [C23] The patterns the broker compiles mean what the reference matcher says: compiling
    the wildcard [p*] over valid topic characters always succeeds, and the stored pattern
    matches a valid topic name exactly when the name starts with [p], each dot of [p]
    standing for any character ([wild_prefix]).  The pattern [events.*] thus also matches
    the topic [eventsXlogin]. *)
Theorem wildcard_meaning p w
    (Hp : strings.forall_chars topic_char p = true)
    (Hnew : compiledRegex w !! (p +:+ "*") = None) :
  ∃ re w', compileWildcardRegex (p +:+ "*") w = (Ret (), w') ∧
    compiledRegex w' !! (p +:+ "*") = Some re ∧
    ∀ topic, validTopicRegex topic = true → MatchString re topic = wild_prefix p topic.
Proof.
  exists (MkRegexp (p +:+ ".*") (Some (toks_of p))).
  eexists. split_and!.
  - unfold compileWildcardRegex, mbind, M_bind, get. rewrite Hnew, ReplaceAll_star by done.
    unfold regexp_Compile. by rewrite parse_plain_prefix.
  - apply lookup_insert_eq.
  - intros topic Ht. assert (strings.forall_chars topic_char topic = true) as Hall by (by destruct topic).
    unfold MatchString. cbn [re_toks].
    assert (strings.is_ascii topic = true) as ->.
    { revert Hall. apply forall_chars_impl. intros c Hc.
      destruct (topic_char_plain c Hc) as (_ & H8 & _). apply N.leb_gt in H8. by apply N.ltb_lt. }
    by apply match_toks_of.
Qed.

End wildcards.

Lemma wildcard_meaning_witness :
  ∃ re w', compileWildcardRegex "events.*" demo_empty = (Ret (), w') ∧
    compiledRegex w' !! "events.*" = Some re ∧
    ∀ topic, validTopicRegex topic = true → MatchString re topic = wild_prefix "events." topic.
Proof. apply (wildcard_meaning "events." demo_empty); reflexivity. Defined.
