(* ===== verification/Mqtt.v ===== *)
(** * The MQTT transport ([internal/transport/mqtt])

    The wire format ([packets.go]) and the packet handlers ([server.go]) of one
    client connection.  A connection is a byte stream in and a list of packets
    written out; the broker is the one of [Broker.v].  The goroutine a
    subscription starts is the step [forward]. *)

From Stdlib Require Import Ascii.
From Stdlib Require Import Strings.Byte.
From S2P Require Import Prelude.
From S2P Require Import GoLib.
From S2P Require Import Message.
From S2P Require Import Wal.
From S2P Require Import Broker.

(** ** Packet types *)

Definition PacketConnect : Z := 1.
Definition PacketConnAck : Z := 2.
Definition PacketPublish : Z := 3.
Definition PacketPubAck : Z := 4.
Definition PacketSubscribe : Z := 8.
Definition PacketSubAck : Z := 9.
Definition PacketUnsubscribe : Z := 10.
Definition PacketUnsubAck : Z := 11.
Definition PacketPingReq : Z := 12.
Definition PacketPingResp : Z := 13.
Definition PacketDisconnect : Z := 14.

(** [byte(t << 4)] *)
Definition packet_byte (t : Z) : byte := Zbyte (Z.shiftl t 4).

(** ** The variable-length integer *)

Definition eof_msg : string := "EOF".
Definition unexpected_eof_msg : string := "unexpected EOF".
Definition malformed_length_msg : string := "malformed remaining length: exceeded 4 bytes".

(** The loop of [readRemainingLength] with [n] bytes still allowed: the value
    and the rest of the stream. *)
Fixpoint read_length_loop (n : nat) (multiplier value : Z) (r : bytes)
    : string + (Z * bytes) :=
  match n with
  | O => inl malformed_length_msg
  | S n' =>
      match r with
      | [] => inl eof_msg
      | encodedByte :: r' =>
          let value := (value + Z.land (byteZ encodedByte) 127 * multiplier)%Z in
          if bool_decide (Z.land (byteZ encodedByte) 128 = 0%Z) then inr (value, r')
          else read_length_loop n' (multiplier * 128) value r'
      end
  end.
Definition readRemainingLength (r : bytes) : string + (Z * bytes) := read_length_loop 4 1 0 r.

(** The loop of [writeRemainingLength]; [%] and [/] truncate.  Nine rounds are
    enough for a 64-bit [int]. *)
Fixpoint write_length_loop (fuel : nat) (value : Z) : bytes :=
  match fuel with
  | O => []
  | S fuel' =>
      let encodedByte := Z.rem value 128 in
      let value := Z.quot value 128 in
      if (0 <? value)%Z
      then Zbyte (Z.lor encodedByte 128) :: write_length_loop fuel' value
      else [Zbyte encodedByte]
  end.
Definition writeRemainingLength (value : Z) : bytes := write_length_loop 9 value.

(** ** Length-prefixed strings: the text and the new offset *)

Definition readString {S} (buf : bytes) (offset : nat) : M S (option (string * nat)) :=
  if (length buf <? offset + 2)%nat then mret None
  else
    prefix ← go_slice buf offset (offset + 2);
    n ← BigEndian_Uint16 prefix;
    let offset := offset + 2 in
    let len := Z.to_nat n in
    if (length buf <? offset + len)%nat then mret None
    else
      str ← go_slice buf offset (offset + len);
      mret (Some (string_of_bytes str, offset + len)).

Definition translateMQTTWildcard (topic : string) : string :=
  if String.eqb topic "#" then "*"
  else if strings.HasSuffix topic "/#" then strings.ReplaceAll topic "/#" "/*"
  else if strings.Contains topic "+" then strings.ReplaceAll topic "+" "*"
  else topic.

(** The PUBLISH packet a subscriber receives. *)
Definition publish_packet (msg : Message) : bytes :=
  let topicBytes := bytes_of_string (Message.Topic msg) in
  let varHeader := put_be16 (Z.of_nat (length topicBytes)) ++ topicBytes in
  let totalPayload := varHeader ++ Payload msg in
  packet_byte PacketPublish :: writeRemainingLength (Z.of_nat (length totalPayload)) ++ totalPayload.

(** ** The connection *)

Record Client (St : Type) : Type := MkClient {
  connected : bool;
  (** what was written to the socket, and how many writes were attempted *)
  out : list bytes;
  writes : nat;
  spies_of : gmap string nat;
  (** [mc.mu] is held *)
  mu : bool;
  world : World St
}.
Arguments MkClient {_} _ _ _ _ _ _.
Arguments mu {_} _. Arguments connected {_} _. Arguments out {_} _. Arguments writes {_} _.
Arguments spies_of {_} _. Arguments world {_} _.

Section client_updates.
Context {St : Type}.
Implicit Types c : Client St.

Definition set_connected (x : bool) c : Client St :=
  MkClient x (out c) (writes c) (spies_of c) (mu c) (world c).
Definition set_out (x : list bytes) (n : nat) c : Client St :=
  MkClient (connected c) x n (spies_of c) (mu c) (world c).
Definition set_spies_of (x : gmap string nat) c : Client St :=
  MkClient (connected c) (out c) (writes c) x (mu c) (world c).
Definition set_mu (x : bool) c : Client St :=
  MkClient (connected c) (out c) (writes c) (spies_of c) x (world c).
Definition set_world (x : World St) c : Client St :=
  MkClient (connected c) (out c) (writes c) (spies_of c) (mu c) x.

(** [mqttConn] just accepted. *)
Definition new_client (w : World St) : Client St := MkClient false [] 0 ∅ false w.

End client_updates.

Section server.
Context `{R : Runtime} {St : Type} `{Storage St}.
(** which writes to the socket fail *)
Variable broken : nat → bool.
Abbreviation MC := (M (Client St)).

(** [mc.conn.Write(data)] *)
Definition conn_write (data : bytes) : MC error :=
  c ← get;
  if broken (writes c) then
    modify (λ c, set_out (out c) (S (writes c)) c) ;; mret (Some "write failed")
  else
    modify (λ c, set_out (out c ++ [data]) (S (writes c)) c) ;; mret None.

Definition write (data : bytes) : MC error :=
  mutex_lock mu set_mu ;;
  err ← conn_write data;
  mutex_unlock mu set_mu ;;
  mret err.

Definition call {A} (op : M (World St) A) : MC A := zoom world set_world op.

Definition connack (code : byte) : bytes := [packet_byte PacketConnAck; x02; x00; code].

(** The credentials [handleConnect] compares with [TINYMQ_API_KEY]. *)
Definition authorized (hasUsername hasPassword : bool) (username password : string) : bool :=
  let token := getenv "TINYMQ_API_KEY" in
  String.eqb token "" ||
  (hasPassword && String.eqb password token) || (hasUsername && String.eqb username token).

(** A field that is present only when its flag is set. *)
Definition optional_string (present : bool) (payload : bytes) (offset : nat)
    : MC (option (string * nat)) :=
  if present then readString payload offset else mret (Some (EmptyString, offset)).

Definition handleConnect (payload : bytes) : MC error :=
  if (length payload <? 10)%nat then mret (Some "malformed CONNECT packet")
  else
    proto ← readString payload 0;
    match proto with
    | None => mret (Some "failed to read protocol name: unexpected EOF")
    | Some (protoName, offset) =>
        if negb (String.eqb protoName "MQTT" || String.eqb protoName "MQIsdp")
        then mret (Some ("invalid protocol name: " +:+ protoName))
        else if (length payload <? offset + 4)%nat then mret (Some unexpected_eof_msg)
        else
          protoLevel ← go_index payload offset;
          if negb (bool_decide (byteZ protoLevel = 4%Z)) then
            write (connack x01) ;;
            mret (Some ("unsupported MQTT version: " +:+ Itoa (byteZ protoLevel)))
          else
            connFlags ← go_index payload (offset + 1);
            client ← readString payload (offset + 4);
            match client with
            | None => mret (Some unexpected_eof_msg)
            | Some (clientID, offset) =>
                let hasUsername := negb (bool_decide (Z.land (byteZ connFlags) 128 = 0%Z)) in
                let hasPassword := negb (bool_decide (Z.land (byteZ connFlags) 64 = 0%Z)) in
                if hasPassword && negb hasUsername then
                  write (connack x04) ;;
                  mret (Some "password flag set without username flag (MQTT 3.1.1 §3.1.2.9)")
                else
                  user ← optional_string hasUsername payload offset;
                  match user with
                  | None => mret (Some unexpected_eof_msg)
                  | Some (username, offset) =>
                      pass ← optional_string hasPassword payload offset;
                      match pass with
                      | None => mret (Some unexpected_eof_msg)
                      | Some (password, _) =>
                          if authorized hasUsername hasPassword username password then
                            modify (set_connected true) ;; write (connack x00)
                          else
                            write (connack x05) ;; mret (Some "authentication failed")
                      end
                  end
            end
    end.

(** [(flags >> 1) & 0x03] *)
Definition qos_of (flags : Z) : Z := Z.land (Z.shiftr flags 1) 3.

(** [binary.BigEndian.Uint16(payload[offset : offset+2])] after its length check *)
Definition read_packet_id (payload : bytes) (offset : nat) : MC (option Z) :=
  if (length payload <? offset + 2)%nat then mret None
  else
    b ← go_slice payload offset (offset + 2);
    id ← BigEndian_Uint16 b;
    mret (Some id).

Definition puback (packetID : Z) : bytes := packet_byte PacketPubAck :: x02 :: put_be16 packetID.

Definition handlePublish (now flags : Z) (payload : bytes) : MC error :=
  r ← readString payload 0;
  match r with
  | None => mret (Some unexpected_eof_msg)
  | Some (topic, offset) =>
      let qos := qos_of flags in
      id ← (if (0 <? qos)%Z then read_packet_id payload offset else mret (Some 0%Z));
      match id with
      | None => mret (Some unexpected_eof_msg)
      | Some packetID =>
          let offset := if (0 <? qos)%Z then offset + 2 else offset in
          if (qos =? 2)%Z then mret (Some "QoS 2 not supported")
          else
            msgPayload ← go_slice payload offset (length payload);
            err ← call (Publish now topic msgPayload ∅ "normal" None None false);
            match err with
            | Some e => mret (Some e)
            | None => if (qos =? 1)%Z then write (puback packetID) else mret None
            end
      end
  end.

(** One topic filter of a SUBSCRIBE; the granted code. *)
Definition subscribe_one (cleanTopic : string) : MC byte :=
  c ← get;
  (match spies_of c !! cleanTopic with
   | Some oldCh =>
       call (RemoveSpy cleanTopic oldCh) ;;
       modify (λ c, set_spies_of (delete cleanTopic (spies_of c)) c)
   | None => mret ()
   end) ;;
  r ← call (AddSpy cleanTopic);
  match r with
  | inl _ => mret x80
  | inr spyChan =>
      modify (λ c, set_spies_of (<[cleanTopic := spyChan]> (spies_of c)) c) ;;
      mret x00
  end.

(** The loop of [handleSubscribe]; every round moves [offset] forward.  The
    requested QoS is read and only logged. *)
Fixpoint subscribe_loop (fuel : nat) (payload : bytes) (offset : nat) (grantedQoS : bytes)
    : MC (string + bytes) :=
  if (length payload <=? offset)%nat then mret (inr grantedQoS)
  else
    match fuel with
    | O => deadlock
    | S fuel' =>
        r ← readString payload offset;
        match r with
        | None => mret (inl unexpected_eof_msg)
        | Some (topic, offset) =>
            if (length payload <=? offset)%nat then mret (inl unexpected_eof_msg)
            else
              requestedQoS ← go_index payload offset;
              code ← subscribe_one (translateMQTTWildcard topic);
              subscribe_loop fuel' payload (offset + 1) (grantedQoS ++ [code])
        end
    end.

Definition suback (packetID : Z) (grantedQoS : bytes) : bytes :=
  packet_byte PacketSubAck :: writeRemainingLength (2 + Z.of_nat (length grantedQoS)) ++
  put_be16 packetID ++ grantedQoS.

Definition handleSubscribe (payload : bytes) : MC error :=
  id ← read_packet_id payload 0;
  match id with
  | None => mret (Some unexpected_eof_msg)
  | Some packetID =>
      r ← subscribe_loop (length payload) payload 2 [];
      match r with
      | inl e => mret (Some e)
      | inr grantedQoS => write (suback packetID grantedQoS)
      end
  end.

Definition unsubscribe_one (cleanTopic : string) : MC unit :=
  c ← get;
  match spies_of c !! cleanTopic with
  | Some ch =>
      call (RemoveSpy cleanTopic ch) ;;
      modify (λ c, set_spies_of (delete cleanTopic (spies_of c)) c)
  | None => mret ()
  end.

Fixpoint unsubscribe_loop (fuel : nat) (payload : bytes) (offset : nat) : MC unit :=
  if (length payload <=? offset)%nat then mret ()
  else
    match fuel with
    | O => deadlock
    | S fuel' =>
        r ← readString payload offset;
        match r with
        | None => mret ()
        | Some (topic, offset) =>
            unsubscribe_one (translateMQTTWildcard topic) ;;
            unsubscribe_loop fuel' payload offset
        end
    end.

Definition handleUnsubscribe (payload : bytes) : MC error :=
  if (length payload <? 2)%nat then mret (Some unexpected_eof_msg)
  else
    packetID ← go_slice payload 0 2;
    unsubscribe_loop (length payload) payload 2 ;;
    hi ← go_index packetID 0;
    lo ← go_index packetID 1;
    write [packet_byte PacketUnsubAck; x02; hi; lo].

Definition processPacket (now pType flags : Z) (payload : bytes) : MC error :=
  c ← get;
  if negb (pType =? PacketConnect)%Z && negb (connected c)
  then mret (Some "protocol violation: packet sent before CONNECT")
  else if (pType =? PacketConnect)%Z then handleConnect payload
  else if (pType =? PacketPublish)%Z then handlePublish now flags payload
  else if (pType =? PacketSubscribe)%Z then handleSubscribe payload
  else if (pType =? PacketPingReq)%Z then write [packet_byte PacketPingResp; x00]
  else if (pType =? PacketDisconnect)%Z then mret (Some "client disconnected gracefully")
  else if (pType =? PacketUnsubscribe)%Z then handleUnsubscribe payload
  else mret (Some ("unsupported packet type: " +:+ Itoa pType)).

Definition maxPacketSize : Z := Z.shiftl 2 20.

(** One round of [handleClient]'s loop on the rest of the stream: the new rest,
    or [None] when the connection ends. *)
Definition serve_packet (now : Z) (input : bytes) : MC (option bytes) :=
  match input with
  | [] => mret None
  | header :: input =>
      let packetType := Z.shiftr (byteZ header) 4 in
      let flags := Z.land (byteZ header) 15 in
      match readRemainingLength input with
      | inl _ => mret None
      | inr (remLength, input) =>
          if (maxPacketSize <? remLength)%Z then mret None
          else
            make_bytes remLength ;;
            let n := Z.to_nat remLength in
            if (length input <? n)%nat then mret None
            else
              err ← processPacket now packetType flags (take n input);
              match err with
              | Some _ => mret None
              | None => mret (Some (drop n input))
              end
      end
  end.

Fixpoint serve (fuel : nat) (now : Z) (input : bytes) : MC unit :=
  match fuel with
  | O => deadlock
  | S fuel' =>
      r ← serve_packet now input;
      match r with
      | None => mret ()
      | Some rest => serve fuel' now rest
      end
  end.

(** The deferred clean-up. *)
Definition remove_spies : MC unit :=
  c ← get;
  forM_ (λ '(topic, ch), call (RemoveSpy topic ch)) (map_range (map_to_list (spies_of c))).

(** [handleClient] on the bytes the client sends until it stops. *)
Definition handleClient (now : Z) (input : bytes) : MC unit :=
  serve (S (length input)) now input ;; remove_spies.

(** One round of the goroutine of a subscription: a message is forwarded; a failed
    write or a closed channel ends it, and the deferred [RemoveSpy] runs. *)
Definition forward (topic : string) (ch : nat) : MC unit :=
  om ← call (try_recv ch);
  match om with
  | None =>
      c ← get;
      if default false (closed <$> chans (world c) !! ch) then call (RemoveSpy topic ch)
      else mret ()
  | Some msg =>
      err ← write (publish_packet msg);
      match err with
      | None => mret ()
      | Some _ => call (RemoveSpy topic ch)
      end
  end.

End server.
