(* ===== verification/MqttProps.v ===== *)
(** * What the MQTT transport guarantees *)

From Stdlib Require Import Ascii.
From Stdlib Require Import Strings.Byte.
From S2P Require Import Prelude.
From S2P Require Import GoLib.
From S2P Require Import Message.
From S2P Require Import Wal.
From S2P Require Import Storage.
From S2P Require Import Codec.
From S2P Require Import Demo.
From S2P Require Import Broker.
From S2P Require Import BrokerQueue.
From S2P Require Import BrokerSteps.
From S2P Require Import BrokerSafe.
From S2P Require Import BrokerOps.
From S2P Require Import BrokerSafety.
From S2P Require Import BrokerPublish.
From S2P Require Import Mqtt.

(** ** The wire format *)

Lemma continue_bit b :
  bool_decide (Z.land (byteZ b) 128 = 0%Z) = (byteZ b <? 128)%Z.
Proof.
  rewrite <-land_128_zero by apply byteZ_range.
  destruct (Z.eqb_spec (Z.land (byteZ b) 128) 0); by case_bool_decide.
Qed.

(** [n+1] bytes of seven bits hold every value below [128^(n+1)]. *)
Lemma length_loop_roundtrip n : ∀ fuel mult acc v rest,
  n < fuel → (0 ≤ v < 128 ^ Z.of_nat (S n))%Z →
  read_length_loop (S n) mult acc (write_length_loop fuel v ++ rest) =
  inr ((acc + v * mult)%Z, rest).
Proof.
  induction n as [|n IH]; intros [|fuel] mult acc v rest Hf Hv; [lia| |lia|];
    cbn [write_length_loop];
    rewrite Z.rem_mod_nonneg, Z.quot_div_nonneg by lia;
    pose proof (Z.mod_pos_bound v 128); pose proof (Z.div_mod v 128).
  { change (128 ^ Z.of_nat 1)%Z with 128%Z in Hv. rewrite Z.div_small, Z.mod_small by lia.
    cbn [read_length_loop app Z.ltb Z.compare].
    rewrite continue_bit, land_127, byteZ_Zbyte, (Z.mod_small v 256) by lia.
    rewrite (proj2 (Z.ltb_lt _ _)) by lia. by rewrite Z.mod_small by lia. }
  destruct (Z.ltb_spec 0 (v / 128)) as [Hpos|Hzero].
  - assert (Z.lor (v mod 128) 128 = 128 + v mod 128)%Z as Hlor.
    { rewrite Z.lor_comm. apply (lor_shiftl_low 1 _ 7); lia. }
    cbn [app]. remember (S n) as n1 eqn:Hn1. cbn [read_length_loop]. subst n1.
    rewrite continue_bit, land_127, byteZ_Zbyte, Hlor.
    rewrite (Z.mod_small (128 + v mod 128) 256) by lia.
    rewrite (proj2 (Z.ltb_ge _ _)) by lia. rewrite IH.
    + replace ((128 + v mod 128) mod 128)%Z with (v mod 128)%Z
        by (rewrite <-Zplus_mod_idemp_l; change (128 mod 128)%Z with 0%Z; by rewrite Z.add_0_l, Zmod_mod).
      f_equal. f_equal. nia.
    + lia.
    + split; [lia|]. apply Z.div_lt_upper_bound; [lia|].
      rewrite (Nat2Z.inj_succ (S n)), Z.pow_succ_r in Hv by lia. lia.
  - assert (v / 128 = 0)%Z by (pose proof (Z.div_pos v 128); lia).
    cbn [read_length_loop app]. rewrite continue_bit, land_127, byteZ_Zbyte.
    rewrite (Z.mod_small (v mod 128) 256) by lia. rewrite (proj2 (Z.ltb_lt _ _)) by lia.
    f_equal. f_equal. rewrite Zmod_mod. lia.
Qed.

(** MQTT's variable-length integer: every length a packet may have, up to
    268435455, is read back from what [writeRemainingLength] wrote, and the rest
    of the stream is left in place. *)
Theorem remaining_length_roundtrip v rest (Hv : (0 ≤ v ≤ 268435455)%Z) :
  readRemainingLength (writeRemainingLength v ++ rest) = inr (v, rest).
Proof.
  unfold readRemainingLength, writeRemainingLength. rewrite length_loop_roundtrip; [|lia|].
  - f_equal. f_equal. lia.
  - change (128 ^ Z.of_nat 4)%Z with 268435456%Z. lia.
Qed.

Lemma remaining_length_roundtrip_witness :
  readRemainingLength (writeRemainingLength 2097152 ++ [x01]) = inr (2097152%Z, [x01]).
Proof. apply remaining_length_roundtrip. lia. Defined.

Lemma read_length_bounds n : ∀ mult acc r v rest,
  (0 < mult)%Z → read_length_loop n mult acc r = inr (v, rest) →
  (acc ≤ v ≤ acc + mult * (128 ^ Z.of_nat n - 1))%Z ∧
  ∃ hd, r = hd ++ rest ∧ 1 ≤ length hd ≤ n.
Proof.
  induction n as [|n IH]; intros mult acc r v rest Hm; simpl; [done|].
  destruct r as [|b r]; [done|]. rewrite land_127. pose proof (byteZ_range b).
  pose proof (Z.mod_pos_bound (byteZ b) 128).
  rewrite Nat2Z.inj_succ, Z.pow_succ_r by lia.
  assert (0 < 128 ^ Z.of_nat n)%Z by (apply Z.pow_pos_nonneg; lia).
  case_bool_decide.
  - intros [= <- <-]. split; [nia|]. exists [b]. simpl. split; [done|lia].
  - intros (Hb & hd & -> & Hl)%IH; [|lia]. split; [nia|]. exists (b :: hd). simpl. split; [done|lia].
Qed.

Lemma remaining_length_fits r v rest :
  readRemainingLength r = inr (v, rest) →
  (0 ≤ v ≤ 268435455)%Z ∧ ∃ hd, r = hd ++ rest ∧ 1 ≤ length hd ≤ 4.
Proof.
  intros [Hv Hhd]%read_length_bounds; [|lia]. split; [|done].
  change (128 ^ Z.of_nat 4)%Z with 268435456%Z in Hv. lia.
Qed.

(** Whatever bytes arrive, [readRemainingLength] consumes at most four of
    them and a length it accepts fits in 28 bits: nothing overflows. *)
Theorem remaining_length_bounded r v rest (Hr : readRemainingLength r = inr (v, rest)) :
  (0 ≤ v ≤ 268435455)%Z ∧ ∃ hd, r = hd ++ rest ∧ 1 ≤ length hd ≤ 4.
Proof. by apply remaining_length_fits. Qed.

Lemma remaining_length_bounded_witness :
  (0 ≤ 16383 ≤ 268435455)%Z ∧ ∃ hd, [xff; x7f; x00] = hd ++ [x00] ∧ 1 ≤ length hd ≤ 4.
Proof. apply (remaining_length_bounded [xff; x7f; x00] 16383 [x00]). reflexivity. Defined.

(** A length-prefixed string as a client writes it. *)
Definition mqtt_string (s : string) : bytes :=
  put_be16 (Z.of_nat (String.length s)) ++ bytes_of_string s.

Lemma bytes_of_string_length s : length (bytes_of_string s) = String.length s.
Proof.
  unfold bytes_of_string. rewrite <-(string_of_bytes_of_string s) at 2.
  unfold string_of_bytes, bytes_of_string. induction (String.list_byte_of_string s) as [|b l IH];
    simpl; [done|]. by rewrite IH.
Qed.

(** What [readString] finds: two length bytes and that many bytes of text. *)
Definition string_at (buf : bytes) (offset : nat) : option (string * nat) :=
  match drop offset buf with
  | hi :: lo :: rest =>
      let n := Z.to_nat (be16 hi lo) in
      if (n <=? length rest)%nat
      then Some (string_of_bytes (take n rest), offset + 2 + n) else None
  | _ => None
  end.

(** [readString] never slices out of range. *)
Lemma readString_at {S} buf offset : returns (S:=S) (readString buf offset) (string_at buf offset).
Proof.
  unfold readString, string_at. pose proof (length_drop buf offset) as Hd.
  destruct (Nat.ltb_spec (length buf) (offset + 2)) as [Hs|Hs].
  { destruct (drop offset buf) as [|hi [|lo rest]]; simpl in Hd; [done|done|lia]. }
  eapply returns_bind; [apply returns_slice; lia|].
  replace (offset + 2 - offset) with 2 by lia.
  destruct (drop offset buf) as [|hi [|lo rest]] eqn:Ed; simpl in Hd; [lia|lia|].
  eapply returns_bind; [apply returns_Uint16|]. cbv zeta.
  assert (drop (offset + 2) buf = rest) as Hrest by by rewrite <-drop_drop, Ed.
  destruct (Nat.ltb_spec (length buf) (offset + 2 + Z.to_nat (be16 hi lo))) as [Hl|Hl].
  - by rewrite (proj2 (Nat.leb_gt _ _)) by lia.
  - rewrite (proj2 (Nat.leb_le _ _)) by lia.
    eapply returns_bind; [apply returns_slice; lia|]. rewrite Hrest.
    replace (offset + 2 + Z.to_nat (be16 hi lo) - (offset + 2)) with (Z.to_nat (be16 hi lo)) by lia.
    apply returns_ret.
Qed.

Lemma string_at_app pre s rest :
  (Z.of_nat (String.length s) < 65536)%Z →
  string_at (pre ++ mqtt_string s ++ rest) (length pre) =
  Some (s, length pre + 2 + String.length s).
Proof.
  intros Hs. unfold string_at, mqtt_string. rewrite drop_app_length. simpl.
  rewrite be16_put, Nat2Z.id by lia.
  rewrite (proj2 (Nat.leb_le _ _)) by (rewrite length_app, bytes_of_string_length; lia).
  rewrite <-bytes_of_string_length, take_app_length. by rewrite string_of_bytes_of_string.
Qed.

(** What a subscriber is sent is a well-formed PUBLISH packet: reading it
    back gives the packet type, a length that covers exactly the body, and from
    the body the message's topic and payload, byte for byte. *)
Theorem publish_packet_decodes msg
    (Ht : (Z.of_nat (String.length (Message.Topic msg)) < 65536)%Z)
    (Hp : (Z.of_nat (length (Payload msg)) < 268000000)%Z) :
  ∃ header tail body,
    publish_packet msg = header :: tail ∧ Z.shiftr (byteZ header) 4 = PacketPublish ∧
    readRemainingLength tail = inr (Z.of_nat (length body), body) ∧
    ∃ offset, returns (S:=unit) (readString body 0) (Some (Message.Topic msg, offset)) ∧
      drop offset body = Payload msg.
Proof.
  set (topic := Message.Topic msg) in *.
  eexists (packet_byte PacketPublish), _, (mqtt_string topic ++ Payload msg).
  assert (length (mqtt_string topic) = 2 + String.length topic) as Hl.
  { unfold mqtt_string. rewrite length_app, bytes_of_string_length. done. }
  split_and!; [|reflexivity|..].
  - unfold publish_packet. fold topic. rewrite bytes_of_string_length. fold (mqtt_string topic).
    reflexivity.
  - rewrite length_app, Hl in *. unfold readRemainingLength, writeRemainingLength.
    rewrite length_loop_roundtrip; [|lia|].
    + f_equal. f_equal. lia.
    + change (128 ^ Z.of_nat 4)%Z with 268435456%Z. lia.
  - exists (2 + String.length topic). split.
    + assert (string_at (mqtt_string topic ++ Payload msg) 0 = Some (topic, 2 + String.length topic))
        as <- by exact (string_at_app [] topic (Payload msg) Ht). apply readString_at.
    + by rewrite <-Hl, drop_app_length.
Qed.

Lemma publish_packet_decodes_witness :
  ∃ header tail body,
    publish_packet demo_msg = header :: tail ∧ Z.shiftr (byteZ header) 4 = PacketPublish ∧
    readRemainingLength tail = inr (Z.of_nat (length body), body) ∧
    ∃ offset, returns (S:=unit) (readString body 0) (Some (Message.Topic demo_msg, offset)) ∧
      drop offset body = Payload demo_msg.
Proof. apply publish_packet_decodes; simpl; lia. Defined.

(** ** Sessions *)

Lemma string_at_advance buf offset s offset' :
  string_at buf offset = Some (s, offset') → offset + 2 ≤ offset' ≤ length buf.
Proof.
  unfold string_at. intros Hr.
  destruct (drop offset buf) as [|hi [|lo rest]] eqn:Ed; [done..|]. cbv zeta in Hr.
  destruct (Nat.leb_spec (Z.to_nat (be16 hi lo)) (length rest)); [|done].
  injection Hr as _ <-. apply (f_equal length) in Ed. rewrite length_drop in Ed. simpl in Ed. lia.
Qed.

Section sessions.
Context `{R : Runtime} {St : Type} `{Storage St} `{!StorageSafe St}.
Context (HR : RuntimeLaws R).
Variable broken : nat → bool.
Implicit Types c : Client St.

(** The broker is consistent and nobody holds the connection's mutex. *)
Definition idle c : Prop := wf (world c) ∧ mu c = false.

Lemma idle_call {A} (op : M (World St) A) (Q : A → World St → Prop) :
  (∀ w, wf w → step op w Q) → stable idle (call op).
Proof.
  intros Hop. apply stable_zoom. intros c [Hc Hm].
  eapply wpx_mono; [by apply Hop| |done]. by intros a w (? & _).
Qed.

Lemma idle_modify f :
  (∀ c, world (f c) = world c ∧ mu (f c) = mu c) → stable idle (modify f).
Proof. intros Hf. apply stable_modify. intros c [Hc Hm]. destruct (Hf c) as [E1 E2]. split; congruence. Qed.

Lemma idle_write data : stable idle (write broken data).
Proof.
  intros c [Hc Hm]. apply wpx_bind, wpx_mutex_lock; [done|]. apply wpx_bind.
  eapply wpx_mono with (Q := λ _ c', wf (world c') ∧ mu c' = true) (E := λ _, True); [|..|done].
  - apply wpx_bind, wpx_get. case_match; by apply wpx_bind, wpx_modify, wpx_ret.
  - intros err c' [Hc' Hm']. apply wpx_bind, wpx_mutex_unlock; [done|]. by apply wpx_ret.
Qed.

#[local] Hint Resolve idle_write : tmq.
#[local] Hint Extern 0 (stable idle (modify _)) => by apply idle_modify : tmq.

Lemma idle_RemoveSpy topic ch : stable idle (call (St:=St) (RemoveSpy topic ch)).
Proof. eapply idle_call. intros w. by apply step_RemoveSpy. Qed.

Lemma idle_AddSpy topic : stable idle (call (St:=St) (AddSpy topic)).
Proof. eapply idle_call. intros w. by apply step_AddSpy. Qed.

Lemma idle_Publish now topic payload :
  stable idle (call (Publish now topic payload ∅ "normal" None None false)).
Proof. eapply idle_call. intros w. by apply step_publishCore. Qed.

Lemma idle_try_recv ch : stable idle (call (St:=St) (try_recv ch)).
Proof. eapply idle_call. intros w. by apply step_try_recv. Qed.

#[local] Hint Resolve idle_RemoveSpy idle_AddSpy idle_Publish idle_try_recv : tmq.

(** Reading a string, then going on with what was found. *)
Lemma idle_readString {A} payload offset (k : option (string * nat) → M (Client St) A) :
  stable idle (k (string_at payload offset)) → stable idle (readString payload offset ≫= k).
Proof. apply stable_returns, readString_at. Qed.

Lemma idle_index {A} payload i (k : byte → M (Client St) A) :
  i < length payload → (∀ b, stable idle (k b)) → stable idle (go_index payload i ≫= k).
Proof.
  intros [b Hb]%lookup_lt_is_Some Hk. eapply stable_returns; [by apply returns_index|]. apply Hk.
Qed.

Lemma idle_optional_string present payload offset : stable idle (optional_string (St:=St) present payload offset).
Proof.
  unfold optional_string. destruct present; [|auto with tmq]. intros c Hc.
  unfold wpx. by rewrite readString_at.
Qed.

Lemma read_packet_id_at payload offset :
  returns (read_packet_id (St:=St) payload offset)
    (match drop offset payload with hi :: lo :: _ => Some (be16 hi lo) | _ => None end).
Proof.
  unfold read_packet_id. pose proof (length_drop payload offset) as Hd.
  destruct (Nat.ltb_spec (length payload) (offset + 2)) as [Hs|Hs].
  { destruct (drop offset payload) as [|hi [|lo rest]]; simpl in Hd; [done|done|lia]. }
  eapply returns_bind; [apply returns_slice; lia|].
  replace (offset + 2 - offset) with 2 by lia.
  by destruct (drop offset payload) as [|hi [|lo rest]]; simpl in Hd; [lia|lia|].
Qed.

#[local] Hint Resolve idle_optional_string : tmq.

Lemma idle_handleConnect payload : stable idle (handleConnect broken payload).
Proof.
  unfold handleConnect. case_match; [auto with tmq|]. apply idle_readString.
  destruct (string_at payload 0) as [[name offset]|]; [|auto with tmq].
  case_match; [auto with tmq|].
  destruct (Nat.ltb_spec (length payload) (offset + 4)); [auto with tmq|].
  apply idle_index; [lia|intros level]. case_match; [stable_steps|].
  apply idle_index; [lia|intros flags]. apply idle_readString. cbv zeta. stable_steps.
Qed.

Lemma idle_handlePublish now flags payload : stable idle (handlePublish broken now flags payload).
Proof.
  unfold handlePublish. apply idle_readString.
  destruct (string_at payload 0) as [[topic offset]|] eqn:Es; [|auto with tmq].
  apply string_at_advance in Es. cbv zeta.
  destruct (0 <? qos_of flags)%Z.
  - eapply stable_returns; [apply read_packet_id_at|].
    pose proof (length_drop payload offset) as Hd.
    destruct (drop offset payload) as [|hi [|lo rest]]; [auto with tmq..|]. simpl in Hd.
    case_match; [auto with tmq|]. eapply stable_returns; [apply returns_slice; lia|]. stable_steps.
  - eapply stable_returns; [apply returns_ret|]. cbv beta iota.
    case_match; [auto with tmq|]. eapply stable_returns; [apply returns_slice; lia|]. stable_steps.
Qed.

Lemma idle_subscribe_one topic : stable idle (subscribe_one topic).
Proof. unfold subscribe_one. stable_steps. Qed.

Lemma idle_subscribe_loop fuel payload : ∀ offset granted,
  length payload - offset ≤ fuel → stable idle (subscribe_loop fuel payload offset granted).
Proof.
  induction fuel as [|fuel IH]; intros offset granted Hf; simpl;
    (destruct (Nat.leb_spec (length payload) offset); [apply stable_ret|]); [lia|].
  apply idle_readString.
  destruct (string_at payload offset) as [[topic offset']|] eqn:Er; [|apply stable_ret].
  apply string_at_advance in Er. destruct (Nat.leb_spec (length payload) offset'); [apply stable_ret|].
  apply idle_index; [lia|intros _].
  apply stable_bind; [apply idle_subscribe_one|]. intros code. apply IH. lia.
Qed.

Lemma idle_unsubscribe_loop fuel payload : ∀ offset,
  length payload - offset ≤ fuel → stable idle (unsubscribe_loop fuel payload offset).
Proof.
  induction fuel as [|fuel IH]; intros offset Hf; simpl;
    (destruct (Nat.leb_spec (length payload) offset); [apply stable_ret|]); [lia|].
  apply idle_readString.
  destruct (string_at payload offset) as [[topic offset']|] eqn:Er; [|apply stable_ret].
  apply string_at_advance in Er.
  apply stable_bind; [unfold unsubscribe_one; stable_steps|]. intros _. apply IH. lia.
Qed.

Lemma idle_handleUnsubscribe payload : stable idle (handleUnsubscribe broken payload).
Proof.
  unfold handleUnsubscribe. destruct (Nat.ltb_spec (length payload) 2); [auto with tmq|].
  eapply stable_returns; [apply returns_slice; lia|].
  apply stable_bind; [apply idle_unsubscribe_loop; lia|intros _].
  do 2 (apply idle_index; [rewrite length_take, length_drop; lia|intros ?]). auto with tmq.
Qed.

Lemma idle_processPacket now pType flags payload :
  stable idle (processPacket broken now pType flags payload).
Proof.
  unfold processPacket. apply stable_bind; [apply stable_get|]. intros c.
  repeat case_match; auto using idle_handleConnect, idle_handlePublish, idle_handleUnsubscribe with tmq.
  unfold handleSubscribe. eapply stable_returns; [apply read_packet_id_at|].
  destruct (drop 0 payload) as [|hi [|lo rest]]; [auto with tmq..|].
  apply stable_bind; [apply idle_subscribe_loop; lia|intros r]. stable_steps.
Qed.

(** A round of the loop consumes at least two bytes. *)
Lemma serve_packet_sound now input c :
  idle c → wps (serve_packet broken now input) (λ r c', idle c' ∧
    ∀ rest, r = Some rest → length rest < length input) c.
Proof.
  intros Hc. unfold serve_packet. destruct input as [|header input]; [by apply wpx_ret|].
  cbv zeta. destruct (readRemainingLength input) as [e|[v rest]] eqn:Er; [by apply wpx_ret|].
  apply remaining_length_fits in Er as [Hv (hd & -> & Hhd)].
  case_match; [by apply wpx_ret|].
  eapply wpx_returns; [apply returns_make; unfold maxAlloc; lia|]. case_match; [by apply wpx_ret|].
  apply wpx_bind. eapply wpx_mono; [by apply idle_processPacket| |done].
  intros err c' Hc'. destruct err; apply wpx_ret; (split; [done|]); [done|].
  intros rest' [= <-]. rewrite length_drop. simpl. rewrite length_app. lia.
Qed.

Lemma idle_serve now fuel : ∀ input, length input < fuel → stable idle (serve broken fuel now input).
Proof.
  induction fuel as [|fuel IH]; intros input Hf c Hc; [lia|]. simpl. apply wpx_bind.
  eapply wpx_mono; [by apply serve_packet_sound| |done]. intros r c' [Hc' Hr].
  destruct r as [rest|]; [|by apply wpx_ret]. apply IH; [|done]. specialize (Hr rest eq_refl). lia.
Qed.

Lemma idle_remove_spies : stable idle remove_spies.
Proof.
  unfold remove_spies. apply stable_bind; [apply stable_get|]. intros c.
  apply stable_forM_. intros [topic ch]. apply idle_RemoveSpy.
Qed.

Lemma idle_forward topic ch : stable idle (forward broken topic ch).
Proof. unfold forward. stable_steps. Qed.

(** [C18] No byte stream a client sends can crash the server: [handleClient] reads
    it to the end or drops the connection, without an index or a slice out of
    range, an oversized allocation, an endless loop or a blocked mutex (the
    broker's or the connection's own), and leaves the broker consistent and the
    connection's mutex free; so does every round of the goroutine that forwards
    a subscription's messages. *)
Theorem mqtt_session_safe now input topic ch c (Hwf : wf (world c)) (Hmu : mu c = false) :
  wpx (handleClient broken now input) (λ _ c', wf (world c') ∧ mu c' = false) (λ _, True) c ∧
  wpx (forward broken topic ch) (λ _ c', wf (world c') ∧ mu c' = false) (λ _, True) c.
Proof.
  split; [|by apply idle_forward]. assert (idle c) as Hc by done. revert c Hc Hwf Hmu.
  enough (stable idle (handleClient broken now input)) as Hs by (intros; by apply Hs).
  apply stable_bind; [apply idle_serve; lia|]. intros _. apply idle_remove_spies.
Qed.

End sessions.

(** A CONNECT, a SUBSCRIBE whose last filter has no QoS byte, as one stream. *)
Definition demo_mqtt_input : bytes :=
  [x10; x0d] ++ mqtt_string "MQTT" ++ [x04; x00; x00; x00] ++ mqtt_string "a" ++
  [x82; x05; x00; x01] ++ mqtt_string "t".

Lemma mqtt_session_safe_witness :
  wpx (handleClient (λ _, false) 5 demo_mqtt_input) (λ _ c', wf (world c') ∧ mu c' = false)
    (λ _, True) (new_client demo_empty) ∧
  wpx (forward (λ _, false) "t" 0) (λ _ c', wf (world c') ∧ mu c' = false)
    (λ _, True) (new_client demo_empty).
Proof. apply (mqtt_session_safe demo_runtime_laws); [apply demo_empty_wf|done]. Defined.

(** ** Authentication *)

(** [l] occurs in [b]. *)
Definition infix (l b : bytes) : Prop := ∃ pre post, b = pre ++ l ++ post.

Lemma infix_take l b n : infix l (take n b) → infix l b.
Proof.
  intros (pre & post & Hb). exists pre, (post ++ drop n b).
  rewrite <-(take_drop n b) at 1. by rewrite Hb, <-!app_assoc.
Qed.

Lemma infix_app_r l a b : infix l b → infix l (a ++ b).
Proof. intros (pre & post & ->). exists (a ++ pre), post. by rewrite <-!app_assoc. Qed.

Lemma infix_drop l b n : infix l (drop n b) → infix l b.
Proof. intros Hi. rewrite <-(take_drop n b). by apply infix_app_r. Qed.

Lemma string_at_infix buf offset s offset' :
  string_at buf offset = Some (s, offset') → infix (bytes_of_string s) buf.
Proof.
  unfold string_at. intros Hr. apply infix_drop with offset.
  destruct (drop offset buf) as [|hi [|lo rest]]; [done..|]. cbv zeta in Hr. case_match; [|done].
  injection Hr as <- _. rewrite bytes_of_string_of_bytes.
  exists [hi; lo], (drop (Z.to_nat (be16 hi lo)) rest). simpl. by rewrite take_drop.
Qed.

(** A field that is present only when its flag is set, as a value. *)
Definition optional_at (present : bool) (payload : bytes) (offset : nat) : option (string * nat) :=
  if present then string_at payload offset else Some (EmptyString, offset).

Lemma optional_string_at {St} present payload offset :
  returns (optional_string (St:=St) present payload offset) (optional_at present payload offset).
Proof. destruct present; [apply readString_at|apply returns_ret]. Qed.

Lemma optional_at_infix present payload offset s offset' :
  optional_at present payload offset = Some (s, offset') → present = true →
  infix (bytes_of_string s) payload.
Proof. intros Ho ->. by eapply string_at_infix. Qed.

Section authentication.
Context `{R : Runtime} {St : Type} `{Storage St}.
Variable broken : nat → bool.
Variable w0 : World St.

(** The key the server is configured with. *)
Definition api_key : string := getenv "TINYMQ_API_KEY".

(** A client that has not been let in. *)
Definition outside (c : Client St) : Prop :=
  connected c = false ∧ spies_of c = ∅ ∧ world c = w0.

Lemma keeps_get_bind {S B} (I : S → Prop) (k : S → M S B) :
  (∀ s, I s → I (k s s).2) → keeps I (get ≫= k).
Proof. intros Hk s Hs. by apply Hk. Qed.

Lemma outside_write data : keeps outside (write broken data).
Proof.
  assert (∀ b c, outside c → outside (set_mu b c)) as Hmu by done.
  apply keeps_bind; [by apply keeps_mutex_lock|]. intros _.
  apply keeps_bind; [|intros err; apply keeps_bind; [by apply keeps_mutex_unlock|auto with tmq]].
  apply keeps_get_bind. intros c Hc. case_match; by destruct Hc as (? & ? & ?).
Qed.

Lemma outside_index {A} (l : list A) i : keeps outside (go_index l i).
Proof. unfold go_index. case_match; auto with tmq. Qed.

#[local] Hint Resolve outside_write outside_index : tmq.

Lemma unauthorized payload hasU hasP offset username offset1 password offset2 :
  api_key ≠ "" → ¬ infix (bytes_of_string api_key) payload →
  optional_at hasU payload offset = Some (username, offset1) →
  optional_at hasP payload offset1 = Some (password, offset2) →
  authorized hasU hasP username password = false.
Proof.
  intros Hkey Hno Hu Hp. unfold authorized. fold api_key.
  rewrite (proj2 (String.eqb_neq _ _)) by done. simpl. apply orb_false_iff. split.
  - destruct hasP; [|done]. simpl. apply String.eqb_neq. intros ->.
    apply Hno. by eapply optional_at_infix.
  - destruct hasU; [|done]. simpl. apply String.eqb_neq. intros ->.
    apply Hno. by eapply optional_at_infix.
Qed.

Lemma outside_handleConnect payload :
  api_key ≠ "" → ¬ infix (bytes_of_string api_key) payload →
  keeps outside (handleConnect broken payload).
Proof.
  intros Hkey Hno. unfold handleConnect. case_match; [auto with tmq|].
  eapply keeps_returns; [apply readString_at|].
  destruct (string_at payload 0) as [[name offset]|]; [|auto with tmq].
  case_match; [auto with tmq|]. case_match; [auto with tmq|].
  apply keeps_bind; [auto with tmq|intros level]. case_match; [auto with tmq|].
  apply keeps_bind; [auto with tmq|intros flags]. cbv zeta.
  eapply keeps_returns; [apply readString_at|].
  destruct (string_at payload (offset + 4)) as [[id offset1]|]; [|auto with tmq].
  case_match; [auto with tmq|]. eapply keeps_returns; [apply optional_string_at|].
  destruct (optional_at _ payload offset1) as [[username offset2]|] eqn:Eu; [|auto with tmq].
  eapply keeps_returns; [apply optional_string_at|].
  destruct (optional_at _ payload offset2) as [[password offset3]|] eqn:Ep; [|auto with tmq].
  rewrite (unauthorized payload _ _ _ _ _ _ _ Hkey Hno Eu Ep). auto with tmq.
Qed.

Lemma outside_processPacket now pType flags payload :
  api_key ≠ "" → ¬ infix (bytes_of_string api_key) payload →
  keeps outside (processPacket broken now pType flags payload).
Proof.
  intros Hkey Hno. apply keeps_get_bind. intros c Hc. destruct Hc as (Hcon & Hrest) eqn:E.
  rewrite Hcon. destruct (pType =? PacketConnect)%Z; simpl; [|done].
  by apply outside_handleConnect.
Qed.

Lemma outside_serve now fuel : ∀ input,
  api_key ≠ "" → ¬ infix (bytes_of_string api_key) input →
  keeps outside (serve broken fuel now input).
Proof.
  induction fuel as [|fuel IH]; intros input Hkey Hno; simpl; [auto with tmq|].
  destruct input as [|header input]; [by intros c Hc|]. cbn [serve_packet]. cbv zeta.
  destruct (readRemainingLength input) as [e|[v rest]] eqn:Er; [by intros c Hc|].
  apply remaining_length_fits in Er as [Hv (hd & -> & _)].
  assert (¬ infix (bytes_of_string api_key) rest) as Hno'.
  { intros Hi. apply Hno. by apply (infix_app_r _ [header]), infix_app_r. }
  case_match; [by intros c Hc|]. intros c Hc.
  assert (∀ (k : unit → M (Client St) (option bytes)) c', (make_bytes v ≫= k) c' = k () c') as Hmake.
  { intros k c'. apply run_bind, returns_make. unfold maxAlloc. lia. }
  unfold mbind at 1, M_bind at 1. rewrite Hmake.
  destruct (length rest <? Z.to_nat v)%nat; [done|].
  assert (outside (processPacket broken now (Z.shiftr (byteZ header) 4) (Z.land (byteZ header) 15)
    (take (Z.to_nat v) rest) c).2) as Hp.
  { apply outside_processPacket; [done| |done]. intros Hi. apply Hno'. by eapply infix_take. }
  unfold mbind, M_bind. destruct (processPacket _ _ _ _ _ c) as [[[e|]|?| |] c']; try done.
  apply IH; [done| |done]. intros Hi. apply Hno'. by eapply infix_drop.
Qed.

(** With an API key configured, a client whose bytes never contain the key
    gets nowhere: it is never marked connected, and when its session is over the
    broker is exactly as it was before, whatever packets it sent. *)
Theorem mqtt_requires_key (HR : RuntimeLaws R) now input c
    (Hkey : api_key ≠ "") (Hno : ¬ infix (bytes_of_string api_key) input)
    (Hc : outside c) :
  outside (handleClient broken now input c).2.
Proof.
  revert c Hc. apply keeps_bind; [by apply outside_serve|]. intros [].
  apply keeps_get_bind. intros c (Hcon & Hspies & Hw). rewrite Hspies, map_to_list_empty.
  pose proof (map_range_perm (A:=string * nat) []) as Hp. symmetry in Hp.
  apply Permutation_nil in Hp. rewrite Hp. done.
Qed.

End authentication.

(** A runtime where the key is [secret]. *)
Definition keyed_runtime : Runtime :=
  env_runtime (λ name, if String.eqb name "TINYMQ_API_KEY" then "secret" else "").

Lemma keyed_runtime_laws : RuntimeLaws keyed_runtime.
Proof. apply env_runtime_laws. Qed.

Lemma infix_length l b : infix l b → length l ≤ length b.
Proof. intros (pre & post & ->). rewrite !length_app. lia. Qed.

Lemma mqtt_requires_key_witness :
  outside demo_empty (handleClient (R:=keyed_runtime) (λ _, false) 5 [x30; x03; x00; x01; x74]
    (new_client demo_empty)).2.
Proof.
  apply (mqtt_requires_key (R:=keyed_runtime) (λ _, false) demo_empty keyed_runtime_laws).
  - done.
  - intros Hi%infix_length. vm_compute in Hi. lia.
  - done.
Defined.

(** ** Publishing over MQTT *)

Lemma put_be16_be16 hi lo : put_be16 (be16 hi lo) = [hi; lo].
Proof.
  unfold put_be16. pose proof (byteZ_range hi). pose proof (byteZ_range lo).
  rewrite be16_alt. f_equal; [|f_equal]; apply byteZ_inj; rewrite byteZ_Zbyte.
  - rewrite Z.shiftr_div_pow2 by lia. change (2 ^ 8)%Z with 256%Z.
    rewrite Z.div_add_l, (Z.div_small (byteZ lo)) by lia. rewrite Z.mod_small; lia.
  - rewrite Z.add_comm, Z_mod_plus_full, Z.mod_small; lia.
Qed.

(** A QoS 1 PUBLISH reaches the broker and is acknowledged: the message,
    with the packet's topic and payload, is appended to the topic's queue, and
    the client is sent a PUBACK with the identifier of its packet. *)
Theorem mqtt_publish_acked `{R : Runtime} {St : Type} `{Storage St} `{!StorageSafe St}
    (HR : RuntimeLaws R) broken now flags topic hi lo body x (c : Client St)
    (Hcon : connected c = true) (Hmu : mu c = false) (Hq : qos_of flags = 1%Z)
    (Hw : broken (writes c) = false)
    (Hcp : can_publish (world c) topic x)
    (Hleaf : strings.Contains topic "::" = true ∨ bindings (world c) !! topic = None) :
  wpx (processPacket broken now PacketPublish flags (mqtt_string topic ++ [hi; lo] ++ body))
    (λ err c', err = None ∧ out c' = out c ++ [[x40; x02; hi; lo]] ∧
       ∃ x', topic_at (world c') topic = Some x' ∧
         published_as now topic body ∅ "normal" None None x x')
    (λ _, True) c.
Proof.
  destruct Hcp as [Hwf Hquiet Hlocal Hname Htg Hroom].
  assert (Z.of_nat (String.length topic) < 65536)%Z as Ht by (destruct Hname; lia).
  assert (length (mqtt_string topic) = 2 + String.length topic) as Hl
    by (unfold mqtt_string; rewrite length_app, bytes_of_string_length; done).
  pose proof (string_at_app [] topic ([hi; lo] ++ body) Ht) as Hread.
  apply wpx_bind, wpx_get. rewrite Hcon. cbn [negb andb Z.eqb PacketPublish PacketConnect Pos.eqb].
  eapply wpx_returns; [apply readString_at|]. cbn [app length] in Hread |- *. rewrite Hread, Hq.
  change (0 + 2 + String.length topic) with (2 + String.length topic). rewrite <-Hl. cbv zeta.
  change (0 <? 1)%Z with true. change (1 =? 2)%Z with false. change (1 =? 1)%Z with true.
  eapply wpx_returns; [apply read_packet_id_at|]. rewrite drop_app_length. cbv beta iota.
  eapply wpx_returns; [apply returns_slice; rewrite length_app; simpl; lia|].
  rewrite (drop_app_add _ _ 2). change (drop 2 (hi :: lo :: body)) with body.
  rewrite (take_ge body) by (rewrite length_app; simpl; lia).
  apply wpx_bind, wpx_zoom. eapply wpx_mono;
    [by apply (step_publish_leaf HR 10 now topic _ _ _ _ _ _ _ x)| |done].
  intros err w' (_ & _ & -> & _ & _ & _ & _ & x' & Hx' & Hm%enqueued_published).
  apply wpx_bind, wpx_mutex_lock; [done|]. apply wpx_bind, wpx_bind, wpx_get. cbn [writes set_world set_mu].
  rewrite Hw. apply wpx_bind, wpx_modify, wpx_ret, wpx_bind, wpx_mutex_unlock; [done|]. apply wpx_ret.
  split_and!; [done| |by exists x'].
  unfold puback. simpl. by rewrite put_be16_be16.
Qed.

Lemma mqtt_publish_acked_witness :
  wpx (processPacket (λ _, false) 5 PacketPublish 2 (mqtt_string "t" ++ [x00; x07] ++ [x68]))
    (λ err c', err = None ∧ out c' = [] ++ [[x40; x02; x00; x07]] ∧
       ∃ x', topic_at (world c') "t" = Some x' ∧
         published_as 5 "t" [x68] ∅ "normal" None None (empty_topic "t" default_policy 0) x')
    (λ _, True) (set_connected true (new_client demo_empty)).
Proof.
  apply (mqtt_publish_acked demo_runtime_laws);
    [done|done|done|done|apply demo_can_publish|by right].
Defined.
