(* ===== verification/Wire.v ===== *)
(** * Text protocols: fields, spaces and numbers

    Lemmas on [strings.Split], [strings.Join], [strings.TrimSpace],
    [strconv]-style numbers and hexadecimal text, shared by the line protocols. *)

From Stdlib Require Import Ascii.
From Stdlib Require Import Strings.Byte.
From S2P Require Import Prelude.
From S2P Require Import GoLib.
From S2P Require Import Base64.
From S2P Require Import Message.

(** ** Split and Join *)

(** [s] holds no byte [c]. *)
Definition lacks (c : ascii) (s : string) : bool :=
  strings.forall_chars (λ x, negb (Ascii.eqb c x)) s.

Lemma Cut_lacks c s : lacks c s = true → strings.Cut s (String c "") = None.
Proof.
  induction s as [|x s IH]; [done|]. cbn. intros [Hx Hs]%andb_true_iff.
  apply negb_true_iff in Hx. rewrite Hx. simpl. by rewrite IH.
Qed.

Lemma Cut_first c a b :
  lacks c a = true → strings.Cut (a +:+ String c b) (String c "") = Some (a, b).
Proof.
  induction a as [|x a IH]; cbn.
  - rewrite Ascii.eqb_refl. by destruct b.
  - intros [Hx Ha]%andb_true_iff. apply negb_true_iff in Hx. rewrite Hx. simpl. by rewrite IH.
Qed.

Lemma Cut_spec s sep a b : strings.Cut s sep = Some (a, b) → s = a +:+ sep +:+ b.
Proof.
  revert a b. induction s as [|x s IH]; intros a b; cbn [strings.Cut].
  - destruct (strings.HasPrefix "" sep) eqn:E; [|done]. intros [= <- <-].
    by apply HasPrefix_split in E.
  - destruct (strings.HasPrefix (String x s) sep) eqn:E.
    + intros [= <- <-]. by apply HasPrefix_split in E.
    + destruct (strings.Cut s sep) as [[a' b']|] eqn:Ec; [|done]. intros [= <- <-].
      simpl. by rewrite (IH a' b').
Qed.

Lemma SplitN_cons s sep n : ∃ x l, strings.SplitN s sep (S n) = x :: l.
Proof. destruct n; cbn; [eauto|]. destruct (strings.Cut s sep) as [[? ?]|]; eauto. Qed.

Lemma Join_cons x y l sep : strings.Join (x :: y :: l) sep = x +:+ sep +:+ strings.Join (y :: l) sep.
Proof. done. Qed.

Lemma Join_SplitN s sep n : strings.Join (strings.SplitN s sep (S n)) sep = s.
Proof.
  revert s. induction n as [|n IH]; intros s; [done|].
  change (strings.SplitN s sep (S (S n))) with
    (match strings.Cut s sep with Some (a, b) => a :: strings.SplitN b sep (S n) | None => [s] end).
  destruct (strings.Cut s sep) as [[a b]|] eqn:E; [|done].
  destruct (SplitN_cons b sep n) as (x & l & El). rewrite El, Join_cons, <-El, IH.
  symmetry. by apply Cut_spec.
Qed.

(** Joining the fields gives the text back. *)
Lemma Join_Split s sep : strings.Join (strings.Split s sep) sep = s.
Proof. apply Join_SplitN. Qed.

Lemma SplitN_Join c x l n :
  Forall (λ s, lacks c s = true) (x :: l) → length l ≤ n →
  strings.SplitN (strings.Join (x :: l) (String c "")) (String c "") (S n) = x :: l.
Proof.
  revert x n. induction l as [|y l IH]; intros x n Hall Hn;
    apply Forall_cons in Hall as [Hx Hl].
  - destruct n; cbn; [done|]. by rewrite Cut_lacks.
  - destruct n as [|n]; [simpl in Hn; lia|].
    change (strings.SplitN ?s ?sep (S (S n))) with
      (match strings.Cut s sep with Some (a, b) => a :: strings.SplitN b sep (S n) | None => [s] end).
    rewrite Join_cons. change (String c "" +:+ ?r) with (String c r).
    rewrite Cut_first by done. f_equal. apply IH; [done|simpl in Hn; lia].
Qed.

Lemma Join_length x l c : length l ≤ String.length (strings.Join (x :: l) (String c "")).
Proof.
  revert x. induction l as [|y l IH]; intros x; [simpl; lia|].
  rewrite Join_cons, !str_length_app. specialize (IH y).
  change (String.length (String c "")) with 1. cbn [length]. lia.
Qed.

(** Splitting joined fields that hold no separator gives them back. *)
Lemma Split_Join c x l :
  Forall (λ s, lacks c s = true) (x :: l) →
  strings.Split (strings.Join (x :: l) (String c "")) (String c "") = x :: l.
Proof. intros. apply SplitN_Join; [done|apply Join_length]. Qed.

Lemma Join_snoc x l y sep :
  strings.Join ((x :: l) ++ [y]) sep = strings.Join (x :: l) sep +:+ sep +:+ y.
Proof.
  revert x. induction l as [|z l IH]; intros x; [done|].
  change (((x :: z :: l) ++ [y])) with (x :: z :: l ++ [y]).
  rewrite !Join_cons, !str_app_assoc. f_equal. f_equal. apply IH.
Qed.

(** ** TrimSpace *)

Fixpoint last_char (s : string) : option ascii :=
  match s with
  | EmptyString => None
  | String c EmptyString => Some c
  | String _ s' => last_char s'
  end.

Lemma last_char_app a b : b ≠ "" → last_char (a +:+ b) = last_char b.
Proof.
  intros Hb. induction a as [|x a IH]; [done|].
  cbn. rewrite <-IH. destruct a; [by destruct b|done].
Qed.

(** No space starts, or ends, with the byte [c]. *)
Definition plain_start (c : ascii) : bool :=
  forallb (λ p, match p with String x _ => negb (Ascii.eqb x c) | EmptyString => false end)
    strings.spaces.
Definition plain_end (c : ascii) : bool :=
  forallb (λ p, match last_char p with Some x => negb (Ascii.eqb x c) | None => false end)
    strings.spaces.

Lemma find_None {A} (f : A → bool) l : (∀ x, In x l → f x = false) → List.find f l = None.
Proof.
  intros H. destruct (List.find f l) as [x|] eqn:E; [|done].
  apply List.find_some in E as [Hx Hf]. by rewrite H in Hf.
Qed.

Lemma trim_left_plain c s n : plain_start c = true → strings.trim_left n (String c s) = String c s.
Proof.
  intros Hc. destruct n; [done|]. cbn [strings.trim_left]. rewrite find_None; [done|].
  intros p Hp. unfold plain_start in Hc. rewrite forallb_forall in Hc. specialize (Hc p Hp).
  destruct p as [|x p]; [done|]. apply negb_true_iff in Hc. cbn. by rewrite Hc.
Qed.

Lemma HasSuffix_last s p : p ≠ "" → strings.HasSuffix s p = true → last_char s = last_char p.
Proof. intros Hp Hs%HasSuffix_split. rewrite Hs. by apply last_char_app. Qed.

Lemma trim_right_plain c s n :
  last_char s = Some c → plain_end c = true → strings.trim_right n s = s.
Proof.
  intros Hs Hc. destruct n; [done|]. cbn [strings.trim_right]. rewrite find_None; [done|].
  intros p Hp. unfold plain_end in Hc. rewrite forallb_forall in Hc. specialize (Hc p Hp).
  destruct (strings.HasSuffix s p) eqn:E; [|done].
  apply HasSuffix_last in E; [|by intros ->]. rewrite <-E, Hs in Hc.
  by rewrite Ascii.eqb_refl in Hc.
Qed.

(** A line break is cut off. *)
Lemma trim_right_newline c s n :
  last_char s = Some c → plain_end c = true → strings.trim_right (S n) (s +:+ String newline "") = s.
Proof.
  intros Hs Hc. cbn [strings.trim_right].
  assert (List.find (strings.HasSuffix (s +:+ String newline "")) strings.spaces = Some (String newline ""))
    as ->.
  { destruct (List.find _ _) as [p|] eqn:E.
    - apply List.find_some in E as [Hp Hf]. apply HasSuffix_last in Hf.
      + rewrite last_char_app in Hf by done. cbn in Hf. f_equal.
        assert (forallb (λ p, match last_char p with
          | Some x => negb (Ascii.eqb x newline) || String.eqb p (String newline "")
          | None => false end) strings.spaces = true) as Hall by (vm_compute; reflexivity).
        rewrite forallb_forall in Hall. specialize (Hall p Hp). rewrite <-Hf in Hall.
        by apply String.eqb_eq in Hall.
      + intros ->. vm_compute in Hp. naive_solver.
    - pose proof (List.find_none _ _ E (String newline "")) as Hf.
      rewrite HasSuffix_app in Hf. discriminate Hf. vm_compute. auto. }
  rewrite str_length_app. cbn [String.length].
  replace (String.length s + 1 - 1) with (String.length s) by lia. rewrite str_take_app.
  by eapply trim_right_plain.
Qed.

(** A line that starts and ends with a printing character. *)
Lemma TrimSpace_line a s c :
  plain_start a = true → last_char (String a s) = Some c → plain_end c = true →
  strings.TrimSpace (String a s +:+ String newline "") = String a s.
Proof.
  intros Ha Hl Hc. unfold strings.TrimSpace.
  change (String a s +:+ String newline "") with (String a (s +:+ String newline "")).
  rewrite trim_left_plain by done. cbn [String.length].
  change (String a (s +:+ String newline "")) with (String a s +:+ String newline "").
  by eapply trim_right_newline.
Qed.

(** A trimmed text does not start with a blank. *)
Lemma spaces_nonempty p : In p strings.spaces → 0 < String.length p.
Proof.
  assert (forallb (λ p, 0 <? String.length p) strings.spaces = true) as Hall by (vm_compute; reflexivity).
  rewrite forallb_forall in Hall. intros Hp%Hall. by apply Nat.ltb_lt.
Qed.

Lemma trim_left_unspaced n s :
  String.length s ≤ n → strings.HasPrefix (strings.trim_left n s) " " = false.
Proof.
  revert s. induction n as [|n IH]; intros s Hn; [destruct s; [done|simpl in Hn; lia]|].
  cbn [strings.trim_left]. destruct (List.find _ _) as [p|] eqn:E.
  - apply List.find_some in E as [Hp%spaces_nonempty Hpre%HasPrefix_split]. apply IH.
    rewrite Hpre, str_length_app in Hn. lia.
  - apply (List.find_none _ _ E). vm_compute. tauto.
Qed.

Lemma trim_right_unspaced n s :
  strings.HasPrefix s " " = false → strings.HasPrefix (strings.trim_right n s) " " = false.
Proof.
  revert s. induction n as [|n IH]; intros s Hs; [done|]. cbn [strings.trim_right].
  destruct (List.find _ _) as [p|]; [|done]. apply IH.
  destruct s as [|c s]; [by destruct (_ - _)|]. destruct (_ - _) as [|k]; [done|].
  revert Hs. cbn [strings.take strings.HasPrefix]. destruct (Ascii.eqb " " c); [|done].
  by destruct s.
Qed.

Lemma TrimSpace_unspaced s : strings.HasPrefix (strings.TrimSpace s) " " = false.
Proof. by apply trim_right_unspaced, trim_left_unspaced. Qed.

(** A text without the separator is one field, and one with it at least two. *)
Lemma Split_one c s : strings.Contains s (String c "") = false → strings.Split s (String c "") = [s].
Proof.
  rewrite Contains_char. intros Hc%negb_false_iff. unfold strings.Split. cbn [strings.SplitN].
  destruct (String.length s); [done|]. by rewrite Cut_lacks.
Qed.

Lemma Cut_contains s sep : strings.Contains s sep = true → is_Some (strings.Cut s sep).
Proof.
  induction s as [|x s IH]; cbn [strings.Contains strings.Cut]; (destruct (strings.HasPrefix _ _); [by eexists|]); [done|].
  intros Hs. destruct (IH Hs) as [[a b] ->]. by eexists.
Qed.

Lemma Split_more c s :
  strings.Contains s (String c "") = true → strings.HasPrefix s (String c "") = false →
  ∃ x y l, strings.Split s (String c "") = x :: y :: l ∧ x ≠ "".
Proof.
  intros Hc Hp. destruct (Cut_contains _ _ Hc) as [[a b] Hab]. unfold strings.Split.
  destruct s as [|x s]; [done|]. cbn [String.length].
  change (strings.SplitN (String x s) ?sep (S (S ?n))) with
    (match strings.Cut (String x s) sep with Some (a, b) => a :: strings.SplitN b sep (S n) | None => [String x s] end).
  rewrite Hab. destruct (SplitN_cons b (String c "") (String.length s)) as (y & l & ->).
  exists a, y, l. split; [done|]. intros ->. apply Cut_spec in Hab. rewrite Hab in Hp.
  cbn in Hp. by rewrite Ascii.eqb_refl in Hp; destruct b.
Qed.

(** ** Numbers *)

Lemma is_nat_digit x : (x < 10)%N → Ascii.is_nat (pretty_N_char x) = Some (N.to_nat x).
Proof.
  intros Hx. assert (x = 0 ∨ x = 1 ∨ x = 2 ∨ x = 3 ∨ x = 4 ∨ x = 5 ∨ x = 6 ∨ x = 7 ∨ x = 8 ∨ x = 9)%N
    as Hc by lia. naive_solver.
Qed.

Lemma digits_pretty_go x s : digits 0 (pretty_N_go x s) = digits (Z.of_N x) s.
Proof.
  revert s. induction (N.lt_wf_0 x) as [x _ IH]; intros s.
  destruct (decide (x = 0)%N) as [->|Hx]; [by rewrite pretty_N_go_0|].
  rewrite pretty_N_go_step by lia. rewrite IH by (apply N.div_lt; lia).
  cbn [digits]. rewrite is_nat_digit by (apply N.mod_lt; lia). f_equal.
  rewrite N2Z.inj_div. pose proof (N.mod_lt x 10). rewrite N_nat_Z, N2Z.inj_mod.
  pose proof (Z.div_mod (Z.of_N x) 10). lia.
Qed.

Lemma digits_pretty (x : N) : digits 0 (pretty x) = Some (Z.of_N x).
Proof.
  unfold pretty, pretty_N. case_decide as Hx; [by rewrite Hx|]. by rewrite digits_pretty_go.
Qed.

Lemma digit_prefix_digits acc s z : digits acc s = Some z → digit_prefix s = s.
Proof.
  revert acc. induction s as [|c s IH]; intros acc; [done|]. cbn.
  destruct (Ascii.is_nat c); [|done]. intros H. by rewrite (IH _ H).
Qed.

(** A digit is a printing character, and no sign. *)
Lemma digit_plain c d :
  Ascii.is_nat c = Some d →
  plain_start c = true ∧ plain_end c = true ∧ Ascii.eqb " " c = false ∧ c ≠ "-"%char ∧ c ≠ "+"%char.
Proof.
  assert (forallb (λ n, let c := ascii_of_nat n in
    match Ascii.is_nat c with
    | Some _ => plain_start c && plain_end c && negb (Ascii.eqb " " c) && negb (Ascii.eqb c "-") &&
        negb (Ascii.eqb c "+")
    | None => true
    end) (seq 0 256) = true) as Hall by (vm_compute; reflexivity).
  rewrite forallb_forall in Hall. specialize (Hall (nat_of_ascii c)).
  cbv beta zeta in Hall. rewrite ascii_nat_embedding in Hall. intros Hd. rewrite Hd in Hall.
  rewrite !andb_true_iff, !negb_true_iff, !Ascii.eqb_neq in Hall.
  assert (In (nat_of_ascii c) (seq 0 256)) as Hin
    by (apply in_seq; pose proof (nat_ascii_bounded c); lia).
  rewrite Ascii.eqb_neq. specialize (Hall Hin). tauto.
Qed.

Lemma pretty_go_empty x s : pretty_N_go x s = "" → x = 0%N ∧ s = "".
Proof.
  revert s. induction (N.lt_wf_0 x) as [y _ IH]; intros s.
  destruct (decide (y = 0)%N) as [->|]; [done|].
  rewrite pretty_N_go_step by lia. intros H. apply IH in H as [_ ?]; [done|].
  apply N.div_lt; lia.
Qed.

Lemma pretty_first (x : N) : ∃ c d s, pretty x = String c s ∧ Ascii.is_nat c = Some d.
Proof.
  pose proof (digits_pretty x) as Hd. destruct (pretty x) as [|c s] eqn:E.
  - exfalso. unfold pretty, pretty_N in E. case_decide as Hx; [done|].
    by apply pretty_go_empty in E as [? _].
  - cbn in Hd. destruct (Ascii.is_nat c) as [d|] eqn:Ec; [|done]. eauto 10.
Qed.

Lemma take_sign_digit c d s : Ascii.is_nat c = Some d → take_sign (String c s) = ("", String c s).
Proof.
  intros Hc. destruct (digit_plain c d Hc) as (_ & _ & _ & H1%Ascii.eqb_neq & H2%Ascii.eqb_neq).
  cbn. by rewrite H1, H2.
Qed.

Lemma Atoi_nat (x : N) : (Z.of_N x ≤ max_int)%Z → Atoi (pretty x) = Some (Z.of_N x).
Proof.
  intros Hx. destruct (pretty_first x) as (c & d & s & E & Hc).
  pose proof (digits_pretty x) as Hd. rewrite E in *. unfold Atoi.
  rewrite (take_sign_digit c d s Hc), Hd. unfold in_int_range, min_int. cbn [String.eqb].
  rewrite Z.mul_1_l, (proj2 (Z.leb_le _ _)), (proj2 (Z.leb_le _ _)) by lia. done.
Qed.

Lemma Sscanf_nat (x : N) : (Z.of_N x ≤ max_int)%Z → Sscanf_d (pretty x) = Z.of_N x.
Proof.
  intros Hx. unfold Sscanf_d. destruct (pretty_first x) as (c & d & s & E & Hc).
  pose proof (digits_pretty x) as Hd. pose proof (Atoi_nat x Hx) as Ha. rewrite E in *.
  destruct (digit_plain c d Hc) as (Hp & _).
  rewrite trim_left_plain, (take_sign_digit c d s Hc), (digit_prefix_digits _ _ _ Hd) by done.
  change ("" +:+ String c s) with (String c s). by rewrite Ha.
Qed.

(** A printed natural number starts and ends with digits. *)
Lemma digits_last acc s z :
  digits acc s = Some z → s ≠ "" → ∃ c d, last_char s = Some c ∧ Ascii.is_nat c = Some d.
Proof.
  revert acc. induction s as [|c s IH]; intros acc; [done|]. cbn.
  destruct (Ascii.is_nat c) as [d|] eqn:Ec; [|done]. intros Hd _.
  destruct s as [|c' s]; [eauto|]. by apply (IH _ Hd).
Qed.

Lemma pretty_last (x : N) : ∃ c d, last_char (pretty x) = Some c ∧ Ascii.is_nat c = Some d.
Proof.
  apply (digits_last 0 _ (Z.of_N x)); [apply digits_pretty|].
  destruct (pretty_first x) as (c & d & s & -> & _). done.
Qed.

Lemma TrimSpace_nat (x : N) : strings.TrimSpace (pretty x) = pretty x.
Proof.
  destruct (pretty_last x) as (c & d & Hl & Hc). destruct (digit_plain c d Hc) as (_ & He & _).
  destruct (pretty_first x) as (c' & d' & s & E & Hc'). unfold strings.TrimSpace. rewrite E in *.
  rewrite trim_left_plain by by destruct (digit_plain c' d' Hc').
  by eapply trim_right_plain.
Qed.

(** Reading back a printed term. *)
Lemma Sscanf_Itoa z : (0 ≤ z ≤ max_int)%Z → Sscanf_d (Itoa z) = z.
Proof.
  intros Hz. unfold Itoa. assert (pretty z = pretty (Z.to_N z)) as ->.
  { destruct z; [done|done|lia]. }
  rewrite Sscanf_nat; lia.
Qed.

(** ** Fields that hold no space *)

Lemma lacks_app c a b : lacks c (a +:+ b) = lacks c a && lacks c b.
Proof. apply forall_chars_app. Qed.

Lemma lacks_digits x acc s z : Ascii.is_nat x = None → digits acc s = Some z → lacks x s = true.
Proof.
  intros Hx. revert acc. induction s as [|c s IH]; intros acc; [done|]. cbn.
  destruct (Ascii.is_nat c) as [d|] eqn:E; [|done]. intros H.
  change (negb (Ascii.eqb x c) && lacks x s = true). apply andb_true_iff. split; [|by eapply IH].
  apply negb_true_iff, Ascii.eqb_neq. congruence.
Qed.

Lemma Itoa_nat (n : nat) : Itoa (Z.of_nat n) = pretty (N.of_nat n).
Proof. unfold Itoa. by destruct n. Qed.

Lemma lacks_Itoa x z : Ascii.is_nat x = None → (0 ≤ z)%Z → lacks x (Itoa z) = true.
Proof.
  intros Hx Hz. rewrite <-(Z2Nat.id z), Itoa_nat by done. eapply lacks_digits, digits_pretty; done.
Qed.

Lemma lacks_base64 b : lacks " " (EncodeToString b) = true.
Proof.
  eapply forall_chars_impl; [|apply Encode_plain]. intros c.
  rewrite Ascii.eqb_sym. intros [[? _]%andb_true_iff _]%andb_true_iff. done.
Qed.

(** The hexadecimal digits. *)
Lemma hex_digit_plain n :
  (0 ≤ n < 16)%Z → plain_end (hex_digit n) = true ∧ Ascii.eqb " " (hex_digit n) = false.
Proof.
  assert (forallb (λ k, let c := hex_digit (Z.of_nat k) in plain_end c && negb (Ascii.eqb " " c))
    (seq 0 16) = true) as Hall by (vm_compute; reflexivity).
  rewrite forallb_forall in Hall. intros Hn. specialize (Hall (Z.to_nat n)).
  cbv beta zeta in Hall. rewrite Z2Nat.id in Hall by lia.
  assert (In (Z.to_nat n) (seq 0 16)) as Hin by (apply in_seq; lia).
  specialize (Hall Hin). rewrite andb_true_iff, negb_true_iff in Hall. done.
Qed.

Lemma hex_plain x b :
  lacks " " (hex (x :: b)) = true ∧ ∃ c, last_char (hex (x :: b)) = Some c ∧ plain_end c = true.
Proof.
  assert (∀ x : byte, (0 ≤ byteZ x `div` 16 < 16)%Z ∧ (0 ≤ byteZ x `mod` 16 < 16)%Z) as Hr.
  { intros y. pose proof (byteZ_range y). split; [|apply Z.mod_pos_bound; lia].
    split; [apply Z.div_pos; lia|apply Z.div_lt_upper_bound; lia]. }
  revert x. induction b as [|y b IH]; intros x; destruct (Hr x) as [H1 H2].
  - split.
    { unfold lacks. cbn [hex strings.forall_chars].
      by rewrite (proj2 (hex_digit_plain _ H1)), (proj2 (hex_digit_plain _ H2)). }
    eexists. split; [done|]. by apply hex_digit_plain.
  - destruct (IH y) as [Hl (c & Hc & Hp)].
    change (hex (x :: y :: b)) with
      (String (hex_digit (byteZ x `div` 16)) (String (hex_digit (byteZ x `mod` 16)) (hex (y :: b)))).
    split.
    + unfold lacks in *. cbn [strings.forall_chars].
      by rewrite (proj2 (hex_digit_plain _ H1)), (proj2 (hex_digit_plain _ H2)).
    + exists c. split; [|done]. rewrite <-Hc. done.
Qed.
