(* ===== verification/Nats.v ===== *)
(** * The NATS transport ([internal/transport/nats/server.go])

    One client connection: the bytes still to be read, the frames written so far,
    the subscriptions by identifier, and the broker of [Broker.v].  The goroutine
    [pushLoop] of a subscription is the step [push_one].  [encoding/json] on the
    argument of CONNECT is a parameter. *)

From Stdlib Require Import Ascii.
From Stdlib Require Import Strings.Byte.
From S2P Require Import Prelude.
From S2P Require Import GoLib.
From S2P Require Import Message.
From S2P Require Import Wal.
From S2P Require Import Broker.

(** ** Text *)

Definition crlf : string := String "013" (String "010" "").

Definition natsErr (reason : string) : string := "-ERR '" +:+ reason +:+ "'" +:+ crlf.

(** [strings.ToUpper], up to letters that are no ASCII text in either case: besides
    [a] to [z] only the long s (U+017F) and the dotless i (U+0131) have an ASCII
    upper case. *)
Definition upper (c : ascii) : ascii :=
  let n := N_of_ascii c in
  if ((97 <=? n) && (n <=? 122))%N then ascii_of_N (n - 32) else c.
Fixpoint ToUpper (s : string) : string :=
  match s with
  | String "197" (String "191" s') => String "S" (ToUpper s')
  | String "196" (String "177" s') => String "I" (ToUpper s')
  | String c s' => String (upper c) (ToUpper s')
  | EmptyString => EmptyString
  end.

Definition translateSubject (subject : string) : string :=
  if strings.HasSuffix subject ".>" then
    strings.take (String.length subject - 2) subject +:+ ".*"
  else if String.eqb subject ">" then "*"
  else subject.

(** [reader.ReadString('\n')]: the line with its end, and the rest; [None] when the
    stream ends first. *)
Fixpoint ReadString (b : bytes) : option (bytes * bytes) :=
  match b with
  | [] => None
  | x :: b' =>
      if byte_eq_dec x x0a then Some ([x], b')
      else match ReadString b' with
           | Some (line, rest) => Some (x :: line, rest)
           | None => None
           end
  end.

(** [strings.TrimRight(line, "\r\n")] *)
Definition TrimEOL (line : string) : string :=
  strings.trim_right_set (λ c, Ascii.eqb c "013" || Ascii.eqb c "010") line.

(** The frame [sendMSG] writes. *)
Definition msg_frame (sid : string) (msg : Message) : bytes :=
  let header :=
    "MSG " +:+ Message.Topic msg +:+ " " +:+ sid +:+ " " +:+
    Itoa (Z.of_nat (length (Payload msg))) +:+ crlf in
  bytes_of_string header ++ Payload msg ++ [x0d; x0a].

(** ** The connection *)

Record subscription : Type := MkSub { sid : string; subject : string; ch : nat }.

Record Conn (St : Type) : Type := MkConn {
  authenticated : bool;
  (** what was written, and how many writes were attempted *)
  out : list bytes;
  writes : nat;
  subs : gmap string subscription;
  (** what the client sent and the server has not read *)
  reader : bytes;
  (** [nc.mu] is held *)
  mu : bool;
  world : World St
}.
Arguments MkConn {_} _ _ _ _ _ _ _. Arguments mu {_} _.
Arguments authenticated {_} _. Arguments out {_} _. Arguments writes {_} _.
Arguments subs {_} _. Arguments reader {_} _. Arguments world {_} _.

Section conn_updates.
Context {St : Type}.
Implicit Types c : Conn St.

Definition set_authenticated (x : bool) c : Conn St :=
  MkConn x (out c) (writes c) (subs c) (reader c) (mu c) (world c).
Definition set_out (x : list bytes) (n : nat) c : Conn St :=
  MkConn (authenticated c) x n (subs c) (reader c) (mu c) (world c).
Definition set_subs (x : gmap string subscription) c : Conn St :=
  MkConn (authenticated c) (out c) (writes c) x (reader c) (mu c) (world c).
Definition set_reader (x : bytes) c : Conn St :=
  MkConn (authenticated c) (out c) (writes c) (subs c) x (mu c) (world c).
Definition set_mu (x : bool) c : Conn St :=
  MkConn (authenticated c) (out c) (writes c) (subs c) (reader c) x (world c).
Definition set_world (x : World St) c : Conn St :=
  MkConn (authenticated c) (out c) (writes c) (subs c) (reader c) (mu c) x.

End conn_updates.

(** The options of CONNECT. *)
Record connect_opts : Type := MkOpts { AuthToken : string; User : string; Pass : string }.

Section server.
Context `{R : Runtime} {St : Type} `{Storage St}.
(** [json.Unmarshal] into the options; [None] is an error *)
Variable unmarshal : string → option connect_opts.
(** which writes to the socket fail *)
Variable broken : nat → bool.
Abbreviation MN := (M (Conn St)).

Definition call {A} (op : M (World St) A) : MN A := zoom world set_world op.

(** [nc.conn.Write(data)] *)
Definition conn_write (data : bytes) : MN error :=
  c ← get;
  if broken (writes c) then
    modify (λ c, set_out (out c) (S (writes c)) c) ;; mret (Some "write failed")
  else
    modify (λ c, set_out (out c ++ [data]) (S (writes c)) c) ;; mret None.

(** [nc.write(data)], [nc.writeString(s)] *)
Definition write (data : bytes) : MN error :=
  mutex_lock mu set_mu ;;
  err ← conn_write data;
  mutex_unlock mu set_mu ;;
  mret err.
Definition writeString (s : string) : MN unit := write (bytes_of_string s) ;; mret ().

Definition dq (s : string) : string := String "034" (s +:+ String "034" "").
Definition sendInfo : MN unit :=
  let auth := if String.eqb (getenv "TINYMQ_API_KEY") "" then "false" else "true" in
  writeString ("INFO {" +:+ dq "server_id" +:+ ":" +:+ dq "tinymq" +:+ "," +:+
    dq "version" +:+ ":" +:+ dq "2.8.5" +:+ "," +:+ dq "proto" +:+ ":1," +:+
    dq "max_payload" +:+ ":2097152," +:+ dq "auth_required" +:+ ":" +:+ auth +:+ "}" +:+ crlf).

(** [inl]: the error that ends the session. *)
Definition handleConnect (fields : list string) : MN (string + bool) :=
  if (length fields <? 2)%nat then mret (inl "CONNECT requires a JSON argument")
  else
    args ← go_slice fields 1 (length fields);
    match unmarshal (strings.Join args " ") with
    | None => mret (inl "CONNECT payload is not valid JSON")
    | Some opts =>
        let token := getenv "TINYMQ_API_KEY" in
        if String.eqb token "" then modify (set_authenticated true) ;; mret (inr true)
        else if existsb (λ c, negb (String.eqb c "") && String.eqb c token)
                  [AuthToken opts; Pass opts; User opts]
        then modify (set_authenticated true) ;; mret (inr true)
        else mret (inl "Authorization Violation")
    end.

Definition maxPayload : Z := Z.shiftl 2 20.

(** [io.ReadFull(reader, payload)] for [n] bytes; an error has consumed the rest. *)
Definition ReadFull (n : nat) : MN (string + bytes) :=
  c ← get;
  let b := reader c in
  if (length b <? n)%nat then
    modify (set_reader []) ;;
    mret (inl (match b with [] => "EOF" | _ => "unexpected EOF" end))
  else modify (set_reader (drop n b)) ;; mret (inr (take n b)).

(** [reader.ReadString('\n')] with the result ignored. *)
Definition skip_line : MN unit :=
  modify (λ c, set_reader (match ReadString (reader c) with Some (_, rest) => rest | None => [] end) c).

Definition handlePub (now : Z) (fields : list string) : MN error :=
  if (length fields <? 3)%nat then mret (Some "PUB requires subject and byte count")
  else
    subject ← go_index fields 1;
    sizeField ← go_index fields 2;
    let sizeStr := strings.TrimSpace sizeField in
    match Atoi sizeStr with
    | None => mret (Some ("PUB invalid byte count: " +:+ sizeStr))
    | Some size =>
        if (size <? 0)%Z then mret (Some ("PUB invalid byte count: " +:+ sizeStr))
        else if (maxPayload <? size)%Z then
          mret (Some ("PUB payload exceeds maximum size (" +:+ Itoa maxPayload +:+ " bytes)"))
        else
          let topic := translateSubject subject in
          if negb (IsValidTopicName topic) then mret (Some ("PUB invalid subject: " +:+ subject))
          else
            make_bytes size ;;
            r ← (if (0 <? size)%Z then ReadFull (Z.to_nat size) else mret (inr []));
            match r with
            | inl e => mret (Some ("PUB failed to read payload: " +:+ e))
            | inr payload =>
                skip_line ;;
                call (Publish now topic payload ∅ "normal" None None false)
            end
    end.

Definition handleSub (fields : list string) : MN error :=
  if (length fields <? 3)%nat then mret (Some "SUB requires subject and sid")
  else
    f1 ← go_index fields 1;
    f2 ← go_index fields 2;
    let subject := strings.TrimSpace f1 in
    let sid := strings.TrimSpace f2 in
    if String.eqb sid "" then mret (Some "SUB sid cannot be empty")
    else
      c ← get;
      match subs c !! sid with
      | Some _ => mret (Some ("SUB sid '" +:+ sid +:+ "' already in use"))
      | None =>
          let topic := translateSubject subject in
          if negb (IsValidTopicName topic) then mret (Some ("SUB invalid subject: " +:+ subject))
          else
            r ← call (AddSpy topic);
            match r with
            | inl e => mret (Some ("SUB broker error: " +:+ e))
            | inr ch =>
                modify (λ c, set_subs (<[sid := MkSub sid topic ch]> (subs c)) c) ;; mret None
            end
      end.

Definition handleUnsub (fields : list string) : MN unit :=
  if (length fields <? 2)%nat then mret ()
  else
    f1 ← go_index fields 1;
    let sid := strings.TrimSpace f1 in
    c ← get;
    match subs c !! sid with
    | None => mret ()
    | Some sub =>
        call (RemoveSpy (subject sub) (ch sub)) ;;
        modify (λ c, set_subs (delete sid (subs c)) c)
    end.

Definition report (e : error) : MN unit :=
  match e with
  | Some e => writeString (natsErr e)
  | None => mret ()
  end.

(** A command that needs authentication; the result says whether the session goes
    on. *)
Definition guarded (op : MN unit) : MN bool :=
  c ← get;
  if authenticated c then op ;; mret true
  else writeString (natsErr "Authorization Violation") ;; mret false.

(** The [switch] of [handleClient] on one line. *)
Definition serve_line (now : Z) (line : string) : MN bool :=
  let fields := strings.SplitN line " " 4 in
  field ← go_index fields 0;
  let verb := ToUpper (strings.TrimSpace field) in
  if String.eqb verb "CONNECT" then
    r ← handleConnect fields;
    match r with
    | inl e => writeString (natsErr e) ;; mret false
    | inr ok => (if (ok : bool) then writeString ("+OK" +:+ crlf) else mret ()) ;; mret true
    end
  else if String.eqb verb "PUB" then guarded (e ← handlePub now fields; report e)
  else if String.eqb verb "SUB" then guarded (e ← handleSub fields; report e)
  else if String.eqb verb "UNSUB" then guarded (handleUnsub fields)
  else if String.eqb verb "PING" then writeString ("PONG" +:+ crlf) ;; mret true
  else if String.eqb verb "PONG" then writeString ("PING" +:+ crlf) ;; mret true
  else writeString (natsErr "Unknown Protocol Operation") ;; mret true.

(** The loop; every round consumes at least the line end. *)
Fixpoint serve (fuel : nat) (now : Z) : MN unit :=
  match fuel with
  | O => deadlock
  | S fuel' =>
      c ← get;
      match ReadString (reader c) with
      | None => mret ()
      | Some (raw, rest) =>
          modify (set_reader rest) ;;
          let line := TrimEOL (string_of_bytes raw) in
          continue ← (if String.eqb line "" then mret true else serve_line now line);
          if (continue : bool) then serve fuel' now else mret ()
      end
  end.

(** The deferred clean-up. *)
Definition remove_subs : MN unit :=
  c ← get;
  forM_ (λ sub, call (RemoveSpy (subject sub) (ch sub)))
    (map_range (snd <$> map_to_list (subs c))).

(** [handleClient] on the bytes the client sends until it stops. *)
Definition handleClient (now : Z) (input : bytes) : MN unit :=
  modify (λ c, set_mu false (set_reader input
    (set_authenticated (String.eqb (getenv "TINYMQ_API_KEY") "") (set_subs ∅ c)))) ;;
  sendInfo ;; serve (S (length input)) now ;; remove_subs.

(** One message through [pushLoop]. *)
Definition push_one (sub : subscription) : MN unit :=
  om ← call (try_recv (ch sub));
  match om with
  | None => mret ()
  | Some msg => write (msg_frame (sid sub) msg) ;; mret ()
  end.

(** A connection just accepted. *)
Definition new_conn (w : World St) : Conn St := MkConn false [] 0 ∅ [] false w.

End server.
