(* ===== verification/NatsProps.v ===== *)
(** * The NATS transport: claims

    A session cannot crash the server or get past the API key, and a published
    payload is taken byte for byte from the stream. *)

From Stdlib Require Import Ascii.
From Stdlib Require Import Strings.Byte.
From S2P Require Import Prelude.
From S2P Require Import GoLib.
From S2P Require Import Message.
From S2P Require Import Wal.
From S2P Require Import Storage.
From S2P Require Import Codec.
From S2P Require Import Demo.
From S2P Require Import Broker.
From S2P Require Import BrokerSteps.
From S2P Require Import BrokerSafe.
From S2P Require Import BrokerOps.
From S2P Require Import BrokerSafety.
From S2P Require Import BrokerPublish.
From S2P Require Import Wire.
From S2P Require Import Nats.

(** ** Sessions *)

Lemma ReadString_shorter b line rest :
  ReadString b = Some (line, rest) → length rest < length b.
Proof.
  revert line rest. induction b as [|x b IH]; intros line rest; [done|]. simpl.
  destruct (byte_eq_dec x x0a); [intros [= <- <-]; lia|].
  destruct (ReadString b) as [[l r]|]; [|done]. intros [= <- <-]. specialize (IH l r eq_refl). lia.
Qed.

Section sessions.
Context `{R : Runtime} {St : Type} `{Storage St} `{!StorageSafe St}.
Context (HR : RuntimeLaws R).
Variable unmarshal : string → option connect_opts.
Variable broken : nat → bool.
Implicit Types c : Conn St.

(** The broker is consistent, the connection's mutex is free and [n] bytes at most
    are unread. *)
Definition polite (n : nat) c : Prop := wf (world c) ∧ mu c = false ∧ length (reader c) ≤ n.

Lemma polite_modify n f :
  (∀ c, world (f c) = world c ∧ mu (f c) = mu c ∧ length (reader (f c)) ≤ length (reader c)) →
  stable (polite n) (modify f).
Proof.
  intros Hf. apply stable_modify. intros c (Hc & Hm & Hn). destruct (Hf c) as (E1 & E2 & ?).
  split_and!; [congruence..|lia].
Qed.

Lemma polite_call {A} n (op : M (World St) A) (Q : A → World St → Prop) :
  (∀ w, wf w → step op w Q) → stable (polite n) (call op).
Proof.
  intros Hop. apply stable_zoom. intros c (Hc & Hm & Hn).
  eapply wpx_mono; [by apply Hop| |done]. by intros a w (? & _).
Qed.

Lemma polite_write n data : stable (polite n) (write broken data).
Proof.
  intros c (Hc & Hm & Hn). apply wpx_bind, wpx_mutex_lock; [done|]. apply wpx_bind.
  eapply wpx_mono with (E := λ _, True)
    (Q := λ _ c', wf (world c') ∧ mu c' = true ∧ length (reader c') ≤ n); [|..|done].
  - apply wpx_bind, wpx_get. case_match; by apply wpx_bind, wpx_modify, wpx_ret.
  - intros err c' (Hc' & Hm' & Hn'). apply wpx_bind, wpx_mutex_unlock; [done|]. by apply wpx_ret.
Qed.

Lemma polite_writeString n s : stable (polite n) (writeString broken s).
Proof. apply stable_bind; [apply polite_write|]. intros. apply stable_ret. Qed.

Lemma polite_RemoveSpy n topic ch : stable (polite n) (call (St:=St) (RemoveSpy topic ch)).
Proof. eapply polite_call. intros w. by apply step_RemoveSpy. Qed.

Lemma polite_AddSpy n topic : stable (polite n) (call (St:=St) (AddSpy topic)).
Proof. eapply polite_call. intros w. by apply step_AddSpy. Qed.

Lemma polite_Publish n now topic payload :
  stable (polite n) (call (Publish now topic payload ∅ "normal" None None false)).
Proof. eapply polite_call. intros w. by apply step_publishCore. Qed.

Lemma polite_try_recv n ch : stable (polite n) (call (St:=St) (try_recv ch)).
Proof. eapply polite_call. intros w. by apply step_try_recv. Qed.

#[local] Hint Resolve polite_write polite_writeString polite_RemoveSpy polite_AddSpy
  polite_Publish polite_try_recv : tmq.
#[local] Hint Extern 0 (stable (polite _) (modify _)) => by apply polite_modify : tmq.

Lemma polite_ReadFull n k : stable (polite n) (ReadFull (St:=St) k).
Proof.
  intros c (Hc & Hm & Hn). unfold ReadFull. apply wpx_bind, wpx_get. cbv zeta.
  case_match; (apply wpx_bind, wpx_modify, wpx_ret; split_and!; [done..|]); simpl;
    rewrite ?length_drop; lia.
Qed.

Lemma polite_skip_line n : stable (polite n) (skip_line (St:=St)).
Proof.
  apply polite_modify. intros c. split_and!; [done..|]. simpl.
  destruct (ReadString (reader c)) as [[l r]|] eqn:E; [|simpl; lia].
  apply ReadString_shorter in E. lia.
Qed.

#[local] Hint Resolve polite_ReadFull polite_skip_line : tmq.

Lemma polite_index {A} n (fields : list string) i (k : string → M (Conn St) A) :
  i < length fields → (∀ f, stable (polite n) (k f)) → stable (polite n) (go_index fields i ≫= k).
Proof.
  intros [f Hf]%lookup_lt_is_Some Hk. eapply stable_returns; [by apply returns_index|]. apply Hk.
Qed.

Lemma polite_guarded n op : stable (polite n) op → stable (polite n) (guarded broken op).
Proof. intros Hop. unfold guarded. stable_steps. Qed.

Lemma polite_report n e : stable (polite n) (report (St:=St) broken e).
Proof. unfold report. stable_steps. Qed.

Lemma polite_handleConnect n fields : stable (polite n) (handleConnect unmarshal fields).
Proof.
  unfold handleConnect. destruct (Nat.ltb_spec (length fields) 2); [auto with tmq|].
  eapply stable_returns; [apply returns_slice; lia|]. stable_steps.
Qed.

Lemma polite_handlePub n now fields : stable (polite n) (handlePub now fields).
Proof.
  unfold handlePub. destruct (Nat.ltb_spec (length fields) 3); [auto with tmq|].
  do 2 (apply polite_index; [lia|intros ?]). cbv zeta.
  destruct (Atoi _) as [size|]; [|auto with tmq].
  destruct (Z.ltb_spec size 0); [auto with tmq|].
  destruct (Z.ltb_spec maxPayload size); [auto with tmq|]. case_match; [auto with tmq|].
  assert (maxPayload ≤ maxAlloc)%Z by (vm_compute; discriminate).
  eapply stable_returns; [apply returns_make; lia|]. stable_steps.
Qed.

Lemma polite_handleSub n fields : stable (polite n) (handleSub fields).
Proof.
  unfold handleSub. destruct (Nat.ltb_spec (length fields) 3); [auto with tmq|].
  do 2 (apply polite_index; [lia|intros ?]). cbv zeta. stable_steps.
Qed.

Lemma polite_handleUnsub n fields : stable (polite n) (handleUnsub fields).
Proof.
  unfold handleUnsub. destruct (Nat.ltb_spec (length fields) 2); [auto with tmq|].
  apply polite_index; [lia|intros ?]. cbv zeta. stable_steps.
Qed.

Lemma polite_serve_line n now line : stable (polite n) (serve_line unmarshal broken now line).
Proof.
  unfold serve_line. cbv zeta. apply polite_index.
  { destruct (SplitN_cons line " " 3) as (x & l & ->). simpl. lia. }
  intros field.
  repeat case_match; try (apply polite_guarded).
  - apply stable_bind; [apply polite_handleConnect|]. intros r. stable_steps.
  - apply stable_bind; [apply polite_handlePub|]. apply polite_report.
  - apply stable_bind; [apply polite_handleSub|]. apply polite_report.
  - apply polite_handleUnsub.
  - stable_steps.
  - stable_steps.
  - stable_steps.
Qed.

Lemma serve_sound now fuel : ∀ c,
  wf (world c) → mu c = false → length (reader c) < fuel →
  wps (serve unmarshal broken fuel now) (λ _ c', wf (world c') ∧ mu c' = false) c.
Proof.
  induction fuel as [|fuel IH]; intros c Hc Hm Hf; [lia|]. cbn [serve]. apply wpx_bind, wpx_get.
  destruct (ReadString (reader c)) as [[raw rest]|] eqn:Er; [|by apply wpx_ret].
  apply ReadString_shorter in Er. apply wpx_bind, wpx_modify. cbv zeta. apply wpx_bind.
  eapply wpx_mono with (Q := λ _ c', polite (length rest) c') (E := λ _, True); [|..|done].
  - case_match; [by apply wpx_ret|]. by apply polite_serve_line.
  - intros continue c' (Hc' & Hm' & Hr). case_match; [|by apply wpx_ret]. apply IH; [done|done|lia].
Qed.

Lemma polite_remove_subs n : stable (polite n) (remove_subs (St:=St)).
Proof.
  unfold remove_subs. apply stable_bind; [apply stable_get|]. intros c. auto with tmq.
Qed.

Lemma polite_push_one n sub : stable (polite n) (push_one broken sub).
Proof. unfold push_one. stable_steps. Qed.

(** [C19] No byte stream a NATS client sends can crash the server: [handleClient]
    reads it to the end or closes the connection, without a field index out of
    range, a negative or oversized allocation, an endless loop or a blocked
    mutex (the broker's or the connection's own), and leaves the broker
    consistent and the connection's mutex free; so does every message the
    goroutine of a subscription pushes. *)
Theorem nats_session_safe now input sub c (Hwf : wf (world c)) (Hmu : mu c = false) :
  wpx (handleClient unmarshal broken now input) (λ _ c', wf (world c') ∧ mu c' = false)
    (λ _, True) c ∧
  wpx (push_one broken sub) (λ _ c', wf (world c') ∧ mu c' = false) (λ _, True) c.
Proof.
  split.
  - unfold handleClient. apply wpx_bind, wpx_modify, wpx_bind. set (c0 := set_mu _ _).
    eapply wpx_mono; [apply (polite_writeString (length input) _ c0); by split_and!| |done].
    intros [] c1 (Hc1 & Hm1 & Hn1). apply wpx_bind.
    eapply wpx_mono; [apply serve_sound; [done|done|lia]| |done]. intros [] c2 [Hc2 Hm2].
    eapply wpx_mono; [by apply (polite_remove_subs (length (reader c2)))| |done].
    by intros [] c3 (? & ? & _).
  - eapply wpx_mono; [by apply (polite_push_one (length (reader c)))| |done]. by intros [] c3 (? & ? & _).
Qed.

End sessions.

Lemma nats_session_safe_witness :
  wpx (handleClient (λ _, None) (λ _, false) 5 (bytes_of_string ("SUB a.> 1" +:+ crlf +:+
      "PUB a.b -2" +:+ crlf +:+ "PUB a.b 2" +:+ crlf)))
    (λ _ c', wf (world c') ∧ mu c' = false) (λ _, True) (new_conn demo_empty) ∧
  wpx (push_one (λ _, false) (MkSub "1" "a.*" 0)) (λ _ c', wf (world c') ∧ mu c' = false)
    (λ _, True) (new_conn demo_empty).
Proof. apply (nats_session_safe demo_runtime_laws); [apply demo_empty_wf|done]. Defined.

(** ** Authentication *)

(** [t] occurs in [s]. *)
Definition occurs (t s : string) : Prop := ∃ a b, s = a +:+ t +:+ b.

Lemma string_of_bytes_app a b : string_of_bytes (a ++ b) = string_of_bytes a +:+ string_of_bytes b.
Proof. induction a as [|x a IH]; [done|]. change (string_of_bytes ((x :: a) ++ b)) with (String (ascii_of_byte x) (string_of_bytes (a ++ b))). by rewrite IH. Qed.

Lemma bytes_of_string_app a b : bytes_of_string (a +:+ b) = bytes_of_string a ++ bytes_of_string b.
Proof.
  rewrite <-(string_of_bytes_of_string a), <-(string_of_bytes_of_string b) at 1.
  by rewrite <-string_of_bytes_app, bytes_of_string_of_bytes.
Qed.

Lemma ReadString_split b line rest : ReadString b = Some (line, rest) → b = line ++ rest.
Proof.
  revert line rest. induction b as [|x b IH]; intros line rest; [done|]. simpl.
  destruct (byte_eq_dec x x0a); [by intros [= <- <-]|].
  destruct (ReadString b) as [[l r]|]; [|done]. intros [= <- <-]. simpl. by rewrite (IH l r).
Qed.

Lemma trim_right_set_prefix cut s : ∃ r, s = strings.trim_right_set cut s +:+ r.
Proof.
  induction s as [|c s [r IH]]; [by exists ""|]. cbn [strings.trim_right_set].
  destruct (strings.trim_right_set cut s) as [|d t] eqn:E.
  - destruct (cut c); [by exists (String c s)|]. exists s. done.
  - exists r. simpl. by rewrite IH at 1.
Qed.

Section authentication.
Context `{R : Runtime} {St : Type} `{Storage St}.
Variable unmarshal : string → option connect_opts.
Variable broken : nat → bool.
Variable w0 : World St.
Variable input : bytes.

Definition nats_key : string := getenv "TINYMQ_API_KEY".

(** The client was not let in, and the unread bytes are an end of its input. *)
Definition nats_outside (c : Conn St) : Prop :=
  authenticated c = false ∧ subs c = ∅ ∧ world c = w0 ∧ ∃ pre, input = pre ++ reader c.

Hypothesis key_set : nats_key ≠ "".
Hypothesis key_unknown : ∀ s opts, occurs s (string_of_bytes input) → unmarshal s = Some opts →
  nats_key ∉ [AuthToken opts; Pass opts; User opts].

Lemma outside_writeString s : keeps nats_outside (writeString broken s).
Proof.
  assert (∀ b c, nats_outside c → nats_outside (set_mu b c)) as Hmu by done.
  apply keeps_bind; [|auto with tmq].
  apply keeps_bind; [by apply keeps_mutex_lock|]. intros _.
  apply keeps_bind; [|intros err; apply keeps_bind; [by apply keeps_mutex_unlock|auto with tmq]].
  intros c Hc. unfold conn_write, mbind, M_bind, get. destruct (broken (writes c)); exact Hc.
Qed.

Lemma outside_guarded op c : nats_outside c → nats_outside (guarded broken op c).2.
Proof.
  intros Hc. unfold guarded, mbind at 1, M_bind, get.
  pose proof (outside_writeString (natsErr "Authorization Violation") c Hc) as Hw.
  rewrite (proj1 Hc).
  unfold mbind, M_bind. destruct (writeString _ _ c) as [[] ?]; exact Hw.
Qed.

Lemma handleConnect_refused line x y l c :
  strings.SplitN line " " 4 = x :: y :: l → occurs line (string_of_bytes input) → nats_outside c →
  ∃ e, handleConnect unmarshal (x :: y :: l) c = (Ret (inl e), c).
Proof using key_set key_unknown.
  intros Hf (a & b & Ho) Hc. unfold handleConnect. cbn [length Nat.ltb Nat.leb].
  assert (go_slice (x :: y :: l) 1 (S (S (length l))) c = (Ret (y :: l), c)) as Hargs.
  { rewrite returns_slice by (simpl; lia). simpl. rewrite firstn_all. done. }
  rewrite (run_bind _ _ _ _ _ Hargs). clear Hargs.
  destruct (unmarshal (strings.Join (y :: l) " ")) as [opts|] eqn:Eu; [|by eexists].
  fold nats_key. rewrite (proj2 (String.eqb_neq _ _)) by done.
  pose proof (Join_SplitN line " " 3) as Hj. rewrite Hf, Join_cons in Hj.
  assert (nats_key ∉ [AuthToken opts; Pass opts; User opts]) as Hno.
  { eapply key_unknown; [|exact Eu]. exists (a +:+ x +:+ " "), b. rewrite Ho, <-Hj.
    by rewrite !str_app_assoc. }
  assert (existsb (λ c, negb (String.eqb c "") && String.eqb c nats_key)
    [AuthToken opts; Pass opts; User opts] = false) as ->; [|by eexists].
  apply existsb_false_elem. intros z Hz. apply andb_false_iff. right.
  apply String.eqb_neq. by intros ->.
Qed.

Lemma outside_serve_line now line :
  occurs line (string_of_bytes input) → keeps nats_outside (serve_line unmarshal broken now line).
Proof using key_set key_unknown.
  intros Ho c Hc. unfold serve_line. cbv zeta.
  assert (∀ s b, nats_outside ((writeString broken s ;; mret b : M (Conn St) bool) c).2) as Hsay.
  { intros s b. apply (keeps_bind _ _ _ (outside_writeString s)); [|done]. intros. apply keeps_ret. }
  destruct (strings.SplitN line " " 4) as [|x fields] eqn:Ef; [exact Hc|].
  rewrite (run_bind _ _ _ _ _ (returns_index (x :: fields) 0 x eq_refl c)).
  destruct (String.eqb _ "CONNECT").
  - destruct fields as [|y l].
    + apply Hsay.
    + destruct (handleConnect_refused line x y l c Ef Ho Hc) as [e He].
      unfold mbind at 1, M_bind. rewrite He. apply Hsay.
  - repeat (destruct (String.eqb _ _); [first [by apply outside_guarded | apply Hsay]|]). apply Hsay.
Qed.

Lemma nats_outside_serve now fuel : keeps nats_outside (serve unmarshal broken fuel now).
Proof using key_set key_unknown.
  induction fuel as [|fuel IH]; intros c Hc; [exact Hc|]. cbn [serve].
  unfold mbind at 1, M_bind, get.
  destruct (ReadString (reader c)) as [[raw rest]|] eqn:Er; [|exact Hc].
  apply ReadString_split in Er. destruct Hc as (Ha & Hs & Hw & pre & Hin). rewrite Er in Hin.
  assert (nats_outside (set_reader rest c)) as Hc'.
  { split_and!; [done..|]. exists (pre ++ raw). by rewrite <-app_assoc. }
  assert (occurs (TrimEOL (string_of_bytes raw)) (string_of_bytes input)) as Ho.
  { destruct (trim_right_set_prefix (λ c, Ascii.eqb c "013" || Ascii.eqb c "010")
      (string_of_bytes raw)) as [r Hr].
    exists (string_of_bytes pre), (r +:+ string_of_bytes rest).
    rewrite Hin, !string_of_bytes_app. rewrite Hr at 1. by rewrite str_app_assoc. }
  assert (∀ op : M (Conn St) bool, keeps nats_outside op →
    nats_outside ((op ≫= λ continue : bool, if continue then serve unmarshal broken fuel now else mret ())
      (set_reader rest c)).2) as Hgo.
  { intros op Hop. apply (keeps_bind _ _ _ Hop); [|done]. intros []; [exact IH|apply keeps_ret]. }
  apply Hgo. case_match; [apply keeps_ret|by apply outside_serve_line].
Qed.

Lemma outside_start c :
  world c = w0 →
  nats_outside (set_mu false (set_reader input (set_authenticated (String.eqb nats_key "") (set_subs ∅ c)))).
Proof using key_set.
  intros Hw. rewrite (proj2 (String.eqb_neq _ _)) by done. split_and!; [done..|]. by exists [].
Qed.

End authentication.

(** [C20] With an API key configured, a NATS client none of whose CONNECT options is
    the key gets nowhere: it is never authenticated, holds no subscription, and
    when its session is over the broker is exactly as it was before, whatever it
    sent. *)
Theorem nats_requires_key `{R : Runtime} (HR : RuntimeLaws R) {St : Type} `{Storage St}
    (unmarshal : string → option connect_opts) (broken : nat → bool) (now : Z) (input : bytes)
    (c : Conn St) :
  nats_key ≠ "" →
  (∀ s opts, occurs s (string_of_bytes input) → unmarshal s = Some opts →
    nats_key ∉ [AuthToken opts; Pass opts; User opts]) →
  let c' := (handleClient unmarshal broken now input c).2 in
  authenticated c' = false ∧ subs c' = ∅ ∧ world c' = world c.
Proof.
  intros Hkey Hno c'.
  assert (nats_outside (world c) input c') as (? & ? & ? & _); [|done].
  pose proof (outside_start (world c) input Hkey c eq_refl) as H0.
  assert (c' = ((sendInfo broken ;; serve unmarshal broken (S (length input)) now ;; remove_subs)
    (set_mu false (set_reader input (set_authenticated (String.eqb nats_key "") (set_subs ∅ c))))).2) as ->
    by reflexivity.
  assert (keeps (nats_outside (world c) input)
    (sendInfo broken ;; serve unmarshal broken (S (length input)) now ;; remove_subs)) as Hk.
  { apply keeps_bind; [apply outside_writeString|]. intros _.
    apply keeps_bind; [by apply nats_outside_serve|]. intros _ c1 Hc1. unfold remove_subs.
    unfold mbind, M_bind, get. destruct Hc1 as (Ha & Hs & Hrest). rewrite Hs, map_to_list_empty.
    pose proof (map_range_perm (A:=subscription) []) as Hp. symmetry in Hp.
    apply Permutation_nil in Hp. change (snd <$> []) with (@nil subscription). rewrite Hp. done. }
  by apply Hk.
Qed.

Lemma occurs_Contains t s : occurs t s → strings.Contains s t = true.
Proof. intros (a & b & ->). apply Contains_app. Qed.

Lemma nats_requires_key_witness :
  let R := env_runtime (λ name, if String.eqb name "TINYMQ_API_KEY" then "secret" else "") in
  let c' := (handleClient (R:=R) (λ s, Some (MkOpts s "" "")) (λ _, false) 5
    (bytes_of_string ("CONNECT nope" +:+ crlf +:+ "PUB t 0" +:+ crlf +:+ crlf)) (new_conn demo_empty)).2 in
  authenticated c' = false ∧ subs c' = ∅ ∧ world c' = demo_empty.
Proof.
  apply (nats_requires_key (R:=env_runtime _) (env_runtime_laws _)).
  - vm_compute. discriminate.
  - intros s opts Ho%occurs_Contains [= <-] Hin. cbn [AuthToken Pass User] in Hin.
    apply elem_of_cons in Hin as [E|Hin].
    + rewrite <-E in Ho. vm_compute in Ho. discriminate.
    + apply list_elem_of_In in Hin. vm_compute in Hin. naive_solver.
Defined.

(** ** Framing *)

Lemma ReadString_line s X :
  lacks newline s = true →
  ReadString (bytes_of_string s ++ x0a :: X) = Some (bytes_of_string s ++ [x0a], X).
Proof.
  induction s as [|c s IH]; [done|]. intros [Hc Hs]%andb_true_iff.
  change (bytes_of_string (String c s)) with (byte_of_ascii c :: bytes_of_string s).
  cbn [app ReadString]. destruct (byte_eq_dec (byte_of_ascii c) x0a) as [E|]; [|by rewrite IH].
  apply (f_equal ascii_of_byte) in E. rewrite ascii_of_byte_of_ascii in E. subst c. done.
Qed.

Lemma trim_right_set_app cut s t c :
  last_char s = Some c → cut c = false → strings.forall_chars cut t = true →
  strings.trim_right_set cut (s +:+ t) = s.
Proof.
  intros Hl Hc Ht. assert (strings.trim_right_set cut t = "") as Hgone.
  { clear -Ht. induction t as [|x t IH]; [done|]. apply andb_true_iff in Ht as [Hx Ht].
    cbn. rewrite IH by done. by rewrite Hx. }
  induction s as [|x s IH]; [done|]. cbn. destruct s as [|y s].
  - injection Hl as ->. simpl. by rewrite Hgone, Hc.
  - rewrite IH by done. done.
Qed.

(** A valid topic name is its own translation. *)
Lemma translateSubject_id s : validTopicRegex s = true → translateSubject s = s.
Proof.
  intros Hs. assert (strings.forall_chars topic_char s = true) as Hall by (by destruct s).
  unfold translateSubject. destruct (strings.HasSuffix s ".>") eqn:E.
  - apply HasSuffix_split in E. rewrite E, forall_chars_app, andb_comm in Hall. done.
  - destruct (String.eqb_spec s ">") as [->|]; done.
Qed.

Lemma topic_lacks c s : topic_char c = false → validTopicRegex s = true → lacks c s = true.
Proof.
  intros Hc Hs. assert (strings.forall_chars topic_char s = true) as Hall by (by destruct s).
  revert Hall. apply forall_chars_impl. intros x Hx. apply negb_true_iff, Ascii.eqb_neq.
  intros <-. congruence.
Qed.

Lemma SplitN_pub subject n k :
  lacks " " subject = true → lacks " " n = true →
  strings.SplitN ("PUB " +:+ subject +:+ " " +:+ n) " " (S (S (S k))) = ["PUB"; subject; n].
Proof.
  intros Hs Hn. change ("PUB " +:+ subject +:+ " " +:+ n) with (strings.Join ["PUB"; subject; n] " ").
  apply SplitN_Join; [|simpl; lia]. repeat constructor; done.
Qed.

(** The line of a PUB command, as read from the stream. *)
Lemma pub_line subject n X :
  validTopicRegex subject = true → (0 ≤ n)%Z →
  let line := "PUB " +:+ subject +:+ " " +:+ Itoa n in
  ReadString (bytes_of_string (line +:+ crlf) ++ X) = Some (bytes_of_string (line +:+ crlf), X) ∧
  TrimEOL (line +:+ crlf) = line.
Proof.
  intros Hs Hn line. assert (lacks newline line = true) as Hl.
  { unfold line. rewrite !lacks_app, lacks_Itoa, (topic_lacks newline subject) by done. done. }
  split.
  - unfold crlf. change (String "013" (String "010" "")) with (String "013" "" +:+ String "010" "").
    rewrite <-str_app_assoc.
    assert (∀ s, bytes_of_string (s +:+ String "010" "") = bytes_of_string s ++ [x0a]) as Hend.
    { intros s. induction s as [|c s IH]; [done|].
      change (bytes_of_string (String c s)) with (byte_of_ascii c :: bytes_of_string s). cbn [app].
      by rewrite <-IH. }
    rewrite Hend, <-app_assoc. apply ReadString_line. rewrite lacks_app, Hl. done.
  - destruct (pretty_last (N.of_nat (Z.to_nat n))) as (c & d & Hc & Hd).
    unfold TrimEOL. eapply (trim_right_set_app _ _ _ c); [| |done].
    + unfold line. rewrite <-(Z2Nat.id n), Itoa_nat by done.
      assert (pretty (N.of_nat (Z.to_nat n)) ≠ "") as Hp by (by intros E; rewrite E in Hc).
      rewrite <-str_app_assoc, <-str_app_assoc, last_char_app by done. done.
    + destruct (Ascii.eqb_spec c "013") as [->|]; [done|].
      destruct (Ascii.eqb_spec c "010") as [->|]; done.
Qed.

Section framing.
Context `{R : Runtime} {St : Type} `{Storage St}.
Variable unmarshal : string → option connect_opts.
Variable broken : nat → bool.
Implicit Types c : Conn St.

Lemma ReadFull_app b rest c :
  reader c = b ++ rest → ReadFull (length b) c = (Ret (inr b), set_reader rest c).
Proof.
  intros Hc. unfold ReadFull, get, mbind, M_bind, modify. rewrite Hc, length_app.
  case_match eqn:E; [apply Nat.ltb_lt in E; lia|]. by rewrite drop_app_length, take_app_length.
Qed.

Lemma handlePub_reads c now subject payload rest r w' :
  validTopicRegex subject = true → strings.Contains subject ".." = false →
  (Z.of_nat (length payload) ≤ maxPayload)%Z →
  reader c = payload ++ x0d :: x0a :: rest →
  Publish now subject payload ∅ "normal" None None false (world c) = (Ret r, w') →
  handlePub now ["PUB"; subject; Itoa (Z.of_nat (length payload))] c =
    (Ret r, set_world w' (set_reader rest c)).
Proof.
  intros Hs Hdots Hsize Hc Hpub. unfold handlePub. cbn [length Nat.ltb Nat.leb].
  rewrite (run_bind (go_index _ 1) _ c subject c) by done.
  rewrite (run_bind (go_index _ 2) _ c (Itoa (Z.of_nat (length payload))) c) by done.
  assert (maxPayload < max_int)%Z as Hmax by (vm_compute; done).
  rewrite Itoa_nat, TrimSpace_nat, Atoi_nat by lia.
  rewrite nat_N_Z. case_match; [lia|]. case_match; [lia|].
  rewrite translateSubject_id by done.
  assert (IsValidTopicName subject = true) as -> by (unfold IsValidTopicName; by rewrite Hdots, Hs).
  cbn [negb].
  assert (maxPayload ≤ maxAlloc)%Z as Halloc by (vm_compute; discriminate).
  rewrite (run_bind (make_bytes _) _ c () c) by (apply returns_make; lia).
  assert ((if (0 <? Z.of_nat (length payload))%Z then ReadFull (Z.to_nat (Z.of_nat (length payload)))
    else mret (inr [])) c = (Ret (inr payload), set_reader (x0d :: x0a :: rest) c)) as Hread.
  { rewrite Nat2Z.id. destruct payload as [|x payload]; [by destruct c; simpl in *; subst|].
    rewrite (proj2 (Z.ltb_lt _ _)) by (simpl; lia). by apply ReadFull_app. }
  rewrite (run_bind _ _ _ _ _ Hread). cbn beta iota.
  rewrite (run_bind skip_line _ _ () (set_reader rest c)) by done.
  by apply (run_zoom world set_world).
Qed.

Lemma serve_round fuel now c raw rest line :
  ReadString (reader c) = Some (raw, rest) → TrimEOL (string_of_bytes raw) = line →
  String.eqb line "" = false →
  serve unmarshal broken (S fuel) now c =
    (serve_line unmarshal broken now line ≫= λ continue : bool,
      if continue then serve unmarshal broken fuel now else mret ()) (set_reader rest c).
Proof.
  intros Hr <- Hne. cbn [serve]. unfold get, modify, mbind, M_bind. rewrite Hr. by rewrite Hne.
Qed.

Lemma serve_pub now subject n c r c' :
  lacks " " subject = true → lacks " " n = true → authenticated c = true →
  handlePub now ["PUB"; subject; n] c = (Ret r, c') →
  serve_line unmarshal broken now ("PUB " +:+ subject +:+ " " +:+ n) c =
    (report broken r ;; mret true) c'.
Proof.
  intros Hs Hn Hc Hrun. unfold serve_line. rewrite SplitN_pub by done.
  rewrite (run_bind _ _ _ _ _ (returns_index ["PUB"; subject; n] 0 "PUB" eq_refl c)).
  change (ToUpper (strings.TrimSpace "PUB")) with "PUB".
  cbn [String.eqb Ascii.eqb Bool.eqb]. unfold guarded.
  rewrite (run_bind get _ c c c) by done. rewrite Hc.
  unfold mbind, M_bind. by rewrite Hrun.
Qed.

Lemma report_returns r c : mu c = false → ∃ c', report broken r c = (Ret (), c').
Proof.
  intros Hmu. destruct r as [e|]; [|by eexists].
  unfold report, writeString, write, mutex_lock, mutex_unlock, conn_write, get, modify, mbind, M_bind.
  rewrite Hmu. simpl. destruct (broken (writes c)); by eexists.
Qed.

(** The framing of PUB: after a command line naming a valid topic and the payload's
    length, the loop takes exactly that many bytes, whatever they are (line ends and
    command words included), publishes them unchanged with normal priority, answers
    with the broker's error if there is one, and continues at the first byte after the
    frame. *)
Theorem nats_pub_framed c now fuel subject payload rest r w'
    (Hauth : authenticated c = true) (Hmu : mu c = false)
    (Hs : validTopicRegex subject = true) (Hdots : strings.Contains subject ".." = false)
    (Hsize : (Z.of_nat (length payload) ≤ maxPayload)%Z)
    (Hread : reader c =
      bytes_of_string (("PUB " +:+ subject +:+ " " +:+ Itoa (Z.of_nat (length payload))) +:+ crlf) ++
      payload ++ x0d :: x0a :: rest)
    (Hpub : Publish now subject payload ∅ "normal" None None false (world c) = (Ret r, w')) :
  serve unmarshal broken (S fuel) now c =
    (report broken r ;; serve unmarshal broken fuel now) (set_world w' (set_reader rest c)).
Proof.
  destruct (pub_line subject (Z.of_nat (length payload)) (payload ++ x0d :: x0a :: rest) Hs)
    as [Hline Htrim]; [lia|].
  erewrite serve_round; [|by rewrite Hread, Hline|by rewrite string_of_bytes_of_string|done].
  unfold mbind at 1, M_bind at 1.
  erewrite serve_pub; [|by apply topic_lacks|apply lacks_Itoa; [done|lia]|done|by apply handlePub_reads].
  destruct (report_returns r (set_world w' (set_reader rest c)) Hmu) as [c' Hrep].
  rewrite (run_bind _ _ _ () c' Hrep). unfold mbind, M_bind. by rewrite Hrep.
Qed.

End framing.

Definition demo_frame : bytes := bytes_of_string ("SUB x 1" +:+ crlf).
Definition demo_conn : Conn DiskStorage :=
  set_authenticated true (set_reader
    (bytes_of_string (("PUB t " +:+ Itoa (Z.of_nat (length demo_frame))) +:+ crlf) ++
      demo_frame ++ x0d :: x0a :: bytes_of_string ("PING" +:+ crlf)) (new_conn demo_empty)).

Lemma nats_pub_framed_witness :
  let w' := (Publish (R:=demo_runtime) 5 "t" demo_frame ∅ "normal" None None false demo_empty).2 in
  serve (R:=demo_runtime) (λ _, None) (λ _, false) 3 5 demo_conn =
    (report (λ _, false) None ;; serve (R:=demo_runtime) (λ _, None) (λ _, false) 2 5)
      (set_world w' (set_reader (bytes_of_string ("PING" +:+ crlf)) demo_conn)).
Proof.
  apply (nats_pub_framed (R:=demo_runtime)) with (subject := "t") (payload := demo_frame);
    [done|done|done|done|by vm_compute|done|vm_compute; reflexivity].
Defined.

(** A command that is refused before its payload is read leaves the payload in the
    stream, where the loop takes it for commands: here the client asked to publish
    fifteen bytes on an invalid subject, and a message was published on [evil]. *)
Theorem nats_rejected_pub_smuggles :
  let input := bytes_of_string ("PUB no!topic 15" +:+ crlf +:+ "PUB evil 1" +:+ crlf +:+ "x" +:+ crlf) in
  let c' := (handleClient (R:=demo_runtime) (λ _, None) (λ _, false) 5 input (new_conn demo_empty)).2 in
  (t ← Topics (world c') !! "evil"; x ← heap (world c') !! t; Some (Payload <$> Messages x))
    = Some [bytes_of_string "x"].
Proof. vm_compute. reflexivity. Qed.
