(* ===== verification/Helper.v ===== *)
(** * The helpers of [internal/helper]: the [.env] file and the payload filter

    [LoadEnv] of [env.go] over the process environment, and [MatchJSONFilter] of
    [json.go] over what [encoding/json] makes of a payload. *)

From Stdlib Require Import Ascii.
From Stdlib Require Import Strings.Byte.
From S2P Require Import Prelude.
From S2P Require Import GoLib.

(** ** [LoadEnv] *)

(** [strings.Trim] of double and single quotes *)
Definition TrimQuotes (s : string) : string :=
  let quote c := Ascii.eqb c "034" || Ascii.eqb c "039" in
  strings.trim_right_set quote (strings.trim_left_set quote s).

(** One line of the file: the variable it sets, when it sets one. *)
Definition env_entry (text : string) : option (string * string) :=
  let line := strings.TrimSpace text in
  if String.eqb line "" || strings.HasPrefix line "#" then None
  else
    match strings.SplitN line "=" 2 with
    | [k; v] => Some (strings.TrimSpace k, TrimQuotes (strings.TrimSpace v))
    | _ => None
    end.

(** [os.Setenv] fails on an empty name, or one holding [=] or a zero byte, and on a
    value holding a zero byte; the error is ignored. *)
Definition Setenv (key val : string) (env : gmap string string) : gmap string string :=
  if String.eqb key "" || strings.Contains key "=" || strings.Contains key (String "000" "") ||
     strings.Contains val (String "000" "")
  then env else <[key := val]> env.

Definition load_line (env : gmap string string) (text : string) : gmap string string :=
  match env_entry text with
  | None => env
  | Some (key, val) =>
      match env !! key with
      | Some _ => env
      | None => Setenv key val env
      end
  end.

(** [LoadEnv] on the lines [bufio.Scanner] delivers; [None]: there is no [.env]. *)
Definition LoadEnv (file : option (list string)) (env : gmap string string) : gmap string string :=
  match file with
  | None => env
  | Some lines => foldl load_line env lines
  end.

(** ** [MatchJSONFilter] *)

(** [fields]: the members of the JSON object in the payload, each printed with [%v];
    [None] when the payload is no JSON object. *)
Definition MatchJSONFilter (fields : bytes → option (gmap string string))
    (payload : bytes) (key val : string) : bool :=
  if String.eqb key "" then true
  else
    match fields payload with
    | None => false
    | Some data =>
        match data !! key with
        | None => false
        | Some strVal => String.eqb strVal val
        end
    end.

(** ** The environment wins over the file, and the first line over the later ones *)

Lemma load_line_keeps env text key val : env !! key = Some val → load_line env text !! key = Some val.
Proof.
  intros Hk. unfold load_line. destruct (env_entry text) as [[k v]|]; [|done].
  destruct (env !! k) eqn:E; [done|]. unfold Setenv. case_match; [done|].
  rewrite lookup_insert_ne; [done|]. congruence.
Qed.

(** What an operator exported before the start is what the server sees: no line of
    the file replaces a variable that is set, not even one set to the empty string. *)
Theorem LoadEnv_keeps file env key val : env !! key = Some val → LoadEnv file env !! key = Some val.
Proof.
  intros Hk. destruct file as [lines|]; [|done]. simpl. revert env Hk.
  induction lines as [|l lines IH]; intros env Hk; [done|]. by apply IH, load_line_keeps.
Qed.

Lemma load_line_new env text key val :
  load_line env text !! key = Some val → env !! key = Some val ∨ env_entry text = Some (key, val).
Proof.
  unfold load_line. destruct (env_entry text) as [[k v]|]; [|by left].
  destruct (env !! k); [by left|]. unfold Setenv. case_match; [by left|].
  destruct (decide (k = key)) as [->|]; [rewrite lookup_insert_eq; intros [= ->]; by right|].
  rewrite lookup_insert_ne by done. by left.
Qed.

(** A variable that was unset gets the value of the first line of the file that names
    it. *)
Theorem LoadEnv_first env l1 text l2 key val :
  env !! key = None →
  (∀ t k v, t ∈ l1 → env_entry t = Some (k, v) → k ≠ key) →
  env_entry text = Some (key, val) → Setenv key val ∅ = {[key := val]} →
  LoadEnv (Some (l1 ++ text :: l2)) env !! key = Some val.
Proof.
  intros Hk Hl1 Ht Hset. simpl. rewrite foldl_app. cbn [foldl].
  assert (foldl load_line env l1 !! key = None) as Hnone.
  { revert env Hk. induction l1 as [|t l1 IH]; intros env Hk; [done|]. simpl.
    apply IH; [intros; eapply Hl1; [by right|done]|].
    destruct (load_line env t !! key) as [v|] eqn:E; [|done].
    apply load_line_new in E as [?|E]; [congruence|]. exfalso. by eapply Hl1; [left|exact E|]. }
  apply (LoadEnv_keeps (Some l2)). unfold load_line at 1. rewrite Ht, Hnone.
  unfold Setenv in *. case_match; [|apply lookup_insert_eq].
  exfalso. assert (∅ !! key = Some val) as Hx by (rewrite Hset; apply lookup_insert_eq). done.
Qed.
