(* ===== verification/Float64.v ===== *)
(** * Go's [float64]

    IEEE binary64 through the Standard Library's executable specification
    ([SpecFloat]): the operations the program uses, each correctly rounded to nearest
    even as the language prescribes, and the exactness of small integers. *)

From Stdlib Require Import SpecFloat.
From Stdlib Require Import Ascii.
From S2P Require Import Prelude.
From S2P Require Import GoLib.

Local Open Scope Z_scope.

Abbreviation float64 := spec_float.

(** [float64(n)] *)
Definition of_Z (n : Z) : float64 := binary_normalize 53 1024 n 0 false.

Definition fadd (x y : float64) : float64 := SFadd 53 1024 x y.
Definition fsub (x y : float64) : float64 := SFsub 53 1024 x y.
Definition fmul (x y : float64) : float64 := SFmul 53 1024 x y.
Definition fdiv (x y : float64) : float64 := SFdiv 53 1024 x y.

(** [x < y], [x <= y]; false when one of them is not a number *)
Definition fltb (x y : float64) : bool := SFltb x y.
Definition fleb (x y : float64) : bool := SFleb x y.

(** [d.Seconds()] for a duration in nanoseconds *)
Definition Seconds (d : Z) : float64 :=
  fadd (of_Z (Z.quot d 1000000000)) (fdiv (of_Z (Z.rem d 1000000000)) (of_Z 1000000000)).

(** ** Integers below 2^53 are exact *)

Abbreviation dig m := (Zpos (digits2_pos m)).

Lemma dig_spec m : 2 ^ (dig m - 1) ≤ Zpos m < 2 ^ dig m.
Proof.
  induction m as [m IH|m IH|]; [| |done]; cbn [digits2_pos]; rewrite Pos2Z.inj_succ;
    replace (Z.succ (dig m) - 1) with (Z.succ (dig m - 1)) by lia;
    rewrite !Z.pow_succ_r by lia; lia.
Qed.

Lemma dig_unique m k : 0 < k → 2 ^ (k - 1) ≤ Zpos m < 2 ^ k → dig m = k.
Proof.
  intros Hk Hm. pose proof (dig_spec m).
  destruct (Z.lt_trichotomy (dig m) k) as [?|[?|?]]; [|done|].
  - assert (2 ^ dig m ≤ 2 ^ (k - 1)) by (apply Z.pow_le_mono_r; lia). lia.
  - assert (2 ^ k ≤ 2 ^ (dig m - 1)) by (apply Z.pow_le_mono_r; lia). lia.
Qed.

Lemma dig_scaled m m' k : 0 ≤ k → Zpos m' = Zpos m * 2 ^ k → dig m' = dig m + k.
Proof.
  intros Hk E. pose proof (dig_spec m). apply dig_unique; [lia|].
  replace (dig m + k - 1) with (dig m - 1 + k) by lia. rewrite !Z.pow_add_r by lia. nia.
Qed.

Lemma iter_xO m k : Zpos (Pos.iter xO m k) = Zpos m * 2 ^ Zpos k.
Proof.
  induction k as [|k IH] using Pos.peano_ind; [simpl; lia|].
  rewrite Pos.iter_succ, Pos2Z.inj_succ, Z.pow_succ_r, Pos2Z.inj_xO by lia. lia.
Qed.

Abbreviation exactly z := (Build_shr_record z false false).

Lemma shr_1_exact z : 0 < z → shr_1 (exactly (2 * z)) = exactly z.
Proof. by destruct z. Qed.

Lemma shr_exact p z : 0 < z → SpecFloat.iter_pos shr_1 p (exactly (z * 2 ^ Zpos p)) = exactly z.
Proof.
  revert z. induction p as [p IH|p IH|]; intros z Hz; cbn [SpecFloat.iter_pos].
  - replace (z * 2 ^ Zpos p~1) with (2 * ((z * 2 ^ Zpos p) * 2 ^ Zpos p))
      by (change (Zpos p~1) with (2 * Zpos p + 1); replace (2 * Zpos p + 1) with (Zpos p + Zpos p + 1) by lia;
          rewrite !Z.pow_add_r by lia; lia).
    rewrite shr_1_exact by nia. rewrite IH by nia. by apply IH.
  - replace (z * 2 ^ Zpos p~0) with ((z * 2 ^ Zpos p) * 2 ^ Zpos p)
      by (change (Zpos p~0) with (2 * Zpos p); replace (2 * Zpos p) with (Zpos p + Zpos p) by lia;
          rewrite Z.pow_add_r by lia; lia).
    rewrite IH by nia. by apply IH.
  - rewrite Z.mul_comm. by apply shr_1_exact.
Qed.

(** Rounding does nothing to a number of at most 53 bits, however it is scaled. *)
Lemma round_aux_exact m m' e k :
  dig m = 53 → 0 ≤ k → Zpos m' = Zpos m * 2 ^ k → -1074 ≤ e ≤ 971 →
  binary_round_aux 53 1024 false (Zpos m') (e - k) loc_Exact = S754_finite false m e.
Proof.
  intros Hd Hk Hm He.
  assert (dig m' = 53 + k) as Hd' by (rewrite (dig_scaled m m' k); lia).
  assert (∀ z x, dig z + x = 53 + e → fexp 53 1024 (dig z + x) = e) as Hf.
  { intros z x ->. unfold fexp, emin. lia. }
  unfold binary_round_aux, shr_fexp. cbn [shr_record_of_loc Zdigits2]. rewrite Hf by lia.
  replace (e - (e - k)) with k by lia.
  assert (shr (exactly (Zpos m')) (e - k) k = (exactly (Zpos m), e)) as ->.
  { destruct k as [|p|p]; [|by rewrite Hm; unfold shr; rewrite shr_exact by lia; f_equal; lia|lia].
    simpl. rewrite Z.sub_0_r. f_equal. f_equal. lia. }
  cbn [shr_m loc_of_shr_record round_nearest_even Zdigits2]. rewrite Hf by lia.
  rewrite Z.sub_diag. cbn [shr shr_m]. rewrite (proj2 (Z.leb_le _ _)) by lia. done.
Qed.

Lemma normalize_exact m z k e k' :
  dig m = 53 → 0 ≤ k → 0 ≤ k' → 0 < z → Zpos m = z * 2 ^ k → -1074 ≤ e ≤ 971 →
  binary_normalize 53 1024 (z * 2 ^ k') (e + k - k') false = S754_finite false m e.
Proof.
  intros Hd Hk Hk' Hz Hm He. destruct z as [|n|n]; [lia| |lia].
  destruct (Zpos n * 2 ^ k') as [|n'|n'] eqn:En; [nia| |nia].
  pose proof (dig_scaled n m k Hk Hm) as Hn. pose proof (dig_scaled n n' k' Hk' (eq_sym En)) as Hn'.
  unfold binary_normalize, binary_round. unfold fexp at 1, emin at 1.
  replace (Z.max (dig n' + (e + k - k') - 53) (3 - 1024 - 53)) with e by lia.
  unfold shl_align. replace (e - (e + k - k')) with (k' - k) by lia.
  destruct (Z.lt_ge_cases k' k) as [Hlt|Hge].
  - destruct (k' - k) as [|d|d] eqn:Ed; [lia|lia|].
    assert (Pos.iter xO n' d = m) as ->.
    { apply (inj Zpos). rewrite iter_xO, <-En, Hm, <-Z.mul_assoc, <-Z.pow_add_r by lia.
      f_equal. f_equal. lia. }
    rewrite <-(Z.sub_0_r e) at 1. apply round_aux_exact; [done|lia|lia|lia].
  - assert (match k' - k with Zneg d => (Pos.iter xO n' d, e) | _ => (n', e + k - k') end =
      (n', e - (k' - k))) as -> by (destruct (k' - k) eqn:E; f_equal; lia).
    apply round_aux_exact; [done|lia| |lia].
    rewrite <-En, Hm, <-Z.mul_assoc, <-Z.pow_add_r by lia. f_equal. f_equal. lia.
Qed.

(** The float of a positive integer below 2^53: 53 bits of mantissa. *)
Lemma of_Z_finite n : 0 < n < 2 ^ 53 →
  ∃ m k, of_Z n = S754_finite false m (- k) ∧ Zpos m = n * 2 ^ k ∧ dig m = 53 ∧ 0 ≤ k ≤ 52.
Proof.
  intros Hn. destruct n as [|n|n]; [lia| |lia]. pose proof (dig_spec n) as Hs.
  assert (dig n ≤ 53) as Hd.
  { destruct (Z.le_gt_cases (dig n) 53) as [|Hgt]; [done|].
    assert (2 ^ 53 ≤ 2 ^ (dig n - 1)) by (apply Z.pow_le_mono_r; lia). lia. }
  assert (0 < Zpos n * 2 ^ (53 - dig n)) as Hpos by nia.
  destruct (Zpos n * 2 ^ (53 - dig n)) as [|m|m] eqn:Em; [lia| |lia].
  exists m, (53 - dig n).
  assert (dig m = 53) as Hm by (rewrite (dig_scaled n m (53 - dig n)); lia).
  split_and!; [|done|done|lia|lia].
  unfold of_Z. replace (Zpos n) with (Zpos n * 2 ^ 0) by lia.
  replace 0 with (- (53 - dig n) + (53 - dig n) - 0) at 2 by lia.
  apply normalize_exact; lia.
Qed.

(** Taking one off a positive integer is exact. *)
Lemma fsub_one n : 0 < n < 2 ^ 53 → fsub (of_Z n) (of_Z 1) = of_Z (n - 1).
Proof.
  intros Hn. destruct (of_Z_finite n Hn) as (m & k & Ef & Em & Hd & Hk). rewrite Ef.
  change (of_Z 1) with (S754_finite false 4503599627370496 (-52)).
  unfold fsub, SFsub. replace (Z.min (- k) (-52)) with (-52) by lia.
  cbn [cond_Zopp]. change (fst (shl_align 4503599627370496 (-52) (-52))) with 4503599627370496%positive.
  assert (Zpos (fst (shl_align m (- k) (-52))) = n * 2 ^ 52) as ->.
  { unfold shl_align. destruct (-52 - - k) as [|d|d] eqn:Ed; cbn [fst]; [|lia|].
    - rewrite Em. f_equal. f_equal. lia.
    - rewrite iter_xO, Em, <-Z.mul_assoc, <-Z.pow_add_r by lia. f_equal. f_equal. lia. }
  replace (n * 2 ^ 52 - 4503599627370496) with ((n - 1) * 2 ^ 52) by lia.
  destruct (Z.eq_dec n 1) as [->|Hne]; [done|].
  destruct (of_Z_finite (n - 1)) as (m' & k' & -> & Em' & Hd' & Hk'); [lia|].
  replace (-52) with (- k' + k' - 52) by lia. apply normalize_exact; lia.
Qed.

(** [1 <= n], on integers and on floats. *)
(** Products of integers that stay below 2^53 are exact. *)
Lemma fmul_exact a b : 0 < a → 0 < b → a * b < 2 ^ 53 → fmul (of_Z a) (of_Z b) = of_Z (a * b).
Proof.
  intros Ha Hb Hab.
  destruct (of_Z_finite a) as (m1 & k1 & -> & E1 & D1 & K1); [nia|].
  destruct (of_Z_finite b) as (m2 & k2 & -> & E2 & D2 & K2); [nia|].
  destruct (of_Z_finite (a * b)) as (m & k & -> & E & D & K); [nia|].
  unfold fmul, SFmul. cbn [xorb].
  pose proof (dig_spec m1) as S1. pose proof (dig_spec m2) as S2. pose proof (dig_spec m) as S.
  rewrite D1 in S1. rewrite D2 in S2. rewrite D in S.
  assert (k ≤ k1 + k2) as Hk.
  { destruct (Z.le_gt_cases k (k1 + k2)) as [|Hgt]; [done|exfalso].
    assert (Zpos m = Zpos m1 * Zpos m2 * 2 ^ (k - (k1 + k2))) as Em.
    { rewrite E, E1, E2. replace k with (k1 + k2 + (k - (k1 + k2))) at 1 by lia.
      rewrite !Z.pow_add_r by lia. lia. }
    assert (1 ≤ 2 ^ (k - (k1 + k2))) by (apply (Z.pow_le_mono_r 2 0); lia). nia. }
  replace (- k1 + - k2) with (- k - (k1 + k2 - k)) by lia.
  apply round_aux_exact; [done|lia| |lia].
  rewrite Pos2Z.inj_mul, E, E1, E2. replace (k1 + k2) with (k + (k1 + k2 - k)) by lia.
  replace (a * 2 ^ k1 * (b * 2 ^ k2)) with (a * b * 2 ^ (k1 + k2)) by (rewrite Z.pow_add_r by lia; lia).
  replace (k1 + k2) with (k + (k1 + k2 - k)) at 1 by lia. rewrite Z.pow_add_r by lia.
  replace (k + (k1 + k2 - k) - k) with (k1 + k2 - k) by lia. lia.
Qed.

Lemma fleb_one n : 0 ≤ n < 2 ^ 53 → fleb (of_Z 1) (of_Z n) = (1 <=? n).
Proof.
  intros Hn. destruct (Z.eq_dec n 0) as [->|]; [done|].
  destruct (of_Z_finite n) as (m & k & -> & Em & Hd & Hk); [lia|].
  change (of_Z 1) with (S754_finite false 4503599627370496 (-52)).
  rewrite (proj2 (Z.leb_le _ _)) by lia. unfold fleb, SFleb, SFcompare.
  destruct (Z.compare_spec (-52) (- k)) as [E|?|?]; [|done|lia].
  assert (k = 52) as -> by lia. pose proof (dig_spec m) as Hs. rewrite Hd in Hs.
  assert (n = 1) as -> by lia. assert (m = 4503599627370496)%positive as -> by lia. done.
Qed.

(** ** Comparisons *)

Lemma pos_compare_lt_le a b c :
  (a ?= b)%positive = Lt → (b ?= c)%positive ≠ Gt → (a ?= c)%positive = Lt.
Proof. rewrite !Pos.compare_lt_iff, Pos.compare_le_iff. lia. Qed.

(** Comparing mantissas, as [SpecFloat] does it. *)
Lemma mantissa_cmp a b : PosDef.Pos.compare_cont Eq a b = (a ?= b)%positive.
Proof. done. Qed.

Lemma fltb_fleb_trans x y z : fltb x y = true → fleb y z = true → fltb x z = true.
Proof.
  unfold fltb, fleb, SFltb, SFleb, SFcompare.
  destruct x as [[]|[]| |[] m1 e1], y as [[]|[]| |[] m2 e2]; try done;
    destruct z as [[]|[]| |[] m3 e3]; try done.
  all: destruct (Z.compare_spec e1 e2), (Z.compare_spec e2 e3), (Z.compare_spec e1 e3);
    subst; try done; try lia.
  all: rewrite (mantissa_cmp m1 m2), (mantissa_cmp m2 m3), (mantissa_cmp m1 m3).
  - rewrite <-!Pos.compare_antisym. intros Hxy Hyz.
    destruct (m2 ?= m1)%positive eqn:E1; try done.
    assert ((m3 ?= m1)%positive = Lt) as ->; [|done]. apply Pos.compare_lt_iff.
    rewrite Pos.compare_lt_iff in E1. assert (m3 <= m2)%positive; [|lia].
    apply Pos.compare_le_iff. intros E. by rewrite E in Hyz.
  - intros Hxy Hyz. destruct (m1 ?= m2)%positive eqn:E1; try done.
    assert ((m1 ?= m3)%positive = Lt) as ->; [|done]. eapply pos_compare_lt_le; [exact E1|].
    intros E. by rewrite E in Hyz.
Qed.

Lemma fltb_irrefl x : fltb x x = false.
Proof.
  unfold fltb, SFltb, SFcompare. destruct x as [[]|[]| |[] m e]; try done;
    by rewrite Z.compare_refl, mantissa_cmp, Pos.compare_refl.
Qed.

(** A float of 53 bits and smaller exponent is smaller. *)
Lemma mantissa_order a b ma mb ka kb :
  dig ma = 53 → dig mb = 53 → Zpos ma = a * 2 ^ ka → Zpos mb = b * 2 ^ kb →
  0 ≤ kb < ka → 0 < b → a < b.
Proof.
  intros Ha Hb Ea Eb Hk Hb0. pose proof (dig_spec ma) as Sa. pose proof (dig_spec mb) as Sb.
  rewrite Ha in Sa. rewrite Hb in Sb.
  assert (2 ^ ka = 2 ^ kb * 2 ^ (ka - kb)) as Ek by (rewrite <-Z.pow_add_r by lia; f_equal; lia).
  assert (2 ≤ 2 ^ (ka - kb)) as H2 by (apply (Z.pow_le_mono_r 2 1 (ka - kb)); lia).
  assert (0 < 2 ^ kb) as H3 by lia. nia.
Qed.

Lemma fltb_of_Z a b : 0 ≤ a < 2 ^ 53 → 0 ≤ b < 2 ^ 53 → fltb (of_Z a) (of_Z b) = (a <? b).
Proof.
  intros Ha Hb. destruct (Z.eq_dec a 0) as [->|Ha0].
  { destruct (Z.eq_dec b 0) as [->|]; [done|].
    destruct (of_Z_finite b) as (m & k & -> & _); [lia|]. by rewrite (proj2 (Z.ltb_lt _ _)) by lia. }
  destruct (of_Z_finite a) as (ma & ka & -> & Ea & Da & Ka); [lia|].
  destruct (Z.eq_dec b 0) as [->|Hb0]; [by rewrite (proj2 (Z.ltb_ge _ _)) by lia|].
  destruct (of_Z_finite b) as (mb & kb & -> & Eb & Db & Kb); [lia|].
  unfold fltb, SFltb, SFcompare. rewrite mantissa_cmp.
  destruct (Z.compare_spec (- ka) (- kb)).
  - assert (ka = kb) as -> by lia. destruct (Pos.compare_spec ma mb);
      symmetry; first [apply Z.ltb_lt|apply Z.ltb_ge]; nia.
  - symmetry. apply Z.ltb_lt. eapply (mantissa_order a b ma mb ka kb); lia.
  - symmetry. apply Z.ltb_ge. assert (b < a); [|lia]. eapply (mantissa_order b a mb ma kb ka); lia.
Qed.

(** ** [strconv.ParseFloat] *)

(** The decimal [m * 10^e], correctly rounded. *)
Definition dec_float (neg : bool) (m e : Z) : float64 :=
  match m with
  | Zpos p =>
      if 0 <=? e then binary_normalize 53 1024 ((if neg then Z.opp else id) (m * 10 ^ e)) 0 neg
      else
        let '(q, e', l) := SFdiv_core_binary 53 1024 m 0 (10 ^ (- e)) 0 in
        binary_round_aux 53 1024 neg q e' l
  | _ => S754_zero neg
  end.

Definition no_digits (s : string) : bool := String.eqb s "".

(** An optional exponent: a sign and at least one digit. *)
Definition parse_exponent (s : string) : option Z :=
  match s with
  | EmptyString => Some 0
  | String c r =>
      if Ascii.eqb c "e" || Ascii.eqb c "E" then
        let '(sgn, body) := take_sign r in
        if no_digits body then None
        else (λ n, if String.eqb sgn "-" then - n else n) <$> digits 0 body
      else None
  end.

Section parse_float.
(** what the function makes of the other notations (hexadecimal, underscores, names) *)
Variable parse_other : string → option float64.

Definition parse_decimal (s : string) : option float64 :=
  let '(sgn, body) := take_sign s in
  let whole := digit_prefix body in
  let rest := strings.drop (String.length whole) body in
  let '(frac, rest) :=
    match rest with
    | String c r =>
        if Ascii.eqb c "." then (digit_prefix r, strings.drop (String.length (digit_prefix r)) r)
        else ("", rest)
    | EmptyString => ("", rest)
    end in
  if no_digits whole && no_digits frac then None
  else
    e ← parse_exponent rest;
    m ← digits 0 (whole +:+ frac);
    Some (dec_float (String.eqb sgn "-") m (e - Z.of_nat (String.length frac))).

(** A decimal out of range is an error. *)
Definition ParseFloat (s : string) : option float64 :=
  match parse_decimal s with
  | Some (S754_infinity _) => None
  | Some x => Some x
  | None => parse_other s
  end.

End parse_float.

Example ParseFloat_ex :
  ParseFloat (λ _, None) "100" = Some (of_Z 100) ∧
  ParseFloat (λ _, None) "0.5" = Some (fdiv (of_Z 1) (of_Z 2)) ∧
  ParseFloat (λ _, None) "-25e-1" = Some (fdiv (of_Z (-5)) (of_Z 2)) ∧
  ParseFloat (λ _, None) "1e400" = None ∧ ParseFloat (λ _, None) "12x" = None.
Proof. vm_compute. auto. Qed.
