(* ===== verification/RateLimit.v ===== *)
(** * The rate limiter of the REST transport ([internal/transport/rest/ratelimit.go])

    One token bucket of [float64] tokens per client address.  Times are nanosecond
    counts of the monotonic clock.  The operations of one bucket run under its mutex,
    so that a request is one step. *)

From Stdlib Require Import Ascii.
From Stdlib Require Import SpecFloat.
From S2P Require Import Prelude.
From S2P Require Import GoLib.
From S2P Require Import Float64.

Record tokenBucket : Type := MkBucket {
  tokens : float64;
  maxTokens : float64;
  refillRate : float64;
  lastRefill : Z
}.

Record ipRateLimiter : Type := MkLimiter {
  buckets : gmap string tokenBucket;
  rate : float64
}.

Definition newTokenBucket (rate : float64) (now : Z) : tokenBucket := MkBucket rate rate rate now.

(** [now.Sub(t)]: a duration saturates at the ends of its 64 bits. *)
Definition Sub (now t : Z) : Z := Z.max min_int (Z.min max_int (now - t)).

(** [tb.Allow()] at time [now] *)
Definition bucket_Allow (now : Z) (tb : tokenBucket) : bool * tokenBucket :=
  let elapsed := Seconds (Sub now (lastRefill tb)) in
  let filled := fadd (tokens tb) (fmul elapsed (refillRate tb)) in
  let capped := if fltb (maxTokens tb) filled then maxTokens tb else filled in
  if fleb (of_Z 1) capped
  then (true, MkBucket (fsub capped (of_Z 1)) (maxTokens tb) (refillRate tb) now)
  else (false, MkBucket capped (maxTokens tb) (refillRate tb) now).

Definition newIPRateLimiter (rate : float64) : ipRateLimiter := MkLimiter ∅ rate.

Definition getBucket (now : Z) (ip : string) (rl : ipRateLimiter) : tokenBucket * ipRateLimiter :=
  match buckets rl !! ip with
  | Some b => (b, rl)
  | None =>
      let b := newTokenBucket (rate rl) now in
      (b, MkLimiter (<[ip := b]> (buckets rl)) (rate rl))
  end.

(** [rl.Allow(ip)]; the bucket is shared with the map. *)
Definition Allow (now : Z) (ip : string) (rl : ipRateLimiter) : bool * ipRateLimiter :=
  let '(b, rl) := getBucket now ip rl in
  let '(ok, b) := bucket_Allow now b in
  (ok, MkLimiter (<[ip := b]> (buckets rl)) (rate rl)).

(** [1*time.Minute] *)
Definition idle_limit : Z := 60000000000.

(** One tick of [cleanupLoop]. *)
Definition cleanup (now : Z) (rl : ipRateLimiter) : ipRateLimiter :=
  MkLimiter (filter (λ '(ip, b), (idle_limit <? Sub now (lastRefill b))%Z = false) (buckets rl)) (rate rl).

Section env.
Context `{R : Runtime}.
Variable parse_other : string → option float64.

(** Zero: no rate limiting. *)
Definition getRateLimitFromEnv : float64 :=
  let val := getenv "TINYMQ_RATE_LIMIT" in
  if String.eqb val "" then of_Z 0
  else
    match ParseFloat parse_other val with
    | None => of_Z 0
    | Some rate => if fleb rate (of_Z 0) then of_Z 0 else rate
    end.

(** [realIP] is the request's [X-Real-IP] header. *)
Definition extractIP (realIP remoteAddr : string) : string :=
  if String.eqb (getenv "TINYMQ_TRUST_PROXY_HEADERS") "true" && negb (String.eqb realIP "")
  then realIP
  else
    match SplitHostPort remoteAddr with
    | None => remoteAddr
    | Some ip => ip
    end.

End env.

(** ** A sequence of requests *)

(** Each request is its time and its client; the answers in order. *)
Fixpoint requests (l : list (Z * string)) (rl : ipRateLimiter) : list bool * ipRateLimiter :=
  match l with
  | [] => ([], rl)
  | (now, ip) :: l' =>
      let '(ok, rl) := Allow now ip rl in
      let '(oks, rl) := requests l' rl in
      (ok :: oks, rl)
  end.

Definition bucket_of (ip : string) (now : Z) (rl : ipRateLimiter) : tokenBucket :=
  default (newTokenBucket (rate rl) now) (buckets rl !! ip).

Lemma Allow_alt now ip rl :
  Allow now ip rl =
  (let '(ok, b) := bucket_Allow now (bucket_of ip now rl) in
   (ok, MkLimiter (<[ip := b]> (buckets rl)) (rate rl))).
Proof.
  unfold Allow, getBucket, bucket_of. destruct (buckets rl !! ip) as [b|] eqn:E; simpl; [done|].
  destruct (bucket_Allow _ _) as [ok b]. simpl. by rewrite insert_insert_eq.
Qed.

(** *** Bursts *)

Lemma Allow_frozen now r k :
  (0 ≤ k ≤ r)%Z → (0 < r < 2 ^ 53)%Z →
  bucket_Allow now (MkBucket (of_Z k) (of_Z r) (of_Z r) now) =
  ((1 <=? k)%Z, MkBucket (of_Z (if (1 <=? k)%Z then k - 1 else k)%Z) (of_Z r) (of_Z r) now).
Proof.
  intros Hk Hr. unfold bucket_Allow. cbn [tokens maxTokens refillRate lastRefill].
  assert (Sub now now = 0)%Z as -> by (unfold Sub, min_int, max_int; lia).
  change (Seconds 0) with (S754_zero false).
  destruct (of_Z_finite r Hr) as (m & e & Er & Em & Hd & He).
  assert (fadd (of_Z k) (fmul (S754_zero false) (of_Z r)) = of_Z k) as ->.
  { rewrite Er. destruct (Z.eq_dec k 0%Z) as [->|]; [done|].
    destruct (of_Z_finite k) as (m' & e' & -> & _); [lia|]. done. }
  rewrite fltb_of_Z, (proj2 (Z.ltb_ge _ _)), fleb_one by lia.
  destruct (Z.leb_spec 1 k); [|done]. by rewrite fsub_one by lia.
Qed.

Lemma burst_from now ip r : ∀ n k rl,
  (0 < Z.of_nat r < 2 ^ 53)%Z → k ≤ r →
  bucket_of ip now rl = MkBucket (of_Z (Z.of_nat k)) (of_Z (Z.of_nat r)) (of_Z (Z.of_nat r)) now →
  (requests (replicate n (now, ip)) rl).1 = replicate (n `min` k) true ++ replicate (n - k) false.
Proof.
  induction n as [|n IH]; intros k rl Hr Hk Hb; [done|]. cbn [replicate requests].
  rewrite Allow_alt, Hb, Allow_frozen by lia.
  set (rl' := MkLimiter _ _).
  assert (∀ b, buckets rl' !! ip = Some b → bucket_of ip now rl' = b) as Hof
    by (intros b E; unfold bucket_of; by rewrite E).
  specialize (Hof _ (lookup_insert_eq _ _ _)).
  destruct k as [|k].
  - specialize (IH 0 rl' Hr Hk Hof). destruct (requests _ rl') as [oks rl2]. simpl in *.
    rewrite IH, Nat.min_0_r, Nat.sub_0_r. done.
  - change (1 <=? Z.of_nat (S k))%Z with (1 <=? Z.of_nat (S k))%Z in Hof.
    rewrite (proj2 (Z.leb_le 1 (Z.of_nat (S k)))) in Hof |- * by lia.
    replace (Z.of_nat (S k) - 1)%Z with (Z.of_nat k) in Hof by lia.
    specialize (IH k rl' Hr ltac:(lia) Hof). destruct (requests _ rl') as [oks rl2]. simpl in *.
    by rewrite IH.
Qed.

(** [C24] The burst a new client gets: with an integral rate [r], of any number of
    requests it sends at one instant exactly the first [r] are let through and all the
    others are refused; the arithmetic on [float64] loses no token. *)
Theorem limiter_burst now ip rl n r
    (Hr : (0 < Z.of_nat r < 2 ^ 53)%Z)
    (Hrate : rate rl = of_Z (Z.of_nat r)) (Hnew : buckets rl !! ip = None) :
  (requests (replicate n (now, ip)) rl).1 = replicate (n `min` r) true ++ replicate (n - r) false.
Proof.
  apply (burst_from now ip r n r rl); [done|done|]. unfold bucket_of. by rewrite Hnew, Hrate.
Qed.

Lemma limiter_burst_witness :
  (requests (replicate 5 (7%Z, "10.0.0.1")) (newIPRateLimiter (of_Z 3))).1 =
    replicate (5 `min` 3) true ++ replicate (5 - 3) false.
Proof. apply limiter_burst; [simpl; lia|reflexivity|reflexivity]. Defined.

(** *** Clients do not share tokens *)

Lemma Allow_others now ip ip' rl :
  ip ≠ ip' → buckets (Allow now ip rl).2 !! ip' = buckets rl !! ip' ∧ rate (Allow now ip rl).2 = rate rl.
Proof.
  intros Hne. rewrite Allow_alt. destruct (bucket_Allow _ _) as [ok b]. simpl.
  by rewrite lookup_insert_ne.
Qed.

(** Clients are limited separately: whatever requests other addresses make, at
    whatever times, the next request of an address gets the answer, and leaves the
    bucket, it would have had without them. *)
Theorem limiter_isolates l now ip rl (Hother : Forall (λ x, x.2 ≠ ip) l) :
  let rl' := (requests l rl).2 in
  (Allow now ip rl').1 = (Allow now ip rl).1 ∧
  buckets (Allow now ip rl').2 !! ip = buckets (Allow now ip rl).2 !! ip.
Proof.
  intros rl'. assert (bucket_of ip now rl' = bucket_of ip now rl) as Hb.
  { unfold rl'. clear rl'. revert rl. induction l as [|[t i] l IH]; intros rl; [done|].
    apply Forall_cons in Hother as [Hi Hl]. cbn [requests].
    destruct (Allow_others t i ip rl Hi) as [Hb Hr]. destruct (Allow t i rl) as [ok rl1]. simpl in *.
    specialize (IH Hl rl1). destruct (requests l rl1) as [oks rl2]. simpl in *. rewrite IH.
    unfold bucket_of. by rewrite Hb, Hr. }
  rewrite !Allow_alt, Hb. destruct (bucket_Allow _ _) as [ok b]. simpl. by rewrite !lookup_insert_eq.
Qed.

Lemma limiter_isolates_witness :
  let rl := newIPRateLimiter (of_Z 1) in
  let rl' := (requests [(5%Z, "10.0.0.2"); (6%Z, "10.0.0.2")] rl).2 in
  (Allow 7 "10.0.0.1" rl').1 = (Allow 7 "10.0.0.1" rl).1 ∧
  buckets (Allow 7 "10.0.0.1" rl').2 !! "10.0.0.1" = buckets (Allow 7 "10.0.0.1" rl).2 !! "10.0.0.1".
Proof. apply limiter_isolates. repeat constructor; discriminate. Defined.

(** *** Rates below one *)

Lemma denied_below_one now tb :
  fltb (maxTokens tb) (of_Z 1) = true → (bucket_Allow now tb).1 = false.
Proof.
  intros Hlt. unfold bucket_Allow. cbv zeta.
  set (filled := fadd _ _). destruct (fltb (maxTokens tb) filled) eqn:E.
  - destruct (fleb (of_Z 1) (maxTokens tb)) eqn:El; [|done].
    pose proof (fltb_fleb_trans _ _ _ Hlt El) as H. by rewrite fltb_irrefl in H.
  - destruct (fleb (of_Z 1) filled) eqn:El; [|done].
    pose proof (fltb_fleb_trans _ _ _ Hlt El). congruence.
Qed.

(** Every bucket holds at most the configured rate. *)
Definition uniform (rl : ipRateLimiter) : Prop :=
  map_Forall (λ _ b, maxTokens b = rate rl) (buckets rl).

Lemma uniform_bucket rl ip now : uniform rl → maxTokens (bucket_of ip now rl) = rate rl.
Proof.
  intros Hu. unfold bucket_of. destruct (buckets rl !! ip) eqn:E; [|done]. by apply (Hu _ _ E).
Qed.

Lemma uniform_Allow now ip rl : uniform rl → uniform (Allow now ip rl).2 ∧ rate (Allow now ip rl).2 = rate rl.
Proof.
  intros Hu. rewrite Allow_alt. destruct (bucket_Allow now (bucket_of ip now rl)) as [ok b] eqn:E.
  simpl. split; [|done]. intros i b' Hi. simpl in *. apply lookup_insert_Some in Hi as [[_ <-]|[_ Hi]];
    [|by apply (Hu _ _ Hi)].
  rewrite <-(uniform_bucket rl ip now Hu). unfold bucket_Allow in E. repeat case_match; by simplify_eq/=.
Qed.

(** A configured rate below one request per second does not slow clients down, it locks
    them out: the bucket can never hold a whole token, and every request is refused. *)
Theorem rate_below_one_denies r l :
  fltb r (of_Z 1) = true → Forall (λ ok, ok = false) (requests l (newIPRateLimiter r)).1.
Proof.
  intros Hr. assert (∀ rl, uniform rl → rate rl = r → Forall (λ ok, ok = false) (requests l rl).1) as Hgen.
  { induction l as [|[now ip] l IH]; intros rl Hu Hrl; [constructor|]. cbn [requests].
    destruct (uniform_Allow now ip rl Hu) as [Hu' Hr'].
    assert ((Allow now ip rl).1 = false) as Hno.
    { rewrite Allow_alt. pose proof (denied_below_one now (bucket_of ip now rl)) as Hd.
      rewrite uniform_bucket, Hrl in Hd by done. specialize (Hd Hr).
      by destruct (bucket_Allow _ _). }
    destruct (Allow now ip rl) as [ok rl']. simpl in *. specialize (IH rl' Hu' ltac:(congruence)).
    destruct (requests l rl'). simpl in *. by constructor. }
  by apply Hgen.
Qed.
