(* ===== verification/Frames.v ===== *)
(** * WebSocket frames

    Both ends of the framing code: the server's ([readPump] and [sendMessage] of
    [internal/transport/ws/client.go]) and the client library's ([writeFrame],
    [writePingFrame] and [readFrame] of [client/ws.go]), and what each end makes of
    the frames of the other.  Reading is a computation on the bytes not yet read. *)

From Stdlib Require Import Strings.Byte.
From S2P Require Import Prelude.
From S2P Require Import GoLib.

Local Open Scope Z_scope.

(** ** Big-endian integers and masking *)

(** [binary.BigEndian.Uint16], [Uint64], and the client's loop over the bytes *)
Definition BigEndian_Uint (b : bytes) : Z :=
  foldl (λ length x, Z.lor (Z.shiftl length 8) (byteZ x)) 0 b.

(** [PutUint16] and [PutUint64]: [n] bytes, the high ones first *)
Fixpoint BigEndian_Put (n : nat) (v : Z) : bytes :=
  match n with
  | O => []
  | S n' => Zbyte (Z.shiftr v (8 * Z.of_nat n')) :: BigEndian_Put n' v
  end.

Definition xor_byte (a b : byte) : byte := Zbyte (Z.lxor (byteZ a) (byteZ b)).

(** [payload[i] ^= maskKey[i%4]] for every [i] *)
Definition mask (maskKey payload : bytes) : bytes :=
  imap (λ i x, xor_byte x (nth (i `mod` 4)%nat maskKey x00)) payload.

(** [io.ReadFull(rw, b)] for a slice [b] of [n] bytes; [None] is an error, which has
    consumed what was left *)
Definition read_full (n : nat) : M bytes (option bytes) :=
  b ← get;
  if (length b <? n)%nat then modify (λ _, []) ;; mret None
  else modify (drop n) ;; mret (Some (take n b)).

(** ** The server *)

Definition opCodeText : Z := 1.
Definition opCodeClose : Z := 8.
Definition opCodePing : Z := 9.
Definition opCodePong : Z := 10.

(** What one round of [readPump] finds: the end of the session, a ping or a pong
    (only their two header bytes have been read), or a frame. *)
Inductive incoming : Type :=
| IBreak
| IPing
| IPong
| IFrame (opCode : Z) (payload : bytes).

Definition max_payload : Z := Z.shiftl 2 20.

(** The body of a frame whose length is known: the mask, [make([]byte, payloadLen)],
    the payload. *)
Definition read_body (limit : Z) (isMasked : bool) (payloadLen : Z) : M bytes (option bytes) :=
  if limit <? payloadLen then mret None
  else
    key ← (if isMasked then read_full 4 else mret (Some []));
    match key with
    | None => mret None
    | Some maskKey =>
        make_bytes payloadLen ;;
        body ← read_full (Z.to_nat payloadLen);
        match body with
        | None => mret None
        | Some payload => mret (Some (if isMasked then mask maskKey payload else payload))
        end
    end.

(** The extended length. *)
Definition read_length (len7 : Z) : M bytes (option Z) :=
  if len7 =? 126 then
    extLen ← read_full 2; mret (BigEndian_Uint <$> extLen)
  else if len7 =? 127 then
    extLen ← read_full 8; mret (BigEndian_Uint <$> extLen)
  else mret (Some len7).

(** The length and the body. *)
Definition read_payload (limit : Z) (isMasked : bool) (len7 : Z) : M bytes (option bytes) :=
  len ← read_length len7;
  match len with
  | None => mret None
  | Some payloadLen => read_body limit isMasked payloadLen
  end.

(** One round of [readPump]: what it finds. *)
Definition read_round : M bytes incoming :=
  header ← read_full 2;
  match header with
  | Some [h0; h1] =>
      let opCode := Z.land (byteZ h0) 15 in
      let isMasked := negb (Z.land (byteZ h1) 128 =? 0) in
      let payloadLen := Z.land (byteZ h1) 127 in
      if opCode =? opCodeClose then mret IBreak
      else if opCode =? opCodePing then mret IPing
      else if opCode =? opCodePong then mret IPong
      else
        body ← read_payload max_payload isMasked payloadLen;
        mret (match body with
              | Some payload => IFrame opCode payload
              | None => IBreak
              end)
  | _ => mret IBreak
  end.

(** What [sendMessage] writes, and [writePong]. *)
Definition length_header (mask_bit len : Z) : bytes :=
  if len <=? 125 then [Zbyte (Z.lor len mask_bit)]
  else if len <=? 65535 then Zbyte (Z.lor 126 mask_bit) :: BigEndian_Put 2 len
  else Zbyte (Z.lor 127 mask_bit) :: BigEndian_Put 8 len.

Definition server_frame (payload : bytes) : bytes :=
  Zbyte (Z.lor 128 opCodeText) :: length_header 0 (Z.of_nat (length payload)) ++ payload.
Definition pong_frame : bytes := [Zbyte (Z.lor 128 opCodePong); x00].

(** ** The client *)

Definition MaxFrameSize : Z := 16 * 1024 * 1024.

(** [writeFrame] and [writePingFrame] under the mask the client draws. *)
Definition client_frame (maskKey payload : bytes) : bytes :=
  x81 :: length_header 128 (Z.of_nat (length payload)) ++ maskKey ++ mask maskKey payload.
Definition ping_frame (maskKey : bytes) : bytes := x89 :: x80 :: maskKey.

(** [readFrame]: [None] is any of its errors. *)
Definition readFrame : M bytes (option (Z * bytes)) :=
  header ← read_full 2;
  match header with
  | Some [h0; b1] =>
      let opCode := Z.land (byteZ h0) 15 in
      let isMasked := negb (Z.land (byteZ b1) 128 =? 0) in
      body ← read_payload MaxFrameSize isMasked (Z.land (byteZ b1) 127);
      mret (match body with
            | Some payload => Some (opCode, payload)
            | None => None
            end)
  | _ => mret None
  end.

(** ** Lengths and masks read back *)

Lemma BigEndian_acc n v : ∀ acc,
  (0 ≤ acc)%Z → (0 ≤ v)%Z →
  foldl (λ length x, Z.lor (Z.shiftl length 8) (byteZ x)) acc (BigEndian_Put n v) =
  acc * 2 ^ (8 * Z.of_nat n) + v `mod` 2 ^ (8 * Z.of_nat n).
Proof.
  induction n as [|n IH]; intros acc Hacc Hv.
  { cbn. rewrite Z.mod_1_r. lia. }
  cbn [BigEndian_Put foldl].
  rewrite lor_shiftl_low by (lia || apply byteZ_range).
  rewrite IH by (pose proof (byteZ_range (Zbyte (v ≫ (8 * Z.of_nat n)))); lia).
  rewrite byteZ_Zbyte, Z.shiftr_div_pow2 by lia.
  set (p := 2 ^ (8 * Z.of_nat n)).
  assert (0 < p) as Hp by (unfold p; lia).
  replace (2 ^ (8 * Z.of_nat (S n))) with (p * 256)
    by (unfold p; rewrite Nat2Z.inj_succ, Z.mul_succ_r, Z.pow_add_r by lia; lia).
  rewrite Z.rem_mul_r by lia. change (2 ^ 8) with 256. lia.
Qed.

Lemma BigEndian_Uint_Put n v :
  0 ≤ v < 2 ^ (8 * Z.of_nat n) → BigEndian_Uint (BigEndian_Put n v) = v.
Proof. intros Hv. unfold BigEndian_Uint. rewrite BigEndian_acc by lia. rewrite Z.mod_small; lia. Qed.

Lemma BigEndian_Put_length n v : length (BigEndian_Put n v) = n.
Proof. induction n as [|n IH]; simpl; congruence. Qed.

Lemma xor_byte_twice x k : xor_byte (xor_byte x k) k = x.
Proof.
  apply byteZ_inj. unfold xor_byte. rewrite !byteZ_Zbyte.
  assert (∀ a b, 0 ≤ a < 256 → 0 ≤ b < 256 → Z.lxor a b `mod` 256 = Z.lxor a b) as Hsmall.
  { intros a b Ha Hb. change 256 with (2^8). rewrite <-Z.land_ones by lia. apply Z.bits_inj'.
    intros n Hn. rewrite Z.land_spec, Z.lxor_spec. destruct (decide (n < 8)).
    - rewrite Z.ones_spec_low by lia. by rewrite andb_true_r.
    - rewrite Z.ones_spec_high by lia. rewrite andb_false_r.
      assert (∀ c, 0 ≤ c < 256 → Z.testbit c n = false) as Hc.
      { intros c Hc. rewrite <-(Z.mod_small c (2^8)) by lia. apply Z.mod_pow2_bits_high. lia. }
      by rewrite !Hc. }
  pose proof (byteZ_range x). pose proof (byteZ_range k).
  rewrite (Hsmall (byteZ x) (byteZ k)) by done.
  rewrite Z.lxor_assoc, Z.lxor_nilpotent, Z.lxor_0_r. by apply Z.mod_small.
Qed.

Lemma mask_mask key payload : mask key (mask key payload) = payload.
Proof.
  apply list_eq. intros i. unfold mask. rewrite !list_lookup_imap.
  destruct (payload !! i); simpl; [|done]. by rewrite xor_byte_twice.
Qed.

Lemma mask_length key payload : length (mask key payload) = length payload.
Proof. apply length_imap. Qed.

Lemma read_full_app b rest : read_full (length b) (b ++ rest) = (Ret (Some b), rest).
Proof.
  unfold read_full, mbind, M_bind, get, modify. rewrite length_app.
  case_match eqn:E; [apply Nat.ltb_lt in E; lia|]. by rewrite take_app_length, drop_app_length.
Qed.

Lemma read_full_header h0 h1 b : read_full 2 (h0 :: h1 :: b) = (Ret (Some [h0; h1]), b).
Proof. exact (read_full_app [h0; h1] b). Qed.

(** The second header byte: seven bits of length under the mask bit. *)
Lemma header_byte l m :
  0 ≤ l < 128 → m = 0 ∨ m = 128 →
  Z.land (byteZ (Zbyte (Z.lor l m))) 127 = l ∧ (Z.land (byteZ (Zbyte (Z.lor l m))) 128 =? 0) = (m =? 0).
Proof.
  assert (forallb (λ k, forallb (λ m,
      let h := byteZ (Zbyte (Z.lor (Z.of_nat k) m)) in
      (Z.land h 127 =? Z.of_nat k) && Bool.eqb (Z.land h 128 =? 0) (m =? 0)) [0; 128])
    (seq 0 128) = true) as Hall by (vm_compute; reflexivity).
  rewrite forallb_forall in Hall. intros Hl Hm. specialize (Hall (Z.to_nat l)).
  rewrite forallb_forall in Hall. assert (In (Z.to_nat l) (seq 0 128)) as Hin by (apply in_seq; lia).
  assert (In m [0; 128]) as Hin' by (destruct Hm as [->| ->]; [by left|by right; left]).
  specialize (Hall Hin m Hin'). cbv beta zeta in Hall.
  rewrite Z2Nat.id in Hall by lia. by apply andb_true_iff in Hall as [?%Z.eqb_eq ?%eqb_prop].
Qed.

Lemma length_header_read m len rest :
  0 ≤ len < 2 ^ 63 → m = 0 ∨ m = 128 →
  ∃ h1 b', length_header m len ++ rest = h1 :: b' ∧ (Z.land (byteZ h1) 128 =? 0) = (m =? 0) ∧
    read_length (Z.land (byteZ h1) 127) b' = (Ret (Some len), rest).
Proof.
  intros Hlen Hm. unfold length_header.
  assert (∀ n v, read_full n (BigEndian_Put n v ++ rest) = (Ret (Some (BigEndian_Put n v)), rest)) as Hput.
  { intros n v. rewrite <-(BigEndian_Put_length n v) at 1. apply read_full_app. }
  repeat case_match; eexists _, _; (split; [done|]);
    [destruct (header_byte len m) as [-> ->]|destruct (header_byte 126 m) as [-> ->]|
     destruct (header_byte 127 m) as [-> ->]]; try (lia || done); (split; [done|]); unfold read_length.
  - rewrite !(proj2 (Z.eqb_neq _ _)) by lia. done.
  - cbn [Z.eqb Pos.eqb]. rewrite (run_bind _ _ _ _ _ (Hput 2%nat len)). cbn [fmap option_fmap option_map].
    rewrite BigEndian_Uint_Put; [done|]. change (2 ^ (8 * Z.of_nat 2)) with 65536. lia.
  - cbn [Z.eqb Pos.eqb]. rewrite (run_bind _ _ _ _ _ (Hput 8%nat len)). cbn [fmap option_fmap option_map].
    rewrite BigEndian_Uint_Put; [done|]. change (2 ^ (8 * Z.of_nat 8)) with (2 ^ 64). lia.
Qed.

Lemma read_body_masked limit key payload rest :
  length key = 4%nat → Z.of_nat (length payload) ≤ limit → limit ≤ maxAlloc →
  read_body limit true (Z.of_nat (length payload)) (key ++ mask key payload ++ rest) =
  (Ret (Some payload), rest).
Proof.
  intros Hk Hl Ha. unfold read_body. rewrite (proj2 (Z.ltb_ge _ _)) by lia. cbn iota.
  rewrite <-Hk, (run_bind _ _ _ _ _ (read_full_app key _)).
  rewrite (run_bind _ _ _ _ _ (returns_make _ (conj (Zle_0_nat _) (Z.le_trans _ _ _ Hl Ha)) _)).
  rewrite Nat2Z.id, <-(mask_length key), (run_bind _ _ _ _ _ (read_full_app _ _)).
  by rewrite mask_mask.
Qed.

Lemma read_body_plain limit payload rest :
  Z.of_nat (length payload) ≤ limit → limit ≤ maxAlloc →
  read_body limit false (Z.of_nat (length payload)) (payload ++ rest) = (Ret (Some payload), rest).
Proof.
  intros Hl Ha. unfold read_body. rewrite (proj2 (Z.ltb_ge _ _)) by lia. cbn iota.
  rewrite (run_bind (mret _) _ _ _ _ eq_refl).
  rewrite (run_bind _ _ _ _ _ (returns_make _ (conj (Zle_0_nat _) (Z.le_trans _ _ _ Hl Ha)) _)).
  by rewrite Nat2Z.id, (run_bind _ _ _ _ _ (read_full_app _ _)).
Qed.

(** ** The two ends together *)

(** What the client library writes, the server's loop reads. *)
Lemma client_frame_read key payload rest
    (Hkey : length key = 4%nat) (Hlen : Z.of_nat (length payload) ≤ max_payload) :
  read_round (client_frame key payload ++ rest) = (Ret (IFrame opCodeText payload), rest).
Proof.
  assert (max_payload ≤ maxAlloc < 2 ^ 63) as [Hmax Hmax'] by (by vm_compute).
  unfold client_frame. cbn [app]. rewrite <-!app_assoc.
  destruct (length_header_read 128 (Z.of_nat (length payload)) (key ++ mask key payload ++ rest))
    as (h1 & b' & -> & Hm & Hr); [lia|by right|].
  unfold read_round. rewrite (run_bind _ _ _ _ _ (read_full_header _ _ _)).
  change (Z.land (byteZ x81) 15) with 1. cbv zeta. cbn [opCodeClose opCodePing opCodePong Z.eqb Pos.eqb]. rewrite Hm. change (negb (128 =? 0)) with true.
  assert (read_payload max_payload true (Z.land (byteZ h1) 127) b' = (Ret (Some payload), rest)) as Hp.
  { unfold read_payload. rewrite (run_bind _ _ _ _ _ Hr). by apply read_body_masked. }
  by rewrite (run_bind _ _ _ _ _ Hp).
Qed.

(** What the server writes, the client library reads. *)
Lemma server_frame_read payload rest
    (Hlen : Z.of_nat (length payload) ≤ MaxFrameSize) :
  readFrame (server_frame payload ++ rest) = (Ret (Some (opCodeText, payload)), rest).
Proof.
  assert (MaxFrameSize ≤ maxAlloc < 2 ^ 63) as [Hmax Hmax'] by (by vm_compute).
  unfold server_frame. cbn [app]. rewrite <-!app_assoc.
  destruct (length_header_read 0 (Z.of_nat (length payload)) (payload ++ rest))
    as (h1 & b' & -> & Hm & Hr); [lia|by left|].
  unfold readFrame. rewrite (run_bind _ _ _ _ _ (read_full_header _ _ _)).
  cbv zeta. rewrite Hm. change (negb (0 =? 0)) with false.
  assert (read_payload MaxFrameSize false (Z.land (byteZ h1) 127) b' = (Ret (Some payload), rest)) as Hp.
  { unfold read_payload. rewrite (run_bind _ _ _ _ _ Hr). by apply read_body_plain. }
  by rewrite (run_bind _ _ _ _ _ Hp).
Qed.

(** The keepalive of the client library breaks the framing: its ping is masked, as
    the protocol demands, but the server stops after the two header bytes, and takes the
    four random mask bytes for the start of the next frame. *)
Theorem client_ping_desyncs key rest :
  read_round (ping_frame key ++ rest) = (Ret IPing, key ++ rest).
Proof. done. Qed.

(** A frame above the server's limit ends the session. *)
Theorem oversized_frame_closes key payload rest :
  length key = 4%nat → max_payload < Z.of_nat (length payload) < 2 ^ 63 →
  (read_round (client_frame key payload ++ rest)).1 = Ret IBreak.
Proof.
  intros Hkey Hlen. unfold client_frame. cbn [app]. rewrite <-!app_assoc.
  destruct (length_header_read 128 (Z.of_nat (length payload)) (key ++ mask key payload ++ rest))
    as (h1 & b' & -> & Hm & Hr); [lia|by right|].
  unfold read_round. rewrite (run_bind _ _ _ _ _ (read_full_header _ _ _)).
  change (Z.land (byteZ x81) 15) with 1. cbv zeta. cbn [opCodeClose opCodePing opCodePong Z.eqb Pos.eqb].
  assert (read_payload max_payload (negb (Z.land (byteZ h1) 128 =? 0)) (Z.land (byteZ h1) 127) b' =
    (Ret None, key ++ mask key payload ++ rest)) as Hp.
  { unfold read_payload. rewrite (run_bind _ _ _ _ _ Hr). unfold read_body.
    by rewrite (proj2 (Z.ltb_lt _ _)) by lia. }
  by rewrite (run_bind _ _ _ _ _ Hp).
Qed.

(** ** Reading never panics *)

(** Reading leaves at most what it found; the length of a [make] is checked first. *)
Definition shrinking {A} (c : M bytes A) : Prop :=
  ∀ b, wp c (λ _ b', length b' ≤ length b)%nat b.

Lemma shrinking_ret {A} (a : A) : shrinking (mret a).
Proof. intros b. apply wp_ret. lia. Qed.

Lemma shrinking_bind {A B} (c : M bytes A) (k : A → M bytes B) :
  shrinking c → (∀ a, shrinking (k a)) → shrinking (c ≫= k).
Proof.
  intros Hc Hk b. apply wp_bind. eapply wp_mono; [apply Hc|]. intros a b' Hb.
  eapply wp_mono; [apply Hk|]. intros. simpl in *. lia.
Qed.

Lemma shrinking_read_full n : shrinking (read_full n).
Proof.
  intros b. apply wp_bind, wp_get. case_match; apply wp_bind, wp_modify, wp_ret; simpl; [lia|].
  rewrite length_drop. lia.
Qed.

Lemma shrinking_returns {A B} (c : M bytes A) (k : A → M bytes B) a :
  returns c a → shrinking (k a) → shrinking (c ≫= k).
Proof. intros Hc Hk b. unfold wp. rewrite (run_bind _ _ _ _ _ (Hc b)). apply Hk. Qed.

Lemma shrinking_read_body limit m n : limit ≤ maxAlloc → 0 ≤ n → shrinking (read_body limit m n).
Proof.
  intros Hl Hn. unfold read_body. destruct (Z.ltb_spec limit n); [apply shrinking_ret|].
  apply shrinking_bind; [destruct m; auto using shrinking_read_full, shrinking_ret|].
  intros [key|]; [|apply shrinking_ret]. eapply shrinking_returns; [apply returns_make; lia|].
  apply shrinking_bind; [apply shrinking_read_full|]. intros [body|]; apply shrinking_ret.
Qed.

Lemma BigEndian_Uint_nonneg b : 0 ≤ BigEndian_Uint b.
Proof.
  unfold BigEndian_Uint.
  enough (∀ acc, 0 ≤ acc → 0 ≤ foldl (λ length x, Z.lor (Z.shiftl length 8) (byteZ x)) acc b) as Hf
    by by apply Hf.
  induction b as [|x b IH]; intros acc Hacc; [done|]. simpl. apply IH.
  apply Z.lor_nonneg. split; [by apply Z.shiftl_nonneg|apply byteZ_range].
Qed.

(** A length is read without going below zero, and without running away. *)
Lemma frame_length_bounds len7 b :
  0 ≤ len7 → wp (read_length len7) (λ len b', (length b' ≤ length b)%nat ∧
    ∀ n, len = Some n → 0 ≤ n) b.
Proof.
  intros H7. unfold read_length.
  assert (∀ k, wp (extLen ← read_full k; mret (BigEndian_Uint <$> extLen)) (λ len b',
    (length b' ≤ length b)%nat ∧ ∀ n, len = Some n → 0 ≤ n) b) as Hext.
  { intros k. apply wp_bind. eapply wp_mono; [apply shrinking_read_full|]. intros r b' Hb.
    apply wp_ret. split; [done|]. intros n. destruct r; [|done]. simpl. intros [= <-].
    apply BigEndian_Uint_nonneg. }
  case_match; [apply Hext|]. case_match; [apply Hext|]. apply wp_ret. split; [done|].
  by intros n [= <-].
Qed.

Lemma shrinking_read_payload limit m len7 :
  limit ≤ maxAlloc → 0 ≤ len7 → shrinking (read_payload limit m len7).
Proof.
  intros Hl H7 b. unfold read_payload. apply wp_bind.
  eapply wp_mono; [by apply frame_length_bounds|]. intros [n|] b' [Hb Hn]; [|by apply wp_ret].
  eapply wp_mono; [by apply shrinking_read_body, Hn|]. intros. simpl in *. lia.
Qed.

(** A round that does not end the session has read at least two bytes. *)
Lemma read_round_progress b :
  wp read_round (λ found b', found ≠ IBreak → (length b' + 2 ≤ length b)%nat) b.
Proof.
  unfold read_round. destruct b as [|h0 [|h1 b]]; [by intros []..|]. apply wp_bind.
  eapply wp_of_run; [apply read_full_header|]. cbv beta iota zeta.
  destruct (_ =? opCodeClose); [by intros []|].
  destruct (_ =? opCodePing); [intros _; simpl; lia|].
  destruct (_ =? opCodePong); [intros _; simpl; lia|]. apply wp_bind.
  eapply wp_mono; [apply shrinking_read_payload; [by vm_compute|]|].
  - apply Z.land_nonneg. by right.
  - intros r b' Hb. apply wp_ret. intros _. simpl in *. lia.
Qed.

(** Nor does the client's reader panic; a frame it returns has been read. *)
Lemma readFrame_progress b :
  wp readFrame (λ r b', r ≠ None → (length b' + 2 ≤ length b)%nat) b.
Proof.
  unfold readFrame. destruct b as [|h0 [|h1 b]]; [by intros []..|]. apply wp_bind.
  eapply wp_of_run; [apply read_full_header|]. cbv beta iota zeta. apply wp_bind.
  eapply wp_mono; [apply shrinking_read_payload; [by vm_compute|]|].
  - apply Z.land_nonneg. by right.
  - intros r b' Hb. apply wp_ret. intros _. simpl in *. lia.
Qed.

(** A read that succeeds does not look beyond what it takes: more bytes behind change
    nothing. *)
Definition extends {A} (c : M bytes (option A)) : Prop :=
  ∀ b a b' more, c b = (Ret (Some a), b') → c (b ++ more) = (Ret (Some a), b' ++ more).

Lemma extends_read_full n : extends (read_full n).
Proof.
  intros b a b' more. unfold read_full, mbind, M_bind, get, modify. rewrite length_app.
  destruct (Nat.ltb_spec (length b) n); [done|]. intros [= <- <-].
  rewrite (proj2 (Nat.ltb_ge _ _)) by lia. by rewrite take_app_le, drop_app_le by lia.
Qed.

(** Chaining two reads, the second of which depends on what the first found. *)
Lemma extends_bind {A B} (c : M bytes (option A)) (k : option A → M bytes (option B)) :
  extends c → k None = mret None → (∀ a, extends (k (Some a))) → extends (c ≫= k).
Proof.
  intros Hc Hn Hk b x b' more (r & b1 & Hr & Hrun)%run_bind_inv.
  destruct r as [a|]; [|by rewrite Hn in Hrun].
  rewrite (run_bind _ _ _ _ _ (Hc _ _ _ more Hr)). by apply Hk.
Qed.

Lemma extends_ret {A} (r : option A) : extends (mret r).
Proof. by intros b a b' more [= -> <-]. Qed.

Lemma extends_read_body limit m n : extends (read_body limit m n).
Proof.
  unfold read_body. destruct (limit <? n); [apply extends_ret|].
  apply extends_bind; [destruct m; [apply extends_read_full|apply extends_ret]|done|].
  intros key b a b' more ([] & b1 & Hmake & Hrun)%run_bind_inv.
  assert (returns (S:=bytes) (make_bytes n) ()) as Hret.
  { unfold make_bytes in *. by destruct (_ && _). }
  rewrite Hret in Hmake. injection Hmake as <-. rewrite (run_bind _ _ _ _ _ (Hret _)). revert Hrun.
  apply extends_bind; [apply extends_read_full|done|]. intros p. apply extends_ret.
Qed.

Lemma extends_read_length len7 : extends (read_length len7).
Proof.
  unfold read_length. destruct (len7 =? 126); [|destruct (len7 =? 127); [|apply extends_ret]];
    (apply extends_bind; [apply extends_read_full|done|]; intros; apply extends_ret).
Qed.

Lemma readFrame_extends b fr b' more :
  readFrame b = (Ret (Some fr), b') → readFrame (b ++ more) = (Ret (Some fr), b' ++ more).
Proof.
  enough (extends readFrame) as He by apply He. unfold readFrame.
  apply extends_bind; [apply extends_read_full|done|]. intros h.
  repeat (case_match; try apply extends_ret). cbv zeta.
  apply extends_bind; [|done|intros; apply extends_ret]. unfold read_payload.
  apply extends_bind; [apply extends_read_length|done|]. intros len. apply extends_read_body.
Qed.

(** [C22] The two ends of the framing agree.  Every text frame the client library writes,
    whatever its payload (up to the server's two megabytes) and its random mask, is read
    back by the server's loop with exactly that payload; every message the server sends
    (up to the client's sixteen megabytes) is read back by [readFrame]; and in both
    directions the reader stops at the first byte after the frame, so that the three
    length encodings and the masking agree on any stream of frames. *)
Theorem ws_frames_agree key payload rest (Hkey : length key = 4%nat) :
  (Z.of_nat (length payload) ≤ max_payload →
   read_round (client_frame key payload ++ rest) = (Ret (IFrame opCodeText payload), rest)) ∧
  (Z.of_nat (length payload) ≤ MaxFrameSize →
   readFrame (server_frame payload ++ rest) = (Ret (Some (opCodeText, payload)), rest)).
Proof. split; intros; [by apply client_frame_read|by apply server_frame_read]. Qed.

Lemma ws_frames_agree_witness :
  length [x01; x02; x03; x04] = 4%nat ∧ Z.of_nat (length (replicate 300 x61)) ≤ max_payload ∧
  (read_round (client_frame [x01; x02; x03; x04] (replicate 300 x61) ++ [x88]) =
    (Ret (IFrame opCodeText (replicate 300 x61)), [x88])) ∧
  (Z.of_nat (length (replicate 300 x61)) ≤ MaxFrameSize →
   readFrame (server_frame (replicate 300 x61) ++ [x88]) = (Ret (Some (opCodeText, replicate 300 x61)), [x88])).
Proof.
  destruct (ws_frames_agree [x01; x02; x03; x04] (replicate 300 x61) [x88] eq_refl) as [H1 H2].
  split_and!; [reflexivity|vm_compute; discriminate|apply H1; vm_compute; discriminate|exact H2].
Defined.
