(* ===== verification/Ws.v ===== *)
(** * The WebSocket transport ([internal/transport/ws])

    One client connection on top of the frames of [Frames.v]: the handshake of
    [server.go], the command loop [readPump] and [handleCommand] of [client.go], the
    goroutine that forwards a subscription's messages as the step [forward], and the
    set of connected clients of the hub.  [encoding/json] and SHA-1 are parameters. *)

From Stdlib Require Import Ascii.
From Stdlib Require Import Strings.Byte.
From S2P Require Import Prelude.
From S2P Require Import GoLib.
From S2P Require Import Base64.
From S2P Require Import Message.
From S2P Require Import Wal.
From S2P Require Import Broker.
From S2P Require Import Helper.
From S2P Require Import Frames.

Record WSCommand : Type := MkCommand {
  cmd_Action : string; cmd_Topic : string; cmd_Payload : string;
  cmd_FilterKey : string; cmd_FilterVal : string
}.

Record wsResponse : Type := MkResponse {
  resp_Status : string; resp_Message : string; resp_Topic : string
}.

(** ** The connection *)

Record Client (St : Type) : Type := MkClient {
  spies : gmap string nat;
  (** the frames written, and how many writes were attempted *)
  out : list bytes;
  writes : nat;
  (** what the client sent and the server has not read *)
  rw : bytes;
  (** [close(c.done)] *)
  done : bool;
  (** [c.mu] is held *)
  mu : bool;
  (** [hub.clients] *)
  clients : gset nat;
  world : World St
}.
Arguments MkClient {_} _ _ _ _ _ _ _ _. Arguments mu {_} _.
Arguments spies {_} _. Arguments out {_} _. Arguments writes {_} _. Arguments rw {_} _.
Arguments done {_} _. Arguments clients {_} _. Arguments world {_} _.

Section client_updates.
Context {St : Type}.
Implicit Types c : Client St.

Definition set_spies (x : gmap string nat) c : Client St :=
  MkClient x (out c) (writes c) (rw c) (done c) (mu c) (clients c) (world c).
Definition set_out (x : list bytes) (n : nat) c : Client St :=
  MkClient (spies c) x n (rw c) (done c) (mu c) (clients c) (world c).
Definition set_rw (x : bytes) c : Client St :=
  MkClient (spies c) (out c) (writes c) x (done c) (mu c) (clients c) (world c).
Definition set_done (x : bool) c : Client St :=
  MkClient (spies c) (out c) (writes c) (rw c) x (mu c) (clients c) (world c).
Definition set_mu (x : bool) c : Client St :=
  MkClient (spies c) (out c) (writes c) (rw c) (done c) x (clients c) (world c).
Definition set_clients (x : gset nat) c : Client St :=
  MkClient (spies c) (out c) (writes c) (rw c) (done c) (mu c) x (world c).
Definition set_world (x : World St) c : Client St :=
  MkClient (spies c) (out c) (writes c) (rw c) (done c) (mu c) (clients c) x.

End client_updates.

(** What the transport uses of [encoding/json]. *)
Class Codec : Type := {
  json_command : bytes → option WSCommand;
  json_response : wsResponse → bytes;
  json_message : Message → bytes;
  (** the members of a JSON object, printed with [%v] *)
  json_fields : bytes → option (gmap string string)
}.

Section session.
Context `{R : Runtime} {St : Type} `{Storage St} `{C : Codec}.
(** which writes to the socket fail *)
Variable broken : nat → bool.
Abbreviation MW := (M (Client St)).

Definition call {A} (op : M (World St) A) : MW A := zoom world set_world op.

(** [c.rw.Write] and [c.rw.Flush] of one frame *)
Definition conn_write (frame : bytes) : MW error :=
  c ← get;
  if broken (writes c) then
    modify (λ c, set_out (out c) (S (writes c)) c) ;; mret (Some "write failed")
  else
    modify (λ c, set_out (out c ++ [frame]) (S (writes c)) c) ;; mret None.

(** The common end of [sendMessage] and [writePong], under [c.mu]. *)
Definition write (frame : bytes) : MW error :=
  mutex_lock mu set_mu ;;
  err ← conn_write frame;
  mutex_unlock mu set_mu ;;
  mret err.

Definition sendMessage (data : bytes) : MW error := write (server_frame data).
Definition writePong : MW unit := write pong_frame ;; mret ().
Definition sendJSON (resp : wsResponse) : MW unit := sendMessage (json_response resp) ;; mret ().
Definition sendError (msg : string) : MW unit := sendJSON (MkResponse "error" msg "").

Definition handleCommand (now : Z) (raw : bytes) : MW unit :=
  match json_command raw with
  | None => sendError "invalid json format"
  | Some cmd =>
      if String.eqb (cmd_Action cmd) "ping" then sendJSON (MkResponse "pong" "" "")
      else if String.eqb (cmd_Action cmd) "publish" then
        if String.eqb (cmd_Topic cmd) "" then sendError "topic required"
        else
          err ← call (Publish now (cmd_Topic cmd) (bytes_of_string (cmd_Payload cmd)) ∅ "normal"
                        None None false);
          match err with
          | Some e => sendError e
          | None => sendJSON (MkResponse "published" "" (cmd_Topic cmd))
          end
      else if String.eqb (cmd_Action cmd) "subscribe" then
        if String.eqb (cmd_Topic cmd) "" then sendError "topic required"
        else
          mutex_lock mu set_mu ;;
          c ← get;
          match spies c !! cmd_Topic cmd with
          | Some _ => mutex_unlock mu set_mu ;; sendError "already subscribed to this topic"
          | None =>
              mutex_unlock mu set_mu ;;
              r ← call (AddSpy (cmd_Topic cmd));
              match r with
              | inl e => sendError e
              | inr spyChan =>
                  mutex_lock mu set_mu ;;
                  modify (λ c, set_spies (<[cmd_Topic cmd := spyChan]> (spies c)) c) ;;
                  mutex_unlock mu set_mu ;;
                  sendJSON (MkResponse "subscribed" "" (cmd_Topic cmd))
              end
          end
      else sendError "unknown action"
  end.

(** One message through the goroutine of a subscription. *)
Definition forward (filterKey filterVal : string) (ch : nat) : MW unit :=
  om ← call (try_recv ch);
  match om with
  | None => mret ()
  | Some msg =>
      if negb (String.eqb filterKey "") &&
         negb (MatchJSONFilter json_fields (Payload msg) filterKey filterVal)
      then mret ()
      else sendMessage (json_message msg) ;; mret ()
  end.

(** The loop of [readPump]; every round that goes on has read two bytes. *)
Fixpoint read_loop (fuel : nat) (now : Z) : MW unit :=
  match fuel with
  | O => deadlock
  | S fuel' =>
      found ← zoom rw set_rw read_round;
      match found with
      | IBreak => mret ()
      | IPing => writePong ;; read_loop fuel' now
      | IPong => read_loop fuel' now
      | IFrame opCode payload =>
          (if (opCode =? opCodeText)%Z then handleCommand now payload else mret ()) ;;
          read_loop fuel' now
      end
  end.

Definition AddClient (me : nat) : MW unit := modify (λ c, set_clients ({[me]} ∪ clients c) c).
Definition RemoveClient (me : nat) : MW unit :=
  modify (λ c, set_clients (clients c ∖ {[me]}) c).
Definition ActiveClientCount : MW Z := gets (λ c, Z.of_nat (size (clients c))).

(** [close(c.done)] *)
Definition close_done : MW unit :=
  c ← get;
  if done c then panic "close of closed channel" else modify (set_done true).

(** The deferred clean-up, which runs under [c.mu]. *)
Definition clean_up (me : nat) : MW unit :=
  close_done ;;
  mutex_lock mu set_mu ;;
  c ← get;
  forM_ (λ '(topic, ch), call (RemoveSpy topic ch)) (map_range (map_to_list (spies c))) ;;
  mutex_unlock mu set_mu ;;
  RemoveClient me.

(** [readPump] of the client [me] on the bytes it sends until it stops. *)
Definition readPump (me : nat) (now : Z) (input : bytes) : MW unit :=
  modify (set_rw input) ;;
  read_loop (S (length input)) now ;;
  clean_up me.

End session.

(** ** The handshake *)

Definition wsMagicString : string := "258EAFA5-E914-47DA-95CA-C5AB0DC85B11".

Definition crlf : string := String "013" (String "010" "").

(** What [HandleWS] answers: an HTTP error, a dropped connection, or the switch. *)
Inductive handshake : Type :=
| HRefused (status : Z) (msg : string)
| HDropped
| HSwitched (response : string).

Section handshake.
Context {St : Type}.
Variable sha1 : bytes → bytes.

Definition switch_response (clientKey : string) : string :=
  let acceptKey := EncodeToString (sha1 (bytes_of_string (clientKey +:+ wsMagicString))) in
  "HTTP/1.1 101 Switching Protocols" +:+ crlf +:+ "Upgrade: websocket" +:+ crlf +:+
  "Connection: Upgrade" +:+ crlf +:+ "Sec-WebSocket-Accept: " +:+ acceptKey +:+ crlf +:+ crlf.

(** [&Client{hub: s, ...}]: nothing read, written or subscribed yet *)
Definition new_client : M (Client St) unit :=
  modify (λ c, MkClient ∅ [] 0 [] false false (clients c) (world c)).

(** [header] is [r.Header.Get]; [hijack] what taking over the connection gives:
    [None] when the server cannot, [Some (Some e)] an error; [written] whether the
    response could be written.  A client that is let in gets the name [me]. *)
Definition HandleWS (header : string → string) (hijack : option error) (written : bool)
    (me : nat) : M (Client St) handshake :=
  if negb (String.eqb (header "Upgrade") "websocket")
  then mret (HRefused 400 "Requires WebSocket protocol")
  else
    let clientKey := header "Sec-WebSocket-Key" in
    if String.eqb clientKey "" then mret (HRefused 400 "Missing Sec-WebSocket-Key")
    else
      match hijack with
      | None => mret (HRefused 500 "Server does not support connection hijacking")
      | Some (Some e) => mret (HRefused 500 e)
      | Some None =>
          if written then
            new_client ;; AddClient me ;; mret (HSwitched (switch_response clientKey))
          else mret HDropped
      end.

End handshake.

(** A connection from the request to its end: the handshake, and for a client that was
    let in [go client.readPump()]. *)
Definition connection `{R : Runtime} {St : Type} `{Storage St} `{C : Codec}
    (sha1 : bytes → bytes) (broken : nat → bool) (header : string → string)
    (hijack : option error) (written : bool) (me : nat) (now : Z) (input : bytes)
    : M (Client St) handshake :=
  h ← HandleWS sha1 header hijack written me;
  match h with
  | HSwitched _ => readPump broken me now input ;; mret h
  | _ => mret h
  end.

(** A hub without clients, and its first connection. *)
Definition new_hub {St} (w : World St) : Client St := MkClient ∅ [] 0 [] false false ∅ w.
