(* ===== verification/WsProps.v ===== *)
(** * What the WebSocket transport guarantees *)

From Stdlib Require Import Ascii.
From Stdlib Require Import Strings.Byte.
From S2P Require Import Prelude.
From S2P Require Import GoLib.
From S2P Require Import Message.
From S2P Require Import Wal.
From S2P Require Import Storage.
From S2P Require Import Codec.
From S2P Require Import Demo.
From S2P Require Import Broker.
From S2P Require Import BrokerSteps.
From S2P Require Import BrokerSafe.
From S2P Require Import BrokerOps.
From S2P Require Import BrokerSafety.
From S2P Require Import BrokerPublish.
From S2P Require Import Helper.
From S2P Require Import Frames.
From S2P Require Import Ws.

Section session.
Context `{R : Runtime} {St : Type} `{Storage St} `{!StorageSafe St} `{C : Ws.Codec}.
Context (HR : RuntimeLaws R).
Variable broken : nat → bool.
Implicit Types c : Client St.

(** The broker is consistent, the client's mutex is free, [done] is not closed, and [n]
    bytes at most are unread; the hub's clients are [cs]. *)
Definition calm (cs : gset nat) (n : nat) c : Prop :=
  wf (world c) ∧ mu c = false ∧ done c = false ∧ clients c = cs ∧ length (rw c) ≤ n.

(** The same while the mutex is held. *)
Definition busy (cs : gset nat) (n : nat) c : Prop :=
  wf (world c) ∧ mu c = true ∧ done c = false ∧ clients c = cs ∧ length (rw c) ≤ n.

Context (cs : gset nat).

Lemma calm_call {A} n (op : M (World St) A) (Q : A → World St → Prop) :
  (∀ w, wf w → step op w Q) → stable (calm cs n) (call op).
Proof.
  intros Hop. apply stable_zoom. intros c (Hc & Hrest).
  eapply wpx_mono; [by apply Hop| |done]. by intros a w (? & _).
Qed.

(** A section under the mutex. *)
Lemma calm_locked {A} n (op : M (Client St) A) :
  stable (busy cs n) op →
  stable (calm cs n) (mutex_lock mu set_mu ;; a ← op; mutex_unlock mu set_mu ;; mret a).
Proof.
  intros Hop c (Hc & Hm & Hd & Hcs & Hn). apply wpx_bind, wpx_mutex_lock; [done|]. apply wpx_bind.
  eapply wpx_mono; [by apply Hop| |done]. intros a c' (? & Hm' & ? & ? & ?).
  apply wpx_bind, wpx_mutex_unlock; [done|]. by apply wpx_ret.
Qed.

Lemma calm_write n frame : stable (calm cs n) (write broken frame).
Proof. apply calm_locked. unfold conn_write. stable_steps; by apply stable_modify. Qed.

Lemma calm_RemoveSpy n topic ch : stable (calm cs n) (call (St:=St) (RemoveSpy topic ch)).
Proof. eapply calm_call. intros w. by apply step_RemoveSpy. Qed.

Lemma calm_AddSpy n topic : stable (calm cs n) (call (St:=St) (AddSpy topic)).
Proof. eapply calm_call. intros w. by apply step_AddSpy. Qed.

Lemma calm_Publish n now topic payload :
  stable (calm cs n) (call (Publish now topic payload ∅ "normal" None None false)).
Proof. eapply calm_call. intros w. by apply step_publishCore. Qed.

Lemma calm_try_recv n ch : stable (calm cs n) (call (St:=St) (try_recv ch)).
Proof. eapply calm_call. intros w. by apply step_try_recv. Qed.

#[local] Hint Resolve calm_write calm_RemoveSpy calm_AddSpy calm_Publish calm_try_recv : tmq.

Lemma calm_sendJSON n resp : stable (calm cs n) (sendJSON broken resp).
Proof. unfold sendJSON, sendMessage. stable_steps. Qed.
#[local] Hint Resolve calm_sendJSON : tmq.

(** The two short sections of a subscription: a look at the map, and an entry in it. *)
Lemma calm_subscribed {A} n topic (k1 k2 : M (Client St) A) :
  stable (calm cs n) k1 → stable (calm cs n) k2 →
  stable (calm cs n) (mutex_lock mu set_mu ;; c ← get;
    match spies c !! topic with
    | Some _ => mutex_unlock mu set_mu ;; k1
    | None => mutex_unlock mu set_mu ;; k2
    end).
Proof.
  intros H1 H2 c (Hc & Hm & Hd & Hcs & Hn). apply wpx_bind, wpx_mutex_lock; [done|].
  apply wpx_bind, wpx_get.
  case_match; (apply wpx_bind, wpx_mutex_unlock; [done|]); [by apply H1|by apply H2].
Qed.

Lemma calm_note_spy {A} n f (k : M (Client St) A) :
  stable (calm cs n) k →
  stable (calm cs n) (mutex_lock mu set_mu ;; modify (λ c, set_spies (f c) c) ;;
    mutex_unlock mu set_mu ;; k).
Proof.
  intros Hk c (Hc & Hm & Hd & Hcs & Hn). apply wpx_bind, wpx_mutex_lock; [done|].
  apply wpx_bind, wpx_modify, wpx_bind, wpx_mutex_unlock; [done|]. by apply Hk.
Qed.

Lemma calm_handleCommand n now raw : stable (calm cs n) (handleCommand broken now raw).
Proof.
  unfold handleCommand, sendError. destruct (json_command raw) as [cmd|]; [|stable_steps].
  case_match; [stable_steps|]. case_match; [stable_steps|]. case_match; [|stable_steps].
  case_match; [stable_steps|]. apply calm_subscribed; [stable_steps|].
  apply stable_bind; [auto with tmq|]. intros [e|ch]; [stable_steps|].
  apply calm_note_spy. stable_steps.
Qed.

Lemma calm_forward n fk fv ch : stable (calm cs n) (forward broken fk fv ch).
Proof. unfold forward, sendMessage. stable_steps. Qed.

Lemma read_loop_sound now fuel : ∀ n c,
  calm cs n c → n < fuel → wps (read_loop broken fuel now) (λ _ c', ∃ k, calm cs k c') c.
Proof.
  induction fuel as [|fuel IH]; intros n c Hc Hf; [lia|]. cbn [read_loop].
  destruct Hc as (Hw & Hm & Hd & Hcs & Hn). apply wpx_bind, wpx_zoom.
  pose proof (read_round_progress (rw c)) as Hround. unfold wp in Hround. unfold wpx at 1.
  destruct (read_round (rw c)) as [[found|?| |] rest]; try done.
  assert (∀ op : M (Client St) unit, found ≠ IBreak → (∀ n, stable (calm cs n) op) →
    wps (op ;; read_loop broken fuel now) (λ _ c', ∃ k, calm cs k c') (set_rw rest c)) as Hgo.
  { intros op Hne Hop. specialize (Hround Hne). apply wpx_bind.
    eapply wpx_mono; [apply (Hop (n - 2)); split_and!; [done..|simpl; lia]| |done].
    intros [] c' Hc'. apply (IH (n - 2)); [done|lia]. }
  destruct found as [| | |op payload].
  - exists (length rest). by split_and!.
  - apply Hgo; [done|]. intros k. unfold writePong. stable_steps.
  - change (wps (mret () ;; read_loop broken fuel now) (λ _ c', ∃ k, calm cs k c') (set_rw rest c)).
    apply Hgo; [done|]. intros k. stable_steps.
  - apply Hgo; [done|]. intros k. case_match; [apply calm_handleCommand|stable_steps].
Qed.

Lemma clean_up_sound me k c :
  calm cs k c → wps (clean_up me) (λ _ c',
    wf (world c') ∧ mu c' = false ∧ done c' = true ∧ clients c' = cs ∖ {[me]}) c.
Proof.
  intros (Hw & Hm & Hd & Hcs & _). unfold clean_up, close_done.
  apply wpx_bind, wpx_bind, wpx_get. rewrite Hd. apply wpx_modify.
  apply wpx_bind, wpx_mutex_lock; [done|]. apply wpx_bind, wpx_get, wpx_bind.
  eapply wpx_mono with (E := λ _, True)
    (Q := λ _ c', wf (world c') ∧ mu c' = true ∧ done c' = true ∧ clients c' = cs); [|..|done].
  - apply (wpx_forM_inv _ _
      (λ c', wf (world c') ∧ mu c' = true ∧ done c' = true ∧ clients c' = cs)); [by split_and!|].
    intros [topic ch] c2 _ (Hc2 & ? & ? & ?).
    apply wpx_zoom. eapply wpx_mono; [by apply step_RemoveSpy| |done].
    intros [] w (? & _). by split_and!.
  - intros [] c2 (Hc2 & ? & ? & <-). apply wpx_bind, wpx_mutex_unlock; [done|].
    apply wpx_modify. by split_and!.
Qed.

End session.

Section claims.
Context `{R : Runtime} {St : Type} `{Storage St} `{!StorageSafe St} `{C : Ws.Codec}.
Implicit Types c : Client St.

(** [C21] No WebSocket client can crash the server.  Whatever request headers it sends
    and whatever byte stream follows, the connection, from the handshake of [HandleWS]
    through [readPump] to the clean-up, ends without a panic (an oversized allocation, a
    channel closed twice), an endless loop or a blocked mutex (the broker's or the
    client's own).  A client that was not let in has changed nothing; one that was let in
    leaves a consistent broker, a free mutex, forwarding goroutines that were told to
    stop, and is forgotten by the hub.  And each message the goroutine of a subscription
    forwards on an open connection keeps the broker consistent and the mutex free. *)
Theorem ws_session_safe (HR : RuntimeLaws R) sha1 broken header hijack written me now input
    fk fv ch c (Hwf : wf (world c)) :
  wpx (connection sha1 broken header hijack written me now input) (λ h c',
    match h with
    | HSwitched _ => wf (world c') ∧ mu c' = false ∧ done c' = true ∧
        clients c' = clients c ∖ {[me]}
    | _ => c' = c
    end) (λ _, True) c ∧
  (mu c = false → done c = false → wpx (forward broken fk fv ch) (λ _ c',
    wf (world c') ∧ mu c' = false ∧ done c' = false ∧ clients c' = clients c) (λ _, True) c).
Proof.
  split.
  - unfold connection, HandleWS. apply wpx_bind.
    destruct (negb _); [by apply wpx_ret|]. cbv zeta. destruct (String.eqb _ _); [by apply wpx_ret|].
    destruct hijack as [[e|]|]; [by apply wpx_ret| |by apply wpx_ret].
    destruct written; [|by apply wpx_ret]. apply wpx_bind, wpx_modify, wpx_bind, wpx_modify, wpx_ret.
    apply wpx_bind, wpx_bind, wpx_modify, wpx_bind. cbn [clients set_clients].
    set (cs := {[me]} ∪ clients c).
    eapply wpx_mono; [apply (read_loop_sound HR broken cs now _ (length input)); [by split_and!|lia]| |done].
    intros [] c1 [k Hc1]. eapply wpx_mono; [by apply (clean_up_sound cs me k)| |done].
    intros [] c2 (? & ? & ? & Hcs). apply wpx_ret. split_and!; [done..|]. rewrite Hcs. set_solver.
  - intros Hm Hd. eapply wpx_mono;
      [apply (calm_forward broken (clients c) (length (rw c))); by split_and!| |done].
    by intros [] c' (? & ? & ? & ? & _).
Qed.

End claims.

(** A codec for the examples: a command is [action topic payload], separated by spaces;
    nothing is sent in JSON. *)
#[global] Instance demo_codec : Ws.Codec := {|
  json_command b :=
    match strings.SplitN (string_of_bytes b) " " 3 with
    | [a; t; p] => Some (MkCommand a t p "" "")
    | _ => None
    end;
  json_response r := bytes_of_string (resp_Status r);
  json_message m := Payload m;
  json_fields _ := None
|}.

(** The headers of an upgrade request. *)
Definition demo_upgrade (name : string) : string :=
  if String.eqb name "Upgrade" then "websocket" else "dGhlIHNhbXBsZSBub25jZQ==".

(** A publication, then a frame that claims eight exabytes. *)
Definition demo_ws_input : bytes :=
  client_frame [x01; x02; x03; x04] (bytes_of_string "publish t hello") ++
  [x81; xff; x7f; xff; xff; xff; xff; xff; xff; xff].

Lemma ws_session_safe_witness :
  wpx (connection (take 20) (λ _, false) demo_upgrade (Some None) true 7 5 demo_ws_input) (λ h c',
    match h with
    | HSwitched _ => wf (world c') ∧ mu c' = false ∧ done c' = true ∧
        clients c' = clients (new_hub demo_empty) ∖ {[7]}
    | _ => c' = new_hub demo_empty
    end) (λ _, True) (new_hub demo_empty) ∧
  (mu (new_hub demo_empty) = false → done (new_hub demo_empty) = false →
   wpx (forward (λ _, false) "" "" 0) (λ _ c', wf (world c') ∧ mu c' = false ∧ done c' = false ∧
     clients c' = clients (new_hub demo_empty)) (λ _, True) (new_hub demo_empty)).
Proof. apply (ws_session_safe demo_runtime_laws), demo_empty_wf. Defined.

(** ** Publishing through a frame *)

Section publishing.
Context `{R : Runtime} {St : Type} `{Storage St} `{C : Ws.Codec}.
Variable broken : nat → bool.
Implicit Types c : Client St.

(** What the client is told about a publication. *)
Definition publish_answer (topic : string) (r : error) : wsResponse :=
  match r with
  | Some e => MkResponse "error" e ""
  | None => MkResponse "published" "" topic
  end.

Lemma handleCommand_publish c now raw topic payload fk fv r w' :
  json_command raw = Some (MkCommand "publish" topic payload fk fv) → topic ≠ "" →
  Publish now topic (bytes_of_string payload) ∅ "normal" None None false (world c) = (Ret r, w') →
  handleCommand broken now raw c = sendJSON broken (publish_answer topic r) (set_world w' c).
Proof.
  intros Hraw Ht Hpub. unfold handleCommand. rewrite Hraw. cbn [cmd_Action cmd_Topic cmd_Payload].
  cbn [String.eqb Ascii.eqb Bool.eqb].
  destruct (String.eqb_spec topic ""); [done|].
  rewrite (run_bind _ _ _ _ _ (run_zoom world set_world _ _ _ _ Hpub)). by destruct r.
Qed.

(** A publication over a WebSocket, from the frame to the broker: when the client
    library's frame carries a publish command for a non-empty topic, the server's loop
    makes exactly one call of [Publish] with the command's topic and payload and normal
    priority, answers with the broker's verdict, and continues with the bytes after the
    frame; for any mask and any payload up to the limit. *)
Theorem ws_publish_framed c now fuel key raw topic payload fk fv rest r w'
    (Hkey : length key = 4%nat) (Hlen : (Z.of_nat (length raw) ≤ max_payload)%Z)
    (Hrw : rw c = client_frame key raw ++ rest)
    (Hraw : json_command raw = Some (MkCommand "publish" topic payload fk fv))
    (Htopic : topic ≠ "")
    (Hpub : Publish now topic (bytes_of_string payload) ∅ "normal" None None false (world c) =
      (Ret r, w')) :
  read_loop broken (S fuel) now c =
    (sendJSON broken (publish_answer topic r) ;; read_loop broken fuel now)
      (set_world w' (set_rw rest c)).
Proof.
  cbn [read_loop].
  assert (read_round (rw c) = (Ret (IFrame opCodeText raw), rest)) as Hround
    by (rewrite Hrw; by apply client_frame_read).
  rewrite (run_bind _ _ _ _ _ (run_zoom rw set_rw _ _ _ _ Hround)). cbn [Z.eqb Pos.eqb opCodeText].
  unfold mbind, M_bind. by erewrite handleCommand_publish.
Qed.

End publishing.

Definition demo_ws : Client DiskStorage :=
  set_rw (client_frame [x01; x02; x03; x04] (bytes_of_string "publish t hi") ++ [x88; x00])
    (new_hub demo_empty).

Lemma ws_publish_framed_witness :
  let w' := (Publish (R:=demo_runtime) 5 "t" (bytes_of_string "hi") ∅ "normal" None None false
    demo_empty).2 in
  read_loop (R:=demo_runtime) (λ _, false) 3 5 demo_ws =
    (sendJSON (λ _, false) (publish_answer "t" None) ;; read_loop (R:=demo_runtime) (λ _, false) 2 5)
      (set_world w' (set_rw [x88; x00] demo_ws)).
Proof.
  apply (ws_publish_framed (R:=demo_runtime)) with (key := [x01; x02; x03; x04])
    (raw := bytes_of_string "publish t hi") (payload := "hi") (fk := "") (fv := "");
    [done|vm_compute; discriminate|done|done|done|vm_compute; reflexivity].
Defined.

(** A keepalive of the client library under this mask ends the session: the command sent
    after it is never read. *)
Theorem keepalive_drops_session :
  let input := ping_frame [x08; x00; x00; x00] ++
    client_frame [x01; x02; x03; x04] (bytes_of_string "publish t hi") in
  let c' := (readPump (R:=demo_runtime) (λ _, false) 7 5 input (new_hub demo_empty)).2 in
  done c' = true ∧ out c' = [pong_frame] ∧ Topics (world c') !! "t" = None.
Proof. vm_compute. auto. Qed.
