(* ===== verification/Cluster.v ===== *)
(** * The cluster node ([internal/cluster/node.go])

    A node's own state is the record [Node]; every section of the code under
    [n.mu] is a function on it.  [Server] adds the broker the node drives, the
    [requestSync] goroutines it has started and the lines written to the
    connection being served.  What a peer answers, or that it does not, is an
    argument of the routine that asks it.  [now] is the time of the step. *)

From Stdlib Require Import Ascii.
From Stdlib Require Import Strings.Byte.
From S2P Require Import Prelude.
From S2P Require Import GoLib.
From S2P Require Import Base64.
From S2P Require Import Message.
From S2P Require Import Wal.
From S2P Require Import Broker.

Inductive Role : Type := Follower | Candidate | Leader.
#[global] Instance Role_eq_dec : EqDecision Role.
Proof. solve_decision. Defined.

Record Peer : Type := MkPeer { PeerAddress : string; IsAlive : bool; LastSeen : Z }.

Record Node : Type := MkNode {
  Address : string;
  HttpPort : string;
  LeaderHttp : string;
  role : Role;
  Peers : gmap string Peer;
  CurrentTerm : Z;
  VotedFor : string;
  votesReceived : Z;
  lastHeartbeatSeen : Z;
  clusterSecret : string;
  isSynced : bool;
  quorumSize : Z
}.

(** ** Field updates *)

Definition set_LeaderHttp (x : string) (n : Node) : Node :=
  MkNode (Address n) (HttpPort n) x (role n) (Peers n) (CurrentTerm n) (VotedFor n)
    (votesReceived n) (lastHeartbeatSeen n) (clusterSecret n) (isSynced n) (quorumSize n).
Definition set_role (x : Role) (n : Node) : Node :=
  MkNode (Address n) (HttpPort n) (LeaderHttp n) x (Peers n) (CurrentTerm n) (VotedFor n)
    (votesReceived n) (lastHeartbeatSeen n) (clusterSecret n) (isSynced n) (quorumSize n).
Definition set_Peers (x : gmap string Peer) (n : Node) : Node :=
  MkNode (Address n) (HttpPort n) (LeaderHttp n) (role n) x (CurrentTerm n) (VotedFor n)
    (votesReceived n) (lastHeartbeatSeen n) (clusterSecret n) (isSynced n) (quorumSize n).
Definition set_CurrentTerm (x : Z) (n : Node) : Node :=
  MkNode (Address n) (HttpPort n) (LeaderHttp n) (role n) (Peers n) x (VotedFor n)
    (votesReceived n) (lastHeartbeatSeen n) (clusterSecret n) (isSynced n) (quorumSize n).
Definition set_VotedFor (x : string) (n : Node) : Node :=
  MkNode (Address n) (HttpPort n) (LeaderHttp n) (role n) (Peers n) (CurrentTerm n) x
    (votesReceived n) (lastHeartbeatSeen n) (clusterSecret n) (isSynced n) (quorumSize n).
Definition set_votesReceived (x : Z) (n : Node) : Node :=
  MkNode (Address n) (HttpPort n) (LeaderHttp n) (role n) (Peers n) (CurrentTerm n) (VotedFor n)
    x (lastHeartbeatSeen n) (clusterSecret n) (isSynced n) (quorumSize n).
Definition set_lastHeartbeatSeen (x : Z) (n : Node) : Node :=
  MkNode (Address n) (HttpPort n) (LeaderHttp n) (role n) (Peers n) (CurrentTerm n) (VotedFor n)
    (votesReceived n) x (clusterSecret n) (isSynced n) (quorumSize n).
Definition set_isSynced (x : bool) (n : Node) : Node :=
  MkNode (Address n) (HttpPort n) (LeaderHttp n) (role n) (Peers n) (CurrentTerm n) (VotedFor n)
    (votesReceived n) (lastHeartbeatSeen n) (clusterSecret n) x (quorumSize n).
Definition set_quorumSize (x : Z) (n : Node) : Node :=
  MkNode (Address n) (HttpPort n) (LeaderHttp n) (role n) (Peers n) (CurrentTerm n) (VotedFor n)
    (votesReceived n) (lastHeartbeatSeen n) (clusterSecret n) (isSynced n) x.

Section node.
Context `{R : Runtime}.

(** [os.Getenv("TINYMQ_CLUSTER_LEADER") == "true"] *)
Definition isDesignatedLeader : bool := String.eqb (getenv "TINYMQ_CLUSTER_LEADER") "true".

Definition selfAddr (n : Node) : string :=
  let self := getenv "TINYMQ_CLUSTER_SELF" in
  if String.eqb self "" then Address n else self.

(** ** Configuration *)

(** The loop body of [loadPeersFromEnv] on one entry. *)
Definition load_peer (n : Node) (addr : string) : Node :=
  let addr := strings.TrimSpace addr in
  if String.eqb addr "" || String.eqb addr (selfAddr n) then n
  else
    let host := SplitHost addr in
    if String.eqb host hostname || strings.HasPrefix host (hostname +:+ ".") then n
    else set_Peers (<[addr := MkPeer addr false 0]> (Peers n)) n.

Definition loadPeersFromEnv (n : Node) : Node :=
  let nodesEnv := getenv "TINYMQ_CLUSTER_NODES" in
  if String.eqb nodesEnv "" then n
  else foldl load_peer n (strings.Split nodesEnv ",").

(** [NewNode]; [None] is [log.Fatal].  The two closures it installs in the broker
    are [hooks] below. *)
Definition NewNode (now : Z) (bindAddr httpPort : string) : option Node :=
  let secret := getenv "TINYMQ_CLUSTER_SECRET" in
  if String.eqb secret "" && negb (String.eqb (getenv "TINYMQ_CLUSTER_ALLOW_INSECURE") "true")
  then None
  else
    let initialRole := if isDesignatedLeader then Leader else Follower in
    Some (loadPeersFromEnv
      (MkNode bindAddr httpPort "" initialRole ∅ 0 "" 0 now secret false 0)).

(** ** Authentication *)

Definition signMessage (n : Node) (message : string) : string :=
  if String.eqb (clusterSecret n) "" then "NO_MAC"
  else hex (hmac_sha256 (bytes_of_string (clusterSecret n)) (bytes_of_string message)).

Definition verifyMessage (n : Node) (message receivedMac : string) : bool :=
  if String.eqb (clusterSecret n) "" then true
  else String.eqb (signMessage n message) receivedMac.

(** [body := ...; mac := n.signMessage(body); fmt.Sprintf("%s %s\n", body, mac)] *)
Definition signed (n : Node) (parts : list string) : string :=
  let body := strings.Join parts " " in
  body +:+ " " +:+ signMessage n body +:+ String newline "".

(** ** Peers *)

Definition markPeerAlive (now : Z) (addr : string) (n : Node) : Node :=
  match Peers n !! addr with
  | Some peer => set_Peers (<[addr := MkPeer (PeerAddress peer) true now]> (Peers n)) n
  | None => n
  end.

Definition markPeerDead (addr : string) (n : Node) : Node :=
  match Peers n !! addr with
  | Some peer =>
      set_Peers (<[addr := MkPeer (PeerAddress peer) false (LastSeen peer)]> (Peers n)) n
  | None => n
  end.

Definition IsLeader (n : Node) : bool := bool_decide (role n = Leader).
Definition GetCurrentTerm (n : Node) : Z := CurrentTerm n.
Definition RoleString (n : Node) : string :=
  match role n with
  | Leader => "leader"
  | Candidate => "candidate"
  | Follower => "follower"
  end.
Definition GetPeersSnapshot (n : Node) : list Peer := map_range (snd <$> map_to_list (Peers n)).

Definition GetLeaderHTTP (n : Node) : string :=
  if IsLeader n then
    let advertise := getenv "TINYMQ_CLUSTER_HTTP_ADVERTISE" in
    if negb (String.eqb advertise "") then
      if strings.Contains advertise ":" then advertise
      else advertise +:+ ":" +:+ HttpPort n
    else "127.0.0.1:" +:+ HttpPort n
  else LeaderHttp n.

(** ** Elections *)

(** [calculateQuorum]: the value, and the node that remembers it. *)
Definition calculateQuorum (n : Node) : Z * Node :=
  if (0 <? quorumSize n)%Z then (quorumSize n, n)
  else
    let nodesEnv := getenv "TINYMQ_CLUSTER_NODES" in
    let q :=
      if String.eqb nodesEnv "" then 1%Z
      else
        let totalClusterSize := (Z.of_nat (length (strings.Split nodesEnv ",")) + 1)%Z in
        (totalClusterSize `quot` 2 + 1)%Z in
    (q, set_quorumSize q n).

Definition evaluateVote (now term : Z) (candidate : string) (n : Node) : bool * Node :=
  if isDesignatedLeader then (false, n)
  else if (term <? CurrentTerm n)%Z then (false, n)
  else
    let n :=
      if (CurrentTerm n <? term)%Z
      then set_VotedFor "" (set_role Follower (set_CurrentTerm term n))
      else n in
    if String.eqb (VotedFor n) "" || String.eqb (VotedFor n) candidate
    then (true, set_lastHeartbeatSeen now (set_VotedFor candidate n))
    else (false, n).

(** [startElection]: the node, and the vote requests it starts. *)
Definition startElection (now : Z) (n : Node) : Node * list (string * Z) :=
  let term := wrap_int (CurrentTerm n + 1) in
  let n' :=
    set_lastHeartbeatSeen now (set_votesReceived 1 (set_VotedFor (selfAddr n)
      (set_CurrentTerm term (set_role Candidate n)))) in
  (n', (λ addr, (addr, term)) <$> map_range (map_to_list (Peers n)).*1).

(** The request [requestVoteFromPeer] sends, and what it does with the answer;
    [None]: no connection, or no line in time. *)
Definition vote_request (n : Node) (term : Z) : string :=
  signed n ["REQUEST_VOTE"; Itoa term; selfAddr n].

Definition requestVoteFromPeer (term : Z) (resp : option string) (n : Node) : Node :=
  match resp with
  | None => n
  | Some resp =>
      if strings.HasPrefix (strings.TrimSpace resp) "VOTE_GRANTED" then
        let '(quorum, n) := calculateQuorum n in
        if bool_decide (role n = Candidate) && (CurrentTerm n =? term)%Z then
          let n := set_votesReceived (wrap_int (votesReceived n + 1)) n in
          if (quorum <=? votesReceived n)%Z then set_role Leader n else n
        else n
      else n
  end.

(** [electionTimeoutLoop]: the timeout drawn from eight random bytes, in
    nanoseconds, and one round of the loop. *)
Definition le64 (b : bytes) : Z := foldr (λ x acc, byteZ x + 256 * acc)%Z 0%Z b.
Definition election_timeout (b : bytes) : Z := ((3000 + le64 b `mod` 3000) * 1000000)%Z.

Definition election_tick (now timeout : Z) (n : Node) : Node * list (string * Z) :=
  if negb (bool_decide (role n = Leader)) && (timeout <? now - lastHeartbeatSeen n)%Z &&
     negb isDesignatedLeader
  then startElection now n
  else (n, []).

(** ** Heartbeats and gossip *)

(** Whether [leader] may speak for [term] (both uses of [trustedLeader], and
    [acceptsHeartbeat]). *)
Definition trusted (term : Z) (leader : string) (n : Node) : bool :=
  (CurrentTerm n <? term)%Z ||
  ((term =? CurrentTerm n)%Z && (String.eqb (VotedFor n) "" || String.eqb (VotedFor n) leader)).

(** [handleHeartbeat]: the node, and whether it starts [requestSync(leader)]. *)
Definition handleHeartbeat (now term : Z) (leader leaderHttp : string) (n : Node) : Node * bool :=
  let n := if String.eqb (VotedFor n) leader then n else set_isSynced false n in
  let n :=
    if trusted term leader n then
      set_LeaderHttp leaderHttp (set_VotedFor leader (set_CurrentTerm term
        (set_role Follower (set_lastHeartbeatSeen now n))))
    else n in
  if negb (isSynced n) && bool_decide (role n = Follower)
  then (set_isSynced true n, true)
  else (n, false).

(** The part of [REPLICATE] under [n.mu], when the leader is trusted. *)
Definition follow (now term : Z) (leader : string) (n : Node) : Node :=
  set_lastHeartbeatSeen now (set_VotedFor leader (set_role Follower (set_CurrentTerm term n))).

Definition advertiseAddr (n : Node) : string :=
  let advertise := getenv "TINYMQ_CLUSTER_HTTP_ADVERTISE" in
  if String.eqb advertise "" then SplitHost (Address n) +:+ ":" +:+ HttpPort n
  else if strings.Contains advertise ":" then advertise
  else advertise +:+ ":" +:+ HttpPort n.

Definition heartbeat_line (n : Node) : string :=
  signed n ["HEARTBEAT"; Itoa (CurrentTerm n); selfAddr n; advertiseAddr n].
Definition ping_line (n : Node) : string := signed n ["PING"; selfAddr n; HttpPort n].

(** [pingPeer] and [sendHeartbeat] once the peer answered, or failed to. *)
Definition peer_answered (expected : string) (now : Z) (target : string) (resp : option string)
    (n : Node) : Node :=
  match resp with
  | Some r =>
      if String.eqb (strings.TrimSpace r) expected then markPeerAlive now target n
      else markPeerDead target n
  | None => markPeerDead target n
  end.
Definition pingPeer := peer_answered "PONG".
Definition sendHeartbeat := peer_answered "PONG_HEARTBEAT".

(** [dispatchGossip] with [busy] of the ten slots of the semaphore taken: the
    peers that are contacted. *)
Definition dispatchGossip (busy : nat) (n : Node) : list string :=
  take (10 - busy) (map_range (map_to_list (Peers n)).*1).

(** The two tickers of [gossipLoop]: the lines sent, by target. *)
Definition leader_tick (busy : nat) (n : Node) : list (string * string) :=
  if bool_decide (role n = Leader)
  then (λ addr, (addr, heartbeat_line n)) <$> dispatchGossip busy n else [].
Definition follower_tick (busy : nat) (n : Node) : list (string * string) :=
  if bool_decide (role n = Leader) then []
  else (λ addr, (addr, ping_line n)) <$> dispatchGossip busy n.

(** ** Replication to the peers *)

Definition alive_peers (n : Node) : list string :=
  omap (λ '(addr, peer), if IsAlive peer then Some addr else None)
    (map_range (map_to_list (Peers n))).

(** The lines [Replicate] and [ReplicateBinding] send to every live peer. *)
Definition replicate_line (n : Node) (term : Z) (topic : string) (payload : bytes) : string :=
  signed n ["REPLICATE"; Itoa term; selfAddr n; topic; EncodeToString payload].
Definition binding_line (n : Node) (term : Z) (topic group : string) : string :=
  signed n ["BIND_GROUP"; Itoa term; topic; group].

(** [successCount]: the node itself and the peers whose line is the expected
    acknowledgement. *)
Definition successCount (ack : string) (resps : list (option string)) : Z :=
  1 + Z.of_nat (length (filter (λ r, strings.TrimSpace <$> r = Some ack) resps)).

(** The two routines differ in the line they send, the answer they count and the
    error text; [reply addr] is the line read from [addr] before the timer fires
    and [timeout] the duration as [%v] prints it. *)
Definition gather (what ack : string) (timeout : string) (reply : string → option string)
    (n : Node) : error * Node :=
  if negb (bool_decide (role n = Leader)) then (Some "HTTP_PROXY_REQUIRED", n)
  else
    match alive_peers n with
    | [] => (None, n)
    | peers =>
        let '(quorum, n) := calculateQuorum n in
        let count := successCount ack (reply <$> peers) in
        if (count <? quorum)%Z
        then (Some (what +:+ " quorum timeout: " +:+ Itoa count +:+ "/" +:+
                Itoa (Z.of_nat (size (Peers n)) + 1) +:+ " ACKs received within " +:+ timeout), n)
        else (None, n)
    end.

(** [net addr line] is what the peer at [addr] answers to [line]. *)
Definition Replicate (timeout : string) (net : string → string → option string)
    (topic : string) (payload : bytes) (n : Node) : error * Node :=
  gather "replication" "REPLICATE_ACK" timeout
    (λ addr, net addr (replicate_line n (CurrentTerm n) topic payload)) n.

Definition ReplicateBinding (timeout : string) (net : string → string → option string)
    (topic group : string) (n : Node) : error * Node :=
  gather "binding" "BIND_GROUP_ACK" timeout
    (λ addr, net addr (binding_line n (CurrentTerm n) topic group)) n.

End node.

(** ** The node and its broker *)

Record Server (St : Type) : Type := MkServer {
  node : Node;
  broker : World St;
  (** the leaders [requestSync] goroutines were started for *)
  syncs : list string;
  (** the lines written to the connection *)
  sent : list string
}.
Arguments MkServer {_} _ _ _ _.
Arguments node {_} _. Arguments broker {_} _. Arguments syncs {_} _. Arguments sent {_} _.

Section server.
Context `{R : Runtime} {St : Type} `{Storage St}.
Implicit Types s : Server St.
Abbreviation MS := (M (Server St)).

Definition set_node (n : Node) s : Server St := MkServer n (broker s) (syncs s) (sent s).
Definition set_broker (w : World St) s : Server St := MkServer (node s) w (syncs s) (sent s).
Definition set_syncs (l : list string) s : Server St := MkServer (node s) (broker s) l (sent s).
Definition set_sent (l : list string) s : Server St := MkServer (node s) (broker s) (syncs s) l.

Definition on_node (f : Node → Node) : MS unit := modify (λ s, set_node (f (node s)) s).
Definition on_broker {A} (op : M (World St) A) : MS A := zoom broker set_broker op.

(** [conn.Write]; its error is ignored. *)
Definition say (line : string) : MS unit :=
  modify (λ s, set_sent (sent s ++ [line +:+ String newline ""]) s).
Definition say_signed (parts : list string) : MS unit :=
  modify (λ s, set_sent (sent s ++ [signed (node s) parts]) s).

(** The broker with the closures [NewNode] installs, on the node as it is. *)
Definition hooks (timeout : string) (net : string → string → option string) s : World St :=
  let w := broker s in
  MkWorld (Topics w) (wildcards w) (storage w) (compiledRegex w) (webhooks w) (inflight w)
    (idempotencyKeys w) (bindings w) (maxMessages w) (maxTopics w)
    (Some (λ topic payload, (Replicate timeout net topic payload (node s)).1))
    (Some (λ topic group, (ReplicateBinding timeout net topic group (node s)).1))
    (heap w) (chans w) (next_addr w) (draws w) (pending w).

(** *** One command of [handlePeer]; [parts] is without the MAC *)

Definition on_ping (now : Z) (parts : list string) : MS unit :=
  match parts with
  | _ :: senderAddr :: _ :: _ => on_node (markPeerAlive now senderAddr) ;; say "PONG"
  | _ => mret ()
  end.

Definition on_heartbeat (now : Z) (parts : list string) : MS unit :=
  match parts with
  | _ :: term :: leaderAddr :: more =>
      let leaderTerm := Sscanf_d term in
      let leaderHttp := default "" (head more) in
      s ← get;
      let '(n, needsSync) := handleHeartbeat now leaderTerm leaderAddr leaderHttp (node s) in
      modify (set_node n) ;;
      (if (needsSync : bool) then modify (λ s, set_syncs (syncs s ++ [leaderAddr]) s) else mret ()) ;;
      on_node (markPeerAlive now leaderAddr) ;;
      say "PONG_HEARTBEAT"
  | _ => mret ()
  end.

Definition on_replicate (now : Z) (parts : list string) : MS unit :=
  match parts with
  | _ :: term :: leaderAddr :: topic :: payloadB64 :: _ =>
      let term := Sscanf_d term in
      s ← get;
      if trusted term leaderAddr (node s) then
        on_node (follow now term leaderAddr) ;;
        match DecodeString payloadB64 with
        | Some payload => on_broker (PublishReplicated now topic payload) ;; say "REPLICATE_ACK"
        | None => say "REPLICATE_ERR"
        end
      else say "REPLICATE_DENIED"
  | _ => mret ()
  end.

Definition on_sync_req (parts : list string) : MS unit :=
  match parts with
  | _ :: targetAddr :: _ =>
      s ← get;
      if bool_decide (role (node s) = Leader) then
        let term := CurrentTerm (node s) in
        messages ← on_broker GetStateSnapshot;
        forM_ (λ msg,
          say_signed ["REPLICATE"; Itoa term; selfAddr (node s); Message.Topic msg;
                      EncodeToString (Payload msg)]) messages ;;
        say_signed ["SYNC_COMPLETE"]
      else mret ()
  | _ => mret ()
  end.

Definition on_request_vote (now : Z) (parts : list string) : MS unit :=
  match parts with
  | _ :: term :: candidateAddr :: _ =>
      s ← get;
      let '(allowed, n) := evaluateVote now (Sscanf_d term) candidateAddr (node s) in
      modify (set_node n) ;;
      if (allowed : bool) then say_signed ["VOTE_GRANTED"; Itoa (CurrentTerm n)]
      else say ("VOTE_DENIED " +:+ Itoa (CurrentTerm n))
  | _ => mret ()
  end.

Definition on_bind_group (parts : list string) : MS unit :=
  match parts with
  | _ :: term :: leaderAddr :: topic :: group :: _ =>
      s ← get;
      if trusted (Sscanf_d term) leaderAddr (node s) then
        r ← on_broker (CreateGroup topic group);
        match r with
        | inr _ => say "BIND_GROUP_ACK"
        | inl _ => say "BIND_GROUP_ERR"
        end
      else say "BIND_GROUP_DENIED"
  | _ => mret ()
  end.

Definition dispatch (now : Z) (cmd : string) (parts : list string) : MS unit :=
  if String.eqb cmd "PING" then on_ping now parts
  else if String.eqb cmd "HEARTBEAT" then on_heartbeat now parts
  else if String.eqb cmd "REPLICATE" then on_replicate now parts
  else if String.eqb cmd "SYNC_REQ" then on_sync_req parts
  else if String.eqb cmd "REQUEST_VOTE" then on_request_vote now parts
  else if String.eqb cmd "BIND_GROUP" then on_bind_group parts
  else mret ().

(** One round of [handlePeer]'s loop on the line [msg]; whether it goes on. *)
Definition handle_line (now : Z) (msg : string) : MS bool :=
  match strings.Split (strings.TrimSpace msg) " " with
  | [] => mret true
  | cmd :: rest =>
      if String.eqb cmd "" then mret true
      else
        match rest with
        | [] => dispatch now cmd [cmd] ;; mret true
        | _ :: _ =>
            let receivedMac := List.last rest "" in
            let parts := removelast (cmd :: rest) in
            s ← get;
            if verifyMessage (node s) (strings.Join parts " ") receivedMac
            then dispatch now cmd parts ;; mret true
            else say "ERR_UNAUTHORIZED" ;; mret false
        end
  end.

(** [handlePeer] on the lines the peer sends before it closes. *)
Fixpoint handlePeer (now : Z) (lines : list string) : MS unit :=
  match lines with
  | [] => mret ()
  | msg :: lines' =>
      continue ← handle_line now msg;
      if (continue : bool) then handlePeer now lines' else mret ()
  end.

(** *** [requestSync] *)

Definition sync_request (n : Node) : string := signed n ["SYNC_REQ"; selfAddr n].

(** One round of its loop; whether it goes on.  [parts[0]] panics on an empty
    slice. *)
Definition sync_line (now : Z) (line : string) : MS bool :=
  match strings.Split (strings.TrimSpace line) " " with
  | [] => mret true
  | first :: rest =>
      if String.eqb first "" then mret true
      else
        let receivedMac := List.last (first :: rest) "" in
        let parts := removelast (first :: rest) in
        s ← get;
        if verifyMessage (node s) (strings.Join parts " ") receivedMac then
          match parts with
          | [] => panic "index out of range [0] with length 0"
          | cmd :: _ =>
              if String.eqb cmd "SYNC_COMPLETE" then mret false
              else
                match parts with
                | _ :: _ :: _ :: topic :: payloadB64 :: _ =>
                    if String.eqb cmd "REPLICATE" then
                      match DecodeString payloadB64 with
                      | Some payload => on_broker (PublishReplicated now topic payload) ;; mret true
                      | None => mret true
                      end
                    else mret true
                | _ => mret true
                end
          end
        else mret true
  end.

Fixpoint sync_lines (now : Z) (lines : list string) : MS unit :=
  match lines with
  | [] => mret ()
  | line :: lines' =>
      continue ← sync_line now line;
      if (continue : bool) then sync_lines now lines' else mret ()
  end.

(** [None]: the leader could not be dialled. *)
Definition requestSync (now : Z) (stream : option (list string)) : MS unit :=
  match stream with
  | None => on_node (set_isSynced false)
  | Some lines => sync_lines now lines
  end.

End server.
