(* ===== verification/Election.v ===== *)
(** * Leader election among several nodes

    The nodes of a cluster as one transition system whose steps are the critical
    sections of [node.go] that touch the election state, in any interleaving:
    elections start at any time, vote requests and their answers travel on
    connections that may stay open for ever, heartbeats and replicated messages
    arrive late.  Nodes do not restart: neither [CurrentTerm] nor [VotedFor] is
    written to disk. *)

From S2P Require Import Prelude.
From S2P Require Import GoLib.
From S2P Require Import Cluster.

(** A candidate, a term and a voter: one [requestVoteFromPeer]. *)
Abbreviation ballot := (string * Z * string)%type.

Record Net : Type := MkNet {
  nodes : gmap string Node;
  (** requests that were not answered yet, and grants not read yet *)
  asked : gset ballot;
  replied : gset ballot;
  (** history: the votes counted by each candidate, and who became leader *)
  counted : gmap (string * Z) (gset string);
  elected : gset (string * Z)
}.

Definition voters (net : Net) (c : string) (t : Z) : gset string :=
  default ∅ (counted net !! (c, t)).

Section protocol.
(** the environment of each node's process *)
Variable env : string → Runtime.

Definition set_nodes (x : gmap string Node) (net : Net) : Net :=
  MkNet x (asked net) (replied net) (counted net) (elected net).

Inductive netstep (net : Net) : Net → Prop :=
| StepElection i n now n' reqs :
    (** the test of the role and the start of the election are two sections *)
    isDesignatedLeader (R:=env i) = false →
    nodes net !! i = Some n →
    startElection (R:=env i) now n = (n', reqs) →
    netstep net (MkNet (<[i := n']> (nodes net))
      (asked net ∪ list_to_set ((λ '(p, t), (i, t, p)) <$> reqs)) (replied net)
      (<[(i, CurrentTerm n') := {[i]}]> (counted net)) (elected net))
| StepVote c t p n now allowed n' :
    (c, t, p) ∈ asked net →
    nodes net !! p = Some n →
    evaluateVote (R:=env p) now t c n = (allowed, n') →
    netstep net (MkNet (<[p := n']> (nodes net)) (asked net ∖ {[(c, t, p)]})
      (if allowed then replied net ∪ {[(c, t, p)]} else replied net)
      (counted net) (elected net))
| StepCount c t p n resp :
    (c, t, p) ∈ replied net →
    nodes net !! c = Some n →
    strings.HasPrefix (strings.TrimSpace resp) "VOTE_GRANTED" = true →
    let n' := requestVoteFromPeer (R:=env c) t (Some resp) n in
    let counts := bool_decide (role n = Candidate ∧ CurrentTerm n = t) in
    netstep net (MkNet (<[c := n']> (nodes net)) (asked net) (replied net ∖ {[(c, t, p)]})
      (if counts then <[(c, t) := voters net c t ∪ {[p]}]> (counted net) else counted net)
      (if counts && bool_decide (role n' = Leader) then elected net ∪ {[(c, t)]} else elected net))
| StepHeartbeat s m t i n now http :
    (** a message of [s] carries a term [s] was in when it was written *)
    nodes net !! s = Some m → (0 ≤ t ≤ CurrentTerm m)%Z →
    nodes net !! i = Some n →
    netstep net (set_nodes (<[i := (handleHeartbeat now t s http n).1]> (nodes net)) net)
| StepReplicate s m t i n now :
    nodes net !! s = Some m → (0 ≤ t ≤ CurrentTerm m)%Z →
    nodes net !! i = Some n → trusted t s n = true →
    netstep net (set_nodes (<[i := follow now t s n]> (nodes net)) net)
| StepAlive i n now addr :
    nodes net !! i = Some n →
    netstep net (set_nodes (<[i := markPeerAlive now addr n]> (nodes net)) net)
| StepDead i n addr :
    nodes net !! i = Some n →
    netstep net (set_nodes (<[i := markPeerDead addr n]> (nodes net)) net)
| StepUnsynced i n :
    nodes net !! i = Some n →
    netstep net (set_nodes (<[i := set_isSynced false n]> (nodes net)) net)
| StepQuorum i n :
    nodes net !! i = Some n →
    netstep net (set_nodes (<[i := (calculateQuorum (R:=env i) n).2]> (nodes net)) net).

(** [k] steps from the freshly started nodes [ns]. *)
Inductive reach (ns : gmap string Node) : nat → Net → Prop :=
| reach_init : reach ns 0 (MkNet ns ∅ ∅ ∅ ∅)
| reach_step k net net' : reach ns k net → netstep net net' → reach ns (S k) net'.

(** Every member was started by [NewNode], knows itself by its own name and has
    all the others, and only them, as peers. *)
Record configured (members : gset string) (ns : gmap string Node) : Prop := {
  cfg_dom : dom ns = members;
  cfg_names : "" ∉ members;
  cfg_self i n : ns !! i = Some n → selfAddr (R:=env i) n = i;
  cfg_new i n : ns !! i = Some n → ∃ now addr port, NewNode (R:=env i) now addr port = Some n;
  cfg_peers i n : ns !! i = Some n → dom (Peers n) = members ∖ {[i]}
}.

End protocol.

(** ** The quorum *)

Section quorum.
Context `{R : Runtime}.

Lemma load_peer_other n addr :
  Peers (load_peer n addr) = Peers n ∨ ∃ a, Peers (load_peer n addr) = <[a := MkPeer a false 0]> (Peers n).
Proof. unfold load_peer. repeat case_match; simpl; eauto. Qed.

Lemma load_peer_size n addr : size (Peers (load_peer n addr)) ≤ S (size (Peers n)).
Proof.
  destruct (load_peer_other n addr) as [->|[a ->]]; [lia|]. rewrite map_size_insert.
  destruct (_ !! _); simpl; lia.
Qed.

Lemma load_peers_size l n : size (Peers (foldl load_peer n l)) ≤ size (Peers n) + length l.
Proof.
  revert n. induction l as [|a l IH]; intros n; simpl; [lia|].
  pose proof (IH (load_peer n a)). pose proof (load_peer_size n a). lia.
Qed.

(** What [loadPeersFromEnv] leaves alone. *)
Definition same_but_peers (n n' : Node) : Prop := n' = set_Peers (Peers n') n.

Lemma load_peers_same l n : same_but_peers n (foldl load_peer n l).
Proof.
  revert n. induction l as [|a l IH]; intros n; simpl; [by destruct n|].
  unfold same_but_peers in *. rewrite IH at 1. unfold load_peer. by repeat case_match.
Qed.

Lemma NewNode_spec now addr port n :
  NewNode now addr port = Some n →
  CurrentTerm n = 0%Z ∧ VotedFor n = "" ∧ quorumSize n = 0%Z ∧
  role n = (if isDesignatedLeader then Leader else Follower) ∧
  size (Peers n) ≤ (if String.eqb (getenv "TINYMQ_CLUSTER_NODES") "" then 0
                    else length (strings.Split (getenv "TINYMQ_CLUSTER_NODES") ",")).
Proof.
  unfold NewNode, loadPeersFromEnv. case_match; [done|]. intros [= <-].
  destruct (String.eqb (getenv "TINYMQ_CLUSTER_NODES") ""); [done|].
  match goal with |- context [foldl load_peer ?n ?l] =>
    pose proof (load_peers_same l n) as E; pose proof (load_peers_size l n) as Hs end.
  rewrite E. cbn [Peers] in Hs. rewrite map_size_empty in Hs. by split_and!.
Qed.

(** The quorum is a majority of the node and its peers. *)
Lemma quorum_is_majority now addr port n :
  NewNode now addr port = Some n →
  (Z.of_nat (size (Peers n)) + 1 < 2 * (calculateQuorum n).1)%Z.
Proof.
  intros (_ & _ & Hq & _ & Hs)%NewNode_spec. unfold calculateQuorum. rewrite Hq. simpl.
  destruct (String.eqb (getenv "TINYMQ_CLUSTER_NODES") ""); [lia|].
  set (l := length _) in *. pose proof (Z.quot_rem (Z.of_nat l + 1) 2).
  pose proof (Z.rem_bound_pos (Z.of_nat l + 1) 2). lia.
Qed.

Lemma calculateQuorum_stable n n' :
  quorumSize n' = quorumSize n ∨ quorumSize n' = (calculateQuorum n).1 → (calculateQuorum n').1 = (calculateQuorum n).1.
Proof.
  unfold calculateQuorum. destruct (0 <? quorumSize n)%Z eqn:E.
  - intros [->| ->]; simpl; by rewrite E.
  - simpl. intros [->| ->]; [by rewrite E|]. by destruct (0 <? (if String.eqb _ _ then _ else _))%Z.
Qed.

End quorum.

(** ** One node's steps *)

Section moves.
Context `{R : Runtime}.

(** What every step but the start of an election and the counting of a vote does
    to a node: its term never falls, its vote in a term is final, and it leaves a
    candidacy or a leadership only for [Follower]. *)
Record moves (n n' : Node) : Prop := {
  mv_address : Address n' = Address n;
  mv_peers : dom (Peers n') = dom (Peers n);
  mv_quorum : (calculateQuorum n').1 = (calculateQuorum n).1;
  mv_term : (CurrentTerm n ≤ CurrentTerm n')%Z;
  mv_vote : CurrentTerm n' = CurrentTerm n → VotedFor n ≠ "" → VotedFor n' = VotedFor n;
  mv_role : role n' = Follower ∨
    (role n' = role n ∧ CurrentTerm n' = CurrentTerm n ∧ votesReceived n' = votesReceived n)
}.

Ltac move_tac :=
  split; simpl; auto; intros;
  first [by apply calculateQuorum_stable; left | lia | congruence | exfalso; lia].

Lemma moves_refl n : moves n n.
Proof. move_tac. Qed.

Lemma moves_vote now term c n : moves n (evaluateVote now term c n).2.
Proof.
  unfold evaluateVote. case_match; [apply moves_refl|].
  destruct (Z.ltb_spec term (CurrentTerm n)); [apply moves_refl|].
  destruct (Z.ltb_spec (CurrentTerm n) term); simpl.
  - move_tac.
  - case_match eqn:E; simpl; [|apply moves_refl].
    rewrite orb_true_iff, !String.eqb_eq in E. destruct E; move_tac.
Qed.

Lemma trusted_spec t s n :
  trusted t s n = true →
  (CurrentTerm n < t)%Z ∨ (t = CurrentTerm n ∧ (VotedFor n = "" ∨ VotedFor n = s)).
Proof.
  unfold trusted. rewrite orb_true_iff, andb_true_iff, orb_true_iff, !String.eqb_eq, Z.ltb_lt, Z.eqb_eq.
  done.
Qed.

Lemma moves_follow now t s n : trusted t s n = true → moves n (follow now t s n).
Proof. intros [?|(? & [?|?])]%trusted_spec; move_tac. Qed.

Lemma moves_heartbeat now t s http n : moves n (handleHeartbeat now t s http n).1.
Proof.
  unfold handleHeartbeat. set (n1 := if String.eqb _ _ then n else _).
  assert (n1 = set_isSynced (isSynced n1) n) as -> by (unfold n1; case_match; by destruct n).
  change (trusted t s (set_isSynced (isSynced n1) n)) with (trusted t s n).
  destruct (trusted t s n) eqn:E.
  - apply trusted_spec in E.
    case_match; (destruct E as [?|(? & [?|?])]; move_tac).
  - case_match; move_tac.
Qed.

Lemma moves_alive now addr n : moves n (markPeerAlive now addr n).
Proof.
  unfold markPeerAlive. case_match eqn:E; [|apply moves_refl]. split; simpl; auto; try lia;
    [by apply dom_insert_lookup_L; rewrite E|by apply calculateQuorum_stable; left].
Qed.

Lemma moves_dead addr n : moves n (markPeerDead addr n).
Proof.
  unfold markPeerDead. case_match eqn:E; [|apply moves_refl]. split; simpl; auto; try lia;
    [by apply dom_insert_lookup_L; rewrite E|by apply calculateQuorum_stable; left].
Qed.

Lemma moves_unsynced n : moves n (set_isSynced false n).
Proof. move_tac. Qed.

Lemma calculateQuorum_node n :
  (calculateQuorum n).2 = set_quorumSize (quorumSize (calculateQuorum n).2) n ∧
  (quorumSize (calculateQuorum n).2 = quorumSize n ∨
   quorumSize (calculateQuorum n).2 = (calculateQuorum n).1).
Proof. unfold calculateQuorum. case_match; simpl; [|by auto]. destruct n; auto. Qed.

Lemma moves_quorum n : moves n (calculateQuorum n).2.
Proof.
  destruct (calculateQuorum_node n) as [E Hq]. split.
  3: by apply calculateQuorum_stable.
  all: rewrite E; simpl; auto; lia.
Qed.

(** A granted vote: the node is now in that term and committed to the candidate,
    and it was not committed to another one. *)
Lemma vote_granted now term c n n' :
  evaluateVote now term c n = (true, n') →
  CurrentTerm n' = term ∧ VotedFor n' = c ∧
  ((CurrentTerm n < term)%Z ∨ (CurrentTerm n = term ∧ (VotedFor n = "" ∨ VotedFor n = c))).
Proof.
  unfold evaluateVote. case_match; [done|].
  destruct (Z.ltb_spec term (CurrentTerm n)); [done|].
  destruct (Z.ltb_spec (CurrentTerm n) term); simpl.
  - intros [= <-]. simpl. auto.
  - case_match eqn:E; [|done]. intros [= <-]. simpl.
    rewrite orb_true_iff, !String.eqb_eq in E. split_and!; [lia|done|]. right. split; [lia|done].
Qed.

(** Counting a vote. *)
Lemma count_ignored t resp n :
  ¬ (role n = Candidate ∧ CurrentTerm n = t) → moves n (requestVoteFromPeer t (Some resp) n).
Proof.
  intros Hn. unfold requestVoteFromPeer. case_match; [|apply moves_refl].
  pose proof (calculateQuorum_node n) as [E _]. pose proof (moves_quorum n) as Hm.
  destruct (calculateQuorum n) as [q n1]. simpl in *.
  case_match eqn:F; [|done]. exfalso. apply Hn. apply andb_true_iff in F as [F1%bool_decide_eq_true F2%Z.eqb_eq].
  by rewrite E in F1, F2.
Qed.

Lemma count_taken t resp n :
  strings.HasPrefix (strings.TrimSpace resp) "VOTE_GRANTED" = true →
  role n = Candidate → CurrentTerm n = t →
  let n' := requestVoteFromPeer t (Some resp) n in
  Address n' = Address n ∧ dom (Peers n') = dom (Peers n) ∧
  (calculateQuorum n').1 = (calculateQuorum n).1 ∧ CurrentTerm n' = t ∧ VotedFor n' = VotedFor n ∧
  votesReceived n' = wrap_int (votesReceived n + 1) ∧
  role n' = (if ((calculateQuorum n).1 <=? wrap_int (votesReceived n + 1))%Z then Leader else Candidate).
Proof.
  intros Hr Hrole Ht. unfold requestVoteFromPeer. rewrite Hr.
  pose proof (calculateQuorum_node n) as [E _]. pose proof (moves_quorum n) as Hm.
  destruct (calculateQuorum n) as [q n1] eqn:Eq. simpl in *.
  assert (role n1 = Candidate ∧ CurrentTerm n1 = t) as [-> ->] by (by rewrite E).
  rewrite bool_decide_eq_true_2, Z.eqb_refl by done. simpl.
  rewrite E. simpl. destruct (q <=? _)%Z; simpl; split_and!; try done.
  all: destruct Hm as [_ _ Hq _ _ _]; rewrite Eq in Hq; simpl in Hq; rewrite <-Hq;
    apply calculateQuorum_stable; left; by rewrite E.
Qed.

End moves.

(** ** The invariant *)

Section safety.
Variable env : string → Runtime.
Variable members : gset string.
Hypothesis named : "" ∉ members.
Hypothesis few : (Z.of_nat (size members) ≤ max_int)%Z.

(** [p] has voted for [c] in term [t]. *)
Definition voted net c t p : Prop := (c, t, p) ∈ replied net ∨ p ∈ voters net c t.

(** A request of [c] to [p] for term [t], in whatever state. *)
Definition ballot_of net c t p : Prop := (c, t, p) ∈ asked net ∨ voted net c t p.

Record inv (k : nat) (net : Net) : Prop := {
  inv_node i n : nodes net !! i = Some n →
    i ∈ members ∧ selfAddr (R:=env i) n = i ∧ dom (Peers n) = members ∖ {[i]} ∧
    (Z.of_nat (size members) < 2 * (calculateQuorum (R:=env i) n).1)%Z ∧
    (0 ≤ CurrentTerm n ≤ Z.of_nat k)%Z;
  inv_total i : i ∈ members → is_Some (nodes net !! i);
  inv_ballot c t p : ballot_of net c t p →
    p ∈ members ∧ (0 < t)%Z ∧ ∃ n, nodes net !! c = Some n ∧ (t ≤ CurrentTerm n)%Z;
  inv_once c t p :
    ((c, t, p) ∈ asked net → ¬ voted net c t p) ∧ ((c, t, p) ∈ replied net → p ∉ voters net c t);
  inv_vote c t p n : voted net c t p → nodes net !! p = Some n →
    (t ≤ CurrentTerm n)%Z ∧ (CurrentTerm n = t → VotedFor n = c);
  inv_unique c c' t p : voted net c t p → voted net c' t p → c = c';
  inv_candidate c n : nodes net !! c = Some n → role n = Candidate →
    votesReceived n = Z.of_nat (size (voters net c (CurrentTerm n)));
  inv_leader c n : nodes net !! c = Some n → role n = Leader → (0 < CurrentTerm n)%Z →
    (c, CurrentTerm n) ∈ elected net;
  inv_elected c t : (c, t) ∈ elected net →
    (Z.of_nat (size members) < 2 * Z.of_nat (size (voters net c t)))%Z
}.

Lemma selfAddr_address `{R : Runtime} n n' : Address n' = Address n → selfAddr n' = selfAddr n.
Proof. unfold selfAddr. by intros ->. Qed.

(** A node that moves within the terms seen so far. *)
Lemma inv_moves k net i n n' :
  inv k net → nodes net !! i = Some n → moves (R:=env i) n n' →
  (CurrentTerm n' ≤ Z.of_nat (S k))%Z →
  inv (S k) (set_nodes (<[i := n']> (nodes net)) net).
Proof.
  intros HI Hn Hm Hk. destruct (inv_node _ _ HI i n Hn) as (Hi & Hself & Hpeers & Hq & Ht).
  destruct Hm as [Ha Hp Hcq Hterm Hvote Hrole].
  split; simpl.
  - intros j m. destruct (decide (i = j)) as [<-|].
    + rewrite lookup_insert_eq. intros [= <-].
      rewrite (selfAddr_address _ _ Ha), Hp, Hcq. split_and!; try done; lia.
    + rewrite lookup_insert_ne by done. intros Hj.
      destruct (inv_node _ _ HI j m Hj) as (? & ? & ? & ? & ?). split_and!; try done; lia.
  - intros j Hj. destruct (decide (i = j)) as [<-|]; [rewrite lookup_insert_eq; eauto|].
    rewrite lookup_insert_ne by done. by apply (inv_total _ _ HI).
  - intros c t p Hb. destruct (inv_ballot _ _ HI c t p Hb) as (? & ? & m & Hc & ?).
    split_and!; try done. destruct (decide (i = c)) as [<-|].
    + exists n'. rewrite lookup_insert_eq. split; [done|]. rewrite Hn in Hc. simplify_eq. lia.
    + exists m. by rewrite lookup_insert_ne.
  - apply (inv_once _ _ HI).
  - intros c t p m Hv. destruct (decide (i = p)) as [<-|].
    + rewrite lookup_insert_eq. intros [= <-].
      destruct (inv_vote _ _ HI c t i n Hv Hn) as [? Hc]. split; [lia|]. intros Et.
      rewrite Hvote; [apply Hc|..]; [lia..|]. rewrite Hc by lia.
      destruct (inv_ballot _ _ HI c t i (or_intror Hv)) as (_ & _ & m & Hm & _).
      intros ->. by apply named, (inv_node _ _ HI "" m).
    + rewrite lookup_insert_ne by done. by apply (inv_vote _ _ HI).
  - apply (inv_unique _ _ HI).
  - intros c m. destruct (decide (i = c)) as [<-|].
    + rewrite lookup_insert_eq. intros [= <-] Hr. destruct Hrole as [?|(Hr' & -> & ->)]; [congruence|].
      apply (inv_candidate _ _ HI); [done|congruence].
    + rewrite lookup_insert_ne by done. by apply (inv_candidate _ _ HI).
  - intros c m. destruct (decide (i = c)) as [<-|].
    + rewrite lookup_insert_eq. intros [= <-] Hr. destruct Hrole as [?|(Hr' & -> & _)]; [congruence|].
      apply (inv_leader _ _ HI); [done|congruence].
    + rewrite lookup_insert_ne by done. by apply (inv_leader _ _ HI).
  - apply (inv_elected _ _ HI).
Qed.

(** Fewer requests and answers on the way. *)
Lemma inv_fewer k net A B :
  inv k net → A ⊆ asked net → B ⊆ replied net →
  inv k (MkNet (nodes net) A B (counted net) (elected net)).
Proof.
  intros HI HA HB.
  assert (∀ c t p, voted (MkNet (nodes net) A B (counted net) (elected net)) c t p →
    voted net c t p) as Hv by (intros c t p [?|?]; [left; set_solver|by right]).
  split; simpl; try apply HI.
  - intros c t p [?|?%Hv]; apply (inv_ballot _ _ HI); [left; set_solver|by right].
  - intros c t p. destruct (inv_once _ _ HI c t p) as [H1 H2]. split.
    + intros ? ?%Hv. apply H1; [set_solver|done].
    + intros ?. apply H2. set_solver.
  - intros c t p n ?%Hv. by apply (inv_vote _ _ HI).
  - intros c c' t p ?%Hv ?%Hv. by eapply (inv_unique _ _ HI).
Qed.

(** A grant, once the voter has committed itself. *)
Lemma inv_grant k net c t p n :
  inv k net → (c, t, p) ∈ asked net → nodes net !! p = Some n →
  CurrentTerm n = t → VotedFor n = c → (∀ c', voted net c' t p → c' = c) →
  inv k (MkNet (nodes net) (asked net ∖ {[(c, t, p)]}) (replied net ∪ {[(c, t, p)]})
    (counted net) (elected net)).
Proof.
  intros HI Ha Hn Ht Hc Hu.
  assert (∀ c0 t0 p0, voted (MkNet (nodes net) (asked net ∖ {[(c, t, p)]})
    (replied net ∪ {[(c, t, p)]}) (counted net) (elected net)) c0 t0 p0 →
    voted net c0 t0 p0 ∨ (c0 = c ∧ t0 = t ∧ p0 = p)) as Hv.
  { intros c0 t0 p0 [Hr|Hr]; [|by left; right]. simpl in Hr.
    apply elem_of_union in Hr as [?|Hr%elem_of_singleton]; [by left; left|right]. naive_solver. }
  split; simpl; try apply HI.
  - intros c0 t0 p0 [?|[?|(-> & -> & ->)]%Hv]; apply (inv_ballot _ _ HI).
    + left. simpl in *. set_solver.
    + by right.
    + by left.
  - intros c0 t0 p0. destruct (inv_once _ _ HI c0 t0 p0) as [H1 H2]. split.
    + intros [? Hne]%elem_of_difference [?|(-> & -> & ->)]%Hv; [by apply H1|].
      by apply Hne, elem_of_singleton.
    + intros [?|Hr%elem_of_singleton]%elem_of_union; [by apply H2|]. simplify_eq.
      intros Hin. by apply H1; [|right].
  - intros c0 t0 p0 m [?|(-> & -> & ->)]%Hv Hm; [by apply (inv_vote _ _ HI c0 t0 p0)|].
    rewrite Hn in Hm. simplify_eq. split; [lia|done].
  - intros c0 c1 t0 p0 [?|(-> & -> & ->)]%Hv [?|(-> & ? & ?)]%Hv; simplify_eq; try done.
    + by eapply (inv_unique _ _ HI).
    + by apply Hu.
    + symmetry. by apply Hu.
Qed.

Lemma vote_term `{R : Runtime} now t c n :
  CurrentTerm (evaluateVote now t c n).2 = CurrentTerm n ∨
  CurrentTerm (evaluateVote now t c n).2 = t.
Proof.
  unfold evaluateVote. case_match; [by left|]. case_match; [by left|].
  destruct (CurrentTerm n <? t)%Z; case_match; simpl; auto.
Qed.

Lemma inv_StepVote k net c t p n now :
  inv k net → (c, t, p) ∈ asked net → nodes net !! p = Some n →
  inv (S k) (MkNet (<[p := (evaluateVote (R:=env p) now t c n).2]> (nodes net))
    (asked net ∖ {[(c, t, p)]})
    (if (evaluateVote (R:=env p) now t c n).1 then replied net ∪ {[(c, t, p)]} else replied net)
    (counted net) (elected net)).
Proof.
  intros HI Ha Hn.
  destruct (inv_ballot _ _ HI c t p (or_introl Ha)) as (_ & _ & m & Hc & Htm).
  destruct (inv_node _ _ HI c m Hc) as (Hcm & _ & _ & _ & ?).
  destruct (inv_node _ _ HI p n Hn) as (_ & _ & _ & _ & ?).
  assert (inv (S k) (set_nodes (<[p := (evaluateVote (R:=env p) now t c n).2]> (nodes net)) net))
    as HI'.
  { apply (inv_moves _ _ _ n); [done..|apply moves_vote|].
    destruct (vote_term (R:=env p) now t c n) as [->| ->]; lia. }
  destruct (evaluateVote (R:=env p) now t c n) as [[] n'] eqn:E; simpl in *.
  - apply vote_granted in E as (Et & Ev & Hold).
    refine (inv_grant (S k) (set_nodes (<[p := n']> (nodes net)) net) c t p n' HI' Ha
      (lookup_insert_eq _ _ _) Et Ev _).
    intros c' Hv. destruct (inv_vote _ _ HI c' t p n Hv Hn) as [? Hc'].
    destruct Hold as [?|(Hnt & [E|E])]; [lia| |rewrite <-E; symmetry; by apply Hc'].
    rewrite (Hc' Hnt) in E. subst c'. exfalso.
    destruct (inv_ballot _ _ HI "" _ p (or_intror Hv)) as (_ & _ & m' & Hm' & _).
    by apply named, (inv_node _ _ HI "" m').
  - refine (inv_fewer (S k) (set_nodes (<[p := n']> (nodes net)) net) _ _ HI' _ _); [|done].
    simpl. set_solver.
Qed.

(** New requests of a node for the term it is in. *)
Lemma inv_ask (k : nat) (net : Net) (i : string) (n : Node) (new : gset ballot) :
  inv k net → nodes net !! i = Some n → (0 < CurrentTerm n)%Z →
  (∀ (c : string) (t : Z) (p : string), (c, t, p) ∈ new → c = i ∧ t = CurrentTerm n ∧ p ∈ members ∧ ¬ voted net c t p) →
  inv k (MkNet (nodes net) (asked net ∪ new) (replied net) (counted net) (elected net)).
Proof.
  intros HI Hn Hpos Hnew. split; try apply HI.
  - intros c t p [[Ha|(-> & -> & ? & _)%Hnew]%elem_of_union|Hv].
    + apply (inv_ballot _ _ HI). by left.
    + split_and!; [done..|]. by exists n.
    + apply (inv_ballot _ _ HI). by right.
  - intros c t p. destruct (inv_once _ _ HI c t p) as [H1 H2]. split; [|exact H2].
    intros [Ha|(_ & _ & _ & Hno)%Hnew]%elem_of_union; [by apply H1|done].
Qed.

(** One more counted vote, which changes its candidate [n] into [n']. *)
Lemma inv_counted (k : nat) (net : Net) (c : string) (n n' : Node) (p : string) (el : gset (string * Z)) :
  inv k net → nodes net !! c = Some n → moves (R:=env c) n (set_role Follower n') →
  CurrentTerm n' = CurrentTerm n → VotedFor n' = VotedFor n → (0 < CurrentTerm n)%Z →
  p ∈ members → p ∉ voters net c (CurrentTerm n) →
  (c, CurrentTerm n, p) ∉ asked net ∪ replied net →
  (∀ c', voted net c' (CurrentTerm n) p → c' = c) →
  (∀ m, nodes net !! p = Some m → (CurrentTerm n ≤ CurrentTerm m)%Z ∧
    (CurrentTerm m = CurrentTerm n → VotedFor m = c)) →
  (role n' = Candidate →
    votesReceived n' = (Z.of_nat (size (voters net c (CurrentTerm n))) + 1)%Z) →
  (role n' = Leader → (c, CurrentTerm n) ∈ el) →
  (∀ b, b ∈ el → b ∈ elected net ∨ (b = (c, CurrentTerm n) ∧
    (Z.of_nat (size members) < 2 * (Z.of_nat (size (voters net c (CurrentTerm n))) + 1))%Z)) →
  elected net ⊆ el →
  inv k (MkNet (<[c := n']> (nodes net)) (asked net) (replied net)
    (<[(c, CurrentTerm n) := voters net c (CurrentTerm n) ∪ {[p]}]> (counted net)) el).
Proof.
  intros HI Hn Hm Ht Hvf Hpos Hp Hnew [Hna Hnr]%not_elem_of_union Huniq Hpn Hcand Hlead Hel Hsub.
  set (t := CurrentTerm n) in *. set (net' := MkNet _ _ _ _ _).
  destruct (inv_node _ _ HI c n Hn) as (Hc & Hself & Hpeers & Hq & Hk).
  assert (voters net' c t = voters net c t ∪ {[p]} ∧
    ∀ c0 t0, (c0, t0) ≠ (c, t) → voters net' c0 t0 = voters net c0 t0) as [Hvc Hsame].
  { unfold voters at 1 3. simpl. split; [by rewrite lookup_insert_eq|].
    intros c0 t0 Hne. by rewrite lookup_insert_ne. }
  assert (Hsize : size (voters net' c t) = size (voters net c t) + 1).
  { rewrite Hvc, size_union, size_singleton by set_solver. done. }
  assert (∀ c0 t0 p0, voted net' c0 t0 p0 → voted net c0 t0 p0 ∨ (c0 = c ∧ t0 = t ∧ p0 = p)) as Hv.
  { intros c0 t0 p0 [?|Hin]; [by left; left|].
    destruct (decide ((c0, t0) = (c, t))) as [[= -> ->]|Hne].
    - rewrite Hvc in Hin. apply elem_of_union in Hin as [?|?%elem_of_singleton]; [by left; right|auto].
    - rewrite Hsame in Hin by done. by left; right. }
  assert (∀ j m, nodes net' !! j = Some m →
    (j = c ∧ m = n') ∨ (j ≠ c ∧ nodes net !! j = Some m)) as Hnodes.
  { intros j m Hj. unfold net' in Hj. simpl in Hj.
    apply lookup_insert_Some in Hj as [[<- <-]|[? ?]]; auto. }
  assert (∀ j m, nodes net !! j = Some m →
    ∃ m', nodes net' !! j = Some m' ∧ CurrentTerm m' = CurrentTerm m) as Hkeep.
  { intros j m Hj. unfold net'. simpl. destruct (decide (c = j)) as [<-|].
    - exists n'. rewrite lookup_insert_eq. split; [done|]. by simplify_eq.
    - exists m. by rewrite lookup_insert_ne. }
  split.
  - intros j m [[-> ->]|[_ Hj]]%Hnodes; [|by apply (inv_node _ _ HI)].
    destruct Hm as [Ha Hd Hcq _ _ _]. cbn in Ha, Hd.
    rewrite (selfAddr_address _ _ Ha), Hd, Ht. split_and!; try done; [|lia..].
    rewrite <-Hcq in Hq. by rewrite (calculateQuorum_stable (set_role Follower n')) by by left.
  - intros j [m Hj]%(inv_total _ _ HI). destruct (Hkeep j m Hj) as (? & -> & _). eauto.
  - intros c0 t0 p0 Hb.
    assert (ballot_of net c0 t0 p0 ∨ (c0 = c ∧ t0 = t ∧ p0 = p)) as [Hb'|(-> & -> & ->)].
    { destruct Hb as [?|[?|?]%Hv]; [by left; left|by left; right|by right]. }
    + destruct (inv_ballot _ _ HI _ _ _ Hb') as (? & ? & m & Hm' & ?).
      destruct (Hkeep _ _ Hm') as (m' & ? & E). split_and!; [done..|]. exists m'. by rewrite E.
    + destruct (Hkeep _ _ Hn) as (m' & ? & E). split_and!; [done..|]. exists m'. by rewrite E.
  - intros c0 t0 p0. destruct (inv_once _ _ HI c0 t0 p0) as [H1 H2]. split.
    + intros Ha [?|(-> & -> & ->)]%Hv; [by apply H1|done].
    + intros Hr Hin. destruct (Hv c0 t0 p0 (or_intror Hin)) as [[?|?]|(-> & -> & ->)]; [|by apply H2|done].
      destruct (decide ((c0, t0) = (c, t))) as [[= -> ->]|Hne].
      * rewrite Hvc in Hin. apply elem_of_union in Hin as [?|?%elem_of_singleton]; [by apply H2|by subst].
      * rewrite Hsame in Hin by done. by apply H2.
  - intros c0 t0 p0 m Hw Hm'.
    assert (∃ m0, nodes net !! p0 = Some m0 ∧ CurrentTerm m = CurrentTerm m0 ∧ VotedFor m = VotedFor m0)
      as (m0 & Hm0 & -> & ->).
    { apply Hnodes in Hm' as [[-> ->]|[_ ?]]; [by exists n|by exists m]. }
    destruct (Hv _ _ _ Hw) as [Hw'|(-> & -> & ->)]; [by apply (inv_vote _ _ HI _ _ p0)|by apply Hpn].
  - intros c0 c1 t0 p0 [?|(-> & -> & ->)]%Hv [?|(-> & ? & ?)]%Hv; subst; try done.
    + by eapply (inv_unique _ _ HI).
    + by apply Huniq.
    + symmetry. by apply Huniq.
  - intros j m [[-> ->]|[Hne Hj]]%Hnodes Hr.
    + rewrite Ht. fold t. rewrite Hsize, Hcand by done. lia.
    + rewrite Hsame by congruence. by apply (inv_candidate _ _ HI).
  - intros j m [[-> ->]|[Hne Hj]]%Hnodes Hr Hpos'; simpl.
    + rewrite Ht. by apply Hlead.
    + apply Hsub. by apply (inv_leader _ _ HI).
  - intros c0 t0 Hin. simpl in Hin. destruct (decide ((c0, t0) = (c, t))) as [[= -> ->]|Hne].
    + rewrite Hsize. destruct (Hel _ Hin) as [He%(inv_elected _ _ HI)|[_ ?]]; lia.
    + rewrite Hsame by done. apply (inv_elected _ _ HI). by destruct (Hel _ Hin) as [?|[? _]].
Qed.

Lemma inv_later k net : inv k net → inv (S k) net.
Proof.
  intros HI. split; try apply HI. intros i n Hn.
  destruct (inv_node _ _ HI i n Hn) as (? & ? & ? & ? & ?). split_and!; try done; lia.
Qed.

(** The requests an election starts go to the other members. *)
Lemma election_requests i n now c t p :
  RuntimeLaws (env i) → dom (Peers n) = members ∖ {[i]} →
  (c, t, p) ∈ (λ '(p, t), (i, t, p)) <$> (startElection (R:=env i) now n).2 →
  c = i ∧ t = CurrentTerm (startElection (R:=env i) now n).1 ∧ p ∈ members ∧ p ≠ i.
Proof.
  intros HL Hpeers ([q u] & [= -> -> ->] & Hin)%list_elem_of_fmap.
  apply list_elem_of_fmap in Hin as (q' & [= -> ->] & Hq').
  rewrite map_range_perm in Hq'. apply list_elem_of_fmap in Hq' as ([a peer] & -> & Ha).
  apply elem_of_map_to_list, (elem_of_dom_2 (D:=gset string)) in Ha.
  rewrite Hpeers in Ha. set_solver.
Qed.

(** A new term: no ballot of it existed. *)
Lemma inv_StepElection k net i n now :
  RuntimeLaws (env i) → (Z.of_nat (S k) ≤ max_int)%Z →
  inv k net → nodes net !! i = Some n →
  let n' := (startElection (R:=env i) now n).1 in
  inv (S k) (MkNet (<[i := n']> (nodes net))
    (asked net ∪ list_to_set ((λ '(p, t), (i, t, p)) <$> (startElection (R:=env i) now n).2))
    (replied net) (<[(i, CurrentTerm n') := {[i]}]> (counted net)) (elected net)).
Proof.
  intros HL Hk HI Hn n'. destruct (inv_node _ _ HI i n Hn) as (Hi & Hself & Hpeers & Hq & Ht).
  assert (Hreq := λ c t p, election_requests i n now c t p HL Hpeers).
  fold n' in Hreq. set (new := list_to_set _) in *.
  assert (CurrentTerm n' = CurrentTerm n + 1)%Z as Ht'
    by (apply wrap_int_id; unfold min_int; lia).
  set (n1 := set_role Follower n').
  assert (moves (R:=env i) n n1) as Hm.
  { split; simpl; auto; [by apply calculateQuorum_stable; left|..];
      change (wrap_int (CurrentTerm n + 1)) with (CurrentTerm n'); [lia|intros; lia]. }
  assert (inv (S k) (set_nodes (<[i := n1]> (nodes net)) net)) as HI1.
  { apply (inv_moves _ _ _ n); [done..|]. change (CurrentTerm n1) with (CurrentTerm n'). lia. }
  assert (∀ p, ¬ ballot_of net i (CurrentTerm n') p) as Hfresh.
  { intros p Hb. destruct (inv_ballot _ _ HI _ _ _ Hb) as (_ & _ & m & Hm' & ?). simplify_eq. lia. }
  assert (∀ c, ¬ voted net c (CurrentTerm n') i) as Hnov.
  { intros c Hw. destruct (inv_vote _ _ HI c _ i n Hw Hn). lia. }
  assert (voters net i (CurrentTerm n') = ∅) as Hempty.
  { apply set_eq. intros p. split; [|set_solver]. intros Hp. destruct (Hfresh p). by right; right. }
  pose proof (inv_counted (S k) (set_nodes (<[i := n1]> (nodes net)) net) i n1 n' i (elected net)
    HI1 (lookup_insert_eq _ _ _)) as Hc.
  change (CurrentTerm n1) with (CurrentTerm n') in Hc.
  change (voters (set_nodes _ net) i (CurrentTerm n')) with (voters net i (CurrentTerm n')) in Hc.
  rewrite Hempty, size_empty, union_empty_l_L in Hc. cbn [nodes set_nodes] in Hc.
  rewrite insert_insert_eq in Hc.
  refine (inv_ask (S k) _ i n' new (Hc _ _ _ _ _ _ _ _ _ _ _ _ _) (lookup_insert_eq _ _ _) _ _);
    try done; try lia.
  - by apply moves_refl.
  - intros [?|?]%elem_of_union; apply (Hfresh i); [by left|by right; left].
  - intros c Hw. by destruct (Hnov c).
  - intros m. rewrite lookup_insert_eq. by intros [= <-].
  - auto.
  - intros c t p (-> & -> & Hp & Hne)%elem_of_list_to_set%Hreq. split_and!; [done..|].
    intros [?|Hin]; [by apply (Hfresh p); right; left|]. unfold voters in Hin. simpl in Hin.
    rewrite lookup_insert_eq in Hin. simpl in Hin. set_solver.
Qed.

(** A vote read by a candidate that is still running for that term. *)
Lemma inv_count_taken k net c t p n resp :
  inv k net → (c, t, p) ∈ replied net → nodes net !! c = Some n →
  strings.HasPrefix (strings.TrimSpace resp) "VOTE_GRANTED" = true →
  role n = Candidate → CurrentTerm n = t →
  let n' := requestVoteFromPeer (R:=env c) t (Some resp) n in
  inv k (MkNet (<[c := n']> (nodes net)) (asked net) (replied net ∖ {[(c, t, p)]})
    (<[(c, t) := voters net c t ∪ {[p]}]> (counted net))
    (if bool_decide (role n' = Leader) then elected net ∪ {[(c, t)]} else elected net)).
Proof.
  intros HI Hr Hn Hresp Hrole Ht n'.
  destruct (count_taken (R:=env c) t resp n Hresp Hrole Ht)
    as (Ha & Hd & Hcq & Ht' & Hvf & Hvr & Hrole'). fold n' in Ha, Hd, Hcq, Ht', Hvf, Hvr, Hrole'.
  destruct (inv_node _ _ HI c n Hn) as (_ & _ & _ & Hq & _).
  assert (voted net c t p) as Hv by by left.
  destruct (inv_ballot _ _ HI c t p (or_intror Hv)) as (Hp & Hpos & _).
  destruct (inv_once _ _ HI c t p) as [Hna Hnv].
  assert (voters net c t ∪ {[p]} ⊆ members) as Hsub%subseteq_size.
  { intros q [Hin|Hq'%elem_of_singleton]%elem_of_union; [|by subst q].
    by destruct (inv_ballot _ _ HI c t q (or_intror (or_intror Hin))). }
  rewrite size_union, size_singleton in Hsub by set_solver.
  assert (votesReceived n' = Z.of_nat (size (voters net c t)) + 1)%Z as Hvotes.
  { rewrite Hvr, (inv_candidate _ _ HI c n) by done. rewrite Ht.
    apply wrap_int_id. unfold min_int. lia. }
  rewrite <-Hvr, Hvotes in Hrole'.
  assert (inv k (MkNet (nodes net) (asked net) (replied net ∖ {[(c, t, p)]}) (counted net)
    (elected net))) as HI1 by (apply inv_fewer; [done|done|set_solver]).
  subst t.
  refine (inv_counted k _ c n n' p _ HI1 Hn _ _ _ Hpos Hp _ _ _ _ _ _ _ _); simpl; try done.
  - split; simpl; auto; [|lia].
    rewrite <-Hcq. by apply calculateQuorum_stable; left.
  - by apply Hnv.
  - rewrite not_elem_of_union. split; [by intros ?%Hna|set_solver].
  - intros c' Hw. apply (inv_unique _ _ HI c' c (CurrentTerm n) p); [|done].
    destruct Hw as [?|?]; [left|by right]. simpl in *. set_solver.
  - intros m Hm. by apply (inv_vote _ _ HI c (CurrentTerm n) p m).
  - intros Hl. rewrite bool_decide_eq_true_2 by done. set_solver.
  - intros b. case_bool_decide as Hl; [|by left]. intros [?|Hb%elem_of_singleton]%elem_of_union; [by left|]. subst b.
    right. split; [done|]. rewrite Hl in Hrole'. unfold voters in *. simpl.
    destruct (Z.leb_spec (calculateQuorum (R:=env c) n).1
      (Z.of_nat (size (default ∅ (counted net !! (c, CurrentTerm n)))) + 1)%Z); [lia|done].
  - case_bool_decide; set_solver.
Qed.

Lemma inv_StepCount k net c t p n resp :
  inv k net → (c, t, p) ∈ replied net → nodes net !! c = Some n →
  strings.HasPrefix (strings.TrimSpace resp) "VOTE_GRANTED" = true →
  let n' := requestVoteFromPeer (R:=env c) t (Some resp) n in
  let counts := bool_decide (role n = Candidate ∧ CurrentTerm n = t) in
  inv (S k) (MkNet (<[c := n']> (nodes net)) (asked net) (replied net ∖ {[(c, t, p)]})
    (if counts then <[(c, t) := voters net c t ∪ {[p]}]> (counted net) else counted net)
    (if counts && bool_decide (role n' = Leader) then elected net ∪ {[(c, t)]} else elected net)).
Proof.
  intros HI Hr Hn Hresp n' counts. unfold counts. case_bool_decide as Hc; cbn [andb].
  - apply inv_later, inv_count_taken; naive_solver.
  - assert (moves (R:=env c) n n') as Hm by by apply count_ignored.
    assert (CurrentTerm n' = CurrentTerm n) as Ht.
    { unfold n', requestVoteFromPeer. rewrite Hresp.
      destruct (calculateQuorum_node (R:=env c) n) as [E _].
      destruct (calculateQuorum (R:=env c) n) as [q n1]. simpl in E. rewrite E. by repeat case_match. }
    destruct (inv_node _ _ HI c n Hn) as (_ & _ & _ & _ & ?).
    refine (inv_fewer (S k) (set_nodes (<[c := n']> (nodes net)) net) _ _ _ _ _);
      [apply (inv_moves _ _ _ n); [done..|lia]|done|simpl; set_solver].
Qed.

Lemma inv_step k net net' :
  (∀ i, RuntimeLaws (env i)) → (Z.of_nat (S k) ≤ max_int)%Z →
  inv k net → netstep env net net' → inv (S k) net'.
Proof.
  intros HL Hk HI Hs.
  assert (∀ i n n', nodes net !! i = Some n → moves (R:=env i) n n' → CurrentTerm n' = CurrentTerm n →
    inv (S k) (set_nodes (<[i := n']> (nodes net)) net)) as Hquiet.
  { intros i n n' Hn Hm Ht. destruct (inv_node _ _ HI i n Hn) as (_ & _ & _ & _ & ?).
    apply (inv_moves _ _ _ n); [done..|lia]. }
  assert (∀ s m t i n n', nodes net !! s = Some m → (0 ≤ t ≤ CurrentTerm m)%Z →
    nodes net !! i = Some n → moves (R:=env i) n n' → CurrentTerm n' = CurrentTerm n ∨ CurrentTerm n' = t →
    inv (S k) (set_nodes (<[i := n']> (nodes net)) net)) as Hcarry.
  { intros s m t i n n' Hs' Ht Hn Hm Hor. destruct (inv_node _ _ HI s m Hs') as (_ & _ & _ & _ & ?).
    destruct (inv_node _ _ HI i n Hn) as (_ & _ & _ & _ & ?).
    apply (inv_moves _ _ _ n); [done..|lia]. }
  destruct Hs as [i n now n' reqs _ Hn E|c t p n now allowed n' Ha Hn E|c t p n resp Hr Hn Hresp|
    s m t i n now http Hs Ht Hn|s m t i n now Hs Ht Hn Htr|i n now addr Hn|i n addr Hn|i n Hn|i n Hn].
  - pose proof (inv_StepElection k net i n now (HL i) Hk HI Hn) as H. by rewrite E in H.
  - pose proof (inv_StepVote k net c t p n now HI Ha Hn) as H. by rewrite E in H.
  - by apply inv_StepCount.
  - apply (Hcarry s m t i n); [done..|apply moves_heartbeat|].
    unfold handleHeartbeat. repeat case_match; simpl; auto.
  - apply (Hcarry s m t i n); [done..|by apply moves_follow|by right].
  - apply (Hquiet i n); [done|apply moves_alive|]. unfold markPeerAlive. by case_match.
  - apply (Hquiet i n); [done|apply moves_dead|]. unfold markPeerDead. by case_match.
  - apply (Hquiet i n); [done|apply moves_unsynced|done].
  - apply (Hquiet i n); [done|apply moves_quorum|]. by rewrite (proj1 (calculateQuorum_node n)).
Qed.

Lemma inv_init ns : configured env members ns → inv 0 (MkNet ns ∅ ∅ ∅ ∅).
Proof.
  intros HC. assert (∀ c t p, ¬ ballot_of (MkNet ns ∅ ∅ ∅ ∅) c t p) as Hno.
  { intros c t p [?|[?|Hv]]; [set_solver..|]. unfold voters in Hv. simpl in Hv.
    rewrite lookup_empty in Hv. set_solver. }
  split; simpl.
  - intros i n Hn. destruct (cfg_new _ _ _ HC i n Hn) as (now & addr & port & Hnew).
    pose proof (quorum_is_majority (R:=env i) _ _ _ _ Hnew) as Hq.
    apply NewNode_spec in Hnew as (-> & _).
    assert (i ∈ members) as Hi by (rewrite <-(cfg_dom _ _ _ HC); by eapply elem_of_dom_2).
    split_and!; [done|by apply HC|by apply HC| |lia..].
    rewrite <-(size_dom (D:=gset string)), (cfg_peers _ _ _ HC i n Hn), size_difference, size_singleton in Hq
      by set_solver.
    assert (size members ≠ 0) by (apply size_non_empty_iff; set_solver). lia.
  - intros i. rewrite <-(cfg_dom _ _ _ HC). by rewrite elem_of_dom.
  - intros c t p Hb. by destruct (Hno c t p).
  - intros c t p. set_solver.
  - intros c t p n Hv. destruct (Hno c t p). by right.
  - intros c c' t p Hv. destruct (Hno c t p). by right.
  - intros c n Hn. destruct (cfg_new _ _ _ HC c n Hn) as (? & ? & ? & (_ & _ & _ & -> & _)%NewNode_spec).
    by case_match.
  - intros c n Hn _. destruct (cfg_new _ _ _ HC c n Hn) as (? & ? & ? & (-> & _)%NewNode_spec). lia.
  - set_solver.
Qed.

Lemma inv_reach ns k net :
  (∀ i, RuntimeLaws (env i)) → configured env members ns → (Z.of_nat k ≤ max_int)%Z →
  reach env ns k net → inv k net.
Proof.
  intros HL HC Hk Hr. induction Hr as [|k net net' _ IH Hs]; [by apply inv_init|].
  apply (inv_step k net); [done..| |done]. apply IH. lia.
Qed.

End safety.

(** Two majorities of the members share one. *)
Lemma majorities_meet (members A B : gset string) :
  A ⊆ members → B ⊆ members →
  (size members < 2 * size A)%nat → (size members < 2 * size B)%nat → ∃ x, x ∈ A ∧ x ∈ B.
Proof.
  intros HA HB HsA HsB. destruct (set_choose_or_empty (A ∩ B)) as [[x Hx]|E]; [set_solver|].
  exfalso. assert (size (A ∪ B) ≤ size members) as Hs by (apply subseteq_size; set_solver).
  rewrite size_union in Hs by set_solver. lia.
Qed.
