(* ===== verification/ElectionProps.v ===== *)
(** * What leader election guarantees

    At most one leader is elected in a term, terms never fall and votes are
    final; how many grants make a leader.  A cluster of three nodes shows that
    the hypotheses can hold and that elections succeed. *)

From S2P Require Import Prelude.
From S2P Require Import GoLib.
From S2P Require Import Message.
From S2P Require Import Demo.
From S2P Require Import Cluster.
From S2P Require Import Election.

(** ** Three nodes *)

Definition demo_names : list string := ["a:1"; "b:1"; "c:1"].
Definition demo_env (i : string) : Runtime := env_runtime (λ name,
  if String.eqb name "TINYMQ_CLUSTER_NODES"
  then strings.Join (filter (λ j, j ≠ i) demo_names) ","
  else if String.eqb name "TINYMQ_CLUSTER_SELF" then i
  else if String.eqb name "TINYMQ_CLUSTER_SECRET" then "s" else "").
Lemma demo_env_laws i : RuntimeLaws (demo_env i).
Proof. apply env_runtime_laws. Qed.

Definition demo_node (i : string) : Node :=
  default (MkNode "" "" "" Follower ∅ 0 "" 0 0 "" false 0) (NewNode (R:=demo_env i) 0 ":1" "80").
Definition demo_nodes : gmap string Node := list_to_map ((λ i, (i, demo_node i)) <$> demo_names).
Definition demo_members : gset string := list_to_set demo_names.

Lemma demo_node_lookup i n : demo_nodes !! i = Some n → i ∈ demo_names ∧ n = demo_node i.
Proof.
  unfold demo_nodes. intros Hn%elem_of_list_to_map_2.
  apply list_elem_of_fmap in Hn as (j & [= <- <-] & Hj). done.
Qed.

Lemma demo_configured : configured demo_env demo_members demo_nodes.
Proof.
  split.
  - vm_compute. reflexivity.
  - intros H. apply elem_of_list_to_set in H. repeat (apply list_elem_of_In in H; simpl in H).
    naive_solver.
  - intros i n [Hi ->]%demo_node_lookup. unfold demo_names in Hi.
    repeat (apply elem_of_cons in Hi as [->|Hi]; [vm_compute; reflexivity|]). by apply elem_of_nil in Hi.
  - intros i n [Hi ->]%demo_node_lookup. exists 0%Z, ":1", "80". unfold demo_names in Hi.
    repeat (apply elem_of_cons in Hi as [->|Hi]; [vm_compute; reflexivity|]). by apply elem_of_nil in Hi.
  - intros i n [Hi ->]%demo_node_lookup. unfold demo_names in Hi.
    repeat (apply elem_of_cons in Hi as [->|Hi]; [vm_compute; reflexivity|]). by apply elem_of_nil in Hi.
Qed.

(** In three steps [a:1] asks, [b:1] grants, [a:1] leads term 1. *)
Definition demo_a1 : Node := (startElection (R:=demo_env "a:1") 9 (demo_node "a:1")).1.
Definition demo_b1 : Node := (evaluateVote (R:=demo_env "b:1") 10 1 "a:1" (demo_node "b:1")).2.
Definition demo_a2 : Node := requestVoteFromPeer (R:=demo_env "a:1") 1 (Some "VOTE_GRANTED 1 x") demo_a1.

Lemma demo_leads : role demo_a2 = Leader ∧ CurrentTerm demo_a2 = 1%Z.
Proof. vm_compute. done. Qed.

Lemma demo_lookup i : i ∈ demo_names → demo_nodes !! i = Some (demo_node i).
Proof.
  intros Hi. apply elem_of_list_to_map_1.
  - vm_compute. repeat constructor; set_solver.
  - apply list_elem_of_fmap. eauto.
Qed.

Lemma demo_elected :
  ∃ net, reach demo_env demo_nodes 3 net ∧ nodes net !! "a:1" = Some demo_a2 ∧
    ("a:1", 1%Z) ∈ elected net.
Proof.
  eexists. split; [eapply reach_step; [eapply reach_step; [eapply reach_step|]|]|].
  - apply reach_init.
  - eapply (StepElection _ _ "a:1" _ 9 demo_a1 [("c:1", 1%Z); ("b:1", 1%Z)]);
      [vm_compute; reflexivity|apply demo_lookup; set_solver|vm_compute; reflexivity].
  - eapply (StepVote _ _ "a:1" 1 "b:1" (demo_node "b:1") 10 true demo_b1);
      [apply elem_of_union_r; set_solver| |vm_compute; reflexivity].
    simpl. rewrite lookup_insert_ne by done. apply demo_lookup. set_solver.
  - eapply (StepCount _ _ "a:1" 1 "b:1" demo_a1 "VOTE_GRANTED 1 x");
      [apply elem_of_union_r; set_solver| |vm_compute; reflexivity].
    simpl. rewrite lookup_insert_ne, lookup_insert_eq by done. done.
  - cbn [nodes elected]. rewrite lookup_insert_eq. split; [done|].
    rewrite !bool_decide_eq_true_2; [set_solver|vm_compute; done..].
Qed.

(** ** Claims *)

(** [C3] Election safety: in every reachable state of the cluster, whatever the
    interleaving of elections, votes, delayed heartbeats and replicated messages,
    at most one node was ever elected in a term, and a node that is a leader in a
    term above 0 was elected in it; so no two nodes lead the same term.  (In term
    0 only nodes started with [TINYMQ_CLUSTER_LEADER=true] lead.)  Terms are
    64-bit integers that wrap around; [2^63 - 1] steps are too few to reach the
    limit. *)
Theorem election_safety (env : string → Runtime) (members : gset string)
    (ns : gmap string Node) (k : nat) (net : Net) :
  (∀ i, RuntimeLaws (env i)) → configured env members ns →
  (Z.of_nat (size members) ≤ max_int)%Z → (Z.of_nat k ≤ max_int)%Z →
  reach env ns k net →
  (∀ c c' t, (c, t) ∈ elected net → (c', t) ∈ elected net → c = c') ∧
  (∀ c n, nodes net !! c = Some n → role n = Leader → (0 < CurrentTerm n)%Z →
    (c, CurrentTerm n) ∈ elected net) ∧
  (∀ c c' n n', nodes net !! c = Some n → nodes net !! c' = Some n' →
    role n = Leader → role n' = Leader → CurrentTerm n = CurrentTerm n' →
    (0 < CurrentTerm n)%Z → c = c').
Proof.
  intros HL HC Hsize Hk Hr. pose proof (inv_reach env members (cfg_names _ _ _ HC) Hsize ns k net HL HC Hk Hr) as HI.
  assert (∀ c c' t, (c, t) ∈ elected net → (c', t) ∈ elected net → c = c') as Hone.
  { intros c c' t H1%(inv_elected _ _ _ _ HI) H2%(inv_elected _ _ _ _ HI).
    assert (∀ d, voters net d t ⊆ members) as Hsub.
    { intros d p Hp. by destruct (inv_ballot _ _ _ _ HI d t p (or_intror (or_intror Hp))). }
    destruct (majorities_meet members (voters net c t) (voters net c' t)) as (p & Hp & Hp'); [done..|lia|lia|].
    apply (inv_unique _ _ _ _ HI c c' t p); by right. }
  split_and!; [done|apply (inv_leader _ _ _ _ HI)|].
  intros c c' n n' Hn Hn' Hl Hl' Ht Hpos. apply (Hone c c' (CurrentTerm n)).
  - by apply (inv_leader _ _ _ _ HI).
  - rewrite Ht in *. by apply (inv_leader _ _ _ _ HI).
Qed.

Lemma election_safety_witness :
  ∃ net, reach demo_env demo_nodes 3 net ∧ ("a:1", 1%Z) ∈ elected net ∧
    ∀ c, (c, 1%Z) ∈ elected net → c = "a:1".
Proof.
  destruct demo_elected as (net & Hr & _ & He). exists net. split_and!; [done..|].
  intros c Hc. refine (proj1 (election_safety demo_env demo_members demo_nodes 3 net _
    demo_configured _ _ Hr) c "a:1" 1%Z Hc He).
  - apply demo_env_laws.
  - vm_compute. discriminate.
  - vm_compute. discriminate.
Defined.

(** Terms and votes: no step of the cluster lowers a node's term, and a node
    that voted in a term (or accepted a leader's word in it) keeps that choice as
    long as the term lasts.  A node in a new term is a follower or the candidate
    of its own election. *)
Theorem votes_are_final (env : string → Runtime) (members : gset string)
    (ns : gmap string Node) (k : nat) (net net' : Net) :
  (∀ i, RuntimeLaws (env i)) → configured env members ns →
  (Z.of_nat (size members) ≤ max_int)%Z → (Z.of_nat (S k) ≤ max_int)%Z →
  reach env ns k net → netstep env net net' →
  ∀ i n n', nodes net !! i = Some n → nodes net' !! i = Some n' →
    (CurrentTerm n ≤ CurrentTerm n')%Z ∧
    (CurrentTerm n' = CurrentTerm n → VotedFor n ≠ "" → VotedFor n' = VotedFor n) ∧
    (CurrentTerm n' ≠ CurrentTerm n →
      role n' = Follower ∨ (role n' = Candidate ∧ VotedFor n' = i)).
Proof.
  intros HL HC Hsize Hk Hr Hs i n n' Hn Hn'.
  assert (inv env members k net) as HI
    by (apply (inv_reach env members (cfg_names _ _ _ HC) Hsize ns); [done..|lia|done]).
  assert (∀ j m m', nodes net !! j = Some m → moves (R:=env j) m m' →
    <[j := m']> (nodes net) !! i = Some n' → (CurrentTerm n ≤ CurrentTerm n')%Z ∧
    (CurrentTerm n' = CurrentTerm n → VotedFor n ≠ "" → VotedFor n' = VotedFor n) ∧
    (CurrentTerm n' ≠ CurrentTerm n →
      role n' = Follower ∨ (role n' = Candidate ∧ VotedFor n' = i))) as Hmove.
  { intros j m m' Hj Hm. destruct (decide (j = i)) as [->|].
    - rewrite lookup_insert_eq. intros [= <-]. simplify_eq.
      destruct Hm as [_ _ _ ? ? [?|(_ & ? & _)]]; by auto.
    - rewrite lookup_insert_ne by done. intros ?. simplify_eq. done. }
  destruct Hs as [j m now m' reqs _ Hm E|c t p m now allowed m' Ha Hm E|c t p m resp Hrp Hm Hresp m' counts|
    s x t j m now http Hs Ht Hm|s x t j m now Hs Ht Hm Htr|j m now addr Hm|j m addr Hm|j m Hm|j m Hm];
    simpl in Hn'.
  - destruct (decide (j = i)) as [->|].
    + rewrite lookup_insert_eq in Hn'. destruct (inv_node _ _ _ _ HI i n Hn) as (_ & Hself & _ & _ & ?).
      unfold startElection in E. simplify_eq. simpl.
      rewrite wrap_int_id by (unfold min_int; lia). split_and!; [lia|intros; lia|auto].
    + rewrite lookup_insert_ne in Hn' by done. simplify_eq. done.
  - apply (Hmove p m m'); [done| |done]. pose proof (moves_vote (R:=env p) now t c m) as H. by rewrite E in H.
  - destruct (decide (role m = Candidate ∧ CurrentTerm m = t)) as [[Hrole Ht]|Hno].
    + destruct (decide (c = i)) as [->|].
      * rewrite lookup_insert_eq in Hn'. injection Hn' as <-.
        assert (m = n) as -> by congruence. subst t m'.
        destruct (count_taken (R:=env i) (CurrentTerm n) resp n Hresp Hrole eq_refl)
          as (_ & _ & _ & -> & -> & _). done.
      * rewrite lookup_insert_ne in Hn' by done. simplify_eq. done.
    + eapply (Hmove c m); [done| |done]. by apply count_ignored.
  - by eapply (Hmove j m); [|apply moves_heartbeat|].
  - by eapply (Hmove j m); [|apply moves_follow|].
  - by eapply (Hmove j m); [|apply moves_alive|].
  - by eapply (Hmove j m); [|apply moves_dead|].
  - by eapply (Hmove j m); [|apply moves_unsynced|].
  - by eapply (Hmove j m); [|apply moves_quorum|].
Qed.

Lemma votes_are_final_witness :
  ∃ net', netstep demo_env (MkNet demo_nodes ∅ ∅ ∅ ∅) net' ∧
    ∀ n n', demo_nodes !! "a:1" = Some n → nodes net' !! "a:1" = Some n' →
      (CurrentTerm n ≤ CurrentTerm n')%Z.
Proof.
  eexists. split.
  - eapply (StepElection _ _ "a:1" _ 9); [vm_compute; reflexivity|vm_compute; reflexivity|reflexivity].
  - intros n n' Hn Hn'. refine (proj1 (votes_are_final demo_env demo_members demo_nodes 0
      (MkNet demo_nodes ∅ ∅ ∅ ∅) _ _ demo_configured _ _ (reach_init _ _) _ "a:1" n n' Hn Hn')).
    + apply demo_env_laws.
    + vm_compute. discriminate.
    + vm_compute. discriminate.
    + eapply (StepElection _ _ "a:1" _ 9); [vm_compute; reflexivity|vm_compute; reflexivity|reflexivity].
Defined.

(** The manifest [k8s/tinymq-cluster.yaml] lists all three pods in
    [TINYMQ_CLUSTER_NODES], the node itself included; [loadPeersFromEnv] skips it
    but [calculateQuorum] counts it twice, so the quorum of the three-node cluster
    is all three nodes and the loss of one stops elections and replication. *)
Theorem k8s_quorum_is_everyone :
  let pod i := i +:+ ".tinymq-headless:7901" in
  let nodes := strings.Join (pod <$> ["tinymq-0"; "tinymq-1"; "tinymq-2"]) "," in
  Forall (λ i,
    let R := env_runtime (λ name,
      if String.eqb name "TINYMQ_CLUSTER_NODES" then nodes
      else if String.eqb name "TINYMQ_CLUSTER_SELF" then pod i
      else if String.eqb name "TINYMQ_CLUSTER_SECRET" then "s" else "") in
    match NewNode (R:=R) 0 "0.0.0.0:7901" "7800" with
    | Some n => size (Peers n) = 2 ∧ (calculateQuorum (R:=R) n).1 = 3%Z
    | None => False
    end) ["tinymq-0"; "tinymq-1"; "tinymq-2"].
Proof. repeat constructor; vm_compute; reflexivity. Qed.

(** The answers a candidate reads one after the other. *)
Definition read_votes `{Runtime} (t : Z) (resps : list string) (n : Node) : Node :=
  foldl (λ n resp, requestVoteFromPeer t (Some resp) n) n resps.

(** A leader ignores further answers. *)
Lemma read_votes_leader `{R : Runtime} t resps n :
  role n = Leader → role (read_votes t resps n) = Leader.
Proof.
  revert n. induction resps as [|r l IH]; intros n Hn; [done|]. apply IH.
  unfold requestVoteFromPeer. case_match; [|done].
  destruct (calculateQuorum_node n) as [E _]. destruct (calculateQuorum n) as [q n1].
  simpl in E. rewrite E. simpl. by rewrite Hn.
Qed.

Lemma read_votes_candidate `{R : Runtime} t resps n v :
  Forall (λ r, strings.HasPrefix (strings.TrimSpace r) "VOTE_GRANTED" = true) resps →
  role n = Candidate → CurrentTerm n = t → votesReceived n = v →
  (0 ≤ v ∧ v + Z.of_nat (length resps) ≤ max_int)%Z → (v < (calculateQuorum n).1)%Z →
  role (read_votes t resps n) =
    if ((calculateQuorum n).1 <=? v + Z.of_nat (length resps))%Z then Leader else Candidate.
Proof.
  intros Hall. revert n v.
  induction Hall as [|r l Hr _ IH]; intros n v Hrole Ht Hv Hb Hq; simpl in *.
  { destruct (Z.leb_spec (calculateQuorum n).1 (v + Z.of_nat 0)%Z); [lia|exact Hrole]. }
  destruct (count_taken t r n Hr Hrole Ht) as (_ & _ & Hcq & Ht' & _ & Hv' & Hrole').
  set (n' := requestVoteFromPeer t (Some r) n) in *.
  rewrite Hv, wrap_int_id in Hv', Hrole' by (unfold min_int; lia).
  destruct (Z.leb_spec (calculateQuorum n).1 (v + 1)%Z).
  - destruct (Z.leb_spec (calculateQuorum n).1 (v + Z.of_nat (S (length l)))%Z) as [_|?]; [|lia].
    by apply read_votes_leader.
  - change (role (read_votes t l n') = if ((calculateQuorum n).1 <=? v + Z.of_nat (S (length l)))%Z
      then Leader else Candidate).
    rewrite (IH n' (v + 1)%Z) by (done || lia). rewrite Hcq.
    by replace (v + 1 + Z.of_nat (length l))%Z with (v + Z.of_nat (S (length l)))%Z by lia.
Qed.

(** [C37] How an election ends: a candidate that reads [VOTE_GRANTED] from some of
    its peers, and hears nothing else, leads exactly when these and its own vote
    reach the quorum.  A node whose quorum is 1 asks nobody and stays a candidate. *)
Theorem election_outcome `{R : Runtime} (now : Z) (n : Node) (resps : list string) :
  (Z.of_nat (length resps) < max_int)%Z →
  (0 < (calculateQuorum n).1)%Z →
  Forall (λ r, strings.HasPrefix (strings.TrimSpace r) "VOTE_GRANTED" = true) resps →
  let n' := (startElection now n).1 in
  role (read_votes (CurrentTerm n') resps n') =
    if bool_decide (resps ≠ [] ∧ ((calculateQuorum n).1 ≤ 1 + Z.of_nat (length resps))%Z)
    then Leader else Candidate.
Proof.
  intros Hl Hq Hall n'.
  assert ((calculateQuorum n').1 = (calculateQuorum n).1) as Hcq
    by (apply calculateQuorum_stable; by left).
  destruct resps as [|r l]; [done|].
  rewrite (bool_decide_ext _ ((calculateQuorum n).1 ≤ 1 + Z.of_nat (length (r :: l)))%Z) by naive_solver.
  destruct (decide (1 < (calculateQuorum n).1)%Z) as [Hbig|Hone].
  - rewrite (read_votes_candidate _ _ _ 1%Z) by (done || lia). rewrite Hcq.
    case_bool_decide; case_match eqn:E; try done;
      [apply Z.leb_gt in E|apply Z.leb_le in E]; lia.
  - inversion Hall as [|? ? Hr Hall']; subst.
    destruct (count_taken (CurrentTerm n') r n' Hr eq_refl eq_refl) as (_ & _ & _ & _ & _ & _ & Hrole').
    rewrite Hcq in Hrole'. change (votesReceived n') with 1%Z in Hrole'.
    rewrite wrap_int_id in Hrole' by (unfold min_int, max_int; lia).
    rewrite bool_decide_eq_true_2 by (simpl length; lia).
    destruct (Z.leb_spec (calculateQuorum n).1 (1 + 1)%Z); [|lia].
    simpl. by apply read_votes_leader.
Qed.

Lemma election_outcome_witness :
  let R := demo_env "a:1" in
  let n' := (startElection 9 (demo_node "a:1")).1 in
  role (read_votes (CurrentTerm n') ["VOTE_GRANTED 1 x"] n') = Leader.
Proof.
  refine (election_outcome (R:=demo_env "a:1") 9 (demo_node "a:1") ["VOTE_GRANTED 1 x"] _ _ _).
  - vm_compute. reflexivity.
  - vm_compute. reflexivity.
  - by repeat constructor.
Defined.
