(* ===== verification/ClusterProps.v ===== *)
(** * The cluster protocol

    What the lines of the node-to-node protocol do to the node that receives
    them, and what replication answers to a publisher. *)

From Stdlib Require Import Ascii.
From Stdlib Require Import Strings.Byte.
From S2P Require Import Prelude.
From S2P Require Import GoLib.
From S2P Require Import Base64.
From S2P Require Import Message.
From S2P Require Import Wal.
From S2P Require Import Storage.
From S2P Require Import Codec.
From S2P Require Import Demo.
From S2P Require Import Broker.
From S2P Require Import BrokerSteps.
From S2P Require Import BrokerSafe.
From S2P Require Import BrokerOps.
From S2P Require Import BrokerSafety.
From S2P Require Import BrokerPublish.
From S2P Require Import Wire.
From S2P Require Import Cluster.
From S2P Require Import Election.
From S2P Require Import ElectionProps.

(** Topic names hold no space. *)
Lemma lacks_topic name : validTopicRegex name = true → lacks " " name = true.
Proof.
  unfold validTopicRegex. destruct name as [|c name]; [done|]. apply forall_chars_impl.
  intros x Hx. apply negb_true_iff, Ascii.eqb_neq. by intros <-.
Qed.

Section lines.
Context `{R : Runtime} (HR : RuntimeLaws R).

Lemma mac_plain n body :
  lacks " " (signMessage n body) = true ∧
  ∃ c, last_char (signMessage n body) = Some c ∧ plain_end c = true.
Proof using HR.
  unfold signMessage. case_match; [split; [done|]; by exists "C"%char|].
  pose proof (hmac_length (bytes_of_string (clusterSecret n)) (bytes_of_string body)) as Hlen.
  destruct (hmac_sha256 _ _) as [|x b]; [done|]. apply hex_plain.
Qed.

(** A signed line is read back as its fields and the MAC of their text. *)
Lemma read_signed n a x l :
  plain_start a = true → Forall (λ s, lacks " " s = true) (String a x :: l) →
  strings.Split (strings.TrimSpace (signed n (String a x :: l))) " " =
    String a x :: l ++ [signMessage n (strings.Join (String a x :: l) " ")].
Proof using HR.
  intros Ha Hl. unfold signed. set (body := strings.Join _ _).
  destruct (mac_plain n body) as (Hs & c & Hc & Hp).
  assert (∃ y, body = String a y) as [y Hy].
  { unfold body. destruct l; [by exists x|]. eexists. rewrite Join_cons. done. }
  assert (body +:+ " " +:+ signMessage n body = strings.Join ((String a x :: l) ++ [signMessage n body]) " ")
    as Hj by by rewrite Join_snoc.
  rewrite <-!str_app_assoc, (str_app_assoc body), Hj.
  assert (∃ z, strings.Join ((String a x :: l) ++ [signMessage n body]) " " = String a z) as [z Hz].
  { rewrite <-Hj, Hy. by eexists. }
  rewrite Hz. rewrite (TrimSpace_line a z c); [|done| |done].
  - rewrite <-Hz. apply Split_Join. apply (Forall_app_2 _ (String a x :: l)); [done|]. by constructor.
  - rewrite <-Hz, <-Hj. rewrite !last_char_app; [done|..].
    + intros E. by rewrite E in Hc.
    + by destruct (signMessage n body).
Qed.

End lines.

Section peers.
(** the sender's process: another environment, the same HMAC *)
Context (R' : Runtime) (HR : RuntimeLaws R').
Context (R : Runtime) {St : Type} `{Storage St}.
Implicit Types s : Server St.
Context (same_hmac : hmac_sha256 (Runtime:=R') = hmac_sha256 (Runtime:=R)).

Lemma sign_same n n' body :
  clusterSecret n = clusterSecret n' → signMessage (R:=R') n body = signMessage (R:=R) n' body.
Proof using same_hmac. unfold signMessage. intros ->. by rewrite same_hmac. Qed.

Lemma verify_sign n body : verifyMessage (R:=R) n body (signMessage (R:=R) n body) = true.
Proof. unfold verifyMessage. case_match; [done|]. apply String.eqb_refl. Qed.

Lemma removelast_snoc {A} (x : A) l y : removelast (x :: l ++ [y]) = x :: l.
Proof. apply (removelast_last (x :: l)). Qed.

Lemma last_snoc {A} (l : list A) y d : List.last (l ++ [y]) d = y.
Proof. apply last_last. Qed.

(** A line signed under the same secret reaches its handler. *)
Lemma handle_signed now n a x l s :
  plain_start a = true → Forall (λ f, lacks " " f = true) (String a x :: l) →
  clusterSecret n = clusterSecret (node s) →
  handle_line (R:=R) now (signed (R:=R') n (String a x :: l)) s =
    (dispatch (R:=R) now (String a x) (String a x :: l) ;; mret true) s.
Proof using HR same_hmac.
  intros Ha Hl Hsec. unfold handle_line. rewrite (read_signed (R:=R') HR) by done.
  cbn [String.eqb]. rewrite (sign_same _ (node s)) by done.
  set (mac := signMessage (R:=R) _ _).
  destruct (l ++ [mac]) as [|y l'] eqn:E; [by destruct l|]. rewrite <-E, last_snoc, removelast_snoc.
  unfold get, mbind, M_bind. unfold mac. by rewrite verify_sign.
Qed.

End peers.

(** ** Writes on a node that does not lead *)

Section refusal.
Context `{R : Runtime} {St : Type} `{Storage St} `{!StorageSafe St}.
Context (HR : RuntimeLaws R).
Implicit Types w : World St.

(** No queue changed: topics may have been created, empty. *)
Definition untouched w w' : Prop :=
  bindings w' = bindings w ∧ OnPublish w' = OnPublish w ∧ storage w' = storage w ∧
  ∀ name, topic_at w' name = topic_at w name ∨
    (topic_at w name = None ∧ topic_at w' name = Some (empty_topic name default_policy 0)).

Lemma untouched_refl w : untouched w w.
Proof. split_and!; auto. Qed.

Lemma untouched_trans w1 w2 w3 : untouched w1 w2 → untouched w2 w3 → untouched w1 w3.
Proof.
  intros (? & ? & ? & H12) (? & ? & ? & H23). split_and!; [congruence..|]. intros name.
  destruct (H12 name) as [E1|[E1 E1']], (H23 name) as [E2|[E2 E2']];
    [left; congruence|right; split; congruence|right; split; congruence|congruence].
Qed.

Lemma untouched_installed name re w :
  wf w → Topics w !! name = None →
  untouched w (installed name (empty_topic name default_policy 0) re w).
Proof.
  intros Hwf Hn. split_and!; [done..|]. intros n. unfold topic_at. simpl.
  destruct (decide (name = n)) as [<-|].
  - right. rewrite Hn, lookup_insert_eq. split; [done|]. simpl. apply lookup_insert_eq.
  - left. rewrite lookup_insert_ne by done. destruct (Topics w !! n) as [t|] eqn:Et; [|done]. simpl.
    destruct (topic_valid _ _ _ Hwf Et) as (y & Hy & _). pose proof (fresh_heap w Hwf).
    rewrite lookup_insert_ne; [done|]. congruence.
Qed.

Lemma step_publish_one_refused now name payload headers p e d bc err f w :
  wf w → OnPublish w = Some f → f name payload = Some err →
  step (publish_one now name payload headers p e d bc false) w (λ r w',
    (r = Some err ∨ r = Some topic_limit_msg) ∧ untouched w w').
Proof using HR StorageSafe0.
  intros Hwf Hon Hf.
  eapply step_bind with (Q := λ ot w', untouched w w' ∧
    match ot with Some t => Topics w' !! name = Some t | None => True end).
  { apply wpx_getOrCreateTopic.
    - intros t Ht. split_and!; [done|auto with tmq|apply untouched_refl|done].
    - intros. split_and!; [done|auto with tmq|apply untouched_refl|done].
    - intros re Hn _. split_and!; [by apply wf_installed|apply ext_with_topic| |apply installed_topic].
      by apply untouched_installed. }
  intros [t|] w1 Hwf1 _ [Hu Ht]; [|apply step_ret; auto].
  eapply step_bind; [by apply step_matchingWildcards|]. intros ws ? _ _ (-> & _).
  destruct (topic_valid _ _ _ Hwf1 Ht) as (x & Hx & _).
  apply wpx_bind. eapply wpx_load_topic; [done|]. cbv zeta.
  eapply step_bind; [by apply step_fresh_uuid|]. intros id w2 Hwf2 _ [-> ->].
  apply step_bind_get. change (OnPublish (set_draws _ w1)) with (OnPublish w1).
  destruct Hu as (? & Hon1 & ? & ?). rewrite Hon1, Hon, Hf.
  apply step_ret; [done|]. split; [by left|]. by split_and!.
Qed.

Lemma step_publishCore_refused left now name payload headers p e d bc f w :
  wf w → OnPublish w = Some f → (∀ n, is_Some (f n payload)) →
  step (publishCore left now name payload headers p e d bc false) w (λ r w',
    is_Some r ∧ untouched w w').
Proof using HR StorageSafe0.
  revert name w. induction left as [|left IH]; intros name w Hwf Hon Hf.
  { apply step_ret; [done|]. split; [by eexists|apply untouched_refl]. }
  cbn [publishCore].
  case_match; [apply step_ret; [done|]; split; [by eexists|apply untouched_refl]|].
  case_match; [apply step_ret; [done|]; split; [by eexists|apply untouched_refl]|].
  eapply step_bind with (Q := λ _ w', untouched w w').
  - case_match; [apply step_ret; [done|apply untouched_refl]|]. apply step_bind_get.
    apply (step_forM _ _ (λ w', untouched w w')); [done|apply untouched_refl|].
    intros dest w' _ Hwf' _ Hu. eapply step_bind.
    + apply (IH dest w'); [done| |done]. destruct Hu as (_ & -> & _). done.
    + intros r w'' Hwf'' _ [_ Hu']. apply step_ret; [done|]. by eapply untouched_trans.
  - intros [] w1 Hwf1 _ Hu. destruct (Hf name) as [err Herr]. eapply step_mono.
    + apply (step_publish_one_refused _ _ _ _ _ _ _ _ err f); [done| |done].
      destruct Hu as (_ & -> & _). done.
    + intros r w2 _ _ [Hr Hu']. split; [destruct Hr; subst; eauto|]. by eapply untouched_trans.
Qed.

End refusal.

Lemma wf_hooks `{R : Runtime} {St} timeout net (s : Server St) :
  wf (broker s) → wf (hooks timeout net s).
Proof. intros Hwf. destruct Hwf. by split. Qed.

(** ** Concrete servers *)

(** [b:1] as a follower and [a:1] as the leader of term 1. *)
Definition demo_follower : Server DiskStorage := MkServer (demo_node "b:1") demo_empty [] [].

(** ** Claims *)

(** A node that does not lead accepts no write: [Publish] on a broker with the
    closures of [NewNode] returns an error, and leaves every queue, the log and
    the bindings as they were, for the topic itself and for all its groups. *)
Theorem follower_refuses_writes `{R : Runtime} {St : Type} `{Storage St} `{!StorageSafe St}
    (HR : RuntimeLaws R) (timeout : string) (net : string → string → option string)
    (s : Server St) (now : Z) (name : string) (payload : bytes) (headers : gmap string string)
    (p : string) (e d : option Z) (bc : bool) :
  wf (broker s) → role (node s) ≠ Leader →
  wpx (Publish now name payload headers p e d bc)
    (λ r w, is_Some r ∧ wf w ∧ untouched (hooks timeout net s) w) (λ _, True)
    (hooks timeout net s).
Proof.
  intros Hwf Hrole. eapply wpx_mono; [eapply (step_publishCore_refused HR)| |done].
  - by apply wf_hooks.
  - done.
  - intros n. unfold Replicate, gather. rewrite bool_decide_eq_false_2 by done. by eexists.
  - intros r w (? & _ & ? & ?). done.
Qed.

Lemma follower_refuses_writes_witness :
  wpx (Publish (R:=demo_env "b:1") 5 "t" [x68] ∅ "normal" None None false)
    (λ r w, is_Some r ∧ wf w ∧
      untouched (R:=demo_env "b:1") (hooks (R:=demo_env "b:1") "500ms" (λ _ _, None) demo_follower) w)
    (λ _, True) (hooks (R:=demo_env "b:1") "500ms" (λ _ _, None) demo_follower).
Proof.
  apply (follower_refuses_writes (R:=demo_env "b:1") (env_runtime_laws _)).
  - apply demo_empty_wf.
  - vm_compute. discriminate.
Defined.

(** [C36] A replicated message arrives: the line [Replicate] writes for a topic and
    a payload, read by a node with the same secret that trusts its sender, makes
    that node follow the sender in that term and publish exactly this payload to
    exactly this topic.  The acknowledgement is sent whatever the publication
    returned. *)
Theorem replicate_reaches_follower (R R' : Runtime) {St : Type} `{Storage St}
    (HR : RuntimeLaws R') (now : Z) (leader : Node) (t : Z) (topic : string) (payload : bytes)
    (s : Server St) (r : error) (w' : World St) :
  hmac_sha256 (Runtime:=R') = hmac_sha256 (Runtime:=R) →
  clusterSecret leader = clusterSecret (node s) →
  (0 ≤ t ≤ max_int)%Z → lacks " " (selfAddr (R:=R') leader) = true → validTopicRegex topic = true →
  trusted t (selfAddr (R:=R') leader) (node s) = true →
  PublishReplicated (R:=R) now topic payload (broker s) = (Ret r, w') →
  handle_line (R:=R) now (replicate_line (R:=R') leader t topic payload) s =
    (Ret true, MkServer (follow now t (selfAddr (R:=R') leader) (node s)) w' (syncs s)
       (sent s ++ ["REPLICATE_ACK" +:+ String newline ""])).
Proof.
  intros Hh Hsec Ht Hself Htopic Htr Hpub. unfold replicate_line.
  rewrite (handle_signed R' HR R Hh); [|done| |done].
  - change (dispatch (R:=R) now "REPLICATE" ?l) with (on_replicate (R:=R) (St:=St) now l).
    unfold on_replicate. rewrite Sscanf_Itoa, decode_encode by done.
    unfold mbind, M_bind, get, on_node, on_broker, modify, zoom, say, modify. rewrite Htr.
    simpl. by rewrite Hpub.
  - rewrite !Forall_cons, Forall_nil.
    split_and!; [done|apply lacks_Itoa; [done|lia]|done|by apply lacks_topic|apply lacks_base64|done].
Qed.

(** The follower's broker after the publication. *)
Definition demo_applied : World DiskStorage :=
  (PublishReplicated (R:=demo_env "b:1") 5 "t" [x68] (broker demo_follower)).2.

Lemma replicate_reaches_follower_witness :
  handle_line (R:=demo_env "b:1") 5 (replicate_line (R:=demo_env "a:1") demo_a2 1 "t" [x68])
    demo_follower =
  (Ret true, MkServer (follow 5 1 (selfAddr (R:=demo_env "a:1") demo_a2) (node demo_follower))
    demo_applied (syncs demo_follower)
    (sent demo_follower ++ ["REPLICATE_ACK" +:+ String newline ""])).
Proof.
  apply (replicate_reaches_follower (demo_env "b:1") (demo_env "a:1")
    (env_runtime_laws _) 5 demo_a2 1 "t" [x68] demo_follower None demo_applied).
  - reflexivity.
  - vm_compute. reflexivity.
  - vm_compute. split; discriminate.
  - vm_compute. reflexivity.
  - vm_compute. reflexivity.
  - vm_compute. reflexivity.
  - vm_compute. reflexivity.
Defined.

(** A one-word line is dispatched with no arguments, and does nothing. *)
Lemma dispatch_bare `{R : Runtime} {St} `{Storage St} now cmd (s : Server St) :
  dispatch now cmd [cmd] s = (Ret (), s).
Proof. unfold dispatch. by repeat case_match. Qed.

Lemma split_last `{R : Runtime} msg cmd y l :
  strings.Split msg " " = cmd :: y :: l →
  msg = strings.Join (removelast (cmd :: y :: l)) " " +:+ " " +:+ List.last (y :: l) "".
Proof.
  intros Hs. rewrite <-(Join_Split msg " "), Hs.
  destruct (exists_last (l:=y :: l)) as (l' & z & ->); [done|].
  rewrite removelast_snoc, last_snoc. apply (Join_snoc cmd l' z " ").
Qed.

(** A line that does not end with the MAC of the text before it, and a line that has
    more than one word. *)
Definition unsigned `{R : Runtime} (n : Node) (msg : string) : Prop :=
  ∀ body, strings.TrimSpace msg ≠ body +:+ " " +:+ signMessage n body.
Definition several_words (msg : string) : bool := strings.Contains (strings.TrimSpace msg) " ".

Lemma unsigned_refused `{R : Runtime} n msg cmd y l :
  clusterSecret n ≠ "" → unsigned n msg → strings.Split (strings.TrimSpace msg) " " = cmd :: y :: l →
  verifyMessage n (strings.Join (removelast (cmd :: y :: l)) " ") (List.last (y :: l) "") = false.
Proof.
  intros Hsec Hno Hs%split_last. unfold verifyMessage. rewrite (proj2 (String.eqb_neq _ _)) by done.
  apply String.eqb_neq. intros E. apply (Hno (strings.Join (removelast (cmd :: y :: l)) " ")).
  by rewrite E.
Qed.

Lemma unsigned_line `{R : Runtime} {St : Type} `{Storage St} now msg (s : Server St) :
  clusterSecret (node s) ≠ "" → unsigned (node s) msg →
  handle_line now msg s =
    if several_words msg
    then (Ret false, set_sent (sent s ++ ["ERR_UNAUTHORIZED" +:+ String newline ""]) s)
    else (Ret true, s).
Proof.
  intros Hsec Hno. unfold handle_line, several_words.
  destruct (strings.Contains (strings.TrimSpace msg) " ") eqn:Hc.
  - destruct (Split_more " " (strings.TrimSpace msg)) as (cmd & y & l & Hs & Hcmd);
      [done|apply TrimSpace_unspaced|].
    rewrite Hs, (proj2 (String.eqb_neq _ _) Hcmd). unfold mbind, M_bind, get.
    by rewrite (unsigned_refused _ msg).
  - rewrite Split_one by done. case_match; [done|]. unfold mbind, M_bind. by rewrite dispatch_bare.
Qed.

(** [C35] Authentication: on a node with a cluster secret, lines that do not end with the
    MAC of the text before them change neither the node nor its broker and start no
    synchronization.  A line of one word (or none) is passed over; at the first one of
    several words the peer is told that it is unauthorized and the connection is closed, so
    that nothing it sends later is read. *)
Theorem unauthorized_line_inert `{R : Runtime} {St : Type} `{Storage St} (now : Z)
    (lines later : list string) (s : Server St) :
  clusterSecret (node s) ≠ "" → Forall (unsigned (node s)) lines →
  handlePeer now (lines ++ later) s =
    if existsb several_words lines
    then (Ret (), set_sent (sent s ++ ["ERR_UNAUTHORIZED" +:+ String newline ""]) s)
    else handlePeer now later s.
Proof.
  intros Hsec. induction 1 as [|msg lines Hno _ IH]; [done|].
  cbn [app handlePeer existsb]. unfold mbind, M_bind at 1. rewrite unsigned_line by done.
  by destruct (several_words msg).
Qed.

Lemma demo_unsigned msg :
  String.length (strings.TrimSpace msg) < 64 → unsigned (R:=demo_env "b:1") (node demo_follower) msg.
Proof.
  intros Hm body E.
  assert (String.length (signMessage (R:=demo_env "b:1") (node demo_follower) body) = 64) as Hlen.
  { unfold signMessage. change (clusterSecret (node demo_follower)) with "s". cbn [String.eqb].
    pose proof (demo_env_laws "b:1"). by rewrite hex_length, hmac_length. }
  rewrite E, !str_length_app, Hlen in Hm. lia.
Qed.

(** A forged heartbeat after a bare word; the replication that follows is not read. *)
Lemma unauthorized_line_inert_witness :
  let s := demo_follower in
  handlePeer (R:=demo_env "b:1") 5 (["PING"; "HEARTBEAT 9 evil x"] ++
    [replicate_line (R:=demo_env "a:1") demo_a2 1 "t" [x68]]) s =
    if existsb several_words ["PING"; "HEARTBEAT 9 evil x"]
    then (Ret (), set_sent (sent s ++ ["ERR_UNAUTHORIZED" +:+ String newline ""]) s)
    else handlePeer (R:=demo_env "b:1") 5 [replicate_line (R:=demo_env "a:1") demo_a2 1 "t" [x68]] s.
Proof.
  apply (unauthorized_line_inert (R:=demo_env "b:1")).
  - vm_compute. discriminate.
  - repeat constructor; apply demo_unsigned, Nat.ltb_lt; vm_compute; reflexivity.
Defined.

(** What a peer's server answers on a fresh connection; [None] when it is down or
    writes nothing. *)
Definition answer {St} `{Storage St} (rt : string → Runtime) (up : string → bool)
    (srv : string → Server St) (now : Z) (addr line : string) : option string :=
  if up addr then
    match handle_line (R:=rt addr) now line (srv addr) with
    | (Ret _, s') => head (drop (length (sent (srv addr))) (sent s'))
    | _ => None
    end
  else None.

Lemma filter_none {A} (P : A → Prop) `{!∀ x, Decision (P x)} l :
  (∀ x, x ∈ l → ¬ P x) → filter P l = [].
Proof.
  induction l as [|x l IH]; intros Hl; [done|].
  rewrite filter_cons_False by (apply Hl; by left). apply IH. intros. apply Hl. by right.
Qed.

Lemma filter_fmap_length {A B} (P : B → Prop) `{!∀ x, Decision (P x)} (f : A → B) l :
  length (filter P (f <$> l)) = length (filter (λ x, P (f x)) l).
Proof.
  induction l as [|x l IH]; [done|]. rewrite fmap_cons, !filter_cons.
  destruct (decide (P (f x))); simpl; by rewrite IH.
Qed.

Lemma alive_peers_nodup (R : Runtime) (HR : RuntimeLaws R) n : NoDup (alive_peers (R:=R) n).
Proof.
  unfold alive_peers. assert (NoDup (map_range (map_to_list (Peers n))).*1) as Hnd
    by (rewrite map_range_perm; apply NoDup_fst_map_to_list).
  induction (map_range (map_to_list (Peers n))) as [|[a peer] l IH]; [constructor|].
  rewrite omap_cons. simpl in Hnd. apply NoDup_cons in Hnd as [Ha Hnd]. destruct (IsAlive peer); simpl.
  - constructor; [|by apply IH]. rewrite list_elem_of_omap. intros ([a' peer'] & Hin & E).
    destruct (IsAlive peer'); simplify_eq. apply Ha. apply list_elem_of_fmap. by exists (a, peer').
  - by apply IH.
Qed.

Lemma trim_denied : strings.TrimSpace "REPLICATE_DENIED
" = "REPLICATE_DENIED".
Proof. vm_compute. reflexivity. Qed.

(** The peer [a] has taken part in the replication of a message: it trusted the leader
    [n], it now follows it in its term, its broker is the one after the publication of this
    payload to this topic, and it has acknowledged. *)
Definition applied `{R : Runtime} {St : Type} `{Storage St} (rt : string → Runtime)
    (srv : string → Server St) (now : Z) (topic : string) (payload : bytes) (n : Node) (a : string) : Prop :=
  trusted (CurrentTerm n) (selfAddr n) (node (srv a)) = true ∧
  ∃ r w', PublishReplicated (R:=rt a) now topic payload (broker (srv a)) = (Ret r, w') ∧
    handle_line (R:=rt a) now (replicate_line n (CurrentTerm n) topic payload) (srv a) =
      (Ret true, MkServer (follow now (CurrentTerm n) (selfAddr n) (node (srv a))) w'
        (syncs (srv a)) (sent (srv a) ++ ["REPLICATE_ACK" +:+ String newline ""])).

(** A peer that acknowledged a replicated message. *)
Lemma acked_applied (R : Runtime) (HR : RuntimeLaws R) {St : Type} `{Storage St}
    (rt : string → Runtime) up (srv : string → Server St) now topic payload n a :
  hmac_sha256 (Runtime:=R) = hmac_sha256 (Runtime:=rt a) →
  clusterSecret n = clusterSecret (node (srv a)) →
  (0 ≤ CurrentTerm n ≤ max_int)%Z → lacks " " (selfAddr (R:=R) n) = true →
  validTopicRegex topic = true →
  strings.TrimSpace <$> answer rt up srv now a (replicate_line (R:=R) n (CurrentTerm n) topic payload)
    = Some "REPLICATE_ACK" →
  applied (R:=R) rt srv now topic payload n a.
Proof.
  intros Hh Hsec Ht Hself Htopic. unfold answer, applied. destruct (up a); [|done].
  unfold replicate_line. rewrite (handle_signed R HR (rt a) Hh); [|done| |done].
  2: { rewrite !Forall_cons, Forall_nil.
    split_and!; [done|apply lacks_Itoa; [done|lia]|done|by apply lacks_topic|apply lacks_base64|done]. }
  change (dispatch (R:=rt a) now "REPLICATE" ?l) with (on_replicate (R:=rt a) (St:=St) now l).
  unfold on_replicate. rewrite Sscanf_Itoa, decode_encode by done.
  unfold mbind, M_bind, get, on_node, on_broker, modify, zoom, say, modify.
  destruct (trusted _ _ (node (srv a))); simpl.
  - destruct (PublishReplicated now topic payload (broker (srv a))) as [[r| | |] w'] eqn:E; simpl; try done.
    intros _. split; [done|]. by exists r, w'.
  - rewrite drop_app_length. cbn [head fmap option_fmap option_map]. unfold newline.
    by rewrite trim_denied.
Qed.

(** [C12] Replication means a majority: when [Replicate] succeeds on a node that has
    live peers, that node leads, and its peers that acknowledged make a quorum
    together with it; each of them trusted the sender, now follows it in its term, and its
    broker is in the state after the publication of exactly this payload to exactly this
    topic.  (What that publication returned is not looked at: a peer whose queue is full
    acknowledges too.  With no live peer [Replicate] succeeds at once.) *)
Theorem replicate_means_quorum (R : Runtime) (HR : RuntimeLaws R) {St : Type} `{Storage St}
    (rt : string → Runtime) (up : string → bool) (srv : string → Server St)
    (now : Z) (timeout topic : string) (payload : bytes) (n : Node) :
  (∀ a, a ∈ alive_peers (R:=R) n → hmac_sha256 (Runtime:=R) = hmac_sha256 (Runtime:=rt a) ∧
    clusterSecret n = clusterSecret (node (srv a))) →
  (0 ≤ CurrentTerm n ≤ max_int)%Z → lacks " " (selfAddr (R:=R) n) = true →
  validTopicRegex topic = true → alive_peers (R:=R) n ≠ [] →
  (Replicate (R:=R) timeout (answer rt up srv now) topic payload n).1 = None →
  role n = Leader ∧
  ∃ acked, NoDup acked ∧ acked ⊆ alive_peers (R:=R) n ∧
    ((calculateQuorum (R:=R) n).1 ≤ 1 + Z.of_nat (length acked))%Z ∧
    ∀ a, a ∈ acked → applied (R:=R) rt srv now topic payload n a.
Proof.
  intros Hpeers Ht Hself Htopic Hlive. unfold Replicate, gather.
  case_bool_decide as Hrole; [|done]. cbn [negb]. intros Hres. split; [done|].
  destruct (alive_peers (R:=R) n) as [|p0 ps] eqn:Ep; [done|]. rewrite <-Ep in *.
  destruct (calculateQuorum (R:=R) n) as [q n'] eqn:Eq. set (line := replicate_line _ _ _ _) in *.
  set (ok := λ a, strings.TrimSpace <$> answer rt up srv now a line = Some "REPLICATE_ACK").
  exists (filter ok (alive_peers (R:=R) n)). split_and!.
  - apply NoDup_filter. by apply alive_peers_nodup.
  - intros a Ha%list_elem_of_filter. by destruct Ha.
  - rewrite Ep in Hres. rewrite <-Ep in Hres.
    destruct (Z.ltb_spec (successCount "REPLICATE_ACK"
      ((λ addr, answer rt up srv now addr line) <$> alive_peers (R:=R) n)) q) as [|Hc]; [done|].
    unfold successCount in Hc. by rewrite filter_fmap_length in Hc.
  - intros a [Hok Ha]%list_elem_of_filter. destruct (Hpeers a Ha). by apply (acked_applied R HR rt up srv).
Qed.

(** [a:1] leading term 1 with [b:1] alive. *)
Definition demo_leader : Node := markPeerAlive 9 "b:1" demo_a2.
Definition demo_srv (_ : string) : Server DiskStorage := demo_follower.

Lemma demo_leader_peers : alive_peers (R:=demo_env "a:1") demo_leader = ["b:1"].
Proof. vm_compute. reflexivity. Qed.

Lemma replicate_means_quorum_witness :
  role demo_leader = Leader ∧
  ∃ acked, NoDup acked ∧ acked ⊆ alive_peers (R:=demo_env "a:1") demo_leader ∧
    ((calculateQuorum (R:=demo_env "a:1") demo_leader).1 ≤ 1 + Z.of_nat (length acked))%Z ∧
    ∀ a, a ∈ acked → applied (R:=demo_env "a:1") demo_env demo_srv 5 "t" [x68] demo_leader a.
Proof.
  apply (replicate_means_quorum (demo_env "a:1") (demo_env_laws "a:1") demo_env (λ _, true) demo_srv
    5 "500ms" "t" [x68] demo_leader).
  - rewrite demo_leader_peers. intros a ->%list_elem_of_singleton. vm_compute. done.
  - vm_compute. split; discriminate.
  - vm_compute. reflexivity.
  - vm_compute. reflexivity.
  - by rewrite demo_leader_peers.
  - vm_compute. reflexivity.
Defined.

Lemma bind_line_ignored (R R' : Runtime) (HR : RuntimeLaws R') {St : Type} `{Storage St}
    now n t topic group (s : Server St) :
  hmac_sha256 (Runtime:=R') = hmac_sha256 (Runtime:=R) →
  clusterSecret n = clusterSecret (node s) → (0 ≤ t)%Z →
  lacks " " topic = true → lacks " " group = true →
  handle_line (R:=R) now (binding_line (R:=R') n t topic group) s = (Ret true, s).
Proof.
  intros Hh Hsec Ht Htopic Hgroup. unfold binding_line.
  rewrite (handle_signed R' HR R Hh); [done|done| |done].
  rewrite !Forall_cons, Forall_nil. split_and!; [done|by apply lacks_Itoa|done..].
Qed.

(** Consumer groups are not replicated: the [BIND_GROUP] line the leader sends
    has no leader address, its receiver wants one more field and ignores the line
    without an answer, so [ReplicateBinding] times out whenever there is a live
    peer and the quorum is more than the leader itself. *)
Theorem bindings_not_replicated (R : Runtime) (HR : RuntimeLaws R) {St : Type} `{Storage St}
    (rt : string → Runtime) (up : string → bool) (srv : string → Server St)
    (now : Z) (timeout topic group : string) (n : Node) :
  (∀ a, a ∈ alive_peers (R:=R) n → hmac_sha256 (Runtime:=R) = hmac_sha256 (Runtime:=rt a) ∧
    clusterSecret n = clusterSecret (node (srv a))) →
  (0 ≤ CurrentTerm n)%Z → lacks " " topic = true → lacks " " group = true →
  alive_peers (R:=R) n ≠ [] → (1 < (calculateQuorum (R:=R) n).1)%Z →
  (∀ a, a ∈ alive_peers (R:=R) n →
    handle_line (R:=rt a) now (binding_line (R:=R) n (CurrentTerm n) topic group) (srv a)
      = (Ret true, srv a)) ∧
  is_Some (ReplicateBinding (R:=R) timeout (answer rt up srv now) topic group n).1.
Proof.
  intros Hpeers Ht Htopic Hgroup Hlive Hq.
  assert (∀ a, a ∈ alive_peers (R:=R) n →
    handle_line (R:=rt a) now (binding_line (R:=R) n (CurrentTerm n) topic group) (srv a)
      = (Ret true, srv a)) as Hig.
  { intros a Ha. destruct (Hpeers a Ha). by apply bind_line_ignored. }
  split; [done|]. unfold ReplicateBinding, gather.
  case_bool_decide as Hrole; [|by eexists]. cbn [negb].
  destruct (alive_peers (R:=R) n) as [|p0 ps] eqn:Ep; [done|]. rewrite <-Ep in *.
  destruct (calculateQuorum (R:=R) n) as [q n'] eqn:Eq. simpl in Hq. rewrite Ep, <-Ep.
  assert (successCount "BIND_GROUP_ACK" ((λ addr, answer rt up srv now addr
    (binding_line (R:=R) n (CurrentTerm n) topic group)) <$> alive_peers (R:=R) n) = 1%Z) as ->.
  { unfold successCount. rewrite filter_fmap_length.
    rewrite filter_none; [done|]. intros a Ha. unfold answer. rewrite (Hig a Ha), drop_all.
    by destruct (up a). }
  destruct (Z.ltb_spec 1 q); [by eexists|lia].
Qed.

Lemma bindings_not_replicated_witness :
  (∀ a, a ∈ alive_peers (R:=demo_env "a:1") demo_leader →
    handle_line (R:=demo_env a) 5 (binding_line (R:=demo_env "a:1") demo_leader
      (CurrentTerm demo_leader) "t" "g") (demo_srv a) = (Ret true, demo_srv a)) ∧
  is_Some (ReplicateBinding (R:=demo_env "a:1") "500ms" (answer demo_env (λ _, true) demo_srv 5)
    "t" "g" demo_leader).1.
Proof.
  apply (bindings_not_replicated (demo_env "a:1") (demo_env_laws "a:1") demo_env (λ _, true) demo_srv).
  - rewrite demo_leader_peers. intros a ->%list_elem_of_singleton. vm_compute. done.
  - vm_compute. discriminate.
  - reflexivity.
  - reflexivity.
  - by rewrite demo_leader_peers.
  - vm_compute. reflexivity.
Defined.

(** In insecure mode (no secret) a one-word line in the answer to [SYNC_REQ], for
    example the [ERR_UNAUTHORIZED] of a leader that does have a secret, panics:
    the only word is taken for the MAC and [parts[0]] indexes an empty slice. *)
Theorem sync_one_word_panics `{R : Runtime} {St : Type} `{Storage St} (now : Z)
    (lines : list string) (s : Server St) :
  clusterSecret (node s) = "" →
  requestSync now (Some (("ERR_UNAUTHORIZED" +:+ String newline "") :: lines)) s =
    (Panic "index out of range [0] with length 0", s).
Proof.
  intros Hsec. cbn [requestSync sync_lines]. unfold sync_line.
  assert (strings.Split (strings.TrimSpace ("ERR_UNAUTHORIZED" +:+ String newline "")) " " =
    ["ERR_UNAUTHORIZED"]) as -> by (vm_compute; reflexivity).
  unfold mbind, M_bind, get. cbn [String.eqb removelast List.last]. unfold verifyMessage.
  by rewrite Hsec.
Qed.

(** ** Safety of a node's connections *)

Section safety.
Context `{R : Runtime} {St : Type} `{Storage St} `{!StorageSafe St}.
Context (HR : RuntimeLaws R).
Implicit Types s : Server St.

(** The broker's invariant holds afterwards, unless the process was killed. *)
Abbreviation runs c s := (wpx c (λ _ s', wf (broker s')) (λ _, True) s).

Lemma runs_bind {A B} (c : M (Server St) A) (k : A → M (Server St) B) s :
  runs c s → (∀ a s', wf (broker s') → runs (k a) s') → runs (c ≫= k) s.
Proof. intros Hc Hk. apply wpx_bind. eapply wpx_mono; [exact Hc|auto|done]. Qed.

Lemma runs_ret {A} (a : A) s : wf (broker s) → runs (mret a) s.
Proof. done. Qed.

Lemma runs_modify f s : wf (broker (f s)) → runs (modify f) s.
Proof. done. Qed.

Lemma runs_broker {A} (op : M (World St) A) Q s :
  step op (broker s) Q → runs (on_broker op) s.
Proof.
  intros Hop. apply wpx_zoom. eapply wpx_mono; [exact Hop| |done]. intros a w (? & _). done.
Qed.

Lemma runs_sends (f : Message → M (Server St) unit) l s :
  (∀ m s', wf (broker s') → runs (f m) s') → wf (broker s) → runs (forM_ f l) s.
Proof.
  intros Hf. revert s. induction l as [|m l IH]; intros s Hwf; [done|].
  apply runs_bind; [by apply Hf|]. intros [] s' ?. by apply IH.
Qed.

Lemma runs_dispatch now cmd parts s : wf (broker s) → runs (dispatch now cmd parts) s.
Proof using HR StorageSafe0.
  intros Hwf. unfold dispatch, on_ping, on_heartbeat, on_replicate, on_sync_req, on_request_vote,
    on_bind_group.
  repeat first
    [ case_match
    | apply runs_ret; assumption
    | apply runs_modify; assumption
    | apply (runs_broker _ (λ _ _, True)); by apply step_publishCore
    | apply (runs_broker _ (λ _ _, True)); by apply step_CreateGroup
    | eapply runs_broker; by apply step_GetStateSnapshot
    | apply runs_sends; [|assumption]
    | apply runs_bind
    | intros ];
  try done.
Qed.

Lemma runs_handlePeer now lines s : wf (broker s) → runs (handlePeer now lines) s.
Proof using HR StorageSafe0.
  revert s. induction lines as [|msg lines IH]; intros s Hwf; [done|]. cbn [handlePeer].
  apply runs_bind.
  - unfold handle_line. repeat case_match; try by apply runs_ret.
    + apply runs_bind; [by apply runs_dispatch|]. by intros.
    + apply runs_bind; [done|]. intros st s' Hwf'. case_match.
      * apply runs_bind; [by apply runs_dispatch|]. by intros.
      * apply runs_bind; [by apply runs_modify|]. by intros.
  - intros [] s' Hwf'; [by apply IH|done].
Qed.

End safety.

(** Whatever lines a peer sends, [handlePeer] never panics or blocks for
    ever, and the broker it drives keeps its invariant. *)
Theorem peer_session_safe `{R : Runtime} {St : Type} `{Storage St} `{!StorageSafe St}
    (HR : RuntimeLaws R) (now : Z) (lines : list string) (s : Server St) :
  wf (broker s) → wpx (handlePeer now lines) (λ _ s', wf (broker s')) (λ _, True) s.
Proof. intros Hwf. by apply (runs_handlePeer HR). Qed.

Lemma peer_session_safe_witness :
  wpx (handlePeer (R:=demo_env "b:1") 5
    [replicate_line (R:=demo_env "a:1") demo_a2 1 "t" [x68]; "garbage"])
    (λ _ s', wf (broker s')) (λ _, True) demo_follower.
Proof. apply (peer_session_safe (R:=demo_env "b:1") (demo_env_laws "b:1")). apply demo_empty_wf. Defined.
