(* ===== verification/Duration.v ===== *)
(** * [time.ParseDuration]

    Durations are nanosecond counts of 64 bits; a text outside their range is an
    error.  The fraction of a number goes through [float64], as in the library. *)

From Stdlib Require Import Ascii.
From Stdlib Require Import SpecFloat.
From S2P Require Import Prelude.
From S2P Require Import GoLib.
From S2P Require Import Float64.

Local Open Scope Z_scope.

Definition two63 : Z := 2 ^ 63.

(** [leadingInt]: the number and the rest; [None] when it overflows. *)
Fixpoint leadingInt (x : Z) (s : string) : option (Z * string) :=
  match s with
  | String c s' =>
      match Ascii.is_nat c with
      | Some d =>
          if two63 `div` 10 <? x then None
          else
            let x := x * 10 + Z.of_nat d in
            if two63 <? x then None else leadingInt x s'
      | None => Some (x, s)
      end
  | EmptyString => Some (x, s)
  end.

(** [leadingFraction]: the digits, their scale and the rest; digits that no longer
    fit are dropped. *)
Fixpoint leadingFraction (x : Z) (scale : float64) (overflow : bool) (s : string)
    : Z * float64 * string :=
  match s with
  | String c s' =>
      match Ascii.is_nat c with
      | Some d =>
          if overflow || ((two63 - 1) `div` 10 <? x) then leadingFraction x scale true s'
          else
            let y := x * 10 + Z.of_nat d in
            if two63 <? y then leadingFraction x scale true s'
            else leadingFraction y (fmul scale (of_Z 10)) false s'
      | None => (x, scale, s)
      end
  | EmptyString => (x, scale, s)
  end.

(** The unit: everything up to a digit or a point. *)
Fixpoint unit_prefix (s : string) : string :=
  match s with
  | EmptyString => EmptyString
  | String c s' =>
      match Ascii.is_nat c with
      | Some _ => EmptyString
      | None => if Ascii.eqb c "." then EmptyString else String c (unit_prefix s')
      end
  end.

(** [unitMap]; the micro sign has two code points. *)
Definition unitMap (u : string) : option Z :=
  let same v := String.eqb u v in
  if same "ns" then Some 1
  else if same "us" || same (strings.of_codes [194; 181]%N +:+ "s") || same (strings.of_codes [206; 188]%N +:+ "s")
  then Some 1000
  else if same "ms" then Some 1000000
  else if same "s" then Some 1000000000
  else if same "m" then Some 60000000000
  else if same "h" then Some 3600000000000
  else None.

(** [uint64(x)] of a float that is no negative number and in range *)
Definition truncate (x : float64) : Z :=
  match x with
  | S754_finite false m e => Z.shiftl (Zpos m) e
  | _ => 0
  end.

(** One number with its unit, in nanoseconds, and the rest. *)
Definition duration_term (s : string) : option (Z * string) :=
  vs ← leadingInt 0 s;
  let '(v, r) := (vs : Z * string) in
  let pre := negb (String.length r =? String.length s)%nat in
  let '(f, scale, post, r) :=
    match r with
    | String c r' =>
        if Ascii.eqb c "." then
          let '(f, scale, r'') := leadingFraction 0 (of_Z 1) false r' in
          (f, scale, negb (String.length r'' =? String.length r')%nat, r'')
        else (0, of_Z 1, false, r)
    | EmptyString => (0, of_Z 1, false, r)
    end in
  if negb pre && negb post then None
  else
    let u := unit_prefix r in
    if String.eqb u "" then None
    else
      unit ← unitMap u;
      if two63 `div` unit <? v then None
      else
        let v := v * unit in
        let v := if 0 <? f then v + truncate (fmul (of_Z f) (fdiv (of_Z unit) scale)) else v in
        if two63 <? v then None else Some (v, strings.drop (String.length u) r).

(** The loop; every round consumes a unit. *)
Fixpoint duration_loop (fuel : nat) (d : Z) (s : string) : option Z :=
  match s with
  | EmptyString => Some d
  | _ =>
      match fuel with
      | O => None
      | S fuel' =>
          vr ← duration_term s;
          if two63 <? d + vr.1 then None else duration_loop fuel' (d + vr.1) vr.2
      end
  end.

Definition ParseDuration (s : string) : option Z :=
  let '(sgn, body) := take_sign s in
  if String.eqb body "0" then Some 0
  else if String.eqb body "" then None
  else
    d ← duration_loop (String.length body) 0 body;
    if String.eqb sgn "-" then Some (- d)
    else if two63 - 1 <? d then None else Some d.

Example ParseDuration_ex :
  ParseDuration "1h30m" = Some 5400000000000 ∧ ParseDuration "1.5s" = Some 1500000000 ∧
  ParseDuration "-100ms" = Some (-100000000) ∧ ParseDuration "0" = Some 0 ∧
  ParseDuration ".5us" = Some 500 ∧ ParseDuration "10" = None ∧ ParseDuration "3d" = None ∧
  ParseDuration "" = None ∧
  ParseDuration "9999999h" = None.
Proof. vm_compute. auto 20. Qed.
