(* ===== verification/DurationText.v ===== *)
(** * [time.Duration.String], and that [time.ParseDuration] inverts it

    A duration the clients print into a request is the duration the server reads: the
    fraction goes through [float64] and comes back exact. *)

From Stdlib Require Import Ascii.
From S2P Require Import Prelude.
From S2P Require Import GoLib.
From S2P Require Import Wire.
From S2P Require Import Float64.
From S2P Require Import Duration.

Local Open Scope Z_scope.

(** [fmtFrac]: the last [prec] digits of [v] in front of [buf], without trailing zeros,
    and the rest of [v] *)
Fixpoint fmtFrac (prec : nat) (print : bool) (v : Z) (buf : string) : string * Z :=
  match prec with
  | O => (if print then String "." buf else buf, v)
  | S prec' =>
      let digit := v mod 10 in
      let print := print || negb (digit =? 0) in
      fmtFrac prec' print (v / 10)
        (if print then String (pretty_N_char (Z.to_N digit)) buf else buf)
  end.

Definition Microsecond : Z := 1000.
Definition Millisecond : Z := 1000000.
Definition Second : Z := 1000000000.
Definition micro_s : string := strings.of_codes [194; 181]%N +:+ "s".

(** The text of [u] nanoseconds. *)
Definition format (u : Z) : string :=
  let number prec unit := let '(buf, v) := fmtFrac prec false u unit in Itoa v +:+ buf in
  if u <? Second then
    if u =? 0 then "0s"
    else if u <? Microsecond then number 0%nat "ns"
    else if u <? Millisecond then number 3%nat micro_s
    else number 6%nat "ms"
  else
    let '(buf, v) := fmtFrac 9 false u "s" in
    let text := Itoa (v mod 60) +:+ buf in
    let v := v / 60 in
    if v =? 0 then text
    else
      let text := Itoa (v mod 60) +:+ "m" +:+ text in
      let v := v / 60 in
      if v =? 0 then text else Itoa v +:+ "h" +:+ text.

(** [d.String()] *)
Definition Duration_String (d : Z) : string :=
  if d <? 0 then "-" +:+ format (- d) else format d.

Example Duration_String_ex :
  Duration_String 5400000000000 = "1h30m0s" ∧ Duration_String 1500000000 = "1.5s" ∧
  Duration_String (-100000000) = "-100ms" ∧ Duration_String 0 = "0s" ∧
  Duration_String 1001 = "1.001" +:+ micro_s ∧
  Duration_String (- 2 ^ 63) = "-2562047h47m16.854775808s".
Proof. vm_compute. auto 20. Qed.

(** ** Digits *)

Lemma digits_app a b acc :
  digits acc (a +:+ b) = (z ← digits acc a; digits z b).
Proof.
  revert acc. induction a as [|c a IH]; intros acc; [done|]. cbn.
  destruct (Ascii.is_nat c); [apply IH|done].
Qed.

Lemma digits_ge ds acc z : digits acc ds = Some z → 0 ≤ acc → acc ≤ z.
Proof.
  revert acc. induction ds as [|c ds IH]; intros acc; cbn; [intros [= ->]; lia|].
  destruct (Ascii.is_nat c) as [d|]; [|done]. intros H Hacc. apply IH in H; lia.
Qed.

Lemma is_nat_char z : 0 ≤ z < 10 →
  Ascii.is_nat (pretty_N_char (Z.to_N z)) = Some (Z.to_nat z).
Proof. intros Hz. rewrite is_nat_digit by lia. by rewrite Z_N_nat. Qed.

Lemma fmtFrac_print prec v buf : 0 ≤ v →
  ∃ ds, fmtFrac prec true v buf = (String "." (ds +:+ buf), v / 10 ^ Z.of_nat prec) ∧
    String.length ds = prec ∧ digits 0 ds = Some (v mod 10 ^ Z.of_nat prec).
Proof.
  revert v buf. induction prec as [|prec IH]; intros v buf Hv.
  - exists "". rewrite Z.pow_0_r, Z.div_1_r, Z.mod_1_r. done.
  - cbn [fmtFrac orb]. set (c := pretty_N_char _).
    destruct (IH (v / 10) (String c buf)) as (ds & -> & Hlen & Hds); [apply Z.div_pos; lia|].
    exists (ds +:+ String c ""). rewrite str_app_assoc, str_length_app, Hlen, digits_app, Hds.
    rewrite Nat2Z.inj_succ, Z.pow_succ_r, Z.div_div by lia. split_and!; [done|simpl; lia|].
    cbn. subst c. rewrite is_nat_char by (apply Z.mod_pos_bound; lia). cbn.
    rewrite Z2Nat.id by (apply Z.mod_pos_bound; lia).
    f_equal. rewrite Z.mul_comm, Z.add_comm. symmetry. apply Z.rem_mul_r; lia.
Qed.

(** The printed fraction: nothing when it is zero, else digits whose value, scaled, is it. *)
Lemma fmtFrac_spec prec v buf : 0 ≤ v →
  (v mod 10 ^ Z.of_nat prec = 0 ∧ fmtFrac prec false v buf = (buf, v / 10 ^ Z.of_nat prec)) ∨
  ∃ ds f k, fmtFrac prec false v buf = (String "." (ds +:+ buf), v / 10 ^ Z.of_nat prec) ∧
    digits 0 ds = Some f ∧ 0 < f ∧ (0 < String.length ds)%nat ∧
    (String.length ds + k)%nat = prec ∧ v mod 10 ^ Z.of_nat prec = f * 10 ^ Z.of_nat k.
Proof.
  revert v. induction prec as [|prec IH]; intros v Hv.
  - left. by rewrite Z.pow_0_r, Z.div_1_r, Z.mod_1_r.
  - assert (0 ≤ v / 10) as Hv' by (apply Z.div_pos; lia).
    pose proof (Z.rem_mul_r v 10 (10 ^ Z.of_nat prec)) as Hrem.
    rewrite Nat2Z.inj_succ, Z.pow_succ_r, <-Z.div_div, Hrem by lia. clear Hrem.
    cbn [fmtFrac orb]. destruct (Z.eqb_spec (v mod 10) 0) as [Hd|Hd]; cbn [negb].
    + rewrite Hd. destruct (IH (v / 10) Hv') as [[-> ->]|(ds & f & k & -> & Hds & Hf & Hlen & Hk & ->)];
        [by left|right]. exists ds, f, (S k). split_and!; try done; [lia|].
      rewrite Nat2Z.inj_succ, Z.pow_succ_r by lia. lia.
    + right. set (c := pretty_N_char _).
      destruct (fmtFrac_print prec (v / 10) (String c buf) Hv') as (ds & -> & Hlen & Hds).
      exists (ds +:+ String c ""), (v mod 10 + 10 * ((v / 10) mod 10 ^ Z.of_nat prec)), 0%nat.
      pose proof (Z.mod_pos_bound v 10). pose proof (Z.mod_pos_bound (v / 10) (10 ^ Z.of_nat prec)).
      rewrite str_app_assoc, str_length_app, digits_app, Hds. cbn [String.length].
      split_and!; [done| |nia|lia|lia|by rewrite Z.mul_1_r].
      cbn. subst c. rewrite is_nat_char by lia. cbn. f_equal. lia.
Qed.

(** ** Reading them *)

(** [r] does not go on with a digit. *)
Definition no_digit (r : string) : Prop :=
  match r with String c _ => Ascii.is_nat c = None | EmptyString => True end.

Lemma leadingInt_digits ds x z r :
  digits x ds = Some z → 0 ≤ x → z ≤ two63 → no_digit r → leadingInt x (ds +:+ r) = Some (z, r).
Proof.
  intros Hds Hx Hz Hr. revert x Hds Hx. induction ds as [|c ds IH]; intros x Hds Hx.
  - injection Hds as ->. destruct r as [|c r]; [done|]. cbn in *. by rewrite Hr.
  - cbn in *. destruct (Ascii.is_nat c) as [d|]; [|done].
    pose proof (digits_ge _ _ _ Hds). rewrite (proj2 (Z.ltb_ge _ _)).
    + rewrite (proj2 (Z.ltb_ge _ _)) by lia. apply IH; [done|lia].
    + apply Z.div_le_lower_bound; lia.
Qed.

Lemma leadingFraction_digits ds x j z r :
  digits x ds = Some z → 0 ≤ x → z ≤ 10 ^ 9 → (j + String.length ds ≤ 9)%nat → no_digit r →
  leadingFraction x (of_Z (10 ^ Z.of_nat j)) false (ds +:+ r) =
  (z, of_Z (10 ^ Z.of_nat (j + String.length ds)), r).
Proof.
  intros Hds Hx Hz Hj Hr. revert x j Hds Hx Hj. induction ds as [|c ds IH]; intros x j Hds Hx Hj.
  - injection Hds as ->. rewrite Nat.add_0_r. destruct r as [|c r]; [done|]. cbn in *. by rewrite Hr.
  - cbn [String.append digits String.length leadingFraction] in *.
    destruct (Ascii.is_nat c) as [d|]; [|done].
    pose proof (digits_ge _ _ _ Hds). cbn [orb].
    rewrite (proj2 (Z.ltb_ge _ _)) by (change ((two63 - 1) `div` 10) with 922337203685477580; lia).
    rewrite (proj2 (Z.ltb_ge _ _)) by (unfold two63; lia).
    assert (10 ^ Z.of_nat j * 10 = 10 ^ Z.of_nat (S j)) as Epow
      by (rewrite Nat2Z.inj_succ, Z.pow_succ_r by lia; lia).
    assert (10 ^ Z.of_nat (S j) ≤ 10 ^ 9) by (apply Z.pow_le_mono_r; lia).
    rewrite fmul_exact, Epow by lia. rewrite IH by (done || lia).
    do 3 f_equal. do 2 f_equal. lia.
Qed.

(** What follows a term: nothing, or the next number. *)
Definition next_number (r : string) : Prop :=
  match r with String c _ => is_Some (Ascii.is_nat c) | EmptyString => True end.

(** A unit's name: neither digits nor points. *)
Definition unit_char (c : ascii) : bool :=
  match Ascii.is_nat c with Some _ => false | None => negb (Ascii.eqb c ".") end.
Definition unit_name (u : string) : bool := strings.forall_chars unit_char u && negb (String.eqb u "").

Lemma unit_prefix_name u r : unit_name u = true → next_number r → unit_prefix (u +:+ r) = u.
Proof.
  intros [Hu _]%andb_true_iff Hr. induction u as [|c u IH]; cbn in *.
  - destruct r as [|c r]; [done|]. destruct Hr as [d Hd]. cbn. by rewrite Hd.
  - apply andb_true_iff in Hu as [Hc Hu]. unfold unit_char in Hc.
    destruct (Ascii.is_nat c); [done|]. destruct (Ascii.eqb c "."); [done|]. by rewrite IH.
Qed.

Lemma unit_name_start u : unit_name u = true →
  ∃ c u', u = String c u' ∧ Ascii.is_nat c = None ∧ Ascii.eqb c "." = false.
Proof.
  intros [Hu Hne]%andb_true_iff. destruct u as [|c u]; [done|]. exists c, u.
  cbn in Hu. apply andb_true_iff in Hu as [Hc _]. unfold unit_char in Hc.
  destruct (Ascii.is_nat c); [done|]. by destruct (Ascii.eqb c ".").
Qed.

(** A number before a text that is not one. *)
Lemma leadingInt_Itoa i r : 0 ≤ i ≤ two63 → no_digit r → leadingInt 0 (Itoa i +:+ r) = Some (i, r).
Proof.
  intros Hi Hr. apply leadingInt_digits; [|done|lia|done].
  rewrite <-(Z2N.id i) by lia. unfold Itoa. 
  replace (pretty (Z.of_N (Z.to_N i))) with (pretty (Z.to_N i)) by (by destruct (Z.to_N i)).
  apply digits_pretty.
Qed.

Lemma Itoa_first i : 0 ≤ i → ∃ c d s, Itoa i = String c s ∧ Ascii.is_nat c = Some d.
Proof.
  intros Hi. rewrite <-(Z2Nat.id i), Itoa_nat by done. apply pretty_first.
Qed.

Lemma term_pre i r : 0 ≤ i →
  negb (String.length r =? String.length (Itoa i +:+ r))%nat = true.
Proof.
  intros Hi. destruct (Itoa_first i Hi) as (c & d & s & -> & _).
  rewrite str_length_app. apply negb_true_iff, Nat.eqb_neq. simpl. lia.
Qed.

Lemma duration_term_int i u unit r :
  0 ≤ i → unit_name u = true → unitMap u = Some unit → 0 < unit → i * unit ≤ two63 → next_number r →
  duration_term (Itoa i +:+ u +:+ r) = Some (i * unit, r).
Proof.
  intros Hi Hu Hm Hunit Hle Hr. unfold duration_term.
  destruct (unit_name_start u Hu) as (c & u' & -> & Hc & Hdot).
  pose proof (unit_prefix_name _ _ Hu Hr) as Hp. pose proof (str_drop_app (String c u') r) as Hd.
  cbn [String.append] in *. rewrite leadingInt_Itoa by (done || nia). cbn [mbind option_bind].
  rewrite term_pre, Hdot, Hp by done. cbn [negb andb String.eqb]. rewrite Hm. cbn [mbind option_bind].
  rewrite (proj2 (Z.ltb_ge _ _)) by (apply Z.div_le_lower_bound; lia).
  change (0 <? 0) with false. cbv iota. rewrite (proj2 (Z.ltb_ge _ _)) by lia. by rewrite Hd.
Qed.

#[local] Instance float64_eq_dec : EqDecision float64.
Proof. solve_decision. Defined.

(** The scale of a fraction divides the unit. *)
Lemma fdiv_powers n k : (n + k ≤ 9)%nat →
  fdiv (of_Z (10 ^ Z.of_nat (n + k))) (of_Z (10 ^ Z.of_nat n)) = of_Z (10 ^ Z.of_nat k).
Proof.
  intros Hnk.
  assert (forallb (λ a, forallb (λ b, negb (a + b <=? 9)%nat || bool_decide
    (fdiv (of_Z (10 ^ Z.of_nat (a + b))) (of_Z (10 ^ Z.of_nat a)) = of_Z (10 ^ Z.of_nat b)))
    (seq 0 10)) (seq 0 10) = true) as Hall by (vm_compute; reflexivity).
  rewrite forallb_forall in Hall. specialize (Hall n). rewrite in_seq in Hall.
  specialize (Hall ltac:(lia)). rewrite forallb_forall in Hall. specialize (Hall k).
  rewrite in_seq in Hall. specialize (Hall ltac:(lia)).
  rewrite (proj2 (Nat.leb_le _ _) Hnk) in Hall. by apply bool_decide_eq_true in Hall.
Qed.

Lemma truncate_of_Z n : 0 < n < 2 ^ 53 → truncate (of_Z n) = n.
Proof.
  intros Hn. destruct (of_Z_finite n Hn) as (m & k & -> & Em & _ & Hk). cbn [truncate].
  rewrite Z.shiftl_div_pow2, Z.opp_involutive, Em by lia. apply Z.div_mul. lia.
Qed.

Lemma duration_term_frac prec v i u r :
  let unit := 10 ^ Z.of_nat prec in
  (prec ≤ 9)%nat → 0 ≤ i → 0 ≤ v → unit_name u = true → unitMap u = Some unit →
  i * unit + v mod unit ≤ two63 → next_number r →
  duration_term (Itoa i +:+ (fmtFrac prec false v u).1 +:+ r) = Some (i * unit + v mod unit, r).
Proof.
  intros unit Hprec Hi Hv Hu Hm Hle Hr. assert (0 < unit) as Hunit by (apply Z.pow_pos_nonneg; lia).
  pose proof (Z.mod_pos_bound v unit Hunit) as Hmod.
  destruct (fmtFrac_spec prec v u Hv) as [[Hz ->]|(ds & f & k & -> & Hds & Hf & Hlen & Hk & Hfrac)];
    cbn [fst].
  { fold unit in Hz. rewrite Hz, Z.add_0_r. apply duration_term_int; try done. lia. }
  fold unit in Hfrac. assert (unit ≤ 10 ^ 9) as Hsmall by (apply Z.pow_le_mono_r; lia).
  unfold duration_term. cbn [String.append]. rewrite str_app_assoc.
  rewrite leadingInt_Itoa by (done || nia). cbn [mbind option_bind].
  rewrite term_pre by done. cbn [Ascii.eqb Bool.eqb]. change (of_Z 1) with (of_Z (10 ^ Z.of_nat 0)) at 1.
  destruct (unit_name_start u Hu) as (c & u' & Eu & Hc & _).
  rewrite (leadingFraction_digits ds 0 0 f (u +:+ r)); [|done|lia| |lia|by rewrite Eu].
  2: { assert (1 ≤ 10 ^ Z.of_nat k) by (apply (Z.pow_le_mono_r 10 0); lia). nia. }
  cbn [negb andb]. rewrite unit_prefix_name by done. rewrite (proj2 (String.eqb_neq _ _)) by (rewrite Eu; done).
  rewrite Hm. cbn [mbind option_bind]. rewrite (proj2 (Z.ltb_ge _ _)) by (apply Z.div_le_lower_bound; lia).
  rewrite (proj2 (Z.ltb_lt 0 f)) by done. cbn [Nat.add].
  assert (fdiv (of_Z unit) (of_Z (10 ^ Z.of_nat (String.length ds))) = of_Z (10 ^ Z.of_nat k)) as ->.
  { subst unit. rewrite <-Hk. apply fdiv_powers. lia. }
  rewrite fmul_exact, truncate_of_Z, <-Hfrac by (rewrite <-?Hfrac; lia).
  rewrite (proj2 (Z.ltb_ge _ _)) by lia. by rewrite str_drop_app.
Qed.

(** ** The round trip *)

Lemma loop_step n d s v r :
  (String.length s ≤ n)%nat → duration_term s = Some (v, r) → (String.length r < String.length s)%nat →
  d + v ≤ two63 → ∃ n', (String.length r ≤ n')%nat ∧ duration_loop n d s = duration_loop n' (d + v) r.
Proof.
  intros Hn Ht Hr Hv. destruct s as [|c s]; [simpl in Hr; lia|]. destruct n as [|n]; [simpl in Hn; lia|].
  exists n. split; [lia|]. cbn [duration_loop]. rewrite Ht. cbn [mbind option_bind fst snd].
  by rewrite (proj2 (Z.ltb_ge _ _)).
Qed.

(** [s] is terms worth [v]: the loop adds them up from any amount that leaves room. *)
Definition reads (s : string) (v : Z) : Prop :=
  ∀ n d, (String.length s ≤ n)%nat → 0 ≤ d → d + v ≤ two63 → duration_loop n d s = Some (d + v).

Lemma reads_nil : reads "" 0.
Proof. intros n d _ _ _. rewrite Z.add_0_r. by destruct n. Qed.

Lemma reads_cons i buf v r v' :
  0 ≤ i → 0 ≤ v → 0 ≤ v' → duration_term (Itoa i +:+ buf +:+ r) = Some (v, r) → reads r v' →
  reads (Itoa i +:+ buf +:+ r) (v + v').
Proof.
  intros Hi Hv Hv' Ht Hr n d Hn Hd Hle.
  destruct (loop_step n d _ v r Hn Ht) as (n' & Hn' & ->); [|lia|].
  { destruct (Itoa_first i Hi) as (c & ? & s & -> & _). rewrite !str_length_app. simpl. lia. }
  rewrite Hr by lia. f_equal. lia.
Qed.

Lemma reads_frac prec v i u :
  let unit := 10 ^ Z.of_nat prec in
  (prec ≤ 9)%nat → 0 ≤ i → 0 ≤ v → unit_name u = true → unitMap u = Some unit →
  i * unit + v mod unit ≤ two63 →
  reads (Itoa i +:+ (fmtFrac prec false v u).1) (i * unit + v mod unit).
Proof.
  intros unit ? Hi Hv Hu Hm Hle. assert (0 < unit) as Hunit by (apply Z.pow_pos_nonneg; lia).
  pose proof (Z.mod_pos_bound v unit Hunit).
  rewrite <-(str_app_nil_r (fmtFrac _ _ _ _).1), <-(Z.add_0_r (i * unit + _)).
  apply reads_cons; [done|nia|lia| |apply reads_nil]. by apply duration_term_frac.
Qed.

Lemma reads_int i u unit r v :
  0 ≤ i → unit_name u = true → unitMap u = Some unit → 0 < unit → i * unit ≤ two63 → 0 ≤ v →
  next_number r → reads r v → reads (Itoa i +:+ u +:+ r) (i * unit + v).
Proof. intros. apply reads_cons; [done|nia|done| |done]. by apply duration_term_int. Qed.

Lemma next_Itoa i r : 0 ≤ i → next_number (Itoa i +:+ r).
Proof. intros Hi. destruct (Itoa_first i Hi) as (c & d & s & -> & Hd). cbn. eauto. Qed.

Lemma fmtFrac_rest prec v u : 0 ≤ v → (fmtFrac prec false v u).2 = v / 10 ^ Z.of_nat prec.
Proof. intros Hv. by destruct (fmtFrac_spec prec v u Hv) as [[_ ->]|(? & ? & ? & -> & _)]. Qed.

Lemma reads_number prec u name :
  (prec ≤ 9)%nat → 0 ≤ u ≤ two63 → unit_name name = true → unitMap name = Some (10 ^ Z.of_nat prec) →
  reads (let '(buf, v) := fmtFrac prec false u name in Itoa v +:+ buf) u.
Proof.
  intros Hp Hu Hname Hm. pose proof (fmtFrac_rest prec u name (proj1 Hu)) as Hrest.
  assert (0 < 10 ^ Z.of_nat prec) as Hpos by (apply Z.pow_pos_nonneg; lia).
  assert (u / 10 ^ Z.of_nat prec * 10 ^ Z.of_nat prec + u mod 10 ^ Z.of_nat prec = u) as Hsum
    by (rewrite Z.mul_comm; symmetry; by apply Z.div_mod; lia).
  pose proof (reads_frac prec u (u / 10 ^ Z.of_nat prec) name Hp) as Hr. cbv zeta in Hr.
  destruct (fmtFrac prec false u name) as [buf v]. cbn [fst snd] in *. subst v.
  rewrite Hsum in Hr. apply Hr; [apply Z.div_pos; lia|lia|done|done|lia].
Qed.

Lemma reads_format u : 0 ≤ u ≤ two63 → reads (format u) u.
Proof.
  intros Hu. unfold format. destruct (Z.ltb_spec u Second) as [Hs|Hs].
  - destruct (Z.eqb_spec u 0) as [->|Hne].
    { apply (reads_int 0 "s" Second "" 0); try done. apply reads_nil. }
    destruct (u <? Microsecond); [|destruct (u <? Millisecond)]; (apply reads_number; [lia|lia|done|done]).
  - pose proof (fmtFrac_rest 9 u "s" (proj1 Hu)) as Hrest.
    pose proof (reads_frac 9 u (u / 10 ^ 9 mod 60) "s" ltac:(lia)) as Hr. cbv zeta in Hr.
    change (Z.of_nat 9) with 9 in *.
    destruct (fmtFrac 9 false u "s") as [buf v]. cbn [fst snd] in *. subst v.
    assert (0 ≤ u / 10 ^ 9) as Hq by (apply Z.div_pos; lia).
    pose proof (Z.div_mod u (10 ^ 9) ltac:(lia)) as E0.
    pose proof (Z.div_mod (u / 10 ^ 9) 60 ltac:(lia)) as E1.
    pose proof (Z.div_mod (u / 10 ^ 9 / 60) 60 ltac:(lia)) as E2.
    pose proof (Z.mod_pos_bound u (10 ^ 9) ltac:(lia)) as B0.
    pose proof (Z.mod_pos_bound (u / 10 ^ 9) 60 ltac:(lia)) as B1.
    pose proof (Z.mod_pos_bound (u / 10 ^ 9 / 60) 60 ltac:(lia)) as B2.
    assert (0 ≤ u / 10 ^ 9 / 60 / 60) as B3 by (apply Z.div_pos; [apply Z.div_pos|]; lia).
    set (q := u / 10 ^ 9) in *. set (sec := q mod 60) in *. set (f := u mod 10 ^ 9) in *.
    set (mm := q / 60) in *. set (hh := mm / 60) in *.
    specialize (Hr ltac:(lia) (proj1 Hu) eq_refl eq_refl ltac:(lia)).
    destruct (Z.eqb_spec mm 0) as [Hm|Hm].
    { replace u with (sec * 10 ^ 9 + f) by lia. done. }
    assert (reads (Itoa (mm mod 60) +:+ "m" +:+ Itoa sec +:+ buf)
      (mm mod 60 * 60000000000 + (sec * 10 ^ 9 + f))) as Hmin.
    { apply reads_int; try done; try lia. apply next_Itoa. lia. }
    destruct (Z.eqb_spec hh 0) as [Hh|Hh].
    { replace u with (mm mod 60 * 60000000000 + (sec * 10 ^ 9 + f)) by lia. done. }
    replace u with (hh * 3600000000000 + (mm mod 60 * 60000000000 + (sec * 10 ^ 9 + f))) by lia.
    apply reads_int; try done; try lia. apply next_Itoa. lia.
Qed.

Lemma format_first u : 0 ≤ u → ∃ c d c' s, format u = String c (String c' s) ∧ Ascii.is_nat c = Some d.
Proof.
  intros Hu.
  assert (∀ i b, 0 ≤ i → b ≠ "" → ∃ c d c' s, Itoa i +:+ b = String c (String c' s) ∧ Ascii.is_nat c = Some d)
    as Hcat.
  { intros i b Hi Hb. destruct (Itoa_first i Hi) as (c & d & s & -> & Hd).
    destruct s as [|c' s]; [|by exists c, d, c', (s +:+ b)]. destruct b as [|c' s]; [done|]. by exists c, d, c', s. }
  assert (∀ prec name, name ≠ "" → (fmtFrac prec false u name).1 ≠ "") as Hfrac.
  { intros prec name Hn. by destruct (fmtFrac_spec prec u name Hu) as [[_ ->]|(? & ? & ? & -> & _)]. }
  assert (∀ prec name, name ≠ "" → ∃ c d c' s,
    (let '(buf, v) := fmtFrac prec false u name in Itoa v +:+ buf) = String c (String c' s) ∧
    Ascii.is_nat c = Some d) as Hnum.
  { intros prec name Hn. pose proof (Hfrac prec name Hn). pose proof (fmtFrac_rest prec u name Hu).
    destruct (fmtFrac prec false u name) as [buf v]. cbn [fst snd] in *. apply Hcat; [|done].
    subst v. apply Z.div_pos; [lia|]. apply Z.pow_pos_nonneg; lia. }
  unfold format. destruct (u <? Second).
  - destruct (u =? 0); [by do 4 eexists|]. destruct (u <? Microsecond); [|destruct (u <? Millisecond)]; by apply Hnum.
  - pose proof (Hfrac 9%nat "s" ltac:(done)). pose proof (fmtFrac_rest 9 u "s" Hu).
    destruct (fmtFrac 9 false u "s") as [buf v]. cbn [fst snd] in *.
    assert (0 ≤ v) by (subst v; apply Z.div_pos; lia).
    assert (0 ≤ v / 60 / 60) by (apply Z.div_pos; [apply Z.div_pos|]; lia).
    pose proof (Z.mod_pos_bound v 60). pose proof (Z.mod_pos_bound (v / 60) 60).
    repeat case_match; apply Hcat; (done || lia).
Qed.

(** The server reads the duration a client prints. *)
Lemma ParseDuration_String d : min_int ≤ d ≤ max_int → ParseDuration (Duration_String d) = Some d.
Proof.
  intros Hd. assert (0 ≤ Z.abs d ≤ two63) as Habs by (unfold min_int, max_int, two63 in *; lia).
  pose proof (reads_format (Z.abs d) Habs (String.length (format (Z.abs d))) 0 (Nat.le_refl _) (Z.le_refl 0)
    (proj2 Habs)) as Hr. rewrite Z.add_0_l in Hr.
  destruct (format_first (Z.abs d) (proj1 Habs)) as (c & dg & c' & s & Hf & Hc).
  assert (format (Z.abs d) ≠ "0" ∧ format (Z.abs d) ≠ "") as [H0 H1] by (by rewrite Hf).
  apply String.eqb_neq in H0, H1. unfold ParseDuration, Duration_String.
  destruct (Z.ltb_spec d 0) as [Hneg|Hpos].
  - replace (- d) with (Z.abs d) by lia. cbn [String.append take_sign Ascii.eqb Bool.eqb].
    rewrite H0, H1, Hr. cbn [mbind option_bind String.eqb Ascii.eqb Bool.eqb]. f_equal. lia.
  - rewrite Z.abs_eq in * by done. rewrite Hf in *. rewrite (take_sign_digit _ _ _ Hc).
    rewrite H0, H1, Hr. cbn [mbind option_bind String.eqb].
    rewrite (proj2 (Z.ltb_ge _ _)); [done|]. unfold max_int, two63 in *. lia.
Qed.
