(* ===== verification/Main.v ===== *)
(** * Start-up, recovery and compaction ([cmd/tinymq/main.go])

    The part of [main] that acts on the broker and its storage: the topics recovered from
    the data directory, their compaction, the compaction ticker, and which transports the
    environment asks for. *)

From Stdlib Require Import Ascii.
From stdpp Require Import sorting.
From S2P Require Import Prelude.
From S2P Require Import GoLib.
From S2P Require Import Message.
From S2P Require Import Wal.
From S2P Require Import Storage.
From S2P Require Import StorageFacts.
From S2P Require Import Codec.
From S2P Require Import Demo.
From S2P Require Import StorageProps.
From S2P Require Import Broker.
From S2P Require Import BrokerSteps.
From S2P Require Import BrokerSafe.
From S2P Require Import BrokerOps.
From S2P Require Import BrokerSafety.
From S2P Require Import BrokerPublish.
From S2P Require Import Duration.

(** The topic of a file of the data directory; [None] for other files. *)
Definition recover_name (file : string) : option string :=
  if strings.HasSuffix file ".log" then
    let encodedName := strings.TrimSuffix file ".log" in
    Some (if strings.Contains encodedName "_b_" || strings.Contains encodedName "_a_"
          then FilenameToTopic encodedName
          else strings.ReplaceAll encodedName "@" "/")
  else None.

(** [os.ReadDir(dataDir)]: the names below the directory, sorted *)
Definition dir_entry (dataDir path : string) : option string :=
  if strings.HasPrefix path (dataDir +:+ "/") then
    let name := strings.TrimPrefix path (dataDir +:+ "/") in
    if strings.Contains name "/" then None else Some name
  else None.
Definition str_le (a b : string) : Prop := String.leb a b = true.
#[global] Instance str_le_dec : RelDecision str_le.
Proof. intros a b. unfold str_le. apply _. Defined.
Definition ReadDir (d : DiskStorage) : list string :=
  merge_sort str_le (omap (dir_entry (dataDir d)) (fst <$> map_to_list (dir d))).

Section main.
Context `{R : Runtime} `{C : LogCodec}.
Variable faults : nat → fault.
#[local] Existing Instance disk_storage.
Abbreviation MB := (M (World DiskStorage)).

Definition compact (name : string) : MB error := with_storage None (disk_CompactLog faults name).

(** Recovery: every topic is loaded, then every log compacted.  [None]: the directory
    cannot be read. *)
Definition recover (files : option (list string)) : MB unit :=
  match files with
  | None => mret ()
  | Some files =>
      let topicsToRecover := omap recover_name files in
      LoadExistingTopics (H:=disk_storage faults) topicsToRecover ;;
      forM_ (λ name, compact name ;; mret ()) topicsToRecover
  end.

(** One tick of the compaction ticker: how many logs were compacted. *)
Fixpoint compact_all (names : list string) : MB Z :=
  match names with
  | [] => mret 0%Z
  | name :: names' =>
      err ← compact name;
      n ← compact_all names';
      mret (match err with None => n + 1 | Some _ => n end)%Z
  end.
Definition gc_tick : MB Z :=
  res ← GetStats; compact_all (st_Name <$> res.1).

(** [10 * time.Minute] unless the environment says otherwise; a ticker panics when its
    interval is not positive. *)
Definition compactionInterval : Z :=
  default 600000000000%Z (ParseDuration (getenv "TINYMQ_COMPACT_INTERVAL")).
Definition new_ticker : MB unit :=
  if (0 <? compactionInterval)%Z then mret () else panic "non-positive interval for NewTicker".

(** The ports the transports listen on; [None]: the transport is off. *)
Definition rest_port : string :=
  let port := getenv "PORT" in if String.eqb port "" then "7800" else port.
Definition mqtt_port : option string :=
  let mqttDisabled := String.eqb (getenv "TINYMQ_MQTT_DISABLE") "true" in
  let mqttPort := getenv "TINYMQ_MQTT_PORT" in
  let mqttPort := if String.eqb mqttPort "" && negb mqttDisabled then "1883" else mqttPort in
  if negb (String.eqb mqttPort "") && negb mqttDisabled then Some mqttPort else None.
Definition nats_port : option string :=
  let natsPort := getenv "TINYMQ_NATS_PORT" in
  if String.eqb natsPort "" then None else Some natsPort.

(** ** Start-up is safe on any directory *)

Lemma step_compact name w : wf w → step (compact name) w (λ _ _, True).
Proof. intros Hwf. apply step_with_storage; [done|apply disk_CompactLog_safe|done]. Qed.

Lemma step_compact_all names : ∀ w, wf w → step (compact_all names) w (λ _ _, True).
Proof.
  induction names as [|name names IH]; intros w Hwf; cbn [compact_all]; [by apply step_ret|].
  eapply step_bind; [by apply step_compact|]. intros err w1 Hwf1 _ _.
  eapply step_bind; [by apply IH|]. intros n w2 Hwf2 _ _. by apply step_ret.
Qed.

Context (HR : RuntimeLaws R).

(** Start-up survives any data directory: whatever files it holds (unknown names, torn
    or corrupted logs, the leftovers of an interrupted compaction) and whichever system
    calls fail, recovering the topics, compacting their logs and any later tick of the
    compaction ticker neither panics nor blocks, and the broker is consistent. *)
Theorem main_recovery_safe store files ticks (Hs : is_Some store) :
  wpx (recover files ;; forM_ (λ _, gc_tick ;; mret ()) (replicate ticks ()))
    (λ _ w', wf w') (λ _, True) (New store).
Proof.
  apply wpx_bind.
  eapply wpx_mono with (Q := λ _ w, wf w) (E := λ _, True); [| |done].
  - pose proof (wf_New store) as Hwf. destruct files as [files|]; [|done]. unfold recover.
    apply wpx_bind. eapply wpx_mono; [by apply step_LoadExistingTopics| |done].
    intros [] w (Hw & _). apply wpx_forM_inv; [done|]. intros name w' _ Hw'.
    apply wpx_bind. eapply wpx_mono; [by apply step_compact| |done]. by intros err w'' (? & _).
  - intros [] w Hw. apply wpx_forM_inv; [done|]. intros [] w' _ Hw'. unfold gc_tick.
    apply wpx_bind, wpx_bind. eapply wpx_mono; [by apply step_GetStats| |done].
    intros res w1 (Hw1 & _). eapply wpx_mono; [by apply step_compact_all| |done]. by intros n w2 (? & _).
Qed.

End main.

Lemma main_recovery_safe_witness :
  wpx (recover no_faults (Some (ReadDir demo_log_disk)) ;;
       forM_ (λ _, gc_tick no_faults ;; mret ()) (replicate 2 ()))
    (λ _ w', wf w') (λ _, True) (New (Some demo_log_disk)).
Proof. apply (main_recovery_safe no_faults demo_runtime_laws). by eexists. Defined.

(** ** Topics come back under their own names *)

Lemma recover_name_roundtrip topic :
  no_char "_" topic = true → no_char "@" topic = true →
  recover_name (topicToFilename topic +:+ ".log") = Some topic.
Proof.
  intros Hus Hat. unfold recover_name. rewrite HasSuffix_app, TrimSuffix_app. cbv zeta.
  pose proof (filename_roundtrip topic Hus Hat) as Hback.
  destruct (strings.Contains (topicToFilename topic) "_b_") eqn:Eb; [by rewrite Hback|].
  destruct (strings.Contains (topicToFilename topic) "_a_") eqn:Ea; [by rewrite Hback|].
  unfold FilenameToTopic in Hback. rewrite (ReplaceAll_none _ "_b_"), ReplaceAll_none in Hback by done.
  simpl. rewrite Hback. by rewrite ReplaceAll_no_char.
Qed.

(** The scan takes the log of a topic for that topic's. *)
Lemma log_recovered d topic ino :
  no_char "_" topic = true → no_char "@" topic = true → dir d !! logFilePath (dataDir d) topic = Some ino →
  topic ∈ omap recover_name (ReadDir d).
Proof.
  intros Hus Hat Hfile. apply list_elem_of_omap. exists (topicToFilename topic +:+ ".log").
  split; [|by apply recover_name_roundtrip].
  unfold ReadDir. rewrite merge_sort_Permutation. apply list_elem_of_omap.
  exists (logFilePath (dataDir d) topic). split.
  - apply list_elem_of_fmap. exists (logFilePath (dataDir d) topic, ino). split; [done|].
    by apply elem_of_map_to_list.
  - unfold dir_entry, logFilePath, Join. rewrite <-str_app_assoc, HasPrefix_app, TrimPrefix_app.
    cbv zeta. rewrite Contains_char.
    assert (no_char "/" (topicToFilename topic +:+ ".log") = true) as Hslash.
    { unfold no_char. rewrite forall_chars_app. apply andb_true_iff. split; [|done].
      apply (replace_keeps_out "/" "@" "_a_" 0); [done|]. by apply ReplaceAll_char_gone. }
    unfold no_char in Hslash. by rewrite Hslash.
Qed.

(** A restart finds every topic: if the log file of a topic is in the data directory,
    and its name has no underscore and no [@], the scan of the directory recovers the topic
    under its own name; and the files of topics are the only ones it takes for topics. *)
Theorem restart_finds_topic d topic ino
    (Hus : no_char "_" topic = true) (Hat : no_char "@" topic = true)
    (Hfile : dir d !! logFilePath (dataDir d) topic = Some ino) :
  topic ∈ omap recover_name (ReadDir d) ∧
  ∀ t, t ∈ omap recover_name (ReadDir d) →
    ∃ base i, dir d !! (dataDir d +:+ "/" +:+ base +:+ ".log") = Some i ∧
      recover_name (base +:+ ".log") = Some t.
Proof.
  split; [by eapply log_recovered|].
  intros t (file & Hf & Hr)%list_elem_of_omap.
    unfold ReadDir in Hf. rewrite merge_sort_Permutation in Hf.
    apply list_elem_of_omap in Hf as (path & ([path' i] & -> & Hp%elem_of_map_to_list)%list_elem_of_fmap & He).
    simpl in *. unfold dir_entry in He.
    destruct (strings.HasPrefix path' _) eqn:Epre; [|done]. apply HasPrefix_split in Epre.
    revert Epre. generalize (strings.drop (String.length (dataDir d +:+ "/")) path'). intros rest ->.
    rewrite TrimPrefix_app in He. cbv zeta in He. case_match; [done|]. injection He as <-.
    pose proof Hr as Hr'. unfold recover_name in Hr'.
    destruct (strings.HasSuffix rest ".log") eqn:Esuf; [|done]. apply HasSuffix_split in Esuf.
    exists (strings.take (String.length rest - String.length ".log") rest), i.
    rewrite str_app_assoc in Hp. rewrite <-Esuf. done.
Qed.

Lemma restart_finds_topic_witness :
  "t" ∈ omap recover_name (ReadDir demo_log_disk) ∧
  ∀ t, t ∈ omap recover_name (ReadDir demo_log_disk) →
    ∃ base i, dir demo_log_disk !! (dataDir demo_log_disk +:+ "/" +:+ base +:+ ".log") = Some i ∧
      recover_name (base +:+ ".log") = Some t.
Proof. apply (restart_finds_topic demo_log_disk "t" 0); reflexivity. Defined.

(** A ticker with an interval of zero, which the environment can ask for, panics in the
    goroutine and takes the server down. *)
Theorem zero_interval_panics :
  let R := env_runtime (λ name, if String.eqb name "TINYMQ_COMPACT_INTERVAL" then "0" else "") in
  (new_ticker (R:=R) demo_empty).1 = Panic "non-positive interval for NewTicker".
Proof. done. Qed.
