(* ===== verification/Http.v ===== *)
(** * What the REST transport uses of [net/http], [net/url], [net] and [time]

    Requests and responses as values, the query string, basic authentication, the
    routing of [http.ServeMux] up to escaped paths, the address classes of [net.IP] and
    [time.ParseDuration]. *)

From Stdlib Require Import Ascii.
From Stdlib Require Import SpecFloat.
From Stdlib Require Import Strings.Byte.
From S2P Require Import Prelude.
From S2P Require Import GoLib.
From S2P Require Import Base64.
From S2P Require Import Message.
From S2P Require Import Float64.

(** ** Requests *)

Record Request : Type := MkRequest {
  Method : string;
  Path : string;
  RawQuery : string;
  (** by canonical name *)
  Header : gmap string (list string);
  RemoteAddr : string;
  (** the bytes of the body that arrive, and whether reading then ends in an error *)
  Body : bytes;
  BodyErr : bool
}.

Definition lower (c : ascii) : ascii :=
  let n := N_of_ascii c in
  if ((65 <=? n) && (n <=? 90))%N then ascii_of_N (n + 32) else c.
Definition upper (c : ascii) : ascii :=
  let n := N_of_ascii c in
  if ((97 <=? n) && (n <=? 122))%N then ascii_of_N (n - 32) else c.
Fixpoint map_chars (f : ascii → ascii) (s : string) : string :=
  match s with
  | EmptyString => EmptyString
  | String c s' => String (f c) (map_chars f s')
  end.

(** [textproto.CanonicalMIMEHeaderKey] on a name of token characters. *)
Fixpoint canonical (start : bool) (s : string) : string :=
  match s with
  | EmptyString => EmptyString
  | String c s' =>
      String (if start then upper c else lower c) (canonical (Ascii.eqb c "-") s')
  end.

(** [r.Header.Get(name)] *)
Definition header_get (r : Request) (name : string) : string :=
  match Header r !! canonical true name with
  | Some (v :: _) => v
  | _ => ""
  end.

(** *** The query string *)

Definition hex_value (c : ascii) : option N :=
  let n := N_of_ascii c in
  if ((48 <=? n) && (n <=? 57))%N then Some (n - 48)%N
  else if ((97 <=? n) && (n <=? 102))%N then Some (n - 87)%N
  else if ((65 <=? n) && (n <=? 70))%N then Some (n - 55)%N
  else None.

(** [url.QueryUnescape]; [None] is an error. *)
Fixpoint QueryUnescape (s : string) : option string :=
  match s with
  | EmptyString => Some ""
  | String c s' =>
      if Ascii.eqb c "%" then
        match s' with
        | String a (String b r) =>
            match hex_value a, hex_value b with
            | Some x, Some y => String (ascii_of_N (16 * x + y)) <$> QueryUnescape r
            | _, _ => None
            end
        | _ => None
        end
      else String (if Ascii.eqb c "+" then " "%char else c) <$> QueryUnescape s'
  end.

(** One [key=value] of the query; [None]: it is skipped. *)
Definition query_pair (segment : string) : option (string * string) :=
  if strings.Contains segment ";" || String.eqb segment "" then None
  else
    let '(k, v) := default (segment, "") (strings.Cut segment "=") in
    match QueryUnescape k, QueryUnescape v with
    | Some k, Some v => Some (k, v)
    | _, _ => None
    end.

Definition Query (r : Request) : list (string * string) := omap query_pair (strings.Split (RawQuery r) "&").

(** [r.URL.Query().Get(key)] *)
Definition query_get (r : Request) (key : string) : string :=
  match List.find (λ kv, String.eqb kv.1 key) (Query r) with
  | Some (_, v) => v
  | None => ""
  end.

(** *** Basic authentication *)

(** [r.BasicAuth()]: user and password *)
Definition BasicAuth (r : Request) : option (string * string) :=
  let auth := header_get r "Authorization" in
  if String.eqb (map_chars lower (strings.take 6 auth)) "basic " then
    match DecodeString (strings.drop 6 auth) with
    | Some c => strings.Cut (string_of_bytes c) ":"
    | None => None
    end
  else None.

(** [io.ReadAll(http.MaxBytesReader(w, r.Body, limit))]; [None] is an error. *)
Definition ReadAll (limit : Z) (r : Request) : option bytes :=
  if BodyErr r || (limit <? Z.of_nat (length (Body r)))%Z then None else Some (Body r).

(** What a JSON decoder sees of a body cut off at [limit]. *)
Definition limited (limit : Z) (r : Request) : bytes := take (Z.to_nat limit) (Body r).

(** ** Responses *)

#[local] Set Warnings "-register-all".

(** The value handed to the JSON encoder. *)
Inductive json : Type :=
| JStr (s : string)
| JInt (z : Z)
| JBool (b : bool)
| JMessage (m : Message)
(** a message with [payload_encoding], and its text when it is valid UTF-8 *)
| JQoL (m : Message) (text : option string)
| JList (l : list json)
| JObj (l : list (string * json)).

Inductive body : Type :=
| BEmpty
| BText (s : string)
| BJson (j : json).

Record Response : Type := MkResponse { status : Z; headers : list (string * string); content : body }.

(** [http.Error(w, msg, code)] *)
Definition http_Error (msg : string) (code : Z) : Response :=
  MkResponse code [("Content-Type", "text/plain; charset=utf-8"); ("X-Content-Type-Options", "nosniff")]
    (BText (msg +:+ String "010" "")).

Definition json_type : string * string := ("Content-Type", "application/json").

(** ** Routing *)

Fixpoint clean_segments (acc : list string) (l : list string) : list string :=
  match l with
  | [] => rev acc
  | x :: l' =>
      if String.eqb x "" || String.eqb x "." then clean_segments acc l'
      else if String.eqb x ".." then clean_segments (tail acc) l'
      else clean_segments (x :: acc) l'
  end.

(** [http.cleanPath] *)
Definition cleanPath (p : string) : string :=
  if String.eqb p "" then "/"
  else
    let p := if strings.HasPrefix p "/" then p else "/" +:+ p in
    let np := "/" +:+ strings.Join (clean_segments [] (strings.Split p "/")) "/" in
    if strings.HasSuffix p "/" && negb (String.eqb np "/") then np +:+ "/" else np.

(** A pattern ending in a slash matches every path below it, another one itself. *)
Definition pattern_matches (pattern path : string) : bool :=
  if strings.HasSuffix pattern "/" then strings.HasPrefix path pattern else String.eqb path pattern.

Fixpoint longest_match {A} (routes : list (string * A)) (path : string) : option (string * A) :=
  match routes with
  | [] => None
  | (pattern, h) :: routes' =>
      let best := longest_match routes' path in
      if pattern_matches pattern path then
        match best with
        | Some (p, _) => if (String.length pattern <? String.length p)%nat then best else Some (pattern, h)
        | None => Some (pattern, h)
        end
      else best
  end.

(** The route of a path, or the path the client is redirected to. *)
Definition mux_route {A} (routes : list (string * A)) (r : Request) : string + option A :=
  let path := cleanPath (Path r) in
  if negb (String.eqb (Method r) "CONNECT") && negb (String.eqb path (Path r)) then inl path
  else
    match longest_match routes (Path r) with
    | Some (_, h) => inr (Some h)
    | None =>
        if bool_decide (is_Some (longest_match routes (Path r +:+ "/")))
        then inl (Path r +:+ "/") else inr None
    end.

(** ** Addresses: [net.IP] as 4 or 16 bytes *)

(** [ip.To4()] *)
Definition To4 (ip : bytes) : option bytes :=
  if bool_decide (length ip = 4) then Some ip
  else if bool_decide (length ip = 16 ∧ take 12 ip = replicate 10 x00 ++ [xff; xff])
  then Some (drop 12 ip) else None.

Definition octet (ip : bytes) (i : nat) : Z := byteZ (nth i ip x00).

Definition IsLoopback (ip : bytes) : bool :=
  match To4 ip with
  | Some ip4 => (octet ip4 0 =? 127)%Z
  | None => bool_decide (ip = replicate 15 x00 ++ [x01])
  end.
Definition IsPrivate (ip : bytes) : bool :=
  match To4 ip with
  | Some ip4 =>
      (octet ip4 0 =? 10)%Z ||
      (octet ip4 0 =? 172)%Z && (Z.land (octet ip4 1) 240 =? 16)%Z ||
      (octet ip4 0 =? 192)%Z && (octet ip4 1 =? 168)%Z
  | None => bool_decide (length ip = 16) && (Z.land (octet ip 0) 254 =? 252)%Z
  end.
Definition IsLinkLocalUnicast (ip : bytes) : bool :=
  match To4 ip with
  | Some ip4 => (octet ip4 0 =? 169)%Z && (octet ip4 1 =? 254)%Z
  | None => bool_decide (length ip = 16) && (octet ip 0 =? 254)%Z && (Z.land (octet ip 1) 192 =? 128)%Z
  end.

(** *** [utf8.Valid] *)

Definition within (lo hi : Z) (b : byte) : bool := ((lo <=? byteZ b) && (byteZ b <=? hi))%Z.

(** The continuation bytes a first byte asks for, as ranges. *)
Definition utf8_tail (b : byte) : option (list (Z * Z)) :=
  let any := (128, 191)%Z in
  if within 0 127 b then Some []
  else if within 194 223 b then Some [any]
  else if within 224 224 b then Some [(160, 191)%Z; any]
  else if within 237 237 b then Some [(128, 159)%Z; any]
  else if within 225 239 b then Some [any; any]
  else if within 240 240 b then Some [(144, 191)%Z; any; any]
  else if within 241 243 b then Some [any; any; any]
  else if within 244 244 b then Some [(128, 143)%Z; any; any]
  else None.

Fixpoint utf8_valid_from (expect : list (Z * Z)) (p : bytes) : bool :=
  match p, expect with
  | [], [] => true
  | [], _ :: _ => false
  | b :: p', (lo, hi) :: expect' => within lo hi b && utf8_valid_from expect' p'
  | b :: p', [] =>
      match utf8_tail b with
      | Some expect' => utf8_valid_from expect' p'
      | None => false
      end
  end.
Definition utf8_Valid (p : bytes) : bool := utf8_valid_from [] p.
