(* ===== verification/Rest.v ===== *)
(** * The REST transport ([internal/transport/rest/server.go])

    The server's own state (drain flag, requests in flight, rate limiter) beside the
    broker of [Broker.v] and the cluster node of [Cluster.v]; the middleware, one
    definition per handler, and the route table of [NewServer].  A request that waits
    (a long poll) or streams stops at a [Reply] of its own, and the events that end the
    wait are the steps [consume_wake], [stream_event] and [stream_close].  The JSON
    decoder, SHA-256, [url.ParseRequestURI] and the resolver are parameters. *)

From Stdlib Require Import Ascii.
From Stdlib Require Import Strings.Byte.
From S2P Require Import Prelude.
From S2P Require Import GoLib.
From S2P Require Import Message.
From S2P Require Import Wal.
From S2P Require Import Broker.
From S2P Require Import BrokerSafety.
From S2P Require Import Cluster.
From S2P Require Import Helper.
From S2P Require Import Float64.
From S2P Require Import RateLimit.
From S2P Require Import Duration.
From S2P Require Import Http.

(** ** The server *)

Record Server (St : Type) : Type := MkServer {
  broker : World St;
  clusterNode : option Node;
  rateLimiter : option ipRateLimiter;
  inFlight : Z;
  draining : bool;
  version : string;
  startTime : Z
}.
Arguments MkServer {_} _ _ _ _ _ _ _.
Arguments broker {_} _. Arguments clusterNode {_} _. Arguments rateLimiter {_} _.
Arguments inFlight {_} _. Arguments draining {_} _. Arguments version {_} _.
Arguments startTime {_} _.

Section server_updates.
Context {St : Type}.
Implicit Types s : Server St.

Definition set_broker (x : World St) s : Server St :=
  MkServer x (clusterNode s) (rateLimiter s) (inFlight s) (draining s) (version s) (startTime s).
Definition set_rateLimiter (x : option ipRateLimiter) s : Server St :=
  MkServer (broker s) (clusterNode s) x (inFlight s) (draining s) (version s) (startTime s).
Definition set_inFlight (x : Z) s : Server St :=
  MkServer (broker s) (clusterNode s) (rateLimiter s) x (draining s) (version s) (startTime s).
Definition set_draining (x : bool) s : Server St :=
  MkServer (broker s) (clusterNode s) (rateLimiter s) (inFlight s) x (version s) (startTime s).

End server_updates.

(** The body of [/api/queues/publish]. *)
Record publish_request : Type := MkPub {
  pub_Queue : string; pub_Payload : string; pub_TTL : string; pub_Delay : string;
  pub_Broadcast : bool
}.

(** The body of [/api/topics]. *)
Record topic_request : Type := MkTopicReq {
  tr_Name : string; tr_Policy : string; tr_Retain : string
}.

(** What the transport uses of other packages. *)
Class Web : Type := {
  sha256 : bytes → bytes;
  json_message : bytes → option Message;
  json_webhook : bytes → option (string * string);
  json_topic : bytes → option topic_request;
  json_publish : bytes → option publish_request;
  json_queue : bytes → option string;
  json_group : bytes → option (string * string);
  (** the members of a JSON object, printed with [%v] *)
  json_fields : bytes → option (gmap string string);
  (** scheme and host name *)
  ParseRequestURI : string → option (string * string);
  LookupIP : string → option (list bytes)
}.

(** ** What a handler answers *)

(** A consumer waiting in [handleConsume]'s [select]. *)
Record Waiting : Type := MkWaiting {
  wt_topic : string; wt_chan : nat; wt_limit : Z;
  wt_filterKey : string; wt_filterVal : string; wt_autoAck : bool
}.

(** A stream of server-sent events. *)
Record Stream : Type := MkStream {
  sm_topic : string; sm_chan : nat; sm_filterKey : string; sm_filterVal : string
}.

Inductive Reply : Type :=
| Done (resp : Response)
| Wait (w : Waiting)
| Open (event : json) (sm : Stream)
(** passed to the leader, to [ws.HandleWS], to the file server *)
| Proxy (leader : string)
| Socket
| Static
| Redirect (path : string)
(** the client went away *)
| Gone.

Section rest.
Context `{R : Runtime} {St : Type} `{Storage St} `{W : Web}.
Abbreviation MR := (M (Server St)).
Abbreviation Handler := (Request → MR Reply).

Definition call {A} (op : M (World St) A) : MR A := zoom broker set_broker op.
Definition reply (resp : Response) : MR Reply := mret (Done resp).
Definition fail (msg : string) (code : Z) : MR Reply := reply (http_Error msg code).

Definition max_body : Z := Z.shiftl 2 20.

(** ** Middleware *)

Definition leaderProxy (next : Handler) : Handler := λ r,
  s ← get;
  match clusterNode s with
  | Some n =>
      if IsLeader n then next r
      else
        let leaderAddr := GetLeaderHTTP n in
        if negb (String.eqb leaderAddr "") then mret (Proxy leaderAddr)
        else fail "Cluster is electing a new leader, please retry" 503
  | None => next r
  end.

(** The handler is done with the request: it is no longer in flight. *)
Definition finished (rp : Reply) : bool :=
  match rp with Wait _ | Open _ _ => false | _ => true end.

(** The deferred decrement of [trackInFlight]. *)
Definition settle (rp : Reply) : MR Reply :=
  (if finished rp then modify (λ s, set_inFlight (inFlight s - 1) s) else mret ()) ;; mret rp.

Definition trackInFlight (next : Handler) : Handler := λ r,
  s ← get;
  if draining s then fail "Server is draining, please retry against another node" 503
  else modify (λ s, set_inFlight (inFlight s + 1) s) ;; next r ≫= settle.

Definition MarkDraining : MR unit := modify (set_draining true).
Definition InFlightCount : MR Z := gets inFlight.

Definition rate_limited : Response :=
  MkResponse 429 [("Content-Type", "text/plain; charset=utf-8"); ("X-Content-Type-Options", "nosniff");
      ("Retry-After", "1")]
    (BText ("{" +:+ String "034" "error" +:+ String "034" ":" +:+ String "034" "rate_limit_exceeded" +:+
      String "034" "," +:+ String "034" "retry_after_seconds" +:+ String "034" ":1}" +:+ String "010" "")).

(** Whether the rate limiter lets the request through. *)
Definition check_rate (now : Z) (r : Request) : MR bool :=
  s ← get;
  match rateLimiter s with
  | None => mret true
  | Some rl =>
      let '(ok, rl) := Allow now (extractIP (header_get r "X-Real-IP") (RemoteAddr r)) rl in
      modify (set_rateLimiter (Some rl)) ;; mret ok
  end.

(** Bearer header, password of basic authentication, or query parameter. *)
Definition has_key (token : string) (r : Request) : bool :=
  let authHeader := header_get r "Authorization" in
  strings.HasPrefix authHeader "Bearer " &&
    String.eqb (strings.TrimPrefix authHeader "Bearer ") token
  || match BasicAuth r with
     | Some (_, pwd) => String.eqb pwd token
     | None => false
     end
  || negb (String.eqb (query_get r "token") "") && String.eqb (query_get r "token") token.

Definition unauthorized : Response :=
  MkResponse 401 (("WWW-Authenticate", "Basic realm=" +:+ String "034" "TinyMQ Secure Dashboard" +:+ String "034" "")
      :: headers (http_Error "unauthorized" 401)) (content (http_Error "unauthorized" 401)).

Definition withAuth (now : Z) (next : Handler) : Handler := λ r,
  ok ← check_rate now r;
  if negb ok then reply rate_limited
  else
    let token := getenv "TINYMQ_API_KEY" in
    if String.eqb token "" then next r
    else if has_key token r then next r
    else reply unauthorized.

(** ** Publishing *)

Definition extractTopicFromPath (r : Request) (prefix : string) : string :=
  if negb (strings.HasPrefix (Path r) prefix) then ""
  else strings.TrimSuffix (strings.TrimPrefix (Path r) prefix) "/".

(** The [X-MQ-] headers; [v[0]] panics on a header without a value. *)
Definition user_headers (r : Request) : MR (gmap string string) :=
  let mine := filter (λ kv, strings.HasPrefix (map_chars upper kv.1) "X-MQ-" = true) (Header r) in
  if forallb (λ kv, match kv.2 with [] => false | _ => true end) (map_to_list mine)
  then mret (default "" ∘ head <$> mine)
  else panic "index out of range [0] with length 0".

(** [now + d] for a duration that parses. *)
Definition deadline (now : Z) (text : string) : option Z :=
  if String.eqb text "" then None else (λ d, now + d)%Z <$> ParseDuration text.

(** The status of a refused publication. *)
Definition publish_status (err : string) : Z :=
  if strings.Contains err "capacity" || strings.Contains err "limit" then 429
  else if strings.Contains err "invalid topic" then 400 else 500.

Definition idempotency_key (r : Request) (body : bytes) : string :=
  if String.eqb (query_get r "idempotency") "auto" then hex (sha256 body)
  else header_get r "Idempotency-Key".

Definition ignored (topic : string) : Response :=
  MkResponse 200 [json_type] (BJson (JObj [("status", JStr "ignored");
    ("reason", JStr "idempotency_key_exists"); ("topic", JStr topic)])).

(** [iKey != "" && s.broker.IsIdempotent(iKey)] *)
Definition seen_key (now : Z) (iKey : string) : MR bool :=
  if String.eqb iKey "" then mret false else call (IsIdempotent now iKey).

Definition handlePublish (now : Z) : Handler := λ r,
  if negb (String.eqb (Method r) "POST") then fail "Method not allowed" 405
  else
    let topic := extractTopicFromPath r "/publish/" in
    if String.eqb topic "" then fail "Topic is required. Usage: POST /publish/{topic}" 400
    else
      match ReadAll max_body r with
      | None => fail "Payload too large or unreadable (Max 2MB)" 413
      | Some [] => fail "Payload is empty" 400
      | Some body =>
          seen ← seen_key now (idempotency_key r body);
          if (seen : bool) then reply (ignored topic)
          else
            userHeaders ← user_headers r;
            let priority := if String.eqb (query_get r "priority") "" then "normal"
                            else query_get r "priority" in
            err ← call (Publish now topic body userHeaders priority
                    (deadline now (query_get r "ttl")) (deadline now (query_get r "delay"))
                    (String.eqb (query_get r "broadcast") "true"));
            match err with
            | Some e => fail e (publish_status e)
            | None => reply (MkResponse 202 []
                        (BJson (JObj [("status", JStr "accepted"); ("topic", JStr topic)])))
            end
      end.

(** ** Consuming *)

(** A flat JSON object as the source spells it. *)
Definition json_text (pairs : list (string * string)) : string :=
  "{" +:+ strings.Join ((λ kv, String "034" (kv.1 +:+ String "034" (": " +:+ String "034" (kv.2 +:+ String "034" ""))))
    <$> pairs) ", " +:+ "}".

Definition not_found : Response :=
  MkResponse 404 [json_type]
    (BText (json_text [("status", "not_found"); ("message", "Topic does not exist")])).
Definition no_content : Response := MkResponse 204 [] BEmpty.

(** The answer when there is nothing to deliver. *)
Definition nothing (topic : string) : MR Reply :=
  exists_ ← call (TopicExists topic);
  reply (if (exists_ : bool) then no_content else not_found).

Definition qol (m : Message) : json :=
  JQoL m (if utf8_Valid (Payload m) then Some (string_of_bytes (Payload m)) else None).

(** One message alone when one was asked for, a list otherwise. *)
Definition respondWithQoL (msgs : list Message) (limit : Z) : Response :=
  MkResponse 200 [json_type]
    (BJson (match msgs with
            | [m] => if (limit =? 1)%Z then qol m else JList [qol m]
            | _ => JList (qol <$> msgs)
            end)).

Definition consume_limit (r : Request) : Z :=
  match Atoi (query_get r "limit") with
  | Some parsedLimit => if (0 <? parsedLimit)%Z then Z.min parsedLimit 1000 else 1
  | None => 1
  end.

(** From the filter to the response. *)
Definition consume_finish (now : Z) (w : Waiting) (msgs : list Message) (ok : bool) : MR Reply :=
  let msgs :=
    if ok && negb (String.eqb (wt_filterKey w) "")
    then filter (λ m, MatchJSONFilter json_fields (Payload m) (wt_filterKey w) (wt_filterVal w) = true) msgs
    else msgs in
  match msgs with
  | [] => nothing (wt_topic w)
  | _ =>
      if ok then
        (if wt_autoAck w then forM_ (λ m, call (Ack now (wt_topic w) (ID m)) ;; mret ()) msgs
         else mret ()) ;;
        reply (respondWithQoL msgs (wt_limit w))
      else nothing (wt_topic w)
  end.

Definition handleConsume (now : Z) : Handler := λ r,
  if negb (String.eqb (Method r) "GET") then fail "Method not allowed" 405
  else
    let topic := extractTopicFromPath r "/consume/" in
    if String.eqb topic "" then fail "Topic is required" 400
    else
      let limit := consume_limit r in
      if String.eqb (query_get r "peek") "true" then
        msgs ← call (Peek topic limit);
        match msgs with
        | [] => nothing topic
        | _ => reply (respondWithQoL msgs limit)
        end
      else
        let group := query_get r "group" in
        vt ← (if String.eqb group "" then mret (inr topic) else call (CreateGroup topic group));
        match vt with
        | inl e => fail e 400
        | inr topic =>
            let timeout := default 0%Z (ParseDuration (query_get r "timeout")) in
            notifyChan ← call (make_chan 1);
            res ← call (Consume now topic limit notifyChan);
            let '(msgs, ok) := (res : list Message * bool) in
            let w := MkWaiting topic notifyChan limit (query_get r "filter_key")
                       (query_get r "filter_val") (String.eqb (query_get r "auto_ack") "true") in
            if negb ok && (0 <? timeout)%Z then mret (Wait w) else consume_finish now w msgs ok
        end.

(** What ends the [select] of a waiting consumer. *)
Inductive wake : Type := WMessage | WTimeout | WCancelled.

Definition consume_select (now : Z) (ev : wake) (w : Waiting) : MR Reply :=
  match ev with
  | WMessage =>
      om ← call (try_recv (wt_chan w));
      match om with
      | Some receivedMsg => consume_finish now w [receivedMsg] true
      | None => mret (Wait w)
      end
  | WTimeout =>
      call (RemoveWaitingConsumer (wt_topic w) (wt_chan w)) ;; consume_finish now w [] false
  | WCancelled =>
      call (RemoveWaitingConsumer (wt_topic w) (wt_chan w)) ;; mret Gone
  end.

Definition consume_wake (now : Z) (ev : wake) (w : Waiting) : MR Reply :=
  consume_select now ev w ≫= settle.

Definition handleAck (now : Z) : Handler := λ r,
  match strings.SplitN (strings.TrimPrefix (Path r) "/ack/") "/" 2 with
  | [topic; msgID] =>
      if String.eqb topic "" || String.eqb msgID "" then fail "Topic and Message ID required" 400
      else
        ok ← call (Ack now topic msgID);
        if (ok : bool)
        then reply (MkResponse 200 [json_type]
               (BText (json_text [("status", "success"); ("message", "Message acknowledged")])))
        else reply (MkResponse 404 [json_type]
               (BText (json_text [("status", "error"); ("message", "Message not found")])))
  | _ => fail "Topic and Message ID required" 400
  end.

Definition handleRequeue (now : Z) : Handler := λ r,
  if negb (String.eqb (Method r) "POST") then fail "Method not allowed" 405
  else
    match json_message (limited max_body r) with
    | None => fail "Invalid message format" 400
    | Some msg =>
        ex ← call (TopicExists (Message.Topic msg));
        if String.eqb (ID msg) "" || String.eqb (Message.Topic msg) "" ||
           negb (IsValidTopicName (Message.Topic msg)) || negb ex
        then fail "Invalid or missing topic/id" 400
        else
          call (Requeue now msg) ;;
          reply (MkResponse 202 [] (BText (json_text [("status", "requeued")])))
    end.

(** ** Topics, webhooks and groups *)

(** [None]: the URL is accepted. *)
Definition validateWebhookURL (rawURL : string) : error :=
  match ParseRequestURI rawURL with
  | Some (scheme, hostname) =>
      if String.eqb scheme "http" || String.eqb scheme "https" then
        match LookupIP hostname with
        | None => Some "could not resolve webhook hostname"
        | Some ips =>
            if existsb (λ ip, IsLoopback ip || IsPrivate ip || IsLinkLocalUnicast ip) ips
            then Some "webhook URL resolves to a forbidden private/internal network address"
            else None
        end
      else Some "only valid http/https URLs are allowed"
  | None => Some "only valid http/https URLs are allowed"
  end.

Definition handleRegisterWebhook : Handler := λ r,
  let topic := extractTopicFromPath r "/webhook/" in
  if String.eqb topic "" then fail "Topic required" 400
  else
    match json_webhook (Body r) with
    | None => fail "Invalid JSON" 400
    | Some (url, secret) =>
        if String.eqb url "" then fail "Invalid JSON" 400
        else
          match validateWebhookURL url with
          | Some e => fail ("Security rejection: " +:+ e) 403
          | None =>
              call (RegisterWebhook topic url secret) ;;
              reply (MkResponse 201 [] (BText (json_text [("status", "webhook_registered")])))
          end
    end.

Definition handleCreateTopic : Handler := λ r,
  match json_topic (Body r) with
  | None => fail "Invalid JSON" 400
  | Some payload =>
      let policy := if String.eqb (tr_Policy payload) "" then getenv "TINYMQ_DEFAULT_POLICY"
                    else tr_Policy payload in
      let create retention :=
        err ← call (CreateTopic (tr_Name payload) policy retention);
        match err with
        | Some e => fail e 409
        | None => reply (MkResponse 201 [] (BText (json_text [("status", "topic_created")])))
        end in
      if String.eqb (tr_Retain payload) "" then create 0%Z
      else
        match ParseDuration (tr_Retain payload) with
        | None => fail "Invalid retain duration (use Go duration format: 1h, 30m, etc.)" 400
        | Some d => create d
        end
  end.

Definition handleGroups : Handler := λ r,
  if String.eqb (Method r) "GET" then
    let topic := query_get r "topic" in
    if String.eqb topic "" then fail "topic query parameter is required" 400
    else
      groups ← call (GetGroups topic);
      reply (MkResponse 200 [json_type]
        (BJson (JObj [("topic", JStr topic); ("groups", JList (JStr <$> groups))])))
  else if String.eqb (Method r) "POST" then
    match json_group (Body r) with
    | None => fail "invalid JSON body" 400
    | Some (topic, group) =>
        if String.eqb topic "" || String.eqb group "" then fail "topic and group are required" 400
        else
          vt ← call (CreateGroup topic group);
          match vt with
          | inl e => fail e 400
          | inr virtualTopic =>
              reply (MkResponse 201 [json_type]
                (BJson (JObj [("status", JStr "created"); ("virtual_topic", JStr virtualTopic)])))
          end
    end
  else fail "Method not allowed" 405.

(** ** Reading the state *)

Definition stat_json (st : TopicStat) : json :=
  JObj [("Name", JStr (st_Name st)); ("MessageCount", JInt (st_MessageCount st));
    ("WaitingConsumers", JInt (st_WaitingConsumers st)); ("IsDLQ", JBool (st_IsDLQ st));
    ("HasWebhooks", JBool (st_HasWebhooks st))].

Definition handleStats : Handler := λ _,
  res ← call GetStats;
  reply (MkResponse 200 [json_type]
    (BJson (JObj [("stats", JList (stat_json <$> res.1)); ("total_webhooks", JInt res.2)]))).

Definition handleListQueues : Handler := λ _,
  res ← call GetStats; reply (MkResponse 200 [json_type] (BJson (JList (stat_json <$> res.1)))).

(** [d.Round(time.Second)] for a duration that is not negative *)
Definition round_second (d : Z) : Z := (d + 500000000) / 1000000000 * 1000000000.

(** The data of the dashboard template; [alloc] is what [runtime.ReadMemStats] gives,
    the up-time is in nanoseconds. *)
Definition handleDashboard (now alloc : Z) : Handler := λ _,
  res ← call GetStats;
  s ← get;
  let '(stats, totalWebhooks) := (res : list TopicStat * Z) in
  reply (MkResponse 200 [("Content-Type", "text/html; charset=utf-8")]
    (BJson (JObj [("Version", JStr (version s)); ("TotalTopics", JInt (Z.of_nat (length stats)));
      ("TotalMessages", JInt (foldr Z.add 0%Z (st_MessageCount <$> stats)));
      ("MemoryAllocated", JInt alloc); ("Uptime", JInt (round_second (now - startTime s)));
      ("TotalWebhooks", JInt totalWebhooks); ("Topics", JList (stat_json <$> stats))]))).

Definition lf : string := String "010" "".
Definition metric_header (name help : string) : string :=
  "# HELP " +:+ name +:+ " " +:+ help +:+ lf +:+ "# TYPE " +:+ name +:+ " gauge" +:+ lf.
Definition metric_lines (name : string) (value : TopicStat → Z) (stats : list TopicStat) : string :=
  strings.Join ((λ st, name +:+ "{topic=" +:+ String "034" (st_Name st +:+ String "034" ("} " +:+
    Itoa (value st) +:+ lf))) <$> stats) "".
Definition metrics_text (stats : list TopicStat) (totalWebhooks : Z) : string :=
  metric_header "tinymq_topics_total" "Total Queue/Topics active on Memory" +:+
  "tinymq_topics_total " +:+ Itoa (Z.of_nat (length stats)) +:+ lf +:+ lf +:+
  metric_header "tinymq_webhooks_total" "Subscribed URLs" +:+
  "tinymq_webhooks_total " +:+ Itoa totalWebhooks +:+ lf +:+ lf +:+
  match stats with
  | [] => ""
  | _ =>
      metric_header "tinymq_topic_messages" "Messages held in RAM" +:+
      metric_lines "tinymq_topic_messages" st_MessageCount stats +:+ lf +:+
      metric_header "tinymq_topic_consumers" "Consumers waiting in Long-Polling" +:+
      metric_lines "tinymq_topic_consumers" st_WaitingConsumers stats
  end.
Definition handleMetrics : Handler := λ _,
  res ← call GetStats;
  reply (MkResponse 200 [("Content-Type", "text/plain; version=0.0.4")] (BText (metrics_text res.1 res.2))).

Definition handleHealthz (now : Z) : Handler := λ _,
  s ← get;
  let base st := [("status", JStr st); ("version", JStr (version s));
                  ("uptime_seconds", JInt (truncate (Seconds (now - startTime s))))] in
  match clusterNode s with
  | None => reply (MkResponse 200 [json_type] (BJson (JObj (base "ok"))))
  | Some n =>
      let cluster := [("cluster_role", JStr (RoleString n)); ("cluster_term", JInt (GetCurrentTerm n))] in
      if negb (String.eqb (RoleString n) "leader") && String.eqb (GetLeaderHTTP n) ""
      then reply (MkResponse 503 [json_type] (BJson (JObj (base "electing" ++ cluster))))
      else reply (MkResponse 200 [json_type] (BJson (JObj (base "ok" ++ cluster))))
  end.

Definition peer_json (p : Peer) : json :=
  JObj [("address", JStr (PeerAddress p)); ("alive", JBool (IsAlive p)); ("last_seen", JInt (LastSeen p))].
Definition handleClusterStatus : Handler := λ _,
  s ← get;
  reply (MkResponse 200 [json_type]
    (BJson (match clusterNode s with
            | None => JObj [("clustering_enabled", JBool false)]
            | Some n =>
                JObj [("clustering_enabled", JBool true); ("role", JStr (RoleString n));
                  ("term", JInt (GetCurrentTerm n)); ("leader_http", JStr (GetLeaderHTTP n));
                  ("peers", JList (peer_json <$> GetPeersSnapshot n))]
            end))).

Definition handleGetWebhooks : Handler := λ r,
  urls ← call (GetWebhooks (query_get r "queue"));
  reply (MkResponse 200 [json_type] (BJson (JList (JStr <$> urls)))).

Definition handleDrain : Handler := λ r,
  if negb (String.eqb (Method r) "POST") then fail "Method not allowed" 405
  else
    modify (set_draining true) ;;
    s ← get;
    reply (MkResponse 200 [json_type]
      (BJson (JObj [("status", JStr "draining"); ("in_flight_requests", JInt (inFlight s))]))).

(** ** The queue interface *)

Definition handleQueuePublish (now : Z) : Handler := λ r,
  match json_publish (limited max_body r) with
  | None => fail "Invalid payload" 400
  | Some req =>
      if String.eqb (pub_Queue req) "" then fail "Invalid payload" 400
      else
        err ← call (Publish now (pub_Queue req) (bytes_of_string (pub_Payload req)) ∅ "normal"
                (deadline now (pub_TTL req)) (deadline now (pub_Delay req)) (pub_Broadcast req));
        match err with
        | Some e => fail e 429
        | None => reply (MkResponse 202 [json_type]
                    (BJson (JObj [("status", JStr "accepted"); ("queue", JStr (pub_Queue req))])))
        end
  end.

Definition handleQueueConsume (now : Z) : Handler := λ r,
  match json_queue (Body r) with
  | None => fail "Invalid payload" 400
  | Some queue =>
      if String.eqb queue "" then fail "Invalid payload" 400
      else
        notifyChan ← call (make_chan 1);
        res ← call (Consume now queue 1 notifyChan);
        match (res : list Message * bool) with
        | (m :: _, true) =>
            call (Ack now queue (ID m)) ;;
            reply (MkResponse 200 [json_type] (BJson (JMessage m)))
        | _ => reply (MkResponse 204 [json_type] BEmpty)
        end
  end.

Definition handleQueuePeek : Handler := λ r,
  let limit := match Atoi (query_get r "limit") with
               | Some parsed => if (0 <? parsed)%Z then parsed else 10%Z
               | None => 10%Z
               end in
  msgs ← call (Peek (query_get r "queue") limit);
  reply (MkResponse 200 [json_type] (BJson (JList (JMessage <$> msgs)))).

Definition handleQueuePurge : Handler := λ r,
  err ← call (Purge (query_get r "queue"));
  match err with
  | Some e => fail e 404
  | None => reply (MkResponse 200 [] BEmpty)
  end.

Definition handleQueueDelete : Handler := λ r,
  err ← call (DeleteTopic (query_get r "queue"));
  match err with
  | Some e => fail e 404
  | None => reply (MkResponse 200 [] BEmpty)
  end.

Definition handleQueueRedrive (now : Z) : Handler := λ r,
  if negb (String.eqb (Method r) "POST") then fail "Method not allowed" 405
  else
    let queue := query_get r "queue" in
    if String.eqb queue "" then fail "Queue parameter required" 400
    else
      res ← call (RedriveDLQ now queue);
      match (res : Z * error).2 with
      | Some e => fail e 404
      | None => reply (MkResponse 200 [json_type]
                  (BJson (JObj [("status", JStr "success"); ("redriven_messages", JInt res.1)])))
      end.

(** ** Streams *)

Definition handleStream : Handler := λ r,
  let topic := extractTopicFromPath r "/stream/" in
  if String.eqb topic "" then fail "Topic required" 400
  else
    sp ← call (AddSpy topic);
    match sp with
    | inl e => fail e 400
    | inr spyChan =>
        mret (Open (JObj [("status", JStr "connected"); ("topic", JStr topic)])
          (MkStream topic spyChan (query_get r "filter_key") (query_get r "filter_val")))
    end.

(** One message of the stream: the event to send, if it passes the filter. *)
Definition stream_event (sm : Stream) : MR (option json) :=
  om ← call (try_recv (sm_chan sm));
  match om with
  | None => mret None
  | Some msg =>
      if negb (String.eqb (sm_filterKey sm) "") &&
         negb (MatchJSONFilter json_fields (Payload msg) (sm_filterKey sm) (sm_filterVal sm))
      then mret None else mret (Some (JMessage msg))
  end.

(** The client closes the stream. *)
Definition stream_close (sm : Stream) : MR Reply :=
  call (RemoveSpy (sm_topic sm) (sm_chan sm)) ;; settle Gone.

(** ** Routes *)

(** [/api/queues] and [/api/groups]: only some methods go to the leader. *)
Definition queuesRoute : Handler := λ r,
  if String.eqb (Method r) "GET" then handleListQueues r
  else if String.eqb (Method r) "POST" then leaderProxy handleCreateTopic r
  else fail "Method not allowed" 405.
Definition groupsRoute : Handler := λ r,
  if String.eqb (Method r) "POST" then leaderProxy handleGroups r else handleGroups r.

Definition routes (now alloc : Z) : list (string * Handler) :=
  let proxied h := leaderProxy (withAuth now h) in
  [ ("/healthz", handleHealthz now);
    ("/publish/", proxied (handlePublish now));
    ("/consume/", proxied (handleConsume now));
    ("/ack/", proxied (handleAck now));
    ("/requeue", proxied (handleRequeue now));
    ("/webhook/", proxied handleRegisterWebhook);
    ("/api/topics", proxied handleCreateTopic);
    ("/stream/", proxied handleStream);
    ("/dashboard", withAuth now (handleDashboard now alloc));
    ("/static/", withAuth now (λ _, mret Static));
    ("/metrics", withAuth now handleMetrics);
    ("/api/stats", withAuth now handleStats);
    ("/api/queues", withAuth now queuesRoute);
    ("/api/queues/publish", proxied (handleQueuePublish now));
    ("/api/queues/consume", proxied (handleQueueConsume now));
    ("/api/queues/peek", proxied handleQueuePeek);
    ("/api/queues/purge", proxied handleQueuePurge);
    ("/api/queues/delete", proxied handleQueueDelete);
    ("/api/queues/redrive", proxied (handleQueueRedrive now));
    ("/api/queues/webhooks", proxied handleGetWebhooks);
    ("/api/cluster/status", withAuth now handleClusterStatus);
    ("/api/drain", withAuth now handleDrain);
    ("/api/groups", withAuth now groupsRoute);
    ("/ws", proxied (λ _, mret Socket)) ].

(** [mux.ServeHTTP] *)
Definition mux (now alloc : Z) : Handler := λ r,
  match mux_route (routes now alloc) r with
  | inl path => mret (Redirect path)
  | inr (Some h) => h r
  | inr None => fail "404 page not found" 404
  end.

(** The server's handler, the whole of one request. *)
Definition ServeHTTP (now alloc : Z) : Handler := trackInFlight (mux now alloc).

(** ** The server at work

    The requests that wait and the open streams are kept beside the server; the events
    interleave them with new requests and with the rest of the program: other users of
    the broker (the MQTT, NATS and WebSocket sessions, the cluster, timers), the limiter's
    ticker and the shutdown. *)

(** [NewServer]; [parse_other]: see [ParseFloat] *)
Definition NewServer (parse_other : string → option float64) (b : World St) (version : string)
    (c : option Node) (now : Z) : Server St :=
  let rate := getRateLimitFromEnv parse_other in
  MkServer b c (if fltb (of_Z 0) rate then Some (newIPRateLimiter rate) else None) 0 false version now.

End rest.

Record Front (St : Type) : Type := MkFront {
  srv : Server St; waits : list Waiting; streams : list Stream
}.
Arguments MkFront {_} _ _ _.
Arguments srv {_} _. Arguments waits {_} _. Arguments streams {_} _.

Inductive event : Type :=
| ERequest (alloc : Z) (r : Request)
| EWake (i : nat) (ev : wake)
| EStream (i : nat)
| EClose (i : nat)
| EBroker (a : action)
| ECleanup
| EDrain.

Section front.
Context `{R : Runtime} {St : Type} `{Storage St} `{W : Web}.

Definition set_srv (x : Server St) (f : Front St) : Front St := MkFront x (waits f) (streams f).
Definition set_waits (x : list Waiting) (f : Front St) : Front St := MkFront (srv f) x (streams f).
Definition set_streams (x : list Stream) (f : Front St) : Front St := MkFront (srv f) (waits f) x.

Definition on_server {A} (op : M (Server St) A) : M (Front St) A := zoom srv set_srv op.

(** Keeping a reply that is not final. *)
Definition park (rp : Reply) : M (Front St) unit :=
  match rp with
  | Wait w => modify (λ f, set_waits (waits f ++ [w]) f)
  | Open _ sm => modify (λ f, set_streams (streams f ++ [sm]) f)
  | _ => mret ()
  end.

Definition do_event (now : Z) (e : event) : M (Front St) unit :=
  match e with
  | ERequest alloc r => on_server (ServeHTTP now alloc r) ≫= park
  | EWake i ev =>
      f ← get;
      match waits f !! i with
      | None => mret ()
      | Some w =>
          modify (λ f, set_waits (delete i (waits f)) f) ;;
          on_server (consume_wake now ev w) ≫= park
      end
  | EStream i =>
      f ← get;
      match streams f !! i with
      | None => mret ()
      | Some sm => on_server (stream_event sm) ;; mret ()
      end
  | EClose i =>
      f ← get;
      match streams f !! i with
      | None => mret ()
      | Some sm =>
          modify (λ f, set_streams (delete i (streams f)) f) ;;
          on_server (stream_close sm) ;; mret ()
      end
  | EBroker a => on_server (call (do_action now a))
  | ECleanup =>
      on_server (modify (λ s, set_rateLimiter (cleanup now <$> rateLimiter s) s))
  | EDrain => on_server MarkDraining
  end.

Definition run_events (l : list (Z * event)) : M (Front St) unit :=
  forM_ (λ '(now, e), do_event now e) l.

End front.
