(* ===== verification/RestProps.v ===== *)
(** * What the REST transport guarantees *)

From Stdlib Require Import Ascii.
From Stdlib Require Import Strings.Byte.
From S2P Require Import Prelude.
From S2P Require Import GoLib.
From S2P Require Import Message.
From S2P Require Import Wal.
From S2P Require Import Storage.
From S2P Require Import Codec.
From S2P Require Import Demo.
From S2P Require Import Broker.
From S2P Require Import BrokerSteps.
From S2P Require Import BrokerSafe.
From S2P Require Import BrokerOps.
From S2P Require Import BrokerSafety.
From S2P Require Import BrokerPublish.
From S2P Require Import BrokerAdmin.
From S2P Require Import Cluster.
From S2P Require Import Helper.
From S2P Require Import Float64.
From S2P Require Import RateLimit.
From S2P Require Import Duration.
From S2P Require Import Http.
From S2P Require Import Rest.

(** Every header of a request carries a value, as [net/http] builds it. *)
Definition header_values (r : Request) : Prop := map_Forall (λ _ vs, vs ≠ []) (Header r).

Section safety.
Context `{R : Runtime} {St : Type} `{Storage St} `{!StorageSafe St} `{W : Web}.
Context (HR : RuntimeLaws R).
Implicit Types s : Server St.

(** The broker is consistent, and [n] requests are in flight. *)
Definition busy (n : Z) s : Prop := wf (broker s) ∧ inFlight s = n.

Lemma busy_call {A} n (op : M (World St) A) (Q : World St → A → World St → Prop) :
  (∀ w, wf w → step op w (Q w)) → stable (busy n) (call op).
Proof.
  intros Hop. apply stable_zoom. intros s [Hs Hn].
  eapply wpx_mono; [by apply Hop| |done]. by intros a w (? & _).
Qed.

Lemma busy_gets {A} n (f : World St → A) : stable (busy n) (call (gets f)).
Proof. by intros s. Qed.

Ltac broker_op :=
  eapply busy_call; intros ? ?;
  first [ by apply step_publishCore | by apply step_Ack | by apply step_Requeue | by apply step_Peek
        | by apply step_CreateGroup | by apply step_CreateTopic | by apply step_Purge
        | by apply step_DeleteTopic | by apply step_RedriveDLQ | by apply step_IsIdempotent
        | by apply step_AddSpy | by apply step_RemoveSpy | by apply step_RemoveWaitingConsumer
        | by apply step_RegisterWebhook | by apply step_GetStats | by apply step_try_recv
        | by apply step_do_action ].
#[local] Hint Extern 1 (stable (busy _) (call _)) => broker_op : tmq.
#[local] Hint Extern 0 (stable (busy _) (modify _)) => by apply stable_modify : tmq.
#[local] Hint Resolve busy_gets : tmq.

(** A consumer registers a channel of its own. *)
Lemma busy_Consume {A} n now topic limit (k : nat → list Message * bool → M (Server St) A) :
  (∀ ch res, stable (busy n) (k ch res)) →
  stable (busy n) (ch ← call (make_chan 1); res ← call (Consume now topic limit ch); k ch res).
Proof.
  intros Hk s [Hs Hn]. apply wpx_bind, wpx_zoom.
  eapply wpx_mono; [apply step_make_chan; [done|lia]| |done]. intros ch w (Hw & _ & Hi).
  apply wpx_bind, wpx_zoom.
  eapply wpx_mono; [by apply step_Consume| |done]. intros res w' (Hw' & _). by apply Hk.
Qed.

Lemma busy_user_headers n r : header_values r → stable (busy n) (user_headers (St:=St) r).
Proof.
  intros Hr. unfold user_headers. cbv zeta. rewrite (proj2 (forallb_forall _ _)); [apply stable_ret|].
  intros [k vs] Hin%list_elem_of_In%elem_of_map_to_list%map_lookup_filter_Some.
  destruct Hin as [Hin _]. specialize (Hr k vs Hin). by destruct vs.
Qed.
#[local] Hint Resolve busy_user_headers : tmq.

Lemma busy_nothing n topic : stable (busy n) (nothing (St:=St) topic).
Proof. unfold nothing, reply, TopicExists. stable_steps. Qed.
#[local] Hint Resolve busy_nothing : tmq.

Lemma busy_finish n now w msgs ok : stable (busy n) (consume_finish (St:=St) now w msgs ok).
Proof.
  unfold consume_finish, reply. cbv zeta.
  destruct (if ok && _ then _ else msgs) as [|m ms]; [auto with tmq|].
  destruct ok; [|auto with tmq]. apply stable_bind; [|intros; apply stable_ret].
  case_match; [|apply stable_ret]. apply stable_forM_. intros x. stable_steps.
Qed.
#[local] Hint Resolve busy_finish : tmq.

Lemma busy_handleConsume n now r : stable (busy n) (handleConsume (St:=St) now r).
Proof.
  unfold handleConsume, fail, reply. cbv zeta. case_match; [auto with tmq|].
  case_match; [auto with tmq|]. case_match; [stable_steps|].
  apply stable_bind; [case_match; auto with tmq|]. intros [e|topic]; [auto with tmq|].
  apply busy_Consume. intros ch [msgs ok]. case_match; auto with tmq.
Qed.

Lemma busy_handlePublish n now r : header_values r → stable (busy n) (handlePublish (St:=St) now r).
Proof. intros Hr. unfold handlePublish, seen_key, fail, reply. cbv zeta. stable_steps. Qed.

Lemma busy_handleQueueConsume n now r : stable (busy n) (handleQueueConsume (St:=St) now r).
Proof.
  unfold handleQueueConsume, fail, reply. case_match; [|auto with tmq]. case_match; [auto with tmq|].
  apply busy_Consume. intros ch [msgs ok]. repeat case_match; stable_steps.
Qed.

(** *** Every route *)

Definition robust (h : Request → M (Server St) Reply) : Prop :=
  ∀ n r, header_values r → stable (busy n) (h r).

#[local] Hint Resolve busy_handleConsume busy_handlePublish busy_handleQueueConsume : tmq.

Lemma robust_leaderProxy h : robust h → robust (leaderProxy h).
Proof. intros Hh n r Hr. unfold leaderProxy, fail, reply. cbv zeta. stable_steps; by apply Hh. Qed.

Lemma robust_withAuth now h : robust h → robust (withAuth now h).
Proof.
  intros Hh n r Hr. unfold withAuth, check_rate, reply. cbv zeta. stable_steps; by apply Hh.
Qed.

Ltac robust_handler := intros n r Hr; unfold fail, reply; cbv zeta; stable_steps.

Lemma robust_plain now alloc :
  robust (handleHealthz now) ∧ robust (handleAck now) ∧ robust (handleRequeue now) ∧
  robust handleRegisterWebhook ∧ robust handleCreateTopic ∧ robust handleStream ∧
  robust (handleDashboard now alloc) ∧ robust handleMetrics ∧ robust handleStats ∧
  robust (handleQueuePublish now) ∧ robust handleQueuePeek ∧ robust handleQueuePurge ∧
  robust handleQueueDelete ∧ robust (handleQueueRedrive now) ∧ robust handleGetWebhooks ∧
  robust handleClusterStatus ∧ robust handleDrain ∧ robust handleGroups ∧ robust handleListQueues.
Proof.
  repeat match goal with |- _ ∧ _ => split end;
    unfold handleHealthz, handleAck, handleRequeue, handleRegisterWebhook, handleCreateTopic,
      handleStream, handleDashboard, handleMetrics, handleStats, handleQueuePublish, handleQueuePeek,
      handleQueuePurge, handleQueueDelete, handleQueueRedrive, handleGetWebhooks, handleClusterStatus,
      handleDrain, handleGroups, handleListQueues, TopicExists, GetWebhooks, GetGroups;
    robust_handler.
Qed.

Lemma robust_queuesRoute : robust handleListQueues → robust handleCreateTopic → robust queuesRoute.
Proof.
  intros Hl Hc n r Hr. unfold queuesRoute, fail, reply. repeat case_match; [by apply Hl| |apply stable_ret].
  by apply robust_leaderProxy.
Qed.

Lemma robust_groupsRoute : robust handleGroups → robust groupsRoute.
Proof.
  intros Hg n r Hr. unfold groupsRoute. case_match; [by apply robust_leaderProxy|by apply Hg].
Qed.

Lemma robust_routes now alloc : Forall (λ ph, robust ph.2) (routes now alloc).
Proof.
  destruct (robust_plain now alloc) as (? & ? & ? & ? & ? & ? & ? & ? & ? & ? & ? & ? & ? & ? & ? & ? & ? & ? & ?).
  unfold routes. cbv zeta.
  repeat (apply Forall_cons_2; [cbn [snd]|]); [..|apply Forall_nil_2];
    repeat first [assumption | apply robust_leaderProxy | apply robust_withAuth
      | by apply robust_queuesRoute | by apply robust_groupsRoute];
    intros n r Hr; auto with tmq.
Qed.

Lemma longest_match_in {A} (routes : list (string * A)) path ph :
  longest_match routes path = Some ph → ph ∈ routes.
Proof.
  induction routes as [|[p h] l IH]; [done|]. simpl. intros E. apply elem_of_cons.
  repeat case_match; simplify_eq; auto.
Qed.

Lemma robust_mux now alloc : robust (mux now alloc).
Proof.
  intros n r Hr. unfold mux, mux_route, fail, reply. cbv zeta.
  destruct (negb _ && _); [apply stable_ret|].
  destruct (longest_match (routes now alloc) (Path r)) as [[p h]|] eqn:E.
  - apply longest_match_in in E. pose proof (robust_routes now alloc) as Hall.
    rewrite Forall_forall in Hall. by apply (Hall _ E).
  - case_bool_decide; apply stable_ret.
Qed.

(** The requests in flight after a reply. *)
Definition after (n : Z) (rp : Reply) : Z := if finished rp then n else (n + 1)%Z.

Lemma settle_sound n rp s :
  busy (n + 1) s → wps (settle rp) (λ rp' s', rp' = rp ∧ busy (after n rp') s') s.
Proof.
  intros [Hs Hn]. unfold settle, after. apply wpx_bind. destruct (finished rp) eqn:E.
  - apply wpx_modify, wpx_ret. rewrite E. split; [done|]. split; [done|simpl; lia].
  - apply wpx_ret, wpx_ret. rewrite E. done.
Qed.

Lemma ServeHTTP_sound now alloc r n s :
  header_values r → busy n s → wps (ServeHTTP now alloc r) (λ rp s', busy (after n rp) s') s.
Proof.
  intros Hr Hs. unfold ServeHTTP, trackInFlight. apply wpx_bind, wpx_get.
  case_match; [by apply wpx_ret|]. apply wpx_bind, wpx_modify, wpx_bind.
  eapply wpx_mono; [apply (robust_mux now alloc (n + 1)%Z); [done|]| |done].
  - destruct Hs as [? <-]. done.
  - intros rp s' Hs'. eapply wpx_mono; [by apply (settle_sound n)| |done]. by intros rp' s'' [_ ?].
Qed.

Lemma consume_wake_sound now ev w n s :
  busy (n + 1) s → wps (consume_wake now ev w) (λ rp s', busy (after n rp) s') s.
Proof.
  intros Hs. unfold consume_wake. apply wpx_bind.
  eapply wpx_mono with (Q := λ _ s', busy (n + 1) s') (E := λ _, True); [|..|done].
  - revert s Hs. change (stable (busy (n + 1)) (consume_select (St:=St) now ev w)).
    unfold consume_select. destruct ev; stable_steps.
  - intros rp s' Hs'. eapply wpx_mono; [by apply (settle_sound n)| |done]. by intros rp' s'' [_ ?].
Qed.

(** *** The front *)

Implicit Types f : Front St.

(** Exactly the waiting and the streaming requests are in flight. *)
Definition counted f : Prop := busy (Z.of_nat (length (waits f) + length (streams f))) (srv f).

Lemma park_sound rp f :
  busy (after (Z.of_nat (length (waits f) + length (streams f))) rp) (srv f) →
  wps (park rp) (λ _ f', counted f') f.
Proof.
  intros Hf. unfold park, counted. destruct rp; try done; apply wpx_modify; simpl;
    rewrite length_app; unfold after in Hf; simpl in *;
    (replace (Z.of_nat _) with (Z.of_nat (length (waits f) + length (streams f)) + 1)%Z by lia; done).
Qed.

Lemma counted_server {A} (op : M (Server St) A) :
  (∀ n, stable (busy n) op) → stable counted (on_server op).
Proof. intros Hop. apply stable_zoom. intros f Hf. exact (Hop _ _ Hf). Qed.

Lemma stream_close_sound sm n s : busy (n + 1) s → wps (stream_close sm) (λ _ s', busy n s') s.
Proof.
  intros Hs. unfold stream_close. apply wpx_bind.
  eapply wpx_mono with (Q := λ _ s', busy (n + 1) s') (E := λ _, True); [|..|done].
  - assert (stable (busy (n + 1)) (call (RemoveSpy (sm_topic sm) (sm_chan sm)))) as Hop by broker_op.
    by apply Hop.
  - intros [] s' Hs'. eapply wpx_mono; [by apply (settle_sound n)| |done]. by intros rp s'' [-> ?].
Qed.

Definition fine (e : event) : Prop :=
  match e with ERequest _ r => header_values r | _ => True end.

Lemma counted_do_event now e : fine e → stable counted (do_event now e).
Proof.
  intros He f Hf. destruct e as [alloc r|i ev|i|i|a| |]; cbn [do_event].
  - apply wpx_bind, wpx_zoom. eapply wpx_mono; [by apply ServeHTTP_sound| |done].
    intros rp s Hs. by apply park_sound.
  - apply wpx_bind, wpx_get. destruct (waits f !! i) as [w|] eqn:E; [|done].
    apply wpx_bind, wpx_modify, wpx_bind, wpx_zoom.
    eapply wpx_mono; [apply consume_wake_sound with
      (n := Z.of_nat (length (delete i (waits f)) + length (streams f)))| |done].
    + destruct Hf as [Hw Hn]. split; [done|]. simpl. rewrite Hn, length_delete by (by eexists).
      apply lookup_lt_Some in E. lia.
    + intros rp s Hs. by apply park_sound.
  - apply wpx_bind, wpx_get. destruct (streams f !! i) as [sm|]; [|done].
    revert f Hf. change (stable counted (on_server (stream_event (St:=St) sm) ;; mret ())).
    apply stable_bind; [|intros; apply stable_ret]. apply counted_server. intros n.
    unfold stream_event. stable_steps.
  - apply wpx_bind, wpx_get. destruct (streams f !! i) as [sm|] eqn:E; [|done].
    apply wpx_bind, wpx_modify, wpx_bind, wpx_zoom.
    eapply wpx_mono; [apply stream_close_sound with
      (n := Z.of_nat (length (waits f) + length (delete i (streams f))))| |done].
    + destruct Hf as [Hw Hn]. split; [done|]. simpl. rewrite Hn, length_delete by (by eexists).
      apply lookup_lt_Some in E. lia.
    + intros rp s Hs. by apply wpx_ret.
  - apply counted_server; [|done]. intros n. auto with tmq.
  - apply counted_server; [|done]. intros n. auto with tmq.
  - apply counted_server; [|done]. intros n. unfold MarkDraining. auto with tmq.
Qed.

(** [C5] The HTTP front as a whole: from a new server on a consistent broker, no sequence
    of requests (any method, path, query, headers and body), wake-ups and cancellations of
    waiting consumers, stream events, work of the other transports, timers and limiter
    ticks, in any interleaving, makes a handler panic or block; the broker stays
    consistent, and [inFlight], which the drain waits for, is always exactly the number
    of requests that wait or stream. *)
Theorem rest_run_safe parse_other b version node now l
    (Hb : wf b) (Hl : Forall (λ te, fine te.2) l) :
  wpx (run_events l)
    (λ _ f, wf (broker (srv f)) ∧
      inFlight (srv f) = Z.of_nat (length (waits f) + length (streams f)))
    (λ _, True) (MkFront (NewServer parse_other b version node now) [] []).
Proof.
  set (f := MkFront _ _ _). assert (counted f) as Hf by done. clearbody f.
  revert f Hf. induction Hl as [|[t e] l He Hl IH]; intros f Hf; [done|].
  apply wpx_bind. eapply wpx_mono; [by apply counted_do_event| |done]. intros [] f' Hf'. by apply IH.
Qed.

End safety.

(** A web layer for the examples: a queue name, a group or a message is not JSON here. *)
#[global] Instance demo_web : Web := {|
  sha256 b := b;
  json_message _ := None;
  json_webhook b := Some (string_of_bytes b, "");
  json_topic b := Some (MkTopicReq (string_of_bytes b) "" "");
  json_publish _ := None;
  json_queue b := Some (string_of_bytes b);
  json_group _ := None;
  json_fields _ := None;
  ParseRequestURI s := Some ("http", s);
  LookupIP s := if String.eqb s "internal" then Some [[x0a; x00; x00; x01]]
                else if String.eqb s "zero" then Some [[x00; x00; x00; x00]] else Some [[x08; x08; x08; x08]]
|}.

Definition demo_get (path query : string) : Request := MkRequest "GET" path query ∅ "10.0.0.9:5" [] false.
Definition demo_post (path query body : string) : Request :=
  MkRequest "POST" path query ∅ "10.0.0.9:5" (bytes_of_string body) false.

Lemma rest_run_safe_witness :
  let l := [(5%Z, ERequest 0 (demo_get "/consume/t" "timeout=5s")); (6%Z, EWake 0 WTimeout);
            (7%Z, ERequest 0 (demo_post "/publish/t" "" "hello"))] in
  wpx (run_events l)
    (λ _ f, wf (broker (srv f)) ∧
      inFlight (srv f) = Z.of_nat (length (waits f) + length (streams f)))
    (λ _, True) (MkFront (NewServer (λ _, None) demo_empty "v" None 0) [] []).
Proof.
  apply (rest_run_safe demo_runtime_laws); [apply demo_empty_wf|].
  repeat constructor; simpl; apply map_Forall_empty.
Defined.

(** ** Authentication *)

Section authentication.
Context `{R : Runtime} {St : Type} `{Storage St} `{W : Web}.
Implicit Types s : Server St.

Definition rest_key : string := getenv "TINYMQ_API_KEY".

(** The answers that do nothing. *)
Definition turned_away (r : Request) (rp : Reply) : Prop :=
  match rp with
  | Done resp => status resp ∈ [401; 404; 429; 503]%Z ∨ Path r = "/healthz"
  | Proxy _ | Redirect _ => True
  | _ => False
  end.

(** The server apart from the limiter's accounts. *)
Definition same_server s s' : Prop :=
  broker s' = broker s ∧ clusterNode s' = clusterNode s ∧ draining s' = draining s ∧
  inFlight s' = inFlight s.

(** The handler turns the request [r] away. *)
Definition closed_to (r : Request) (h : Request → M (Server St) Reply) : Prop :=
  ∀ s, ∃ rp s', h r s = (Ret rp, s') ∧ turned_away r rp ∧ same_server s s'.

Ltac listed := left; cbn [status http_Error rate_limited unauthorized];
  repeat first [apply list_elem_of_here | apply list_elem_of_further].

Lemma check_rate_returns now r s :
  ∃ ok s', check_rate now r s = (Ret ok, s') ∧ same_server s s'.
Proof.
  unfold check_rate. rewrite (run_bind get _ s s s) by done.
  destruct (rateLimiter s) as [rl|]; [|by eexists _, _].
  destruct (Allow _ _ rl) as [ok rl']. by eexists _, _.
Qed.

Lemma closed_withAuth now h r :
  rest_key ≠ "" → has_key rest_key r = false → closed_to r (withAuth now h).
Proof.
  intros Hk%String.eqb_neq Hr s. unfold rest_key in *. unfold withAuth.
  destruct (check_rate_returns now r s) as (ok & s' & Hrun & Hs).
  rewrite (run_bind _ _ _ _ _ Hrun). destruct ok; cbn [negb]; cbv zeta; rewrite ?Hk, ?Hr;
    (eexists _, _; split_and!; [done| |done]); listed.
Qed.

Lemma closed_leaderProxy h r : closed_to r h → closed_to r (leaderProxy h).
Proof.
  intros Hh s. unfold leaderProxy. rewrite (run_bind get _ s s s) by done.
  destruct (clusterNode s) as [n|]; [|apply Hh]. destruct (IsLeader n); [apply Hh|].
  cbv zeta. case_match; (eexists _, _; split_and!; [done| |done]); [done|]. listed.
Qed.

Lemma longest_match_matches {A} (routes : list (string * A)) path p h :
  longest_match routes path = Some (p, h) → pattern_matches p path = true.
Proof.
  induction routes as [|[p' h'] l IH]; [done|]. simpl.
  destruct (pattern_matches p' path) eqn:E; [|done].
  destruct (longest_match l path) as [[q hq]|]; [|by intros [= <- <-]].
  case_match; [done|by intros [= <- <-]].
Qed.

Lemma closed_routes now alloc r :
  rest_key ≠ "" → has_key rest_key r = false →
  Forall (λ ph, pattern_matches ph.1 (Path r) = true → closed_to r ph.2) (routes (St:=St) now alloc).
Proof.
  intros Hk Hr. unfold routes. cbv zeta.
  apply Forall_cons_2.
  { intros Hp%String.eqb_eq s. simpl in Hp. cbn [snd]. unfold handleHealthz.
    rewrite (run_bind get _ s s s) by done. cbv zeta.
    repeat case_match; (eexists _, _; split_and!; [done|by right|done]). }
  repeat (apply Forall_cons_2; [intros _; cbn [snd]|]); [..|apply Forall_nil_2];
    try apply closed_leaderProxy; by apply closed_withAuth.
Qed.

(** [C6] With an API key configured, a request that carries it neither as bearer token,
    nor as password of basic authentication, nor as query parameter gets nowhere on any
    route: it is refused, redirected, or passed unread to the leader, and the broker, the
    drain flag and the count of requests in flight are as before (only the limiter has
    counted it); the health check alone answers. *)
Theorem rest_requires_key now alloc r s
    (Hkey : rest_key ≠ "") (Hr : has_key rest_key r = false) :
  ∃ rp s', ServeHTTP now alloc r s = (Ret rp, s') ∧ turned_away r rp ∧ same_server s s'.
Proof.
  unfold ServeHTTP, trackInFlight. rewrite (run_bind get _ s s s) by done.
  destruct (draining s) eqn:Ed; [eexists _, _; split_and!; [done|listed|done]|].
  rewrite (run_bind (modify _) _ s () (set_inFlight (inFlight s + 1) s)) by done.
  assert (closed_to r (mux now alloc)) as Hmux.
  { intros s1. unfold mux, mux_route. cbv zeta.
    destruct (negb _ && _); [by eexists _, _|].
    destruct (longest_match (routes now alloc) (Path r)) as [[p h]|] eqn:E.
    - pose proof (longest_match_matches _ _ _ _ E) as Hp. apply longest_match_in in E.
      pose proof (closed_routes now alloc r Hkey Hr) as Hall. rewrite Forall_forall in Hall.
      by apply (Hall _ E).
    - case_bool_decide; (eexists _, _; split_and!; [done| |done]); [done|listed]. }
  destruct (Hmux (set_inFlight (inFlight s + 1) s)) as (rp & s' & Hrun & Hrp & Hs & Hc & Hd & Hi).
  rewrite (run_bind _ _ _ _ _ Hrun). exists rp, (set_inFlight (inFlight s' - 1) s').
  assert (finished rp = true) as Hf by (by destruct rp).
  unfold settle. rewrite Hf. split_and!; [done|done|]. unfold same_server.
  simpl in *. rewrite Hi. split_and!; [done..|lia].
Qed.

End authentication.

Lemma rest_requires_key_witness :
  let R := env_runtime (λ name, if String.eqb name "TINYMQ_API_KEY" then "secret" else "") in
  let s := NewServer (R:=R) (λ _, None) demo_empty "v" None 0 in
  ∃ rp s', ServeHTTP (R:=R) 5 0 (demo_post "/publish/t" "token=guess" "hello") s = (Ret rp, s') ∧
    turned_away (demo_post "/publish/t" "token=guess" "hello") rp ∧ same_server s s'.
Proof.
  apply (rest_requires_key (R:=env_runtime _)); [vm_compute; discriminate|vm_compute; reflexivity].
Defined.

(** ** Idempotent publication *)

Section checked.
Context `{R : Runtime} {St : Type} `{Storage St} `{W : Web}.
Implicit Types s : Server St.

(** A publication [handlePublish] accepts for processing, with its topic, body and key. *)
Definition publishes (r : Request) (topic : string) (body : bytes) (key : string) : Prop :=
  Method r = "POST" ∧ extractTopicFromPath r "/publish/" = topic ∧ topic ≠ "" ∧
  ReadAll max_body r = Some body ∧ body ≠ [] ∧ idempotency_key r body = key.

(** [handlePublish] after the checks. *)
Lemma handlePublish_checked now r topic body key s :
  publishes r topic body key →
  handlePublish now r s =
  (seen ← seen_key now key;
   if (seen : bool) then reply (ignored topic)
   else
     userHeaders ← user_headers r;
     err ← call (Publish now topic body userHeaders
             (if String.eqb (query_get r "priority") "" then "normal" else query_get r "priority")
             (deadline now (query_get r "ttl")) (deadline now (query_get r "delay"))
             (String.eqb (query_get r "broadcast") "true"));
     match err with
     | Some e => fail e (publish_status e)
     | None => reply (MkResponse 202 []
                 (BJson (JObj [("status", JStr "accepted"); ("topic", JStr topic)])))
     end) s.
Proof.
  intros (Hm & Ht & Hne%String.eqb_neq & Hb & Hbody & <-). unfold handlePublish. rewrite Hm, Ht, Hne, Hb.
  cbn [negb String.eqb Ascii.eqb Bool.eqb]. by destruct body.
Qed.

End checked.

(** ** Webhooks *)

Section webhooks.
Context `{R : Runtime} {St : Type} `{Storage St} `{W : Web}.
Implicit Types s : Server St.

(** An address the validation lets through. *)
Definition reachable_ip (ip : bytes) : Prop :=
  IsLoopback ip = false ∧ IsPrivate ip = false ∧ IsLinkLocalUnicast ip = false.

(** A URL the validation lets through. *)
Definition public_url (url : string) : Prop :=
  ∃ scheme host ips, ParseRequestURI url = Some (scheme, host) ∧ (scheme = "http" ∨ scheme = "https") ∧
    LookupIP host = Some ips ∧ Forall reachable_ip ips.

Lemma validateWebhookURL_ok url : validateWebhookURL url = None → public_url url.
Proof.
  unfold validateWebhookURL. destruct (ParseRequestURI url) as [[scheme host]|] eqn:Ep; [|done].
  destruct (String.eqb scheme "http" || String.eqb scheme "https") eqn:Es; [|done].
  destruct (LookupIP host) as [ips|] eqn:El; [|done].
  destruct (existsb _ ips) eqn:Ef; [done|]. intros _. exists scheme, host, ips. split_and!; [done| |done|].
  - by apply orb_true_iff in Es as [?%String.eqb_eq|?%String.eqb_eq]; [left|right].
  - apply Forall_forall. intros ip Hip. rewrite existsb_false_elem in Ef. specialize (Ef ip Hip).
    apply orb_false_iff in Ef as [[? ?]%orb_false_iff ?]. done.
Qed.

(** Whatever a request to [/webhook/] asks for, the broker's webhooks change only by one
    new target for the topic of the path, whose URL the validation accepted. *)
Lemma register_validates r s rp s'
    (Hrun : handleRegisterWebhook r s = (Ret rp, s')) :
  webhooks (broker s') = webhooks (broker s) ∨
  ∃ url secret, json_webhook (Body r) = Some (url, secret) ∧ public_url url ∧
    let topic := extractTopicFromPath r "/webhook/" in
    webhooks (broker s') = <[topic := default [] (webhooks (broker s) !! topic) ++
      [MkWebhook url secret]]> (webhooks (broker s)).
Proof.
  revert Hrun. unfold handleRegisterWebhook. cbv zeta.
  case_match; [intros [= <- <-]; by left|]. destruct (json_webhook (Body r)) as [[url secret]|];
    [|intros [= <- <-]; by left].
  case_match; [intros [= <- <-]; by left|].
  destruct (validateWebhookURL url) eqn:Ev; [intros [= <- <-]; by left|].
  unfold RegisterWebhook, call, zoom, mbind, M_bind, get, modify. cbv zeta.
  destruct (existsb _ _); [intros [= <- <-]; by left|]. intros [= <- <-]. right.
  exists url, secret. split_and!; [done|by apply validateWebhookURL_ok|done].
Qed.

End webhooks.

Definition demo_hook : Server DiskStorage := NewServer (λ _, None) demo_empty "v" None 0.

(** The unspecified address, which the kernel connects to the local host, passes. *)
Theorem unspecified_address_accepted : reachable_ip [x00; x00; x00; x00].
Proof. done. Qed.

(** ** Waiting consumers *)

Section waiting.
Context `{R : Runtime} {St : Type} `{Storage St} `{!StorageSafe St} `{W : Web}.
Implicit Types s : Server St.

Lemma remove_first_nodup (ch : nat) l :
  NoDup l → remove_first (λ y, bool_decide (y = ch)) l = filter (.≠ ch) l.
Proof.
  induction l as [|y l IH]; [done|]. intros [Hy Hl]%NoDup_cons. simpl. rewrite filter_cons.
  case_bool_decide as E.
  - subst. rewrite decide_False by tauto. symmetry. apply filter_all. intros z Hz ->. done.
  - rewrite decide_True by done. by rewrite IH.
Qed.

(** A topic without the waiting consumer [ch]. *)
Definition without_consumer (ch : nat) (x : Topic) : Topic :=
  set_waitingConsumers (filter (.≠ ch) (waitingConsumers x)) x.

(** The broker after a consumer has left: the one channel is off its topic's list, every
    other topic and the rest of this one are as before. *)
Definition consumer_left (name : string) (ch : nat) (w w' : World St) : Prop :=
  dom (Topics w') = dom (Topics w) ∧
  topic_at w' name = without_consumer ch <$> topic_at w name ∧
  ∀ n, n ≠ name → topic_at w' n = topic_at w n.

Lemma RemoveWaiting_left name ch w :
  wf w → wps (RemoveWaitingConsumer name ch) (λ _ w', consumer_left name ch w w') w.
Proof.
  intros Hwf. unfold RemoveWaitingConsumer. apply wpx_bind, wpx_get.
  destruct (Topics w !! name) as [t|] eqn:Et.
  - destruct (wf_topics _ Hwf _ _ Et) as (x & Hx & _).
    destruct (wf_heap _ Hwf _ _ Hx) as [_ Hm].
    eapply wpx_section; [done|done|done|done|].
    destruct (topic_at_upd t (without_consumer ch x) w name Hwf Et) as [Ha Hb].
    pose proof (wf_nodup _ Hwf _ _ Hx) as Hnd. apply NoDup_app in Hnd as (_ & _ & Hnd).
    rewrite remove_first_nodup by done. fold (without_consumer ch x).
    split_and!; [done| |done]. rewrite Ha. unfold topic_at. rewrite Et. simpl. by rewrite Hx.
  - apply wpx_ret. split_and!; [done| |done]. unfold topic_at. by rewrite Et.
Qed.

(** [C26] A consumer that stops waiting is forgotten: when its timeout fires the handler
    answers 204, or 404 if the topic has been deleted in the meantime, and when its client
    has gone away the handler returns without an answer; in both cases the handler's
    channel is no longer among the topic's waiting consumers, so that no later publication
    is handed to it, and nothing else of any topic changes; the request is no longer
    counted as in flight. *)
Theorem abandoned_consumer_forgotten now ev w s
    (Hwf : wf (broker s)) (Hev : ev ≠ WMessage) :
  wpx (consume_wake now ev w) (λ rp (s' : Server St),
    rp = match ev with
         | WCancelled => Gone
         | _ => Done (if bool_decide (is_Some (Topics (broker s) !! wt_topic w))
                      then no_content else not_found)
         end ∧
    consumer_left (wt_topic w) (wt_chan w) (broker s) (broker s') ∧
    inFlight s' = (inFlight s - 1)%Z) (λ _, True) s.
Proof.
  unfold consume_wake, consume_select. apply wpx_bind.
  destruct ev; [done|..]; apply wpx_bind, wpx_zoom;
    (eapply wpx_mono; [by apply RemoveWaiting_left| |done]); intros [] w' Hleft.
  - unfold consume_finish. rewrite andb_false_l. cbv zeta. unfold nothing.
    apply wpx_bind, wpx_zoom, wpx_gets. unfold settle. split; [|by split].
    simpl. f_equal. destruct Hleft as [Hdom _].
    rewrite (bool_decide_ext (is_Some (Topics w' !! wt_topic w)) (is_Some (Topics (broker s) !! wt_topic w)));
      [done|]. by rewrite <-!elem_of_dom, Hdom.
  - apply wpx_ret. unfold settle. split; [done|by split].
Qed.

End waiting.

(** Somebody waits on [t] over a second channel; the first consumer gives up. *)
Definition demo_two_waiting : World DiskStorage :=
  run_state (ch ← make_chan 1; Consume 0 "t" 1 ch) demo_waiting.

Lemma demo_two_waiting_wf : wf demo_two_waiting.
Proof.
  eapply (run_state_wf (ch ← make_chan 1; Consume 0 "t" 1 ch) demo_waiting (λ _ _, True)).
  - eapply step_bind; [apply step_make_chan; [apply demo_waiting_wf|lia]|].
    intros ch w' Hwf _ Hi. by apply (step_Consume _ _ _ _ _ demo_runtime_laws).
  - vm_compute. reflexivity.
Qed.

Lemma abandoned_consumer_forgotten_witness :
  let w := MkWaiting "t" 0 1 "" "" false in
  let s := NewServer (λ _, None) demo_two_waiting "v" None 0 in
  waitingConsumers <$> topic_at (broker s) "t" = Some [0; 2] ∧
  wpx (consume_wake 9 WTimeout w) (λ rp (s' : Server DiskStorage),
    rp = Done (if bool_decide (is_Some (Topics (broker s) !! "t")) then no_content else not_found) ∧
    consumer_left "t" 0 (broker s) (broker s') ∧
    inFlight s' = (inFlight s - 1)%Z) (λ _, True) s.
Proof.
  split; [vm_compute; reflexivity|].
  apply (abandoned_consumer_forgotten 9 WTimeout (MkWaiting "t" 0 1 "" "" false));
    [apply demo_two_waiting_wf|discriminate].
Defined.

(** *** What a waiting or filtering consumer can lose *)

(** A message that was handed to the channel just before the timeout is gone: the reply
    is 204, and the queue does not have it. *)
Theorem timeout_race_loses :
  let f0 := MkFront demo_hook [] [] in
  let f := (run_events [(5%Z, ERequest 0 (demo_get "/consume/t" "timeout=5s"));
    (6%Z, ERequest 0 (demo_post "/publish/t" "" "hello")); (7%Z, EWake 0 WTimeout)] f0).2 in
  waits f = [] ∧
  (t ← Topics (broker (srv f)) !! "t"; x ← heap (broker (srv f)) !! t; Some (totalActiveMessages x))
    = Some 0%Z.
Proof. vm_compute. auto. Qed.

(** A message that does not pass the filter is taken off the queue all the same. *)
Theorem filter_discards :
  let s := NewServer (λ _, None) demo_one "v" None 0 in
  let '(o, s') := handleConsume 9 (demo_get "/consume/t" "filter_key=color&filter_val=red") s in
  o = Ret (Done no_content) ∧
  (t ← Topics (broker s') !! "t"; x ← heap (broker s') !! t; Some (totalActiveMessages x)) = Some 0%Z.
Proof. vm_compute. auto. Qed.

(** A topic with a slash cannot be acknowledged: its first segment is taken for the
    topic. *)
Theorem ack_splits_topic id :
  strings.SplitN (strings.TrimPrefix (Path (demo_post ("/ack/a/b/" +:+ id) "" "")) "/ack/") "/" 2 =
    ["a"; "b/" +:+ id].
Proof. by destruct id. Qed.
