(* ===== verification/RestTables.v ===== *)
(** * The tables of the broker behind the REST transport

    The idempotency keys and the webhooks against everything the server does: no broker
    operation, no handler and no event takes a key out of the table before it expires, or
    puts a webhook into the other that was not validated.  The first section goes through
    all operations once, for any property of the two tables. *)

From Stdlib Require Import Ascii.
From Stdlib Require Import Strings.Byte.
From S2P Require Import Prelude.
From S2P Require Import GoLib.
From S2P Require Import Message.
From S2P Require Import Wal.
From S2P Require Import Storage.
From S2P Require Import Codec.
From S2P Require Import Demo.
From S2P Require Import Broker.
From S2P Require Import BrokerSteps.
From S2P Require Import BrokerSafe.
From S2P Require Import BrokerSafety.
From S2P Require Import BrokerPublish.
From S2P Require Import BrokerAdmin.
From S2P Require Import Cluster.
From S2P Require Import RateLimit.
From S2P Require Import Http.
From S2P Require Import Rest.
From S2P Require Import RestProps.

(** ** The broker's operations *)

Section tables.
Context `{R : Runtime} {St : Type} `{Storage St} `{W : Web}.

(** A property of the two tables, the times at which the keys are looked at and the URLs
    that are registered, such that the three operations that change a table keep it. *)
Variable keyed : World St → Prop.
Variable in_time : Z → Prop.
Variable hook_ok : string → Prop.
Hypothesis keyed_ext : ∀ w w', idempotencyKeys w' = idempotencyKeys w → webhooks w' = webhooks w →
  keyed w → keyed w'.
Hypothesis keyed_IsIdempotent : ∀ now k, in_time now → keeps keyed (IsIdempotent now k).
Hypothesis keyed_RegisterWebhook : ∀ name url secret, hook_ok url →
  keeps keyed (RegisterWebhook name url secret).
Hypothesis keyed_delete_hooks : ∀ name,
  keeps keyed (modify (λ w, set_webhooks (delete name (webhooks w)) w)).
Hypothesis validated : ∀ url, validateWebhookURL url = None → hook_ok url.

Lemma keyed_storage {A} (absent : A) (c : M St A) : keeps keyed (with_storage absent c).
Proof. intros w Hw. unfold with_storage. repeat case_match; by apply (keyed_ext w). Qed.

#[local] Hint Resolve keyed_storage : tmq.
#[local] Hint Resolve keyed_delete_hooks : tmq.
#[local] Hint Extern 1 (keeps keyed (modify _)) =>
  apply keeps_modify; intros w Hw; by apply (keyed_ext w) : tmq.

Ltac keyed_steps :=
  repeat first [progress auto with tmq | apply keeps_bind; [|intros ?] | case_match].

Lemma keyed_Lock t : keeps keyed (Lock (St:=St) t).
Proof. unfold Lock, load_topic, store_topic. keyed_steps. Qed.
Lemma keyed_Unlock t : keeps keyed (Unlock (St:=St) t).
Proof. unfold Unlock, load_topic, store_topic. keyed_steps. Qed.
Lemma keyed_load t : keeps keyed (load_topic (St:=St) t).
Proof. unfold load_topic. keyed_steps. Qed.
Lemma keyed_store t x : keeps keyed (store_topic (St:=St) t x).
Proof. unfold store_topic. keyed_steps. Qed.
Lemma keyed_send ch m : keeps keyed (try_send (St:=St) ch m).
Proof. unfold try_send. keyed_steps. Qed.
#[local] Hint Resolve keyed_Lock keyed_Unlock keyed_load keyed_store keyed_send : tmq.

Lemma keyed_update t f : keeps keyed (update_topic (St:=St) t f).
Proof. unfold update_topic. keyed_steps. Qed.
#[local] Hint Resolve keyed_update : tmq.

Lemma keyed_push_spies t m : keeps keyed (push_spies (St:=St) t m).
Proof.
  unfold push_spies. keyed_steps.
Qed.
Lemma keyed_remove t id : keeps keyed (remove_message (St:=St) t id).
Proof. unfold remove_message. keyed_steps. Qed.
Lemma keyed_take t : keeps keyed (take_consumers (St:=St) t).
Proof. unfold take_consumers. keyed_steps. Qed.
#[local] Hint Resolve keyed_push_spies keyed_remove keyed_take : tmq.

Lemma keyed_take_all ts : keeps keyed (take_all_consumers (St:=St) ts).
Proof. induction ts; simpl; keyed_steps. Qed.
Lemma keyed_push_wildcards t m ws : keeps keyed (push_wildcards (St:=St) t m ws).
Proof. induction ws; simpl; keyed_steps. Qed.
Lemma keyed_push_webhooks name payload : keeps keyed (push_webhooks (St:=St) name payload).
Proof.
  unfold push_webhooks. apply keeps_bind; [apply keeps_get|]. intros w. apply keeps_forM_. intros wh.
  apply keeps_modify. intros w' Hw'. case_match; [by apply (keyed_ext w')|done].
Qed.
#[local] Hint Resolve keyed_take_all keyed_push_wildcards keyed_push_webhooks : tmq.

Lemma keyed_pushFunc job : keeps keyed (pushFunc (St:=St) job).
Proof.
  destruct job as [name t ws m bc]. unfold pushFunc, push_consumer. keyed_steps.
Qed.

Lemma keyed_publish_locked t name m p bc now : keeps keyed (publish_locked (St:=St) t name m p bc now).
Proof. unfold publish_locked, store_limited. keyed_steps. Qed.

Lemma keyed_getOrCreate name : keeps keyed (getOrCreateTopic (St:=St) name).
Proof. unfold getOrCreateTopic, install_topic, new_topic, compileWildcardRegex. keyed_steps. Qed.
#[local] Hint Resolve keyed_pushFunc keyed_publish_locked keyed_getOrCreate : tmq.

Lemma keyed_publish_one now name payload hs p e d bc repl :
  keeps keyed (publish_one (St:=St) now name payload hs p e d bc repl).
Proof. unfold publish_one, matchingWildcards, fresh_uuid. cbv zeta. keyed_steps. Qed.
#[local] Hint Resolve keyed_publish_one : tmq.

Lemma keyed_publishCore left : ∀ now name payload hs p e d bc repl,
  keeps keyed (publishCore (St:=St) left now name payload hs p e d bc repl).
Proof.
  induction left as [|left IH]; intros; cbn [publishCore]; [auto with tmq|].
  repeat case_match; auto with tmq; apply keeps_bind; try (intros; auto with tmq).
Qed.

#[local] Hint Resolve keyed_publishCore : tmq.

Lemma keyed_make_chan n : keeps keyed (make_chan (St:=St) n).
Proof. unfold make_chan. keyed_steps. Qed.
Lemma keyed_try_recv ch : keeps keyed (try_recv (St:=St) ch).
Proof. unfold try_recv. keyed_steps. Qed.
Lemma keyed_close ch : keeps keyed (close_chan (St:=St) ch).
Proof. unfold close_chan. keyed_steps. Qed.
Lemma keyed_ackExpired now name ids : keeps keyed (ackExpired (St:=St) now name ids).
Proof. unfold ackExpired. apply keeps_forM_. intros. keyed_steps. Qed.
#[local] Hint Resolve keyed_make_chan keyed_try_recv keyed_close keyed_ackExpired : tmq.

Lemma keyed_consume_matching now limit ts : keeps keyed (consume_matching (St:=St) now limit ts).
Proof. induction ts; simpl; [auto with tmq|]. unfold extract_locked. keyed_steps. Qed.
Lemma keyed_purge_topic now t : keeps keyed (purge_topic (St:=St) now t).
Proof. unfold purge_topic, purge. keyed_steps. Qed.
Lemma keyed_redrive now dlq dst ms : keeps keyed (redrive (St:=St) now dlq dst ms).
Proof. induction ms; cbn [redrive]; keyed_steps. Qed.
Lemma keyed_topic_stats hooks ts : keeps keyed (topic_stats (St:=St) hooks ts).
Proof. induction ts as [|[]]; simpl; keyed_steps. Qed.
Lemma keyed_snapshot ts : keeps keyed (snapshot (St:=St) ts).
Proof. induction ts; simpl; keyed_steps. Qed.
#[local] Hint Resolve keyed_consume_matching keyed_purge_topic keyed_redrive keyed_topic_stats
  keyed_snapshot : tmq.

Lemma keyed_Consume now name limit ch : keeps keyed (Consume (St:=St) now name limit ch).
Proof. unfold Consume. cbv zeta. keyed_steps. Qed.
Lemma keyed_Ack now name id : keeps keyed (Ack (St:=St) now name id).
Proof. unfold Ack. keyed_steps. Qed.
Lemma keyed_Requeue now m : keeps keyed (Requeue (St:=St) now m).
Proof. unfold Requeue. keyed_steps. Qed.
Lemma keyed_RedriveDLQ now name : keeps keyed (RedriveDLQ (St:=St) now name).
Proof. unfold RedriveDLQ. keyed_steps. Qed.
Lemma keyed_CreateTopic name policy retention : keeps keyed (CreateTopic (St:=St) name policy retention).
Proof. unfold CreateTopic, install_topic, new_topic, compileWildcardRegex. cbv zeta. keyed_steps. Qed.
Lemma keyed_Peek name limit : keeps keyed (Peek (St:=St) name limit).
Proof. unfold Peek. keyed_steps. Qed.
Lemma keyed_Purge name : keeps keyed (Purge (St:=St) name).
Proof. unfold Purge. keyed_steps. Qed.
Lemma keyed_DeleteTopic name : keeps keyed (DeleteTopic (St:=St) name).
Proof. unfold DeleteTopic. keyed_steps. Qed.
Lemma keyed_AddSpy name : keeps keyed (AddSpy (St:=St) name).
Proof. unfold AddSpy. keyed_steps. Qed.
Lemma keyed_RemoveSpy name ch : keeps keyed (RemoveSpy (St:=St) name ch).
Proof. unfold RemoveSpy. keyed_steps. Qed.
Lemma keyed_CreateGroup name group : keeps keyed (CreateGroup (St:=St) name group).
Proof. unfold CreateGroup, add_binding. cbv zeta. keyed_steps. Qed.
Lemma keyed_GetStats : keeps keyed (GetStats (St:=St)).
Proof. unfold GetStats. keyed_steps. Qed.
Lemma keyed_RemoveWaiting name ch : keeps keyed (RemoveWaitingConsumer (St:=St) name ch).
Proof. unfold RemoveWaitingConsumer. keyed_steps. Qed.
Lemma keyed_run_pending now i : keeps keyed (run_pending (St:=St) now i).
Proof. unfold run_pending, run_task. keyed_steps. Qed.
#[local] Hint Resolve keyed_Consume keyed_Ack keyed_Requeue keyed_RedriveDLQ
  keyed_CreateTopic keyed_Peek keyed_Purge keyed_DeleteTopic keyed_AddSpy keyed_RemoveSpy
  keyed_CreateGroup keyed_GetStats keyed_RemoveWaiting keyed_run_pending : tmq.

#[local] Hint Resolve keyed_IsIdempotent keyed_RegisterWebhook validated : tmq.

(** An action that registers only accepted URLs. *)
Definition action_ok (a : action) : Prop :=
  match a with ARegisterWebhook _ url _ => hook_ok url | _ => True end.

Lemma keyed_do_action now a : in_time now → action_ok a → keeps keyed (do_action (St:=St) now a).
Proof.
  intros Hnow Ha. destruct a; cbn [do_action];
    unfold Publish, PublishReplicated, purgeExpiredMessages, webhook_done, GetStateSnapshot;
    keyed_steps.
Qed.

(** ** The handlers and the front *)

(** The same for the server. *)
Definition spent (s : Server St) : Prop := keyed (broker s).

Lemma spent_call {A} (op : M (World St) A) : keeps keyed op → keeps spent (call op).
Proof. intros Hop s Hs. unfold call, zoom. specialize (Hop _ Hs). by destruct (op (broker s)). Qed.

Lemma spent_user_headers r : keeps spent (user_headers r).
Proof. unfold user_headers. cbv zeta. destruct (forallb _ _); [apply keeps_ret|apply keeps_panic]. Qed.

#[local] Hint Resolve spent_user_headers keyed_do_action : tmq.
#[local] Hint Extern 1 (keeps spent (call _)) => apply spent_call; solve [auto with tmq] : tmq.
#[local] Hint Extern 0 (keeps spent (modify _)) => by apply keeps_modify : tmq.

Definition sparing (h : Request → M (Server St) Reply) : Prop := ∀ r, keeps spent (h r).

Lemma spent_nothing topic : keeps spent (nothing (St:=St) topic).
Proof. unfold nothing, reply, TopicExists. keyed_steps. Qed.
#[local] Hint Resolve spent_nothing : tmq.

Lemma spent_finish now w msgs ok : keeps spent (consume_finish (St:=St) now w msgs ok).
Proof.
  unfold consume_finish, reply. cbv zeta.
  destruct (if ok && _ then _ else msgs) as [|m ms]; [auto with tmq|].
  destruct ok; [|auto with tmq]. apply keeps_bind; [|intros; apply keeps_ret].
  case_match; [|apply keeps_ret]. apply keeps_forM_. intros x. keyed_steps.
Qed.
#[local] Hint Resolve spent_finish : tmq.

Lemma spent_handlePublish now r : in_time now → keeps spent (handlePublish (St:=St) now r).
Proof. intros Hnow. unfold handlePublish, seen_key, fail, reply, Publish. cbv zeta. keyed_steps. Qed.
#[local] Hint Resolve spent_handlePublish : tmq.

Lemma sparing_handlers now alloc :
  sparing (handleHealthz now) ∧ sparing (handleAck now) ∧ sparing (handleRequeue now) ∧
  sparing handleRegisterWebhook ∧ sparing handleCreateTopic ∧ sparing handleStream ∧
  sparing (handleDashboard now alloc) ∧ sparing handleMetrics ∧ sparing handleStats ∧
  sparing (handleQueuePublish now) ∧ sparing handleQueuePeek ∧ sparing handleQueuePurge ∧
  sparing handleQueueDelete ∧ sparing (handleQueueRedrive now) ∧ sparing handleGetWebhooks ∧
  sparing handleClusterStatus ∧ sparing handleDrain ∧ sparing handleGroups ∧
  sparing handleListQueues ∧ sparing (handleConsume now) ∧ sparing (handleQueueConsume now).
Proof.
  repeat match goal with |- _ ∧ _ => split end; intros r;
    unfold handleHealthz, handleAck, handleRequeue, handleRegisterWebhook, handleCreateTopic,
      handleStream, handleDashboard, handleMetrics, handleStats, handleQueuePublish, handleQueuePeek,
      handleQueuePurge, handleQueueDelete, handleQueueRedrive, handleGetWebhooks, handleClusterStatus,
      handleDrain, handleGroups, handleListQueues, handleConsume, handleQueueConsume, TopicExists,
      GetWebhooks, GetGroups, Publish, fail, reply; cbv zeta; keyed_steps.
Qed.

Lemma sparing_leaderProxy h : sparing h → sparing (leaderProxy h).
Proof. intros Hh r. unfold leaderProxy, fail, reply. cbv zeta. keyed_steps; by apply Hh. Qed.

Lemma sparing_withAuth now h : sparing h → sparing (withAuth now h).
Proof. intros Hh r. unfold withAuth, check_rate, reply. cbv zeta. keyed_steps; by apply Hh. Qed.

Lemma sparing_routes now alloc : in_time now → Forall (λ ph, sparing ph.2) (routes now alloc).
Proof.
  intros Hnow.
  destruct (sparing_handlers now alloc)
    as (? & ? & ? & ? & Htopic & ? & ? & ? & ? & ? & ? & ? & ? & ? & ? & ? & ? & Hgroups & Hlist & ? & ?).
  assert (sparing (handlePublish now)) as Hpub by (intros r; auto with tmq).
  assert (sparing queuesRoute) as Hqueues.
  { intros r. unfold queuesRoute, fail, reply. repeat case_match; [by apply Hlist| |apply keeps_ret].
    by apply sparing_leaderProxy. }
  assert (sparing groupsRoute) as Hgr.
  { intros r. unfold groupsRoute. case_match; [by apply sparing_leaderProxy|by apply Hgroups]. }
  unfold routes. cbv zeta.
  repeat (apply Forall_cons_2; [cbn [snd]|]); [..|apply Forall_nil_2];
    repeat first [assumption | apply sparing_leaderProxy | apply sparing_withAuth];
    intros r; apply keeps_ret.
Qed.

Lemma spent_settle rp : keeps spent (settle (St:=St) rp).
Proof. unfold settle. keyed_steps. Qed.
#[local] Hint Resolve spent_settle : tmq.

Lemma spent_ServeHTTP now alloc r : in_time now → keeps spent (ServeHTTP now alloc r).
Proof.
  intros Hnow. unfold ServeHTTP, trackInFlight, fail, reply. apply keeps_bind; [apply keeps_get|].
  intros s. case_match; [apply keeps_ret|]. apply keeps_bind; [auto with tmq|]. intros _.
  apply keeps_bind; [|apply spent_settle]. unfold mux, mux_route, fail, reply. cbv zeta.
  destruct (negb _ && _); [apply keeps_ret|].
  destruct (longest_match (routes now alloc) (Path r)) as [[p h]|] eqn:E.
  - apply longest_match_in in E. pose proof (sparing_routes now alloc Hnow) as Hall.
    rewrite Forall_forall in Hall. by apply (Hall _ E).
  - case_bool_decide; apply keeps_ret.
Qed.

Lemma spent_on_server {A} (op : M (Server St) A) :
  keeps spent op → keeps (λ f, spent (srv f)) (on_server op).
Proof. intros Hop f Hf. unfold on_server, zoom. specialize (Hop _ Hf). by destruct (op (srv f)). Qed.

Lemma spent_park rp : keeps (λ f : Front St, spent (srv f)) (park rp).
Proof. unfold park. destruct rp; try apply keeps_ret; by apply keeps_modify. Qed.
#[local] Hint Resolve spent_ServeHTTP spent_park : tmq.
#[local] Hint Extern 1 (keeps _ (on_server _)) => apply spent_on_server; solve [keyed_steps] : tmq.
#[local] Hint Extern 0 (keeps (λ f, spent (srv f)) (modify _)) => by apply keeps_modify : tmq.

Definition event_ok (e : event) : Prop := match e with EBroker a => action_ok a | _ => True end.

Lemma spent_do_event now e :
  in_time now → event_ok e → keeps (λ f : Front St, spent (srv f)) (do_event now e).
Proof.
  intros Hnow He. destruct e; cbn [do_event event_ok] in *;
    unfold consume_wake, consume_select, stream_event, stream_close, MarkDraining; keyed_steps.
Qed.

Lemma spent_run_events l f :
  Forall (λ te, in_time te.1 ∧ event_ok te.2) l → spent (srv f) → spent (srv (run_events l f).2).
Proof.
  intros Hl. revert f. induction Hl as [|[now e] l [Hnow Hok] _ IH]; intros f Hf; [done|].
  unfold run_events. cbn [forM_]. pose proof (spent_do_event now e Hnow Hok f Hf) as He.
  unfold mbind, M_bind. destruct (do_event now e f) as [[[]|?| |] f']; [|done..]. by apply IH.
Qed.

End tables.

(** ** The idempotency keys *)

Section keys.
Context `{R : Runtime} {St : Type} `{Storage St} `{W : Web}.
Variable key : string.
Variable T : Z.

(** The key is taken until [T]. *)
Definition key_taken (w : World St) : Prop := idempotencyKeys w !! key = Some T.

(** The one operation that touches the table: it returns early on a key that is taken,
    its sweep keeps what has not expired, and a new key is another one. *)
Lemma key_IsIdempotent now k : (now < T)%Z → keeps key_taken (IsIdempotent (St:=St) now k).
Proof.
  intros Hnow w Hw. unfold IsIdempotent. destruct (String.eqb k ""); [done|].
  rewrite (run_bind get _ w w w) by done. destruct (decide (k = key)) as [->|Hne].
  { unfold key_taken in Hw. rewrite Hw. cbv zeta. by rewrite (proj2 (Z.ltb_lt _ _)). }
  cbv zeta. destruct (match idempotencyKeys w !! k with Some exp => _ | None => false end); [done|].
  revert w Hw. apply keeps_bind.
  - intros w Hw. case_match; [|done]. unfold key_taken. simpl. apply map_lookup_filter_Some.
    split; [done|]. simpl. apply Z.leb_le. lia.
  - intros _. apply keeps_bind; [apply keeps_get|]. intros w'. case_match; [auto with tmq|].
    apply keeps_bind; [|auto with tmq]. apply keeps_modify. intros w Hw. unfold key_taken. simpl.
    by rewrite lookup_insert_ne.
Qed.

Lemma key_ext w w' :
  idempotencyKeys w' = idempotencyKeys w → webhooks w' = webhooks w → key_taken w → key_taken w'.
Proof. unfold key_taken. by intros ->. Qed.

Lemma key_RegisterWebhook name url secret : keeps key_taken (RegisterWebhook (St:=St) name url secret).
Proof.
  unfold RegisterWebhook. apply keeps_bind; [apply keeps_get|]. intros w. cbv zeta.
  case_match; [auto with tmq|]. apply keeps_bind; [by apply keeps_modify|auto with tmq].
Qed.

Lemma key_publishCore left now name payload hs p e d bc repl :
  keeps key_taken (publishCore (St:=St) left now name payload hs p e d bc repl).
Proof. apply keyed_publishCore, key_ext. Qed.

Lemma key_run_events l f :
  Forall (λ te, te.1 < T)%Z l → key_taken (broker (srv f)) →
  key_taken (broker (srv (run_events l f).2)).
Proof.
  intros Hl. apply (spent_run_events key_taken (λ now, now < T)%Z (λ _, True)).
  - apply key_ext.
  - intros. by apply key_IsIdempotent.
  - intros. by apply key_RegisterWebhook.
  - intros. by apply keeps_modify.
  - done.
  - eapply Forall_impl; [exact Hl|]. intros [now e] Hnow. split; [done|]. by destruct e as [| | | |[]| |].
Qed.

End keys.

Section once.
Context `{R : Runtime} {St : Type} `{Storage St} `{W : Web}.
Implicit Types (s : Server St) (f : Front St).


End once.

(** The broker's queue is full: the first publication is refused, the retry ignored. *)
Definition demo_full_broker : World DiskStorage :=
  MkWorld (Topics demo_one) (wildcards demo_one) (storage demo_one) (compiledRegex demo_one)
    (webhooks demo_one) (inflight demo_one) (idempotencyKeys demo_one) (bindings demo_one) 1
    (maxTopics demo_one) (OnPublish demo_one) (OnGroupCreate demo_one) (heap demo_one)
    (chans demo_one) (next_addr demo_one) (draws demo_one) (pending demo_one).
Definition demo_keyed : Request :=
  MkRequest "POST" "/publish/t" "" {["Idempotency-Key" := ["k1"]]} "10.0.0.9:5"
    (bytes_of_string "hello") false.
Definition demo_full_server : Server DiskStorage := NewServer (λ _, None) demo_full_broker "v" None 0.
Definition demo_refused : Server DiskStorage := (handlePublish 5 demo_keyed demo_full_server).2.

Lemma demo_refusal :
  handlePublish 5 demo_keyed demo_full_server =
    (Ret (Done (http_Error "queue capacity reached (max 1 messages)" 429)), demo_refused).
Proof. vm_compute. reflexivity. Qed.

Lemma demo_publishes : publishes demo_keyed "t" (bytes_of_string "hello") "k1".
Proof. by vm_compute. Qed.


(** ** Webhooks *)

Section hooks.
Context `{R : Runtime} {St : Type} `{Storage St} `{W : Web}.
Implicit Types f : Front St.

(** Every webhook of the broker has a URL that passed the validation. *)
Definition targets_public (w : World St) : Prop :=
  ∀ topic whs wh, webhooks w !! topic = Some whs → wh ∈ whs → public_url (URL wh).

Lemma hooks_ext w w' :
  idempotencyKeys w' = idempotencyKeys w → webhooks w' = webhooks w →
  targets_public w → targets_public w'.
Proof. unfold targets_public. by intros _ ->. Qed.

Lemma hooks_IsIdempotent now k : keeps targets_public (IsIdempotent (St:=St) now k).
Proof.
  unfold IsIdempotent. destruct (String.eqb k ""); [auto with tmq|].
  apply keeps_bind; [apply keeps_get|]. intros w. cbv zeta.
  destruct (match idempotencyKeys w !! k with Some exp => _ | None => false end); [auto with tmq|].
  apply keeps_bind; [|intros _].
  - intros s Hs. by destruct (idempotency_sweep <? _)%Z.
  - apply keeps_bind; [apply keeps_get|]. intros w' s Hs. by destruct (maxIdempotencyKeys <=? _)%Z.
Qed.

Lemma hooks_RegisterWebhook name url secret :
  public_url url → keeps targets_public (RegisterWebhook (St:=St) name url secret).
Proof.
  intros Hurl w Hw. unfold RegisterWebhook. rewrite (run_bind get _ w w w) by done. cbv zeta.
  case_match; [done|]. intros topic whs wh. simpl. rewrite lookup_insert_Some.
  intros [[<- <-]|[_ Ht]] Hin; [|by eapply Hw].
  apply elem_of_app in Hin as [Hin|Hin%list_elem_of_singleton]; [|by subst].
  destruct (webhooks w !! name) as [old|] eqn:E; [by eapply Hw|by apply elem_of_nil in Hin].
Qed.

Lemma hooks_delete name :
  keeps targets_public (modify (λ w : World St, set_webhooks (delete name (webhooks w)) w)).
Proof.
  apply keeps_modify. intros w Hw topic whs wh. simpl. rewrite lookup_delete_Some.
  intros [_ Ht]. by eapply Hw.
Qed.

(** No registration behind the back of the REST transport: the other transports have none. *)
Definition through_rest (e : event) : Prop :=
  match e with EBroker (ARegisterWebhook _ _ _) => False | _ => True end.

(** [C25] Webhooks are not aimed at the local network: on a server whose broker holds no
    webhook, no sequence of requests (any method, route, query, headers and body), wake-ups,
    stream events, timers and broker operations of the other transports leaves the broker
    with a webhook target that was not checked: its URL has an http or https scheme, and the
    addresses its host resolved to when it was registered are no loopback, private or
    link-local addresses.  (The unspecified address passes, see
    [unspecified_address_accepted]; what the host resolves to later is not looked at.) *)
Theorem webhook_targets_public l f topic whs wh
    (Hempty : webhooks (broker (srv f)) = ∅) (Hl : Forall (λ te, through_rest te.2) l) :
  webhooks (broker (srv (run_events l f).2)) !! topic = Some whs → wh ∈ whs →
  ∃ scheme host ips, ParseRequestURI (URL wh) = Some (scheme, host) ∧
    (scheme = "http" ∨ scheme = "https") ∧ LookupIP host = Some ips ∧
    ∀ ip, ip ∈ ips → IsLoopback ip = false ∧ IsPrivate ip = false ∧ IsLinkLocalUnicast ip = false.
Proof.
  assert (targets_public (broker (srv (run_events l f).2))) as Hpub.
  { apply (spent_run_events targets_public (λ _, True) public_url).
    - apply hooks_ext.
    - intros. apply hooks_IsIdempotent.
    - apply hooks_RegisterWebhook.
    - apply hooks_delete.
    - apply validateWebhookURL_ok.
    - eapply Forall_impl; [exact Hl|]. intros [now e] He. split; [done|]. by destruct e as [| | | |[]| |].
    - intros t ws w. rewrite Hempty. by intros ?%lookup_empty_Some. }
  intros Ht Hin. destruct (Hpub topic whs wh Ht Hin) as (scheme & host & ips & ? & ? & ? & Hips).
  exists scheme, host, ips. rewrite Forall_forall in Hips. split_and!; [done..|]. apply Hips.
Qed.

End hooks.

(** A registration that is accepted, one for a private address and a publication. *)
Lemma webhook_targets_public_witness :
  let l := [(5%Z, ERequest 0 (demo_post "/webhook/t" "" "example.org"));
            (6%Z, ERequest 0 (demo_post "/webhook/t" "" "internal"));
            (7%Z, ERequest 0 (demo_post "/publish/t" "" "hello"))] in
  let f := MkFront demo_hook [] [] in
  webhooks (broker (srv (run_events l f).2)) !! "t" = Some [MkWebhook "example.org" ""] ∧
  ∃ scheme host ips, ParseRequestURI "example.org" = Some (scheme, host) ∧
    (scheme = "http" ∨ scheme = "https") ∧ LookupIP host = Some ips ∧
    ∀ ip, ip ∈ ips → IsLoopback ip = false ∧ IsPrivate ip = false ∧ IsLinkLocalUnicast ip = false.
Proof.
  intros l f.
  assert (webhooks (broker (srv (run_events l f).2)) !! "t" = Some [MkWebhook "example.org" ""]) as Hw
    by (vm_compute; reflexivity).
  split; [exact Hw|].
  apply (webhook_targets_public l f "t" [MkWebhook "example.org" ""] (MkWebhook "example.org" ""));
    [reflexivity|repeat constructor|exact Hw|left].
Defined.
