(* ===== verification/Restart.v ===== *)
(** * Shutting down and starting again ([cmd/tinymq/main.go])

    [boot] and [shutdown] are what [main] does to the storage, the broker and the REST
    server before the transports serve and after they are stopped; a restart on a disk
    that does not fail brings the queues back. *)

From Stdlib Require Import Ascii.
From Stdlib Require Import Strings.Byte.
From stdpp Require Import sorting.
From S2P Require Import Prelude.
From S2P Require Import GoLib.
From S2P Require Import Wire.
From S2P Require Import Message.
From S2P Require Import Wal.
From S2P Require Import Storage.
From S2P Require Import StorageFacts.
From S2P Require Import DiskFrame.
From S2P Require Import Codec.
From S2P Require Import Demo.
From S2P Require Import StorageProps.
From S2P Require Import Broker.
From S2P Require Import BrokerQueue.
From S2P Require Import BrokerSteps.
From S2P Require Import BrokerSafe.
From S2P Require Import BrokerOps.
From S2P Require Import BrokerSafety.
From S2P Require Import BrokerPublish.
From S2P Require Import BrokerConsume.
From S2P Require Import BrokerDurable.
From S2P Require Import Main.
From S2P Require Import Http.
From S2P Require Import Rest.

Section process.
Context `{R : Runtime} `{C : LogCodec}.
Variable faults : nat → fault.
#[local] Existing Instance disk_storage.

(** [storage.New], [broker.New] and the recovery; [Some e]: [log.Fatalf].  [readable]
    tells whether the data directory can be listed. *)
Definition boot (readable : bool) (d : DiskStorage) : outcome error * World DiskStorage :=
  match disk_New faults "./data" (String.eqb (getenv "TINYMQ_FSYNC") "true") d with
  | (Ret None, d1) =>
      (recover faults (if readable then Some (ReadDir d1) else None) ;; mret None) (New (Some d1))
  | (Ret (Some e), d1) => (Ret (Some ("Failed to initialize storage: " +:+ e)), New (Some d1))
  | (Panic why, d1) => (Panic why, New (Some d1))
  | (Deadlock, d1) => (Deadlock, New (Some d1))
  | (Crash, d1) => (Crash, New (Some d1))
  end.

(** After the signal: requests are turned away, the transports are stopped, the logs
    closed.  The result is the number of requests that were being served. *)
Definition shutdown : M (Server DiskStorage) Z :=
  MarkDraining ;;
  inFlight ← InFlightCount;
  call (with_storage None (disk_CloseAll faults)) ;;
  mret inFlight.

End process.

(** ** The directory scan *)

Definition plain (topic : string) : Prop := no_char "_" topic = true ∧ no_char "@" topic = true.

(** Every log of the directory is that of a topic without [_] and [@] in its name. *)
Definition plain_dir (d : DiskStorage) : Prop :=
  ∀ base t, base ∈ ReadDir d → recover_name base = Some t → base = topicToFilename t +:+ ".log" ∧ plain t.

Lemma dir_entry_inj dataDir p q name :
  dir_entry dataDir p = Some name → dir_entry dataDir q = Some name → p = q.
Proof.
  unfold dir_entry. intros Hp Hq.
  destruct (strings.HasPrefix p _) eqn:Ep; [|done]. destruct (strings.HasPrefix q _) eqn:Eq; [|done].
  apply HasPrefix_split in Ep, Eq. rewrite Ep in Hp |- *. rewrite Eq in Hq |- *. cbv zeta in *. rewrite !TrimPrefix_app in *.
  repeat case_match; congruence.
Qed.

Lemma ReadDir_NoDup d : NoDup (ReadDir d).
Proof.
  unfold ReadDir. rewrite merge_sort_Permutation.
  assert (NoDup (fst <$> map_to_list (dir d))) as Hn by apply NoDup_fst_map_to_list.
  induction Hn as [|p l Hp _ IH]; [constructor|]. cbn. destruct (dir_entry (dataDir d) p) as [name|] eqn:E; [|done].
  constructor; [|done]. intros (q & Hq & E')%list_elem_of_omap. by rewrite (dir_entry_inj _ _ _ _ E E') in Hp.
Qed.

Lemma names_NoDup d : plain_dir d → NoDup (omap recover_name (ReadDir d)).
Proof.
  intros Hd. pose proof (ReadDir_NoDup d) as Hn. unfold plain_dir in Hd. revert Hn Hd.
  induction (ReadDir d) as [|b l IH]; intros Hn Hd; [constructor|]. apply NoDup_cons in Hn as [Hb Hn].
  assert (NoDup (omap recover_name l)) as Hl.
  { apply IH; [done|]. intros base t Hin. apply Hd. by right. }
  cbn. destruct (recover_name b) as [t|] eqn:E; [|done].
  constructor; [|done]. intros (b' & Hb' & E')%list_elem_of_omap.
  destruct (Hd b t) as [-> _]; [by left|done|]. destruct (Hd b' t) as [-> _]; [by right|done|]. done.
Qed.

(** ** Loading *)

Abbreviation untouched := (changes_only (λ _, False)).

(** The topic [n] of [w] holds what its log on [d] says, unless it is unreadable. *)
Definition loaded `{LogCodec} (d : DiskStorage) (n : string) (w : World DiskStorage) : Prop :=
  ∀ b, isSafePath n = None → file d (log_path d n) = Some b → (Scan b).2 = false →
  ∃ x, topic_at w n = Some x ∧ all_messages x = load_records (records b).

Section restart.
Context `{R : Runtime} `{C : LogCodec}.
Context (faults : nat → fault) (Hok : ∀ n, faults n = FNone).
#[local] Existing Instance disk_storage.

Lemma run_LoadMessages n d : disk_wf d →
  ∃ ms err d', disk_LoadMessages faults n d = (Ret (ms, err), d') ∧ untouched d d' ∧
    ∀ b, isSafePath n = None → file d (log_path d n) = Some b → (Scan b).2 = false →
      err = None ∧ ms = load_records (records b).
Proof.
  intros Hd. unfold disk_LoadMessages. destruct (isSafePath n) as [e|] eqn:Esafe.
  { eexists _, _, d. split_and!; [done|by apply changes_refl|done]. }
  unfold mbind, M_bind, get, sys_exists, gets, sys_read, syscall, mret, M_ret. fold (log_path d n). cbv zeta.
  destruct (dir d !! log_path d n) as [i|] eqn:El.
  - rewrite bool_decide_true by eauto. cbn [negb andb]. rewrite Hok, file_tick.
    unfold file at 1. rewrite El. cbn. destruct (Scan (Storage.content d i)) as [tokens tooLong] eqn:Es.
    eexists _, _, (tick d). split_and!; [done|by apply changes_tick|]. intros b _ Hb Hb2.
    unfold file in Hb. rewrite El in Hb. injection Hb as <-. rewrite Es in Hb2. cbn in Hb2. subst tooLong.
    unfold records. by rewrite Es.
  - rewrite bool_decide_false by (by intros [? ?]). cbn [negb andb].
    assert (∀ b : bytes, file d (log_path d n) ≠ Some b) as Hno by (intros b; unfold file; by rewrite El).
    destruct (bool_decide _); cbn [negb].
    + rewrite Hok, file_tick. destruct (file d (legacyFilePath (dataDir d) n)) as [b|]; cbn.
      * destruct (Scan b) as [tokens tooLong]. eexists _, _, (tick d). split_and!; [done|by apply changes_tick|].
        intros b' _ Hb'. by apply Hno in Hb'.
      * eexists _, _, (tick d). split_and!; [done|by apply changes_tick|]. intros b' _ Hb'. by apply Hno in Hb'.
    + eexists _, _, d. split_and!; [done|by apply changes_refl|]. intros b' _ Hb'. by apply Hno in Hb'.
Qed.

(** Adding a topic leaves the others. *)
Lemma installed_other name x re (w : World DiskStorage) n : wf w → n ≠ name → topic_at (installed name x re w) n = topic_at w n.
Proof.
  intros Hwf Hne. unfold topic_at. simpl. rewrite lookup_insert_ne by done.
  destruct (Topics w !! n) as [t|] eqn:En; [|done]. simpl. rewrite lookup_insert_ne; [done|].
  intros <-. destruct (topic_valid _ _ _ Hwf En) as (y & Hy & _).
  apply (wf_heap _ Hwf) in Hy as [Hy _]. lia.
Qed.

Lemma load_one n w d : wf w → storage w = Some d → disk_wf d →
  ∃ w' d', load_existing_topic (H:=disk_storage faults) n w = (Ret (), w') ∧ wf w' ∧ storage w' = Some d' ∧ untouched d d' ∧
    (∀ m, m ≠ n → topic_at w' m = topic_at w m) ∧ loaded d n w'.
Proof.
  intros Hwf Hs Hd. destruct (run_LoadMessages n d Hd) as (ms & err & d' & Hload & Hunt & Hms).
  assert (wpx (load_existing_topic (H:=disk_storage faults) n) (λ _ w', storage w' = Some d' ∧
    (∀ m, m ≠ n → topic_at w' m = topic_at w m) ∧ loaded d n w') (λ _, False) w) as Hrun.
  { unfold load_existing_topic. apply wpx_bind.
    assert (∀ v, storage v = Some d → wf v → (∀ m, topic_at v m = topic_at w m) → wpx
      (w0 ← get;
       '(msgs, err) ← match storage w0 with
                      | Some _ => with_storage ([], None) (disk_LoadMessages faults n)
                      | None => panic "nil pointer dereference"
                      end;
       match err with
       | Some _ => mret ()
       | None => install_topic n (set_Messages msgs (empty_topic n default_policy 0)) ;; mret ()
       end)
      (λ _ w', storage w' = Some d' ∧ (∀ m, m ≠ n → topic_at w' m = topic_at w m) ∧ loaded d n w') (λ _, False) v) as Hrest.
    { intros v Hv Hvwf Hsame. apply wpx_bind, wpx_get. rewrite Hv. apply wpx_bind.
      eapply wpx_with_storage_run; [exact Hv|exact Hload|]. destruct err as [e|].
      - apply wpx_ret. split_and!; [done|intros m _; apply Hsame|]. intros b H1 H2 H3. by destruct (Hms b H1 H2 H3).
      - apply wpx_bind, wpx_install_topic. intros re. apply wpx_ret. split_and!; [done| |].
        + intros m Hm. rewrite installed_other; [apply Hsame|by apply wf_set_storage|done].
        + intros b H1 H2 H3. destruct (Hms b H1 H2 H3) as [_ ->]. eexists. split.
          * apply topic_at_Some. eexists. apply installed_topic.
          * unfold all_messages. simpl. apply app_nil_r. }
    destruct (strings.Contains n "::") eqn:Ec; [|by apply wpx_ret, Hrest].
    destruct (strings.SplitN n "::" 2); [by apply wpx_ret, Hrest|].
    apply wpx_modify. apply Hrest; [done|by apply wf_add_binding|done]. }
  pose proof (step_load_existing_topic (H:=disk_storage faults) n w Hwf ltac:(by exists d)) as Hstep.
  unfold step, wpx in *. destruct (load_existing_topic n w) as [[[]|why| |] w']; try done.
  exists w', d'. naive_solver.
Qed.

Lemma untouched_loaded d d1 n w : untouched d d1 → loaded d1 n w → loaded d n w.
Proof.
  intros (_ & Hdd & Hf) Hl b Hs Hb. apply Hl; [done|]. unfold log_path. rewrite Hdd.
  by rewrite (proj1 (Hf _ (λ x, x))).
Qed.

Lemma load_all names : ∀ w d, NoDup names → wf w → storage w = Some d → disk_wf d →
  ∃ w' d', LoadExistingTopics (H:=disk_storage faults) names w = (Ret (), w') ∧ wf w' ∧ storage w' = Some d' ∧ untouched d d' ∧
    (∀ m, m ∉ names → topic_at w' m = topic_at w m) ∧ ∀ n, n ∈ names → loaded d n w'.
Proof.
  unfold LoadExistingTopics. induction names as [|n names IH]; intros w d Hnd Hwf Hs Hd; cbn [forM_].
  - exists w, d. split_and!; [done..|by apply changes_refl|done|]. intros n Hn. by apply elem_of_nil in Hn.
  - apply NoDup_cons in Hnd as [Hn Hnd].
    destruct (load_one n w d Hwf Hs Hd) as (w1 & d1 & Hrun1 & Hwf1 & Hs1 & Hu1 & Hother1 & Hl1).
    destruct (IH w1 d1 Hnd Hwf1 Hs1 (proj1 Hu1)) as (w2 & d2 & Hrun2 & Hwf2 & Hs2 & Hu2 & Hother2 & Hl2).
    rewrite (run_bind _ _ _ _ _ Hrun1). exists w2, d2. split_and!; [done|done|done|by eapply changes_trans| |].
    + intros m Hm. rewrite Hother2 by (intros ?; apply Hm; by right). apply Hother1. intros ->. apply Hm. by left.
    + intros m [-> |Hm]%elem_of_cons; [|by apply (untouched_loaded d d1), Hl2].
      intros b H1 H2 H3. rewrite Hother2 by done. by apply Hl1.
Qed.

(** ** Compaction at start *)

(** What compaction asks of a log: its records fit on a line again. *)
Definition fits_again (b : bytes) : Prop := ∀ r l, r ∈ compact_records (records b) → line_of r l → short l.

Context {CL : LogCodecLaws C}.

Lemma compact_one n w d : storage w = Some d → disk_wf d →
  ∃ err d', compact faults n w = (Ret err, set_storage (Some d') w) ∧
    changes_only (log_or_tmp (log_path d n)) d d' ∧
    ∀ b, file d (log_path d n) = Some b → fits_again b → survives (log_path d n) b d'.
Proof.
  intros Hs Hd. destruct (completes_CompactLog faults Hok n d) as (err & d' & Hrun).
  exists err, d'. split_and!.
  - unfold compact, with_storage. by rewrite Hs, Hrun.
  - pose proof (CompactLog_only faults n d Hd) as Hw. unfold wpx in Hw. by rewrite Hrun in Hw.
  - intros b Hb Hfit. pose proof (CompactLog_survives faults n d b Hd Hb Hfit) as Hw. unfold wpx in Hw.
    by rewrite Hrun in Hw.
Qed.

Lemma plain_paths d n n' : plain n → plain n' → n ≠ n' → ¬ log_or_tmp (log_path d n') (log_path d n).
Proof.
  intros [Hu Ha] [Hu' Ha'] Hne [E|E]; unfold log_path, logFilePath, Join in E.
  - apply Hne. rewrite <-(filename_roundtrip n Hu Ha), <-(filename_roundtrip n' Hu' Ha'). f_equal.
    apply (str_app_inj_r _ _ ".log"), (inj (String.append "/")), (inj (String.append (dataDir d))), E.
  - apply (f_equal last_char) in E. rewrite <-!str_app_assoc, !last_char_app in E by done. done.
Qed.

(** The result of compacting every log: the files of other topics are as before, and
    every log says what it said. *)
Lemma compact_each names : ∀ w d, NoDup names → Forall plain names → storage w = Some d → disk_wf d →
  ∃ d', forM_ (λ name, compact faults name ;; mret ()) names w = (Ret (), set_storage (Some d') w) ∧
    disk_wf d' ∧ dataDir d' = dataDir d ∧
    (∀ n, plain n → n ∉ names → file d' (log_path d n) = file d (log_path d n)) ∧
    (∀ n b, n ∈ names → file d (log_path d n) = Some b → fits_again b → survives (log_path d n) b d').
Proof.
  induction names as [|n names IH]; intros w d Hnd Hplain Hs Hd; cbn [forM_].
  - exists d. split_and!; [|done..|]; [by destruct w; cbn in *; subst|]. intros n b Hn. by apply elem_of_nil in Hn.
  - apply NoDup_cons in Hnd as [Hn Hnd]. apply Forall_cons in Hplain as [Hpn Hplain].
    destruct (compact_one n w d Hs Hd) as (err & d1 & Hrun1 & (Hd1 & Hdd1 & Hf1) & Hsv).
    destruct (IH (set_storage (Some d1) w) d1 Hnd Hplain eq_refl Hd1) as (d2 & Hrun2 & Hd2 & Hdd2 & Hother & Hall).
    assert (∀ m, log_path d1 m = log_path d m) as Hlp by (intros; unfold log_path; by rewrite Hdd1).
    setoid_rewrite Hlp in Hother. setoid_rewrite Hlp in Hall.
    exists d2. split_and!; [|done|congruence| |].
    + erewrite run_bind; [|by erewrite run_bind by exact Hrun1]. rewrite Hrun2. done.
    + intros m Hm Hnot. rewrite Hother; [|done|by intros ?; apply Hnot; right].
      apply Hf1, plain_paths; [done|done|]. intros ->. apply Hnot. by left.
    + intros m b [-> |Hm]%elem_of_cons Hb Hfit.
      * unfold survives, outstanding. rewrite Hother by done. by apply Hsv.
      * rewrite Forall_forall in Hplain. apply Hall; [done| |done]. rewrite <-Hb. apply Hf1.
        apply plain_paths; [by apply Hplain|done|by intros ->].
Qed.

(** ** Start-up *)

(** What [boot] makes of a disk, for the topic of one of its logs. *)
Lemma boot_restores d n b :
  disk_wf d → plain_dir (MkDisk "./data" ∅ (syncWrites d) (dir d) (inodes d) (next_ino d) (ticks d)) → plain n →
  isSafePath n = None → file d (logFilePath "./data" n) = Some b → (Scan b).2 = false → fits_again b →
  ∃ w' d', boot faults true d = (Ret None, w') ∧ wf w' ∧ storage w' = Some d' ∧
    (∃ x, topic_at w' n = Some x ∧ all_messages x = load_records (records b)) ∧
    load_records (records (default [] (file d' (logFilePath "./data" n)))) = load_records (records b).
Proof.
  intros Hd Hdir [Hu Ha] Hsafe Hb Hscan Hfit. unfold boot.
  assert (∃ d1, disk_New faults "./data" (String.eqb (getenv "TINYMQ_FSYNC") "true") d = (Ret None, d1) ∧
    d1 = MkDisk "./data" ∅ (String.eqb (getenv "TINYMQ_FSYNC") "true") (dir d) (inodes d) (next_ino d) (S (ticks d)))
    as (d1 & -> & Ed1).
  { unfold disk_New, syscall_atomic, syscall, mbind, M_bind. rewrite Hok. by eexists. }
  assert (disk_wf d1) as Hd1 by (destruct Hd as (H1 & H2 & _); subst d1; split_and!; [done..|]; by intros t h).
  assert (plain_dir d1) as Hdir1 by (by subst d1).
  assert (file d1 (log_path d1 n) = Some b) as Hb1 by (by subst d1).
  assert (n ∈ omap recover_name (ReadDir d1)) as Hin.
  { destruct (dir d1 !! log_path d1 n) as [i|] eqn:E; [|unfold file in Hb1; by rewrite E in Hb1].
    by eapply log_recovered. }
  set (names := omap recover_name (ReadDir d1)) in *.
  assert (NoDup names) as Hnd by (by apply names_NoDup).
  assert (Forall plain names) as Hplain.
  { apply Forall_forall. intros t (base & Hbase & Ht)%list_elem_of_omap. by eapply Hdir1. }
  pose proof (wf_New (Some d1)) as Hwf.
  destruct (load_all names (New (Some d1)) d1 Hnd Hwf eq_refl Hd1) as (w2 & d2 & Hrun2 & Hwf2 & Hs2 & Hu2 & _ & Hl2).
  destruct (compact_each names w2 d2 Hnd Hplain Hs2 (proj1 Hu2)) as (d3 & Hrun3 & Hd3 & Hdd3 & _ & Hsv3).
  destruct Hu2 as (Hd2 & Hdd2 & Hf2).
  assert (∀ m, log_path d2 m = log_path d1 m) as Hlp by (intros; unfold log_path; by rewrite Hdd2).
  exists (set_storage (Some d3) w2), d3. split_and!.
  - erewrite run_bind; [done|]. unfold recover. erewrite run_bind by exact Hrun2. exact Hrun3.
  - by apply wf_set_storage.
  - done.
  - by apply (Hl2 n Hin b).
  - specialize (Hsv3 n b Hin). rewrite Hlp in Hsv3. apply (Hsv3 (eq_trans (proj1 (Hf2 _ (λ x, x))) Hb1)) in Hfit.
    unfold survives, outstanding in Hfit. by subst d1.
Qed.

(** ** Shutdown *)

Lemma run_syncs {A} (l : list A) : ∀ d, ∃ d', forM_ (λ _, sys_sync faults ;; mret ()) l d = (Ret (), d') ∧
  dir d' = dir d ∧ inodes d' = inodes d ∧ dataDir d' = dataDir d ∧ next_ino d' = next_ino d.
Proof.
  induction l as [|a l IH]; intros d; cbn [forM_]; [by exists d|].
  destruct (IH (tick d)) as (d' & Hrun & H1 & H2 & H3 & H4). exists d'. split_and!; [|done..].
  erewrite run_bind; [exact Hrun|]. erewrite run_bind; [done|]. unfold sys_sync, syscall_atomic, syscall. by rewrite Hok.
Qed.

Lemma shutdown_keeps s d : storage (broker s) = Some d → disk_wf d →
  ∃ s' d', shutdown faults s = (Ret (inFlight s), s') ∧ draining s' = true ∧ storage (broker s') = Some d' ∧
    dir d' = dir d ∧ inodes d' = inodes d ∧ dataDir d' = dataDir d ∧ activeFiles d' = ∅ ∧ disk_wf d'.
Proof.
  intros Hs (H1 & H2 & H3). destruct (run_syncs (map_to_list (activeFiles d)) d) as (d1 & Hrun & E1 & E2 & E3 & E4).
  assert (disk_CloseAll faults d = (Ret None, set_activeFiles ∅ d1)) as Hclose.
  { unfold disk_CloseAll. rewrite (run_bind get _ d d d) by done. by rewrite (run_bind _ _ _ _ _ Hrun). }
  exists (set_broker (set_storage (Some (set_activeFiles ∅ d1)) (broker s)) (set_draining true s)), (set_activeFiles ∅ d1).
  split_and!; [|done..|].
  - unfold shutdown. rewrite (run_bind MarkDraining _ s () (set_draining true s)) by done.
    rewrite (run_bind InFlightCount _ _ (inFlight s) (set_draining true s)) by done.
    erewrite run_bind; [done|]. apply (run_zoom broker set_broker). unfold with_storage.
    change (broker (set_draining true s)) with (broker s). by rewrite Hs, Hclose.
  - split_and!; cbn; [by rewrite E1|by rewrite E1, E4|by intros t h].
Qed.

(** [C17] A restart keeps the queues: when a running server whose queue agrees with its log
    (which every accepted publication maintains) is shut down and started again on a disk
    that does not fail, the new broker is consistent and the topic's queue holds exactly
    the same messages, in the order of the log; the log, compacted on the way, still says
    so.  The data directory holds logs of topics without [_] and [@] in their names. *)
Theorem restart_keeps_queue s d topic x
    (Hs : storage (broker s) = Some d) (Hdir : dataDir d = "./data" ∧ plain_dir d) (Hplain : plain topic)
    (Hx : topic_at (broker s) topic = Some x)
    (Hmir : mirrors (H:=disk_storage faults) (StorageLaws0:=disk_laws faults) d topic x)
    (Hids : NoDup (put_ids (disk_log d topic)))
    (Hfile : ∃ b, file d (log_path d topic) = Some b ∧ fits_again b) :
  ∃ s' d1 w2 d2 x2, shutdown faults s = (Ret (inFlight s), s') ∧ draining s' = true ∧
    storage (broker s') = Some d1 ∧
    boot faults true d1 = (Ret None, w2) ∧ wf w2 ∧ storage w2 = Some d2 ∧
    topic_at w2 topic = Some x2 ∧ all_messages x2 ≡ₚ all_messages x ∧
    all_messages x2 = live (disk_log d topic) ∧
    load_records (records (default [] (file d2 (logFilePath "./data" topic)))) = all_messages x2.
Proof.
  destruct Hmir as [(Hwf & Hsafe & Hclean & _ & _) Hlive _], Hdir as [Hdd Hdir], Hfile as (b & Hb & Hfit).
  destruct (shutdown_keeps s d Hs Hwf) as (s' & d1 & Hrun & Hdrain & Hs' & E1 & E2 & E3 & _ & Hwf1).
  assert (file d1 (logFilePath "./data" topic) = Some b) as Hb1.
  { unfold file, Storage.content. rewrite E1, E2. unfold log_path in Hb. by rewrite Hdd in Hb. }
  rewrite Hb in Hclean. cbn in Hclean.
  assert (plain_dir (MkDisk "./data" ∅ (syncWrites d1) (dir d1) (inodes d1) (next_ino d1) (ticks d1))) as Hdir1.
  { unfold plain_dir, ReadDir in *. cbn [dataDir dir]. by rewrite E1, <-Hdd. }
  destruct (boot_restores d1 topic b Hwf1 Hdir1 Hplain Hsafe Hb1 (Scan_clean b Hclean) Hfit)
    as (w2 & d2 & Hboot & Hwf2 & Hs2 & (x2 & Hx2 & Hm2) & Hlog2).
  assert (load_records (records b) = live (disk_log d topic)) as Hl.
  { unfold disk_log in *. rewrite Hb in *. by apply load_records_live. }
  exists s', d1, w2, d2, x2. split_and!; try done; [|congruence..].
  rewrite Hm2, Hl. by symmetry.
Qed.

End restart.

(** ** A run *)

(** A server with one message on [t], published just now. *)
Definition demo_start : DiskStorage := MkDisk "./data" ∅ false ∅ ∅ 0 0.
Definition demo_running_disk : DiskStorage := run_state (AppendPut "t" demo_msg 7) demo_start.
Definition demo_running : World DiskStorage :=
  set_storage (Some demo_running_disk) (demo_full "reject").
Definition demo_running_server : Server DiskStorage := NewServer (λ _, None) demo_running "v" None 0.
Definition demo_queue : Topic := enqueue "normal" demo_msg (demo_t "reject").

Lemma demo_running_mirrors : mirrors demo_running_disk "t" demo_queue.
Proof.
  eapply (mirrors_put demo_start _ "t" "normal" demo_msg (demo_t "reject") 7).
  - split; [|done|constructor]. split; [by split_and!|]. split_and!; [done|apply clean_nil|by intros h|by right].
  - set_solver.
  - apply demo_fits.
  - vm_compute. reflexivity.
Qed.

Lemma demo_fits_again : fits_again (demo_line ++ [x0a]).
Proof.
  unfold fits_again. assert (compact_records (records (demo_line ++ [x0a])) = [stamp demo_rec]) as ->
    by (vm_compute; reflexivity).
  intros r l ->%list_elem_of_singleton Hl. assert (l = demo_line) as ->; [|apply demo_line_short].
  unfold line_of in Hl. unfold demo_line.
  assert (stamp (stamp demo_rec) = stamp demo_rec) as Hst by (vm_compute; reflexivity).
  rewrite Hst in Hl. by rewrite Hl.
Qed.

Lemma restart_keeps_queue_witness :
  ∃ s' d1 w2 d2 x2, shutdown no_faults demo_running_server = (Ret (inFlight demo_running_server), s') ∧
    draining s' = true ∧ storage (broker s') = Some d1 ∧
    boot no_faults true d1 = (Ret None, w2) ∧ wf w2 ∧ storage w2 = Some d2 ∧
    topic_at w2 "t" = Some x2 ∧ all_messages x2 ≡ₚ all_messages demo_queue ∧
    all_messages x2 = live (disk_log demo_running_disk "t") ∧
    load_records (records (default [] (file d2 (logFilePath "./data" "t")))) = all_messages x2.
Proof.
  apply (restart_keeps_queue no_faults (λ _, eq_refl) demo_running_server demo_running_disk).
  - done.
  - split; [done|]. unfold plain_dir.
    assert (ReadDir demo_running_disk = ["t.log"]) as -> by (vm_compute; reflexivity).
    intros base t ->%list_elem_of_singleton Ht.
    assert (recover_name "t.log" = Some "t") as Hn by (vm_compute; reflexivity). rewrite Hn in Ht.
    injection Ht as <-. split; [by vm_compute|by split].
  - by split.
  - vm_compute. reflexivity.
  - apply demo_running_mirrors.
  - assert (put_ids (disk_log demo_running_disk "t") = ["id-1"]) as -> by (vm_compute; reflexivity).
    apply NoDup_singleton.
  - exists (demo_line ++ [x0a]). split; [vm_compute; reflexivity|apply demo_fits_again].
Defined.
