(* ===== verification/Url.v ===== *)
(** * Escaping and query strings of [net/url]

    [QueryEscape], [PathEscape] and [Values.Encode] on the side of the clients,
    [PathUnescape] on the side of the server (its query parser is in [Http.v]), and the
    round trips the requests of the clients rely on. *)

From Stdlib Require Import Ascii.
From stdpp Require Import sorting.
From S2P Require Import Prelude.
From S2P Require Import GoLib.
From S2P Require Import Wire.
From S2P Require Import Http.

Module url.

(** Letters, digits and [-_.~] are never escaped; a path segment also keeps [$&+:=@]. *)
Definition unreserved (c : ascii) : bool :=
  let n := N_of_ascii c in
  ((97 <=? n) && (n <=? 122) || (65 <=? n) && (n <=? 90) || (48 <=? n) && (n <=? 57))%N ||
  existsb (Ascii.eqb c) ["-"; "_"; "."; "~"]%char.
Definition segment_plain (c : ascii) : bool :=
  unreserved c || existsb (Ascii.eqb c) ["$"; "&"; "+"; ":"; "="; "@"]%char.

Definition upperhex (n : N) : ascii := ascii_of_N (if n <? 10 then 48 + n else 55 + n)%N.
Definition percent (c : ascii) : string :=
  String "%" (String (upperhex (N_of_ascii c / 16)) (String (upperhex (N_of_ascii c mod 16)) "")).

Definition query_char (c : ascii) : string :=
  if unreserved c then String c "" else if Ascii.eqb c " " then "+" else percent c.
Definition segment_char (c : ascii) : string :=
  if segment_plain c then String c "" else percent c.

Fixpoint QueryEscape (s : string) : string :=
  match s with
  | EmptyString => ""
  | String c s' => query_char c +:+ QueryEscape s'
  end.
Fixpoint PathEscape (s : string) : string :=
  match s with
  | EmptyString => ""
  | String c s' => segment_char c +:+ PathEscape s'
  end.

(** How the server decodes the path; [None] is an error. *)
Fixpoint PathUnescape (s : string) : option string :=
  match s with
  | EmptyString => Some ""
  | String c s' =>
      if Ascii.eqb c "%" then
        match s' with
        | String a (String b r) =>
            match hex_value a, hex_value b with
            | Some x, Some y => String (ascii_of_N (16 * x + y)) <$> PathUnescape r
            | _, _ => None
            end
        | _ => None
        end
      else String c <$> PathUnescape s'
  end.

(** [Values.Encode] on parameters of one value each, in the order of their names *)
Definition key_le (a b : string * string) : Prop := String.leb a.1 b.1 = true.
#[global] Instance key_le_dec : RelDecision key_le.
Proof. intros a b. unfold key_le. apply _. Defined.

Definition pair_text (kv : string * string) : string := QueryEscape kv.1 +:+ "=" +:+ QueryEscape kv.2.
Definition Encode (params : list (string * string)) : string :=
  strings.Join (pair_text <$> merge_sort key_le params) "&".

(** [url.ParseQuery] without its error, and [Values.Set] *)
Definition ParseQuery (q : string) : list (string * string) := omap query_pair (strings.Split q "&").
Definition Set_ (k v : string) (params : list (string * string)) : list (string * string) :=
  filter (λ kv, kv.1 ≠ k) params ++ [(k, v)].

(** The decoded path and the raw query [url.Parse] finds after the host; [None] is an
    error.  A fragment is not sent. *)
Definition control (c : ascii) : bool := let n := N_of_ascii c in ((n <? 32) || (n =? 127))%N.
Definition Parse (s : string) : option (string * string) :=
  if negb (strings.forall_chars (λ c, negb (control c)) s) then None
  else
    let '(s, fragment) := default (s, "") (strings.Cut s "#") in
    let '(p, q) := default (s, "") (strings.Cut s "?") in
    _ ← PathUnescape fragment;
    p ← PathUnescape p;
    Some (p, q).

(** ** Round trips *)

(** Every character comes back from its escape and no escape holds a delimiter. *)
Lemma query_char_back c r :
  QueryUnescape (query_char c +:+ r) = String c <$> QueryUnescape r.
Proof. by destruct c as [[] [] [] [] [] [] [] []]. Qed.
Lemma segment_char_back c r :
  PathUnescape (segment_char c +:+ r) = String c <$> PathUnescape r.
Proof. by destruct c as [[] [] [] [] [] [] [] []]. Qed.
Lemma query_char_lacks c :
  lacks "&" (query_char c) && lacks "=" (query_char c) && lacks ";" (query_char c) = true.
Proof. by destruct c as [[] [] [] [] [] [] [] []]. Qed.

Lemma QueryUnescape_Escape s : QueryUnescape (QueryEscape s) = Some s.
Proof. induction s as [|c s IH]; [done|]. cbn [QueryEscape]. by rewrite query_char_back, IH. Qed.
Lemma PathUnescape_Escape s : PathUnescape (PathEscape s) = Some s.
Proof. induction s as [|c s IH]; [done|]. cbn [PathEscape]. by rewrite segment_char_back, IH. Qed.

Lemma QueryEscape_lacks s :
  lacks "&" (QueryEscape s) = true ∧ lacks "=" (QueryEscape s) = true ∧ lacks ";" (QueryEscape s) = true.
Proof.
  induction s as [|c s (H1 & H2 & H3)]; [done|]. cbn [QueryEscape]. rewrite !lacks_app.
  pose proof (query_char_lacks c) as [[-> ->]%andb_true_iff ->]%andb_true_iff. done.
Qed.

Lemma Contains_lacks c s : lacks c s = true → strings.Contains s (String c "") = false.
Proof. intros H. rewrite Contains_char. unfold lacks in H. by rewrite H. Qed.

Lemma query_pair_text kv : query_pair (pair_text kv) = Some kv.
Proof.
  destruct kv as [k v]. unfold query_pair, pair_text. cbn [fst snd].
  destruct (QueryEscape_lacks k) as (_ & He & Hs), (QueryEscape_lacks v) as (_ & _ & Hs').
  rewrite Contains_lacks by (rewrite !lacks_app, Hs, Hs'; done).
  rewrite (proj2 (String.eqb_neq _ _)) by (destruct (QueryEscape k); done).
  change ("=" +:+ ?x) with (String "=" x). rewrite Cut_first by done. cbn [from_option id].
  by rewrite !QueryUnescape_Escape.
Qed.

(** The server reads the parameters the client encoded. *)
Lemma Query_pairs r l : RawQuery r = strings.Join (pair_text <$> l) "&" → Query r = l.
Proof.
  unfold Query. intros ->. destruct l as [|kv l]; [done|]. rewrite fmap_cons, Split_Join, <-fmap_cons.
  - induction (kv :: l) as [|x l' IH]; [done|].
    cbn [fmap list_fmap]. rewrite omap_cons, query_pair_text. by f_equal.
  - rewrite <-fmap_cons. apply Forall_fmap, Forall_true. intros [k v]. unfold compose, pair_text. cbn [fst snd].
    rewrite !lacks_app. by rewrite !(proj1 (QueryEscape_lacks _)).
Qed.
Lemma Query_Encode r params : RawQuery r = Encode params → Query r = merge_sort key_le params.
Proof. apply Query_pairs. Qed.

Lemma find_key (l : list (string * string)) k v :
  NoDup l.*1 → (k, v) ∈ l → List.find (λ kv, String.eqb kv.1 k) l = Some (k, v).
Proof.
  induction l as [|[k' v'] l IH]; [by intros _ ?%elem_of_nil|]. cbn [fmap list_fmap List.find fst].
  intros [Hk Hnd]%NoDup_cons [[= <- <-]|Hin]%elem_of_cons; [by rewrite String.eqb_refl|].
  rewrite (proj2 (String.eqb_neq _ _)); [by apply IH|]. intros ->. apply Hk.
  apply list_elem_of_fmap. by exists (k, v).
Qed.

Lemma query_get_Encode r params k v :
  RawQuery r = Encode params → NoDup params.*1 → (k, v) ∈ params → query_get r k = v.
Proof.
  intros Hq Hnd Hin. unfold query_get. rewrite (Query_Encode r params Hq).
  pose proof (merge_sort_Permutation key_le params) as Hp.
  rewrite (find_key _ k v); [done|by rewrite Hp|by rewrite Hp].
Qed.

Lemma query_get_Encode_absent r params k :
  RawQuery r = Encode params → k ∉ params.*1 → query_get r k = "".
Proof.
  intros Hq Hin. unfold query_get. rewrite (Query_Encode r params Hq).
  destruct (List.find _ _) as [[k' v]|] eqn:E; [|done].
  apply find_some in E as [Hin' Hk%String.eqb_eq]. cbn in Hk. subst k'. exfalso. apply Hin.
  apply list_elem_of_In in Hin'. rewrite merge_sort_Permutation in Hin'.
  apply list_elem_of_fmap. by exists (k, v).
Qed.

(** [Values.Get] *)
Definition Get (params : list (string * string)) (k : string) : string :=
  match List.find (λ kv, String.eqb kv.1 k) params with Some (_, v) => v | None => "" end.

Lemma find_filter_key (l : list (string * string)) k k' :
  List.find (λ kv, String.eqb kv.1 k) (filter (λ kv, kv.1 ≠ k') l) =
  if String.eqb k k' then None else List.find (λ kv, String.eqb kv.1 k) l.
Proof.
  induction l as [|[x v] l IH]; [by destruct (String.eqb k k')|].
  rewrite filter_cons. cbn [fst List.find]. case_decide as Hx; cbn [List.find fst]; rewrite IH.
  - destruct (String.eqb_spec x k), (String.eqb_spec k k'); by subst.
  - subst x. destruct (String.eqb_spec k k') as [->|Hk]; [done|].
    by rewrite (proj2 (String.eqb_neq k' k)).
Qed.

Lemma Get_Set k v params k' : Get (Set_ k v params) k' = if String.eqb k' k then v else Get params k'.
Proof.
  unfold Get, Set_. assert (∀ l, List.find (λ kv : string * string, String.eqb kv.1 k') (l ++ [(k, v)]) =
    match List.find (λ kv, String.eqb kv.1 k') l with
    | Some x => Some x | None => if String.eqb k k' then Some (k, v) else None end) as Happ.
  { induction l as [|x l IH]; cbn [app List.find fst]; [by destruct (String.eqb k k')|].
    destruct (String.eqb x.1 k'); done. }
  rewrite Happ, find_filter_key. rewrite (String.eqb_sym k k').
  destruct (String.eqb k' k); [done|]. by destruct (List.find _ params).
Qed.

Lemma Set_nodup k v params : NoDup params.*1 → NoDup (Set_ k v params).*1.
Proof.
  intros Hnd. unfold Set_. rewrite fmap_app. apply NoDup_app. split_and!.
  - induction params as [|x l IH]; [done|]. rewrite filter_cons. cbn in Hnd. apply NoDup_cons in Hnd as [Hx Hnd].
    case_decide; [|by apply IH]. apply NoDup_cons. split; [|by apply IH].
    intros (y & Hy & [_ Hin]%list_elem_of_filter)%list_elem_of_fmap. apply Hx. rewrite Hy.
    by apply list_elem_of_fmap_2.
  - intros x (y & -> & [Hy _]%list_elem_of_filter)%list_elem_of_fmap. by intros ?%list_elem_of_singleton.
  - by apply NoDup_singleton.
Qed.

(** What the server gets is what the client set. *)
Lemma query_get_Get r params k :
  RawQuery r = Encode params → NoDup params.*1 → query_get r k = Get params k.
Proof.
  intros Hq Hnd. unfold Get. destruct (List.find _ params) as [[k' v]|] eqn:E.
  - apply find_some in E as [Hin Hk%String.eqb_eq]. cbn in Hk. subst k'.
    apply list_elem_of_In in Hin. by eapply query_get_Encode.
  - eapply query_get_Encode_absent; [done|]. intros ([k' v] & -> & Hin)%list_elem_of_fmap.
    apply list_elem_of_In in Hin. apply (find_none _ _ E) in Hin. cbn in Hin. by rewrite String.eqb_refl in Hin.
Qed.

(** A path of letters, digits and harmless punctuation is itself. *)
Definition plain_path (s : string) : bool :=
  strings.forall_chars (λ c, unreserved c || Ascii.eqb c "/" || Ascii.eqb c ":") s.

Lemma plain_path_char c : unreserved c || Ascii.eqb c "/" || Ascii.eqb c ":" = true →
  control c = false ∧ Ascii.eqb "#" c = false ∧ Ascii.eqb "?" c = false ∧ Ascii.eqb "%" c = false ∧
  Ascii.eqb "&" c = false.
Proof. by destruct c as [[] [] [] [] [] [] [] []]. Qed.

Lemma plain_path_lacks s : plain_path s = true →
  strings.forall_chars (λ c, negb (control c)) s = true ∧ lacks "#" s = true ∧ lacks "?" s = true ∧
  lacks "%" s = true ∧ lacks "&" s = true.
Proof.
  intros Hs. unfold lacks. split_and!; (eapply forall_chars_impl; [|exact Hs]); intros c Hc;
    destruct (plain_path_char c Hc) as (E1 & E2 & E3 & E4 & E5); by rewrite ?E1, ?E2, ?E3, ?E4, ?E5.
Qed.

Lemma PathUnescape_plain s : lacks "%" s = true → PathUnescape s = Some s.
Proof.
  induction s as [|c s IH]; [done|]. unfold lacks. cbn [strings.forall_chars PathUnescape].
  intros [Hc Hs]%andb_true_iff. rewrite Ascii.eqb_sym in Hc. apply negb_true_iff in Hc. rewrite Hc. by rewrite IH.
Qed.

Lemma Parse_plain s : plain_path s = true → Parse s = Some (s, "").
Proof.
  intros Hs. destruct (plain_path_lacks s Hs) as (H1 & H2 & H3 & H4 & _). unfold Parse.
  rewrite H1. cbn [negb]. rewrite (Cut_lacks "#") by done. cbn [from_option id].
  rewrite (Cut_lacks "?") by done. cbn [from_option id PathUnescape mbind option_bind].
  by rewrite PathUnescape_plain.
Qed.

Lemma Parse_query s q : plain_path s = true → lacks "#" q = true →
  strings.forall_chars (λ c, negb (control c)) q = true → Parse (s +:+ "?" +:+ q) = Some (s, q).
Proof.
  intros Hs Hq Hc. destruct (plain_path_lacks s Hs) as (H1 & H2 & H3 & H4 & _). unfold Parse.
  rewrite !forall_chars_app, H1, Hc. cbn [negb andb strings.forall_chars].
  change (negb (control "?") && true) with true. cbn [negb andb].
  rewrite (Cut_lacks "#") by (rewrite !lacks_app, H2, Hq; done). cbn [from_option id].
  change ("?" +:+ q) with (String "?" q). rewrite Cut_first by done.
  cbn [from_option id PathUnescape mbind option_bind]. by rewrite PathUnescape_plain.
Qed.

(** Nothing in an escaped text is special in a query. *)
Lemma query_char_plain c :
  lacks "#" (query_char c) && strings.forall_chars (λ c, negb (control c)) (query_char c) = true.
Proof. by destruct c as [[] [] [] [] [] [] [] []]. Qed.

Lemma QueryEscape_plain s :
  lacks "#" (QueryEscape s) = true ∧ strings.forall_chars (λ c, negb (control c)) (QueryEscape s) = true.
Proof.
  induction s as [|c s (H1 & H2)]; [done|]. cbn [QueryEscape]. rewrite lacks_app, forall_chars_app.
  pose proof (query_char_plain c) as [-> ->]%andb_true_iff. done.
Qed.

(** A path segment escaped by the client is the one the server sees. *)
Lemma segment_char_plain c :
  lacks "#" (segment_char c) && lacks "?" (segment_char c) &&
  strings.forall_chars (λ c, negb (control c)) (segment_char c) = true.
Proof. by destruct c as [[] [] [] [] [] [] [] []]. Qed.

Lemma PathEscape_plain s :
  lacks "#" (PathEscape s) = true ∧ lacks "?" (PathEscape s) = true ∧
  strings.forall_chars (λ c, negb (control c)) (PathEscape s) = true.
Proof.
  induction s as [|c s (H1 & H2 & H3)]; [done|]. cbn [PathEscape]. rewrite !lacks_app, forall_chars_app.
  pose proof (segment_char_plain c) as [[-> ->]%andb_true_iff ->]%andb_true_iff. done.
Qed.

Lemma PathUnescape_prefix a b : lacks "%" a = true →
  PathUnescape (a +:+ b) = String.append a <$> PathUnescape b.
Proof.
  induction a as [|c a IH]; [intros _; cbn [String.append]; by destruct (PathUnescape b)|]. unfold lacks.
  cbn [strings.forall_chars String.append PathUnescape].
  intros [Hc Hs]%andb_true_iff. rewrite Ascii.eqb_sym in Hc. apply negb_true_iff in Hc. rewrite Hc, IH by done.
  by destruct (PathUnescape b).
Qed.

Lemma Parse_segment prefix topic q : plain_path prefix = true → lacks "#" q = true →
  strings.forall_chars (λ c, negb (control c)) q = true →
  Parse (prefix +:+ PathEscape topic +:+ "?" +:+ q) = Some (prefix +:+ topic, q).
Proof.
  intros Hp Hq Hc. destruct (plain_path_lacks prefix Hp) as (H1 & H2 & H3 & H4 & _).
  destruct (PathEscape_plain topic) as (E1 & E2 & E3). unfold Parse.
  rewrite !forall_chars_app, H1, E3, Hc. change (strings.forall_chars (λ c, negb (control c)) "?") with true.
  cbn [negb andb]. rewrite (Cut_lacks "#") by (rewrite !lacks_app, H2, E1, Hq; done). cbn [from_option id].
  rewrite <-str_app_assoc. change ("?" +:+ q) with (String "?" q).
  rewrite Cut_first by (by rewrite lacks_app, H3, E2).
  cbn [from_option id PathUnescape mbind option_bind]. by rewrite PathUnescape_prefix, PathUnescape_Escape.
Qed.

Lemma query_char_blank c : lacks " " (query_char c) = true.
Proof. by destruct c as [[] [] [] [] [] [] [] []]. Qed.
Lemma QueryEscape_blank s : lacks " " (QueryEscape s) = true.
Proof. induction s as [|c s IH]; [done|]. cbn [QueryEscape]. by rewrite lacks_app, query_char_blank. Qed.

Lemma lacks_Join c sep l :
  lacks c sep = true → Forall (λ s, lacks c s = true) l → lacks c (strings.Join l sep) = true.
Proof.
  intros Hsep Hl. induction Hl as [|x l Hx Hl IH]; [done|]. destruct l as [|y l]; [done|].
  by rewrite Join_cons, !lacks_app, Hx, Hsep, IH.
Qed.

(** An encoded query is harmless in a URL. *)
Lemma Encode_query_plain params :
  lacks "#" (Encode params) = true ∧ strings.forall_chars (λ c, negb (control c)) (Encode params) = true.
Proof.
  unfold Encode. split.
  - apply lacks_Join; [done|]. apply Forall_fmap, Forall_true. intros [k v]. unfold compose, pair_text. cbn [fst snd].
    by rewrite !lacks_app, !(proj1 (QueryEscape_plain _)).
  - induction (merge_sort key_le params) as [|[k v] l IH]; [done|].
    assert (strings.forall_chars (λ c, negb (control c)) (pair_text (k, v)) = true) as Hkv.
    { unfold pair_text. cbn [fst snd]. by rewrite !forall_chars_app, !(proj2 (QueryEscape_plain _)). }
    destruct l as [|y l]; [done|]. rewrite !fmap_cons, Join_cons, !forall_chars_app, Hkv, <-fmap_cons, IH. done.
Qed.

(** A number needs no escape. *)
Lemma digit_unreserved c d : Ascii.is_nat c = Some d → query_char c = String c "".
Proof. by destruct c as [[] [] [] [] [] [] [] []]. Qed.
Lemma QueryEscape_digits s acc z : digits acc s = Some z → QueryEscape s = s.
Proof.
  revert acc. induction s as [|c s IH]; intros acc; [done|]. cbn [digits QueryEscape].
  destruct (Ascii.is_nat c) as [d|] eqn:E; [|done]. intros Hs%IH. by rewrite (digit_unreserved c d E), Hs.
Qed.
Lemma QueryEscape_Itoa n : (0 ≤ n)%Z → QueryEscape (Itoa n) = Itoa n.
Proof. intros Hn. rewrite <-(Z2Nat.id n), Itoa_nat by done. eapply QueryEscape_digits, digits_pretty. Qed.

(** An encoded query holds no blank. *)
Lemma Encode_blank params : strings.Contains (Encode params) " " = false.
Proof.
  apply Contains_lacks, lacks_Join; [done|]. apply Forall_fmap, Forall_true. intros [k v].
  unfold compose, pair_text. cbn [fst snd]. by rewrite !lacks_app, !QueryEscape_blank.
Qed.

End url.

(** A query with every kind of character. *)
Example encode_example :
  url.Encode [("queue", "a/b c"); ("limit", "5")] = "limit=5&queue=a%2Fb+c".
Proof. vm_compute. reflexivity. Qed.
