(* ===== verification/Client.v ===== *)
(** * The Go client library over WebSocket ([client/ws.go])

    The WebSocket client: the request it opens a connection with, the frames it writes,
    what it makes of the frames it reads and how it reconnects, against the server of
    [Frames.v], [Ws.v] and [Rest.v].  A handler is the topic it is registered for; a call
    of it is a delivered message. *)

From Stdlib Require Import Ascii.
From Stdlib Require Import Strings.Byte.
From S2P Require Import Prelude.
From S2P Require Import GoLib.
From S2P Require Import Base64.
From S2P Require Import Message.
From S2P Require Import Wal.
From S2P Require Import Storage.
From S2P Require Import Codec.
From S2P Require Import Demo.
From S2P Require Import Broker.
From S2P Require Import BrokerPublish.
From S2P Require Import Frames.
From S2P Require Import Http.
From S2P Require Import Url.
From S2P Require Import Rest.
From S2P Require Import RestProps.

(** ** The WebSocket client *)

Record wsCommand : Type := MkWsCommand { wc_Action : string; wc_Topic : string; wc_Payload : string }.

Record WSClient : Type := MkWSClient {
  handlers : gset string;
  (** the masks drawn so far, and the frames written on the connection *)
  drawn : nat;
  written : list bytes;
  (** the frames the connection still takes; [None]: all *)
  takes : option nat;
  (** [stop] is closed *)
  stopped : bool
}.
Definition set_handlers (hs : gset string) (c : WSClient) : WSClient :=
  MkWSClient hs (drawn c) (written c) (takes c) (stopped c).

(** [NewWSClient]: the client, if the connection was opened *)
Definition NewWSClient (dialed : bool) : option WSClient :=
  if dialed then Some (MkWSClient ∅ 0 [] None false) else None.

(** What the client uses of [encoding/json] and [crypto/rand]. *)
Class ClientCodec : Type := {
  marshal_command : wsCommand → bytes;
  (** the member names of a JSON object; [None]: it is none *)
  json_keys : bytes → option (gset string);
  json_to_message : bytes → option Message;
  mask_key : nat → bytes
}.

Section ws_client.
Context `{C : ClientCodec}.
Abbreviation MC := (M WSClient).

(** [writeFrame] and [writePingFrame]: a random mask, then the frame, as long as the
    connection holds *)
Definition write_with (frame : bytes → bytes) : MC error :=
  c ← get;
  modify (λ c, MkWSClient (handlers c) (S (drawn c)) (written c) (takes c) (stopped c)) ;;
  match takes c with
  | Some O => mret (Some "write: broken pipe")
  | t => modify (λ c, MkWSClient (handlers c) (drawn c) (written c ++ [frame (mask_key (pred (drawn c)))])
                        (pred <$> t) (stopped c)) ;;
         mret None
  end.
Definition writeFrame (payload : bytes) : MC error := write_with (λ mask, client_frame mask payload).
Definition writePingFrame : MC error := write_with ping_frame.

Definition Subscribe (topic : string) : MC error :=
  modify (λ c, set_handlers ({[topic]} ∪ handlers c) c) ;;
  writeFrame (marshal_command (MkWsCommand "subscribe" topic "")).

Definition Unsubscribe (topic : string) : MC error :=
  c ← get;
  modify (λ c, set_handlers (handlers c ∖ {[topic]}) c) ;;
  if bool_decide (topic ∈ handlers c)
  then writeFrame (marshal_command (MkWsCommand "unsubscribe" topic ""))
  else mret None.

Definition Publish (topic : string) (payload : bytes) : MC error :=
  writeFrame (marshal_command (MkWsCommand "publish" topic (string_of_bytes payload))).

(** After a reconnection every handler's topic is subscribed again. *)
Fixpoint subscribe_all (topics : list string) : MC error :=
  match topics with
  | [] => mret None
  | topic :: topics' =>
      err ← writeFrame (marshal_command (MkWsCommand "subscribe" topic ""));
      match err with
      | Some e => mret (Some e)
      | None => subscribe_all topics'
      end
  end.
Definition resubscribeAll : MC error := c ← get; subscribe_all (elements (handlers c)).

(** A tick of [startKeepalive]: whether the goroutine goes on. *)
Definition keepalive_tick : MC bool :=
  c ← get;
  if stopped c then mret false
  else err ← writePingFrame; mret (match err with None => true | Some _ => false end).

(** [Close] closes the connection; a second call does nothing more. *)
Definition Close : MC unit :=
  modify (λ c, if stopped c then c else MkWSClient (handlers c) (drawn c) (written c) (Some 0) true).

(** One round of [readLoop]. *)
Inductive received : Type := RReconnect | RIgnored | RDelivered (m : Message).

Definition set_Payload (p : bytes) (m : Message) : Message :=
  MkMessage (ID m) (Message.Topic m) p (Timestamp m) (ExpiresAt m) (DeliverAt m) (RetryCount m) (Headers m).

(** The payload is decoded once more when it is itself Base64 text. *)
Definition redecode (m : Message) : Message :=
  match DecodeString (string_of_bytes (Payload m)) with
  | Some decoded => set_Payload decoded m
  | None => m
  end.

Definition on_frame (handlers : gset string) (opCode : Z) (payload : bytes) : received :=
  if (opCode =? 8)%Z then RReconnect
  else if (opCode =? 10)%Z then RIgnored
  else
    match json_keys payload with
    | None => RIgnored
    | Some keys =>
        if bool_decide ("status" ∈ keys) then RIgnored
        else
          match json_to_message payload with
          | None => RIgnored
          | Some msg =>
              let msg := redecode msg in
              if bool_decide (Message.Topic msg ∈ handlers) then RDelivered msg else RIgnored
          end
    end.

Definition read_round_client (handlers : gset string) : M bytes received :=
  r ← readFrame;
  mret (match r with
        | None => RReconnect
        | Some (opCode, payload) => on_frame handlers opCode payload
        end).

(** [handleReconnection]: the wait before the next attempt, in nanoseconds *)
Definition second : Z := 1000000000.
Definition maxBackoff : Z := 32 * second.
Definition next_backoff (backoff : Z) : Z :=
  let backoff := (backoff * 2)%Z in
  if (maxBackoff <? backoff)%Z then maxBackoff else backoff.

(** What an attempt meets: the client is closed, the server cannot be reached, or there is
    a connection, which takes some frames or all. *)
Inductive attempt : Type := AStopped | AUnreachable | ADialed (takes : option nat).

Definition fresh_conn (t : option nat) : MC unit :=
  modify (λ c, MkWSClient (handlers c) (drawn c) [] t (stopped c)).
Definition close_conn : MC unit :=
  modify (λ c, MkWSClient (handlers c) (drawn c) (written c) (Some 0) (stopped c)).

(** The result, once there is one, and the times waited. *)
Fixpoint handleReconnection (backoff : Z) (l : list attempt) : MC (option error * list Z) :=
  match l with
  | [] => mret (None, [])
  | AStopped :: _ => Close ;; mret (Some (Some "client stopped intentionally"), [])
  | AUnreachable :: l' =>
      close_conn ;;
      res ← handleReconnection (next_backoff backoff) l'; mret (res.1, backoff :: res.2)
  | ADialed t :: l' =>
      close_conn ;; fresh_conn t ;;
      err ← resubscribeAll;
      match err with
      | None => mret (Some None, [backoff])
      | Some _ => res ← handleReconnection (next_backoff backoff) l'; mret (res.1, backoff :: res.2)
      end
  end.

(** *** The read loop *)

(** Running a reader on the bytes [b] of the connection. *)
Definition on_stream {A} (c : M bytes A) (b : bytes) : MC (A * bytes) := λ s,
  match c b with
  | (Ret a, rest) => (Ret (a, rest), s)
  | (Panic why, _) => (Panic why, s)
  | (Deadlock, _) => (Deadlock, s)
  | (Crash, _) => (Crash, s)
  end.

(** A connection is read up to its end, which is also what a broken frame means.  Every
    round that goes on has read two bytes. *)
Fixpoint read_conn (fuel : nat) (b : bytes) : MC (list Message) :=
  match fuel with
  | O => deadlock
  | S n =>
      c ← get;
      '(r, rest) ← on_stream (read_round_client (handlers c)) b;
      match r with
      | RReconnect => mret []
      | RIgnored => read_conn n rest
      | RDelivered m => ms ← read_conn n rest; mret (m :: ms)
      end
  end.

(** What is received on each connection, and what the attempts to get the next one meet:
    the messages handed to the handlers, and whether the loop has ended. *)
Fixpoint readLoop (conns : list (bytes * list attempt)) : MC (list Message * bool) :=
  match conns with
  | [] => mret ([], false)
  | (b, attempts) :: conns' =>
      ms ← read_conn (S (length b)) b;
      c ← get;
      if stopped c then mret (ms, true)
      else
        res ← handleReconnection second attempts;
        match res.1 with
        | Some None => res' ← readLoop conns'; mret (ms ++ res'.1, res'.2)
        | Some (Some _) => mret (ms, true)
        | None => mret (ms, false)
        end
  end.

(** ** Reconnection *)

Definition subscribe_frame (k i : nat) (topic : string) : bytes :=
  client_frame (mask_key (k + i)) (marshal_command (MkWsCommand "subscribe" topic "")).

(** A connection that takes everything gets all subscriptions. *)
Lemma subscribe_all_sent l : ∀ c, (∀ n, takes c = Some n → length l ≤ n) →
  ∃ t, subscribe_all l c =
    (Ret None, MkWSClient (handlers c) (drawn c + length l) (written c ++ imap (subscribe_frame (drawn c)) l) t (stopped c)).
Proof.
  induction l as [|topic l IH]; intros c Ht; cbn [subscribe_all length].
  - exists (takes c). rewrite Nat.add_0_r, app_nil_r. by destruct c.
  - set (c1 := MkWSClient (handlers c) (S (drawn c)) (written c ++ [subscribe_frame (drawn c) 0 topic])
                 (pred <$> takes c) (stopped c)).
    rewrite (run_bind _ _ c None c1).
    + destruct (IH c1) as [t Hrun].
      { cbn. intros n Hn. destruct (takes c) as [m|]; [|done]. injection Hn as <-. specialize (Ht m eq_refl). cbn in Ht. lia. }
      exists t. rewrite Hrun. cbn [handlers drawn written stopped c1 imap]. rewrite Nat.add_succ_r, <-app_assoc.
      do 3 f_equal. cbn [app]. f_equal. apply imap_ext. intros i x _. unfold subscribe_frame, compose. do 2 f_equal. lia.
    + unfold writeFrame, write_with, c1, subscribe_frame. rewrite Nat.add_0_r.
      destruct c as [hs dr wr [[|n]|] st]; cbn in *; [by specialize (Ht 0 eq_refl); lia|done|done].
Qed.

(** One that breaks before the last of them reports an error. *)
Lemma subscribe_all_breaks l : ∀ c n, takes c = Some n → n < length l →
  ∃ e c', subscribe_all l c = (Ret (Some e), c') ∧ handlers c' = handlers c ∧ stopped c' = stopped c.
Proof.
  induction l as [|topic l IH]; intros [hs dr wr t st] n Ht Hn; cbn in Ht, Hn; [lia|]. subst t.
  cbn [subscribe_all]. destruct n as [|n].
  - erewrite run_bind by reflexivity. by eexists _, _.
  - erewrite run_bind by reflexivity. cbv beta iota.
    edestruct (IH (MkWSClient hs (S dr) (wr ++ [client_frame (mask_key dr)
      (marshal_command (MkWsCommand "subscribe" topic ""))]) (Some n) st) n) as (e & c' & Hrun & Hh & Hs); [done|lia|].
    exists e, c'. split; [exact Hrun|done].
Qed.

Lemma next_backoff_bounds b : (second ≤ b ≤ maxBackoff)%Z → (second ≤ next_backoff b ≤ maxBackoff)%Z.
Proof. unfold next_backoff, maxBackoff, second. cbv zeta. case_match; lia. Qed.

(** An attempt that fails, and a connection that holds for all subscriptions. *)
Definition fails (n : nat) (a : attempt) : Prop := a = AUnreachable ∨ ∃ k, a = ADialed (Some k) ∧ k < n.
Definition holds (n : nat) (t : option nat) : Prop := ∀ k, t = Some k → n ≤ k.

Lemma reconnect_from tries t : ∀ backoff c,
  (second ≤ backoff ≤ maxBackoff)%Z → Forall (fails (size (handlers c))) tries → holds (size (handlers c)) t →
  ∃ waits c', handleReconnection backoff (tries ++ [ADialed t]) c = (Ret (Some None, waits), c') ∧
    length waits = S (length tries) ∧ Forall (λ w, second ≤ w ≤ maxBackoff)%Z waits ∧
    handlers c' = handlers c ∧ stopped c' = stopped c ∧
    ∃ k, written c' = imap (subscribe_frame k) (elements (handlers c)).
Proof.
  induction tries as [|a tries IH]; intros backoff c Hb Htries Ht; cbn [app handleReconnection].
  - erewrite run_bind by reflexivity. erewrite run_bind by reflexivity.
    destruct (subscribe_all_sent (elements (handlers c)) (MkWSClient (handlers c) (drawn c) [] t (stopped c)))
      as [t' Hrun]; [by intros k Hk; apply Ht|]. rewrite (run_bind resubscribeAll _ _ _ _ Hrun).
    eexists _, _. split_and!; [done|done|by apply Forall_singleton|done|done|]. by exists (drawn c).
  - apply Forall_cons in Htries as [Ha Htries]. pose proof (next_backoff_bounds _ Hb) as Hb'.
    assert (∀ c1, handlers c1 = handlers c → stopped c1 = stopped c → ∃ waits c',
      (res ← handleReconnection (next_backoff backoff) (tries ++ [ADialed t]); mret (res.1, backoff :: res.2)) c1 =
        (Ret (Some None, waits), c') ∧ length waits = S (length (a :: tries)) ∧
      Forall (λ w, second ≤ w ≤ maxBackoff)%Z waits ∧ handlers c' = handlers c ∧ stopped c' = stopped c ∧
      ∃ k, written c' = imap (subscribe_frame k) (elements (handlers c))) as Hgo.
    { intros c1 Hh Hs. rewrite <-Hh in Htries, Ht. destruct (IH _ c1 Hb' Htries Ht) as (ws & c' & Hrun & Hl & Hw & Hh' & Hs' & Hk).
      rewrite (run_bind _ _ _ _ _ Hrun). rewrite <-Hh, <-Hs. exists (backoff :: ws), c'.
      split_and!; [done|by cbn; rewrite Hl|by apply Forall_cons|done..]. }
    destruct Ha as [-> | (k & -> & Hk)].
    + erewrite run_bind by reflexivity. by apply Hgo.
    + erewrite run_bind by reflexivity. erewrite run_bind by reflexivity.
      destruct (subscribe_all_breaks (elements (handlers c)) (MkWSClient (handlers c) (drawn c) [] (Some k) (stopped c)) k)
        as (e & c1 & Hrun & Hh & Hs); [done|exact Hk|]. rewrite (run_bind resubscribeAll _ _ _ _ Hrun). by apply Hgo.
Qed.

End ws_client.


(** ** Opening the connection *)

(** What [dialAndHandshake] sends, as the server reads it; a blank in the key breaks the
    request line.  [addr] is the client's address, [secWSKey] its random key. *)
Definition dial_request (addr apiKey secWSKey : string) : option Request :=
  let query := if String.eqb apiKey "" then "" else "token=" +:+ apiKey in
  if strings.Contains query " " || negb (strings.forall_chars (λ c, negb (url.control c)) query) then None
  else Some (MkRequest "GET" "/ws" query
    (<["Upgrade" := ["websocket"]]> (<["Connection" := ["Upgrade"]]>
      (<["Sec-Websocket-Key" := [secWSKey]]> {["Sec-Websocket-Version" := ["13"]]}))) addr [] false).

(** Only the status of the answer is looked at. *)
Definition dial_accepted (status : Z) : bool := (status =? 101)%Z.

(** ** Against the server *)

Section delivery.
Context `{C : ClientCodec}.

(** The text of a message for a topic with a handler, as the server writes it. *)
Definition carries (hs : gset string) (data : bytes) (m : Message) : Prop :=
  (Z.of_nat (length data) ≤ MaxFrameSize)%Z ∧ (∃ keys, json_keys data = Some keys ∧ "status" ∉ keys) ∧
  json_to_message data = Some m ∧ Message.Topic m ∈ hs.

(** What happens to a text frame, whatever it holds. *)
Lemma read_text hs data rest :
  (Z.of_nat (length data) ≤ MaxFrameSize)%Z →
  read_round_client hs (server_frame data ++ rest) = (Ret (on_frame hs opCodeText data), rest).
Proof. intros Hlen. unfold read_round_client. by rewrite (run_bind _ _ _ _ _ (server_frame_read _ _ Hlen)). Qed.

Lemma read_frame_delivers hs data m rest : carries hs data m →
  read_round_client hs (server_frame data ++ rest) = (Ret (RDelivered (redecode m)), rest).
Proof.
  intros (Hlen & (keys & Hkeys & Hstatus) & Hjson & Htopic).
  rewrite read_text by done. unfold on_frame. simpl.
  rewrite Hkeys, bool_decide_eq_false_2 by done. rewrite Hjson. cbv zeta.
  rewrite bool_decide_eq_true_2; [done|]. unfold redecode. by case_match.
Qed.

(** From the server's frame to the handler: a message the server sends on a topic the
    client has a handler for (in JSON that is no status answer and reads back as the
    message) is delivered, and the client goes on after the frame; the handler gets the
    message unchanged when its payload is no Base64 text, and otherwise a message whose
    payload has been decoded once too often. *)
Theorem client_delivers handlers m data keys rest
    (Hlen : (Z.of_nat (length data) ≤ MaxFrameSize)%Z)
    (Hkeys : json_keys data = Some keys) (Hstatus : "status" ∉ keys)
    (Hjson : json_to_message data = Some m) (Htopic : Message.Topic m ∈ handlers) :
  read_round_client handlers (server_frame data ++ rest) = (Ret (RDelivered (redecode m)), rest) ∧
  (DecodeString (string_of_bytes (Payload m)) = None → redecode m = m) ∧
  (∀ b, Payload m = bytes_of_string (EncodeToString b) → redecode m = set_Payload b m).
Proof.
  split_and!.
  - apply read_frame_delivers. split_and!; [done|by exists keys|done|done].
  - intros Hd. unfold redecode. by rewrite Hd.
  - intros b Hb. unfold redecode. by rewrite Hb, string_of_bytes_of_string, decode_encode.
Qed.

End delivery.

(** Texts for the examples: one that starts with [!] is no JSON, with [s] a status answer,
    with [?] no message, with [u] a message on [u]; all others are messages on [t]. *)
#[global] Instance demo_client : ClientCodec := {|
  marshal_command c := bytes_of_string (wc_Action c +:+ " " +:+ wc_Topic c +:+ " " +:+ wc_Payload c);
  json_keys b := match b with x21 :: _ => None | x73 :: _ => Some {["status"]} | _ => Some ∅ end;
  json_to_message b :=
    match b with
    | x3f :: _ => None
    | x75 :: _ => Some (MkMessage "id-1" "u" b 0 None None 0 ∅)
    | _ => Some (MkMessage "id-1" "t" b 0 None None 0 ∅)
    end;
  mask_key n := [Zbyte (Z.of_nat n); x01; x02; x03]
|}.

Lemma client_delivers_witness :
  let data := bytes_of_string "aGk=" in
  let m := MkMessage "id-1" "t" data 0 None None 0 ∅ in
  read_round_client {["t"]} (server_frame data ++ [x81]) = (Ret (RDelivered (redecode m)), [x81]) ∧
  (DecodeString (string_of_bytes (Payload m)) = None → redecode m = m) ∧
  (∀ b, Payload m = bytes_of_string (EncodeToString b) → redecode m = set_Payload b m).
Proof.
  apply (client_delivers {["t"]} _ _ ∅); [vm_compute; discriminate|done|set_solver|done|set_solver].
Defined.


(** A key with a plus sign, which the query encoding turns into a blank, is refused. *)
Theorem plus_in_key_refused r :
  dial_request "10.0.0.9:5" "a+b" "k" = Some r → has_key "a+b" r = false.
Proof. intros [= <-]. vm_compute. reflexivity. Qed.

(** ** After a reconnection *)

Section resubscription.
Context `{C : ClientCodec}.

(** [C30] A lost connection comes back as it was: however often the server cannot be reached
    or drops the client again before all its subscriptions are written, once a connection
    holds the client has waited between one and 32 seconds before each attempt, still has
    its handlers, and has sent on the new connection exactly one subscription for each of
    them, in a frame the server reads. *)
Theorem reconnect_resubscribes tries t c
    (Htries : Forall (fails (size (handlers c))) tries) (Ht : holds (size (handlers c)) t)
    (Hmask : ∀ n, length (mask_key n) = 4)
    (Hsize : ∀ topic, topic ∈ handlers c →
      (Z.of_nat (length (marshal_command (MkWsCommand "subscribe" topic ""))) ≤ max_payload)%Z) :
  ∃ waits c' sent, handleReconnection second (tries ++ [ADialed t]) c = (Ret (Some None, waits), c') ∧
    length waits = S (length tries) ∧ Forall (λ w, second ≤ w ≤ maxBackoff)%Z waits ∧
    handlers c' = handlers c ∧
    written c' = sent.*2 ∧ sent.*1 ≡ₚ elements (handlers c) ∧
    Forall (λ tf, ∀ rest, read_round (tf.2 ++ rest) =
      (Ret (IFrame opCodeText (marshal_command (MkWsCommand "subscribe" tf.1 ""))), rest)) sent.
Proof.
  destruct (reconnect_from tries t second c) as (waits & c' & Hrun & Hlen & Hw & Hh & _ & k & Hk); [done..|].
  exists waits, c', (imap (λ i t, (t, subscribe_frame k i t)) (elements (handlers c))).
  split_and!; try done.
  - rewrite Hk, fmap_imap. by apply imap_ext.
  - rewrite fmap_imap, (imap_ext _ (λ _ t, t)), (imap_const id), list_fmap_id by done. done.
  - apply Forall_lookup. intros i [t' f]. rewrite list_lookup_imap_Some.
    intros (t'' & Ht' & [= -> ->]) rest. cbn [fst snd]. unfold subscribe_frame.
    apply client_frame_read; [done|]. apply Hsize, elem_of_elements. by eapply list_elem_of_lookup_2.
Qed.

(** A frame the server sends, and the messages the client makes of it: the answers to
    its own commands, pongs, texts that are no JSON or no message and messages for topics
    it has no handler for are passed over. *)
Inductive sends (hs : gset string) : bytes → list Message → Prop :=
| sends_message data m : carries hs data m → sends hs (server_frame data) [m]
| sends_pong : sends hs pong_frame []
| sends_status data keys :
    (Z.of_nat (length data) ≤ MaxFrameSize)%Z → json_keys data = Some keys → "status" ∈ keys →
    sends hs (server_frame data) []
| sends_garbage data :
    (Z.of_nat (length data) ≤ MaxFrameSize)%Z →
    json_keys data = None ∨ json_to_message data = None → sends hs (server_frame data) []
| sends_unhandled data m :
    (Z.of_nat (length data) ≤ MaxFrameSize)%Z → json_to_message data = Some m →
    Message.Topic m ∉ hs → sends hs (server_frame data) [].

(** The frames the server sends are complete frames. *)
Lemma sends_whole hs frame ms : sends hs frame ms → ∃ fr, readFrame frame = (Ret (Some fr), []).
Proof.
  assert (∀ data, (Z.of_nat (length data) ≤ MaxFrameSize)%Z →
    ∃ fr, readFrame (server_frame data) = (Ret (Some fr), [])) as Htext.
  { intros data Hd. rewrite <-(app_nil_r (server_frame data)), server_frame_read by done. eauto. }
  intros [data m [Hlen _]| | | |]; [by apply Htext|eexists; by vm_compute|by apply Htext..].
Qed.

(** How a connection ends: inside or between two frames, or with a close frame. *)
Inductive ends (hs : gset string) : bytes → Prop :=
| ends_cut tail missing ms : missing ≠ [] → sends hs (tail ++ missing) ms → ends hs tail
| ends_close rest : ends hs (x88 :: x00 :: rest).

(** What the client reads of a frame, whatever follows it. *)
Lemma sends_read hs frame ms rest :
  sends hs frame ms →
  ∃ r, read_round_client hs (frame ++ rest) = (Ret r, rest) ∧ length rest < length (frame ++ rest) ∧
    ((r = RIgnored ∧ ms = []) ∨ ∃ m, r = RDelivered (redecode m) ∧ ms = [m]).
Proof.
  intros Hs. assert (length rest < length (frame ++ rest)) as Hl.
  { destruct (sends_whole _ _ _ Hs) as [fr Hfr]. destruct frame; [discriminate|].
    rewrite length_app. simpl. lia. }
  destruct Hs as [data m Hd| |data keys Hlen Hk Hin|data Hlen Hno|data m Hlen Hm Hnot].
  - exists (RDelivered (redecode m)). rewrite (read_frame_delivers hs data m) by done. split_and!; [done..|right; by exists m].
  - exists RIgnored. by split_and!; [vm_compute|done|left].
  - exists RIgnored. rewrite read_text by done. unfold on_frame. simpl. rewrite Hk.
    rewrite bool_decide_eq_true_2 by done. by split_and!; [..|left].
  - exists RIgnored. rewrite read_text by done. split_and!; [|done|by left].
    unfold on_frame. simpl. destruct Hno as [->|Hno]; [done|].
    destruct (json_keys data); [|done]. case_bool_decide; [done|]. by rewrite Hno.
  - exists RIgnored. rewrite read_text by done. split_and!; [|done|by left].
    unfold on_frame. simpl. destruct (json_keys data); [|done]. case_bool_decide; [done|].
    rewrite Hm. cbv zeta. rewrite bool_decide_eq_false_2; [done|]. unfold redecode. by case_match.
Qed.

(** A connection that is cut inside a frame does not yield that frame. *)
Lemma ends_read hs tail : ends hs tail → ∃ rest, read_round_client hs tail = (Ret RReconnect, rest).
Proof.
  intros [tail' missing ms Hne Hs|rest]; [|by eexists].
  pose proof (readFrame_progress tail') as Hp. unfold wp in Hp. unfold read_round_client.
  destruct (readFrame tail') as [[[fr|]|?| |] b'] eqn:Er; try done.
  - pose proof (readFrame_extends _ _ _ missing Er) as Hx.
    destruct (sends_whole _ _ _ Hs) as [fr' Hw]. rewrite Hx in Hw. injection Hw as _ Hnil.
    by apply app_nil in Hnil as [_ ->].
  - exists b'. by rewrite (run_bind _ _ _ _ _ Er).
Qed.

Lemma read_conn_delivers hs frames tail : ∀ mss c n,
  handlers c = hs → Forall2 (sends hs) frames mss → ends hs tail →
  length (concat frames ++ tail) < n →
  read_conn n (concat frames ++ tail) c = (Ret (redecode <$> concat mss), c).
Proof.
  induction frames as [|frame frames IH]; intros mss c [|n] Hh Hall Hend Hn; try lia;
    cbn [read_conn]; rewrite (run_bind get _ _ _ _ eq_refl), Hh.
  - apply Forall2_nil_inv_l in Hall as ->. destruct (ends_read _ _ Hend) as [rest Hr].
    rewrite (run_bind _ _ c (RReconnect, rest) c); [done|]. unfold on_stream. simpl. by rewrite Hr.
  - apply Forall2_cons_inv_l in Hall as (ms & mss' & Hf & Hall & ->).
    cbn [concat] in *. rewrite <-app_assoc in *.
    destruct (sends_read hs frame ms (concat frames ++ tail) Hf) as (r & Hr & Hl & Hms).
    rewrite (run_bind _ _ c (r, concat frames ++ tail) c) by (unfold on_stream; by rewrite Hr).
    specialize (IH mss' c n Hh Hall Hend ltac:(lia)).
    destruct Hms as [[-> ->]|(m & -> & ->)]; [done|]. by rewrite (run_bind _ _ _ _ _ IH).
Qed.

(** A connection that carries frames with the messages [ms] until it ends, and the
    attempts that lead to the next one. *)
Definition served (hs : gset string) (conn : bytes * list attempt) (ms : list Message) : Prop :=
  ∃ frames mss tail tries t, conn = (concat frames ++ tail, tries ++ [ADialed t]) ∧
    Forall2 (sends hs) frames mss ∧ ms = concat mss ∧ ends hs tail ∧
    Forall (fails (size hs)) tries ∧ holds (size hs) t.

(** [C29] The client reads on: over any number of connections, each carrying messages mixed
    with status answers, pongs, undecodable texts and messages for other topics, each
    ending between two frames, inside one or with a close frame, and each followed by any
    number of failed attempts, every message the server sends completely for a topic with
    a handler is handed to that handler, once and in the order it was sent (decoded once
    too often when its payload is Base64 text), and nothing else is; the loop does not
    panic and does not end, and the handlers stay.  Frames are at most 16 MiB, and the
    client is not closed. *)
Theorem client_reads_on conns mss c
    (Hconns : Forall2 (served (handlers c)) conns mss) (Hopen : stopped c = false) :
  ∃ c', readLoop conns c = (Ret (redecode <$> concat mss, false), c') ∧ handlers c' = handlers c.
Proof.
  remember (handlers c) as hs eqn:Eh. revert c Eh Hopen.
  induction Hconns as [|conn ms conns mss
    (frames & fms & tail & tries & t & -> & Hms & -> & Hend & Htries & Ht) _ IH];
    intros c -> Hopen; [by exists c|].
  cbn [readLoop].
  rewrite (run_bind _ _ _ _ _ (read_conn_delivers (handlers c) frames tail fms c _ eq_refl Hms Hend
    (Nat.lt_succ_diag_r _))).
  rewrite (run_bind get _ _ _ _ eq_refl), Hopen.
  destruct (reconnect_from tries t second c) as (waits & c1 & Hrun & _ & _ & Hh & Hs & _); [done..|].
  rewrite (run_bind _ _ _ _ _ Hrun). cbn [fst].
  destruct (IH c1) as (c' & Hloop & Hh'); [by rewrite Hh|by rewrite Hs|].
  rewrite (run_bind _ _ _ _ _ Hloop). exists c'. split; [|done]. cbn [concat fst snd]. by rewrite fmap_app.
Qed.

End resubscription.

(** Once a ping fails the keepalive is over for good: no reconnection starts it again. *)
Lemma keepalive_ends `{C : ClientCodec} c : takes c = Some 0 → stopped c = false → ∃ c', keepalive_tick c = (Ret false, c').
Proof. destruct c as [hs dr wr t st]. cbn. intros -> ->. by eexists. Qed.

Definition demo_handlers : WSClient := MkWSClient {["t"; "b"]} 3 [] None false.

Lemma reconnect_resubscribes_witness :
  let c := demo_handlers in
  ∃ waits c' sent, handleReconnection second ([AUnreachable; ADialed (Some 1)] ++ [ADialed None]) c =
      (Ret (Some None, waits), c') ∧
    length waits = 3 ∧ Forall (λ w, second ≤ w ≤ maxBackoff)%Z waits ∧
    handlers c' = handlers c ∧
    written c' = sent.*2 ∧ sent.*1 ≡ₚ elements (handlers c) ∧
    Forall (λ tf, ∀ rest, read_round (tf.2 ++ rest) =
      (Ret (IFrame opCodeText (marshal_command (MkWsCommand "subscribe" tf.1 ""))), rest)) sent.
Proof.
  apply (reconnect_resubscribes [AUnreachable; ADialed (Some 1)]).
  - apply Forall_cons_2; [by left|]. apply Forall_singleton. right. exists 1. split; [done|]. apply Nat.ltb_lt. by vm_compute.
  - done.
  - done.
  - intros t Ht. cbn [handlers demo_handlers] in Ht.
    assert (t = "t" ∨ t = "b") as [-> | ->] by set_solver; vm_compute; discriminate.
Defined.

(** Two connections: a status answer, a message, a pong, a text that is no JSON, a message
    on another topic, a second message and half a frame; then, after a failed attempt, a
    third message and a close frame. *)
Lemma client_reads_on_witness :
  let msg s := MkMessage "id-1" "t" (bytes_of_string s) 0 None None 0 ∅ in
  let text s := server_frame (bytes_of_string s) in
  let conn l tail tries := (concat l ++ tail, tries ++ [ADialed None]) in
  ∃ c', readLoop [conn [text "s"; text "m1"; pong_frame; text "!"; text "u"; text "m2"] [x81; x05; x6d]
                    [AUnreachable];
                  conn [text "m3"] [x88; x00] []] demo_handlers =
      (Ret (redecode <$> concat [[msg "m1"; msg "m2"]; [msg "m3"]], false), c') ∧
    handlers c' = handlers demo_handlers.
Proof.
  intros msg text conn.
  assert (∀ s, (Z.of_nat (length (bytes_of_string s)) <=? MaxFrameSize)%Z = true →
    json_keys (bytes_of_string s) = Some ∅ → json_to_message (bytes_of_string s) = Some (msg s) →
    sends (handlers demo_handlers) (text s) [msg s]) as Hmsg.
  { intros s Hl%Z.leb_le Hk Hm. apply sends_message. split_and!; [done|by exists ∅|done|set_solver]. }
  apply client_reads_on; [|done]. constructor; [|constructor; [|constructor]].
  - exists [text "s"; text "m1"; pong_frame; text "!"; text "u"; text "m2"],
      [[]; [msg "m1"]; []; []; []; [msg "m2"]], [x81; x05; x6d], [AUnreachable], None.
    split_and!; [done| |done| |by apply Forall_singleton; left|done].
    + repeat apply Forall2_cons_2; [..|apply Forall2_nil_2].
      * eapply sends_status; [by vm_compute|done|set_solver].
      * by apply Hmsg.
      * apply sends_pong.
      * apply sends_garbage; [by vm_compute|by left].
      * eapply sends_unhandled; [by vm_compute|done|]. apply (bool_decide_unpack _). by vm_compute.
      * by apply Hmsg.
    + by apply (ends_cut _ _ (bytes_of_string "1234") [msg "m1234"]), (Hmsg "m1234").
  - exists [text "m3"], [[msg "m3"]], [x88; x00], [], None.
    split_and!; [done| |done|apply ends_close|done|done].
    apply Forall2_cons_2; [by apply Hmsg|apply Forall2_nil_2].
Defined.
