(* ===== verification/HttpClient.v ===== *)
(** * The Go client library over HTTP ([client/client.go])

    The requests the client sends, as the server reads them, and what it makes of the
    answers, against the server of [Rest.v].  The base URL is a scheme and a host; the
    transport in between is left out. *)

From Stdlib Require Import Ascii.
From Stdlib Require Import Strings.Byte.
From S2P Require Import Prelude.
From S2P Require Import GoLib.
From S2P Require Import Wire.
From S2P Require Import Message.
From S2P Require Import Wal.
From S2P Require Import Storage.
From S2P Require Import Codec.
From S2P Require Import Demo.
From S2P Require Import Broker.
From S2P Require Import BrokerQueue.
From S2P Require Import BrokerSteps.
From S2P Require Import BrokerSafe.
From S2P Require Import BrokerPublish.
From S2P Require Import BrokerAdmin.
From S2P Require Import Duration.
From S2P Require Import DurationText.
From S2P Require Import Http.
From S2P Require Import Rest.
From S2P Require Import RestProps.
From S2P Require Import Url.

Record SubscriptionOptions : Type := MkSubOpts { so_Timeout : string; so_Group : string }.
Record PublishOptions : Type := MkPubOpts {
  po_TTL : Z; po_Delay : Z; po_Broadcast : bool; po_Priority : string;
  po_Idempotency : string; po_Headers : gmap string string
}.

(** The JSON bodies the client marshals: name, policy and retention; topic and group. *)
Class BodyCodec : Type := {
  marshal_topic : string → string → string → bytes;
  marshal_group : string → string → bytes
}.

Section requests.
Context `{C : BodyCodec}.
(** the address the server sees, and the key of the client *)
Variable addr apiKey : string.

(** The bearer token when there is a key. *)
Definition auth_header : gmap string (list string) :=
  if String.eqb apiKey "" then ∅ else {["Authorization" := ["Bearer " +:+ apiKey]]}.

(** A request as it arrives; [None]: the URL does not parse, or a blank in its query
    breaks the request line.  The headers [hs] the caller sets win. *)
Definition arrives (method path query : string) (body : bytes) (hs : gmap string (list string))
    : option Request :=
  if strings.Contains query " " then None
  else Some (MkRequest method path query (hs ∪ auth_header) addr body false).

Definition req (method endpoint : string) (body : bytes) (hs : gmap string (list string)) : option Request :=
  '(path, query) ← url.Parse endpoint; arrives method path query body hs.

Definition json_content : gmap string (list string) := {["Content-Type" := ["application/json"]]}.

Definition publish_query (opts : option PublishOptions) (q : list (string * string))
    : list (string * string) :=
  match opts with
  | None => q
  | Some o =>
      let q := if (0 <? po_TTL o)%Z then url.Set_ "ttl" (Duration_String (po_TTL o)) q else q in
      let q := if (0 <? po_Delay o)%Z then url.Set_ "delay" (Duration_String (po_Delay o)) q else q in
      let q := if po_Broadcast o then url.Set_ "broadcast" "true" q else q in
      if negb (String.eqb (po_Priority o) "") then url.Set_ "priority" (po_Priority o) q else q
  end.

Definition publish_headers (opts : option PublishOptions) : gmap string (list string) :=
  match opts with
  | None => json_content
  | Some o =>
      let hs := if String.eqb (po_Idempotency o) "" then json_content
                else <["Idempotency-Key" := [po_Idempotency o]]> json_content in
      map_fold (λ k v hs, <[canonical true k := [v]]> hs) hs (po_Headers o)
  end.

(** A query in the topic is merged with the options. *)
Definition publish_http_request (topic : string) (payload : bytes) (opts : option PublishOptions)
    : option Request :=
  '(path, query) ← url.Parse ("/publish/" +:+ topic);
  arrives "POST" path (url.Encode (publish_query opts (url.ParseQuery query))) payload
    (publish_headers opts).

Definition subscribe_request (topic : string) (opts : option SubscriptionOptions) : option Request :=
  req "GET" ("/consume/" +:+ topic +:+ "?auto_ack=true" +:+
    match opts with
    | None => ""
    | Some o =>
        (if String.eqb (so_Timeout o) "" then "" else "&timeout=" +:+ so_Timeout o) +:+
        (if String.eqb (so_Group o) "" then "" else "&group=" +:+ so_Group o)
    end) [] ∅.

Definition create_topic_request (topic policy : string) (retain : Z) : option Request :=
  req "POST" "/api/topics"
    (marshal_topic topic policy (if (0 <? retain)%Z then Duration_String retain else "")) json_content.

Definition create_group_request (topic group : string) : option Request :=
  req "POST" "/api/groups" (marshal_group topic group) json_content.

Definition peek_request (topic : string) (limit : Z) : option Request :=
  req "GET" ("/api/queues/peek?queue=" +:+ url.QueryEscape topic +:+ "&limit=" +:+ Itoa limit) [] ∅.

Definition cluster_status_request : option Request := req "GET" "/api/cluster/status" [] ∅.

End requests.

(** ** The answers *)

(** [Publish], [CreateTopic] and [CreateGroup] report any status below 400 as success. *)
Definition unit_result (failed : string) (resp : Response) : error :=
  if (400 <=? status resp)%Z then Some failed else None.

(** A JSON array of messages. *)
Definition json_to_messages (j : json) : option (list Message) :=
  match j with
  | JList l => mapM (λ x, match x with JMessage m | JQoL m _ => Some m | _ => None end) l
  | _ => None
  end.
Definition decode_messages (resp : Response) : string + list Message :=
  match content resp with
  | BJson j => match json_to_messages j with Some l => inr l | None => inl "cannot unmarshal" end
  | _ => inl "cannot unmarshal"
  end.

(** No body at all is an empty answer to [Subscribe]. *)
Definition subscribe_result (resp : Response) : string + list Message :=
  if (400 <=? status resp)%Z then inl "subscribe failed"
  else match content resp with BEmpty => inr [] | _ => decode_messages resp end.

Definition peek_result (resp : Response) : string + list Message :=
  if negb (status resp =? 200)%Z then inl "peek failed" else decode_messages resp.

Definition cluster_status_result (resp : Response) : string + list (string * json) :=
  if negb (status resp =? 200)%Z then inl "cluster status failed"
  else match content resp with BJson (JObj l) => inr l | _ => inl "cannot unmarshal" end.

(** The client's [Subscribe] cannot succeed: it asks for one message, the server answers
    one message with an object, and the client insists on an array; the message is off
    the queue. *)
Theorem client_subscribe_loses :
  let s := NewServer (λ _, None) demo_one "v" None 0 in
  match subscribe_request "10.0.0.9:5" "" "t" None with
  | None => False
  | Some r =>
      let '(o, s') := handleConsume 9 r s in
      (∃ resp, o = Ret (Done resp) ∧ status resp = 200%Z ∧
         subscribe_result resp = inl "cannot unmarshal") ∧
      (t ← Topics (broker s') !! "t"; x ← heap (broker s') !! t; Some (totalActiveMessages x)) = Some 0%Z
  end.
Proof. vm_compute. eauto. Qed.

(** Whatever single message it is: no answer of the server to a consumer that asks for
    one message and gets one can be decoded by the client library's [Subscribe]. *)
Theorem one_message_undecodable m :
  subscribe_result (respondWithQoL [m] 1) = inl "cannot unmarshal".
Proof. done. Qed.

(** ** Publishing through the library *)

Section publishing.
Context `{R : Runtime} {St : Type} `{Storage St} `{W : Web} `{C : BodyCodec}.
Implicit Types s : Server St.

(** A topic that routing leaves alone: valid, no empty or dotted segments, no slash at
    its end. *)
Definition routable (topic : string) : Prop :=
  validTopicRegex topic = true ∧ cleanPath ("/publish/" +:+ topic) = "/publish/" +:+ topic ∧
  strings.HasSuffix topic "/" = false.

(** What the options ask of the broker: a deadline after a positive time. *)
Definition after_positive (now d : Z) : option Z := if (0 <? d)%Z then Some (now + d)%Z else None.

(** [handlePublish]'s work on a checked request. *)
Definition publish_steps (now : Z) (r : Request) (topic : string) (payload : bytes) (o : PublishOptions)
    : M (Server St) Reply :=
  seen ← seen_key now (po_Idempotency o);
  if (seen : bool) then reply (ignored topic)
  else
    userHeaders ← user_headers r;
    err ← call (Publish now topic payload userHeaders
            (if String.eqb (po_Priority o) "" then "normal" else po_Priority o)
            (after_positive now (po_TTL o)) (after_positive now (po_Delay o)) (po_Broadcast o));
    match err with
    | Some e => fail e (publish_status e)
    | None => reply (MkResponse 202 []
                (BJson (JObj [("status", JStr "accepted"); ("topic", JStr topic)])))
    end.

Lemma topic_plain_path topic : validTopicRegex topic = true → url.plain_path topic = true.
Proof.
  intros Hv. assert (strings.forall_chars topic_char topic = true) as Hc by (by destruct topic).
  eapply forall_chars_impl; [|exact Hc]. intros c. by destruct c as [[] [] [] [] [] [] [] []].
Qed.

(** The query parameters of the options. *)
Lemma publish_query_get o r k :
  RawQuery r = url.Encode (publish_query (Some o) []) →
  query_get r k =
    if String.eqb k "ttl" then (if (0 <? po_TTL o)%Z then Duration_String (po_TTL o) else "")
    else if String.eqb k "delay" then (if (0 <? po_Delay o)%Z then Duration_String (po_Delay o) else "")
    else if String.eqb k "broadcast" then (if po_Broadcast o then "true" else "")
    else if String.eqb k "priority" then po_Priority o else "".
Proof.
  intros Hq. rewrite (url.query_get_Get r _ k Hq).
  - unfold publish_query. cbv zeta. destruct (0 <? po_TTL o)%Z, (0 <? po_Delay o)%Z, (po_Broadcast o);
      destruct (String.eqb_spec (po_Priority o) "") as [Hp|Hp]; cbn [negb]; rewrite ?url.Get_Set;
      (destruct (String.eqb_spec k "ttl") as [->|?]; [done|]);
      (destruct (String.eqb_spec k "delay") as [->|?]; [done|]);
      (destruct (String.eqb_spec k "broadcast") as [->|?]; [done|]);
      by destruct (String.eqb_spec k "priority").
  - unfold publish_query. cbv zeta. repeat (case_match; try apply url.Set_nodup); apply NoDup_nil_2.
Qed.

Lemma deadline_String now d : (d ≤ max_int)%Z →
  deadline now (if (0 <? d)%Z then Duration_String d else "") = after_positive now d.
Proof.
  intros Hd. unfold deadline, after_positive. destruct (Z.ltb_spec 0 d) as [Hp|Hp]; [|done].
  rewrite ParseDuration_String by (unfold min_int in *; lia).
  unfold Duration_String. rewrite (proj2 (Z.ltb_ge _ _)) by lia.
  destruct (format_first d) as (c & ? & c' & s & -> & _); [lia|]. done.
Qed.

(** *** Headers *)

(** The caller's own headers leave the key and the idempotency key alone. *)
Definition own_headers (o : PublishOptions) : Prop :=
  map_Forall (λ k _, canonical true k ≠ "Idempotency-Key" ∧ canonical true k ≠ "Authorization")
    (po_Headers o).

Lemma headers_other (m : gmap string string) hs x :
  map_Forall (λ k _, canonical true k ≠ x) m →
  map_fold (λ k v hs, <[canonical true k := [v]]> hs) hs m !! x = (hs : gmap string (list string)) !! x.
Proof.
  apply (map_fold_weak_ind (λ r m, map_Forall (λ k _, canonical true k ≠ x) m → r !! x = hs !! x)); [done|].
  intros k v m' r Hk IH Hall. apply map_Forall_insert in Hall as [Hx Hall]; [|done].
  rewrite lookup_insert_ne by done. auto.
Qed.

(** One pattern of the table matches the path: it is the route. *)
Lemma longest_match_none {A} (l : list (string * A)) path :
  Forall (λ ph, pattern_matches ph.1 path = false) l → longest_match l path = None.
Proof. induction 1 as [|[p h] l Hp _ IH]; [done|]. cbn in *. by rewrite Hp. Qed.
Lemma longest_match_only {A} (l1 l2 : list (string * A)) p h path :
  Forall (λ ph, pattern_matches ph.1 path = false) l1 →
  Forall (λ ph, pattern_matches ph.1 path = false) l2 → pattern_matches p path = true →
  longest_match (l1 ++ (p, h) :: l2) path = Some (p, h).
Proof.
  intros H1 H2 Hp. induction H1 as [|[q h'] l1 Hq _ IH]; cbn in *; [|by rewrite Hq, IH].
  by rewrite Hp, longest_match_none.
Qed.

Lemma publish_route now alloc topic :
  longest_match (routes (St:=St) now alloc) ("/publish/" +:+ topic) =
  Some ("/publish/", leaderProxy (withAuth now (handlePublish now))).
Proof.
  unfold routes. cbv zeta. apply (longest_match_only [_]).
  - repeat constructor.
  - repeat (apply Forall_cons_2; [reflexivity|]). apply Forall_nil_2.
  - unfold pattern_matches. apply HasPrefix_app.
Qed.

Lemma has_key_bearer key r :
  header_get r "Authorization" = "Bearer " +:+ key → has_key key r = true.
Proof. intros Hh. unfold has_key. by rewrite Hh, HasPrefix_app, TrimPrefix_app, String.eqb_refl. Qed.

(** A request with the client's key is let in. *)
Lemma bearer_ok r :
  Header r !! "Authorization" = auth_header (getenv "TINYMQ_API_KEY") !! "Authorization" →
  getenv "TINYMQ_API_KEY" = "" ∨ has_key (getenv "TINYMQ_API_KEY") r = true.
Proof.
  intros Hh. destruct (String.eqb_spec (getenv "TINYMQ_API_KEY") "") as [?|Hne]; [by left|right].
  apply has_key_bearer. unfold header_get. change (canonical true "Authorization") with "Authorization".
  rewrite Hh. unfold auth_header. rewrite (proj2 (String.eqb_neq _ _)) by done. by simplify_map_eq.
Qed.

(** A request that is routed, let in and passed to its handler. *)
Lemma serve_checked now alloc r s p h :
  draining s = false → clusterNode s = None → rateLimiter s = None →
  cleanPath (Path r) = Path r →
  longest_match (routes now alloc) (Path r) = Some (p, leaderProxy (withAuth now h)) →
  (getenv "TINYMQ_API_KEY" = "" ∨ has_key (getenv "TINYMQ_API_KEY") r = true) →
  ServeHTTP now alloc r s = (h r ≫= settle) (set_inFlight (inFlight s + 1) s).
Proof.
  intros Hd Hc Hl Hpath Hroute Hkey. unfold ServeHTTP, trackInFlight.
  rewrite (run_bind get _ s s s), Hd by done.
  rewrite (run_bind (modify _) _ s () (set_inFlight (inFlight s + 1) s)) by done.
  unfold mux, mux_route. cbv zeta. rewrite Hpath, String.eqb_refl, andb_false_r, Hroute.
  set (s1 := set_inFlight _ _). assert (withAuth now h r s1 = h r s1) as Hauth.
  { unfold withAuth. rewrite (run_bind _ _ s1 true s1).
    - cbn [negb]. cbv zeta. destruct Hkey as [->| ->]; [done|]. by destruct (String.eqb _ "").
    - unfold check_rate. rewrite (run_bind get _ s1 s1 s1) by done.
      change (rateLimiter s1) with (rateLimiter s). by rewrite Hl. }
  assert (leaderProxy (withAuth now h) r s1 = h r s1) as Hproxy.
  { unfold leaderProxy. rewrite (run_bind get _ s1 s1 s1) by done.
    change (clusterNode s1) with (clusterNode s). by rewrite Hc. }
  unfold mbind, M_bind. by rewrite Hproxy.
Qed.

(** The headers of a publication. *)
Lemma sent_authorization key o : own_headers o →
  (publish_headers (Some o) ∪ auth_header key) !! "Authorization" = auth_header key !! "Authorization".
Proof.
  intros Hh. rewrite lookup_union_r; [done|]. unfold publish_headers. cbv zeta. rewrite headers_other.
  - unfold json_content. case_match; by simplify_map_eq.
  - eapply map_Forall_impl; [exact Hh|]. naive_solver.
Qed.

Lemma sent_idempotency key o : own_headers o →
  (publish_headers (Some o) ∪ auth_header key) !! "Idempotency-Key" =
  if String.eqb (po_Idempotency o) "" then None else Some [po_Idempotency o].
Proof.
  intros Hh. rewrite lookup_union_l by (unfold auth_header; case_match; by simplify_map_eq).
  unfold publish_headers. cbv zeta. rewrite headers_other.
  - unfold json_content. case_match; by simplify_map_eq.
  - eapply map_Forall_impl; [exact Hh|]. naive_solver.
Qed.

(** [C31] What is published through the client library arrives as asked: the request that
    [Publish] sends is routed, authenticated and decoded so that the broker publishes
    exactly the topic, the payload, the priority and the broadcast flag the caller gave,
    with the TTL and the delay (printed by the client, parsed by the server) exact to the
    nanosecond, once per idempotency key.  The topic is valid and one that routing leaves
    alone (no empty or dotted segments, no slash at its end), the payload has between one
    byte and the server's limit, the caller's own headers do not name the key or the
    idempotency key, the durations fit 64 bits; the server shares the key, is not
    draining, and has neither a cluster nor a rate limiter. *)
Theorem client_publish_arrives now alloc addr topic payload o s
    (Ht : routable topic) (Hp : payload ≠ []) (Hlen : (Z.of_nat (length payload) ≤ max_body)%Z)
    (Hd : (po_TTL o ≤ max_int ∧ po_Delay o ≤ max_int)%Z) (Hh : own_headers o)
    (Hup : draining s = false ∧ clusterNode s = None ∧ rateLimiter s = None) :
  ∃ r, publish_http_request addr (getenv "TINYMQ_API_KEY") topic payload (Some o) = Some r ∧
    ServeHTTP now alloc r s =
    (publish_steps now r topic payload o ≫= settle) (set_inFlight (inFlight s + 1) s).
Proof.
  destruct Ht as (Hv & Hclean & Hslash), Hup as (Hdrain & Hnode & Hrate), Hd as [Httl Hdelay].
  set (key := getenv "TINYMQ_API_KEY") in *.
  assert (url.Parse ("/publish/" +:+ topic) = Some ("/publish/" +:+ topic, "")) as Hparse.
  { apply url.Parse_plain. unfold url.plain_path. rewrite forall_chars_app. by apply topic_plain_path. }
  eexists. split.
  { unfold publish_http_request. rewrite Hparse. cbn [mbind option_bind]. unfold arrives.
    by rewrite url.Encode_blank. }
  set (r := MkRequest _ _ _ _ _ _ _).
  erewrite (serve_checked now alloc r s _ (handlePublish now)); try done; [|apply publish_route|].
  - unfold mbind, M_bind.
    rewrite (handlePublish_checked now r topic payload (po_Idempotency o)).
    + unfold publish_steps. rewrite !(publish_query_get o r) by done.
      cbn [String.eqb Ascii.eqb Bool.eqb]. rewrite !deadline_String by done.
      by destruct (po_Broadcast o).
    + unfold publishes, extractTopicFromPath, ReadAll, idempotency_key, header_get. cbn [Path r BodyErr Body Header].
      rewrite HasPrefix_app, TrimPrefix_app. unfold strings.TrimSuffix. rewrite Hslash.
      rewrite (publish_query_get o r) by done. change (canonical true "Idempotency-Key") with "Idempotency-Key".
      rewrite sent_idempotency, (proj2 (Z.ltb_ge _ _)) by done. split_and!; try done.
      * by destruct topic.
      * destruct (String.eqb_spec (po_Idempotency o) "") as [E|]; by rewrite ?E.
  - apply bearer_ok. cbn [Header r]. by apply sent_authorization.
Qed.

(** ** Peeking through the library *)

Lemma peek_route now alloc :
  longest_match (routes (St:=St) now alloc) "/api/queues/peek" =
  Some ("/api/queues/peek", leaderProxy (withAuth now handleQueuePeek)).
Proof.
  unfold routes. cbv zeta. apply (longest_match_only [_;_;_;_;_;_;_;_;_;_;_;_;_;_;_]);
    [repeat (apply Forall_cons_2; [reflexivity|]); apply Forall_nil_2..|reflexivity].
Qed.

Lemma peek_query topic limit : (0 ≤ limit)%Z →
  "queue=" +:+ url.QueryEscape topic +:+ "&limit=" +:+ Itoa limit =
  strings.Join (url.pair_text <$> [("queue", topic); ("limit", Itoa limit)]) "&".
Proof.
  intros Hl. cbn [fmap list_fmap]. unfold url.pair_text. cbn [fst snd]. rewrite Join_cons.
  rewrite (url.QueryEscape_Itoa limit) by done. cbn. by rewrite str_app_assoc.
Qed.

Lemma Atoi_Itoa n : (0 ≤ n ≤ max_int)%Z → Atoi (Itoa n) = Some n.
Proof.
  intros Hn. rewrite <-(Z2Nat.id n), Itoa_nat by lia. rewrite Atoi_nat by lia. f_equal. lia.
Qed.

(** Peeking through the client library reads the queue: whatever characters the name of
    an existing topic has (they travel escaped in the query), the client gets exactly the
    first [limit] messages in delivery order, and the server is untouched. *)
Theorem client_peek_reads now alloc addr topic limit x s
    (Hl : (0 < limit ≤ max_int)%Z) (Hwf : wf (broker s)) (Hx : topic_at (broker s) topic = Some x)
    (Hup : draining s = false ∧ clusterNode s = None ∧ rateLimiter s = None) :
  ∃ r resp, peek_request addr (getenv "TINYMQ_API_KEY") topic limit = Some r ∧
    ServeHTTP now alloc r s = (Ret (Done resp), s) ∧
    peek_result resp = inr (take (Z.to_nat limit) (all_messages x)).
Proof.
  destruct Hup as (Hdrain & Hnode & Hrate). set (key := getenv "TINYMQ_API_KEY").
  set (q := "queue=" +:+ url.QueryEscape topic +:+ "&limit=" +:+ Itoa limit).
  assert (url.Parse ("/api/queues/peek?" +:+ q) = Some ("/api/queues/peek", q)) as Hparse.
  { apply (url.Parse_query "/api/queues/peek" q); [done| |]; subst q;
      rewrite <-(url.QueryEscape_Itoa limit) by lia.
    - rewrite !lacks_app, !(proj1 (url.QueryEscape_plain _)). done.
    - rewrite !forall_chars_app, !(proj2 (url.QueryEscape_plain _)). done. }
  assert (strings.Contains q " " = false) as Hblank.
  { apply url.Contains_lacks. subst q. rewrite <-(url.QueryEscape_Itoa limit) by lia.
    by rewrite !lacks_app, !url.QueryEscape_blank. }
  set (r := MkRequest "GET" "/api/queues/peek" q (∅ ∪ auth_header key) addr [] false).
  exists r, (MkResponse 200 [json_type] (BJson (JList (JMessage <$> take (Z.to_nat limit) (all_messages x))))).
  assert (Query r = [("queue", topic); ("limit", Itoa limit)]) as Hq
    by (apply url.Query_pairs, peek_query; lia).
  split_and!.
  - unfold peek_request, req. change ("/api/queues/peek?queue=" +:+ ?t) with ("/api/queues/peek?" +:+ q).
    rewrite Hparse. cbn [mbind option_bind]. unfold arrives. by rewrite Hblank.
  - erewrite (serve_checked now alloc r s _ handleQueuePeek); [|done|done|done|done|apply peek_route|].
    + unfold handleQueuePeek, query_get. rewrite Hq. cbn [List.find fst String.eqb Ascii.eqb Bool.eqb].
      rewrite Atoi_Itoa, (proj2 (Z.ltb_lt _ _)) by lia. set (s1 := set_inFlight (inFlight s + 1) s).
      erewrite run_bind; [|erewrite run_bind; [done|]; apply (run_zoom broker set_broker); by apply Peek_reads].
      unfold settle. cbn [finished]. rewrite (run_bind (modify _) _ _ _ _ eq_refl).
      destruct s. unfold set_inFlight, set_broker, s1. cbn. unfold mret, M_ret. do 2 f_equal. lia.
    + apply bearer_ok. subst r key. cbn [Header]. by rewrite (left_id_L ∅ (∪)).
  - unfold peek_result, decode_messages. cbn.
    assert (∀ l, mapM (λ y, match y with JMessage m | JQoL m _ => Some m | _ => None end) (JMessage <$> l) = Some l)
      as ->; [|done]. induction l as [|m l IH]; [done|]. cbn. by rewrite IH.
Qed.

End publishing.

(** ** A request of each kind *)

#[global] Instance demo_bodies : BodyCodec := {|
  marshal_topic name policy retain := bytes_of_string (name +:+ " " +:+ policy +:+ " " +:+ retain);
  marshal_group topic group := bytes_of_string (topic +:+ " " +:+ group)
|}.

Definition demo_options : PublishOptions :=
  MkPubOpts 5400000000000 1500000000 false "high" "k1" {["x-mq-user" := "bob"]}.
Definition demo_server : Server DiskStorage := NewServer (λ _, None) demo_one "v" None 0.

Lemma client_publish_arrives_witness :
  ∃ r, publish_http_request "10.0.0.9:5" (getenv "TINYMQ_API_KEY") "a/b" (bytes_of_string "hi") (Some demo_options) = Some r ∧
    ServeHTTP 9 0 r demo_server =
    (publish_steps 9 r "a/b" (bytes_of_string "hi") demo_options ≫= settle)
      (set_inFlight (inFlight demo_server + 1) demo_server).
Proof.
  apply client_publish_arrives; [by vm_compute|done|by vm_compute|by vm_compute| |by vm_compute].
  apply map_Forall_singleton. by vm_compute.
Defined.

Lemma client_peek_reads_witness :
  ∃ r resp, peek_request "10.0.0.9:5" (getenv "TINYMQ_API_KEY") "t" 5 = Some r ∧
    ServeHTTP 9 0 r demo_server = (Ret (Done resp), demo_server) ∧
    peek_result resp = inr (take (Z.to_nat 5) (all_messages demo_topic)).
Proof.
  apply client_peek_reads; [by vm_compute|apply demo_one_wf|apply demo_one_topic|by vm_compute].
Defined.

Example client_requests :
  (RawQuery <$> publish_http_request "10.0.0.9:5" "" "a/b" [] (Some demo_options)) =
    Some "delay=1.5s&priority=high&ttl=1h30m0s" ∧
  ((λ r, (Path r, RawQuery r)) <$> subscribe_request "10.0.0.9:5" "" "a?b" (Some (MkSubOpts "5s" "g"))) =
    Some ("/consume/a", "b?auto_ack=true&timeout=5s&group=g") ∧
  (Body <$> create_topic_request "10.0.0.9:5" "" "t" "reject" 60000000000) =
    Some (bytes_of_string "t reject 1m0s").
Proof. vm_compute. auto. Qed.
