(* ===== verification/Backup.v ===== *)
(** * Backup and restore ([cmd/tmq/handle/backup.go], [restore.go])

    The two archive formats, on the file system of [Storage.v].  An archive is the
    sequence of its entries; [archive/zip], [archive/tar] and [compress/gzip] are their
    readers and writers at that level: what was written comes back, an archive whose
    end is missing fails where the reader of its format notices. *)

From Stdlib Require Import Ascii.
From Stdlib Require Import Strings.Byte.
From stdpp Require Import sorting.
From S2P Require Import Prelude.
From S2P Require Import GoLib.
From S2P Require Import Wire.
From S2P Require Import Message.
From S2P Require Import Wal.
From S2P Require Import Storage.
From S2P Require Import StorageFacts.
From S2P Require Import DiskFrame.
From S2P Require Import Codec.
From S2P Require Import Demo.
From S2P Require Import StorageProps.

(** ** Paths *)

(** [filepath.Ext(path) == ".log"] *)
Definition is_log (path : string) : bool := strings.HasSuffix path ".log".

Fixpoint trim_slashes (fuel : nat) (path : string) : string :=
  match fuel with
  | O => path
  | S n => if strings.HasSuffix path "/" then trim_slashes n (strings.TrimSuffix path "/") else path
  end.

(** [filepath.Base] *)
Definition Base (path : string) : string :=
  if String.eqb path "" then "."
  else
    let path := trim_slashes (String.length path) path in
    let path := match strings.LastIndexByte path "/" with
                | Some i => strings.drop (S i) path
                | None => path
                end in
    if String.eqb path "" then "/" else path.

(** A file below the data directory, relative to it: [filepath.Rel]. *)
Definition rel_path (dataDir path : string) : option string :=
  if strings.HasPrefix path (dataDir +:+ "/")
  then Some (strings.TrimPrefix path (dataDir +:+ "/")) else None.

(** [filepath.Walk] visits the names of a directory in order, and a subdirectory's
    where its name comes. *)
Fixpoint segments_leb (a b : list string) : bool :=
  match a, b with
  | [], _ => true
  | _ :: _, [] => false
  | x :: a', y :: b' => if String.eqb x y then segments_leb a' b' else String.leb x y
  end.
Definition walk_le (p q : string) : Prop :=
  segments_leb (strings.Split p "/") (strings.Split q "/") = true.
#[global] Instance walk_le_dec : RelDecision walk_le.
Proof. intros p q. unfold walk_le. apply _. Defined.

Definition Walk (dataDir : string) (d : DiskStorage) : list string :=
  merge_sort walk_le (omap (rel_path dataDir) (fst <$> map_to_list (dir d))).

(** ** Archives *)

(** An entry that cannot be opened, and one whose data end in an error. *)
Inductive entry_state : Type := EOk | EUnopenable | EBroken.
Record entry : Type := MkEntry {
  e_name : string; e_regular : bool; e_data : bytes; e_state : entry_state
}.
Record archive : Type := MkArchive { a_entries : list entry; a_torn : bool }.

Inductive format : Type := Zip | TarGz.

Section backup.
Variable faults : nat → fault.
(** whether the archive file takes the entry of this name *)
Variable sink : string → bool.

(** The walks: the entries written, whether the archive is cut off, and [filesAdded].
    A zip entry is begun before its file is opened. *)
Fixpoint zip_walk (dataDir : string) (rels : list string) : M DiskStorage (list entry * bool * Z) :=
  match rels with
  | [] => mret ([], false, 0%Z)
  | rel :: rels' =>
      if negb (is_log rel) then zip_walk dataDir rels'
      else if negb (sink rel) then mret ([], true, 0%Z)
      else
        src ← sys_read faults (Join dataDir rel);
        match src with
        | None => mret ([MkEntry rel true [] EOk], false, 0%Z)
        | Some (b, err) =>
            res ← zip_walk dataDir rels';
            let '(es, torn, n) := (res : list entry * bool * Z) in
            mret (MkEntry rel true b EOk :: es, torn, if (err : bool) then n else n + 1)%Z
        end
  end.

(** A file read short of the size in its header leaves the archive unfinished. *)
Fixpoint tar_walk (dataDir : string) (rels : list string) : M DiskStorage (list entry * bool * Z) :=
  match rels with
  | [] => mret ([], false, 0%Z)
  | rel :: rels' =>
      if negb (is_log rel) then tar_walk dataDir rels'
      else
        src ← sys_read faults (Join dataDir rel);
        match src with
        | None => mret ([], false, 0%Z)
        | Some (b, err) =>
            if negb (sink rel) then mret ([], true, 0%Z)
            else if (err : bool) then mret ([MkEntry rel true b EBroken], true, 0%Z)
            else
              res ← tar_walk dataDir rels';
              let '(es, torn, n) := (res : list entry * bool * Z) in
              mret (MkEntry rel true b EOk :: es, torn, n + 1)%Z
        end
  end.

(** The archive and how many logs are reported. *)
Definition create_backup (f : format) (dataDir : string) : M DiskStorage (archive * Z) :=
  d ← get;
  res ← match f with Zip => zip_walk | TarGz => tar_walk end dataDir (Walk dataDir d);
  let '(es, torn, n) := (res : list entry * bool * Z) in
  mret (MkArchive es torn, n).

(** [HandleBackup]: [fmt] is the flag, [exists_] and [created] whether there is a data
    directory and the archive file could be created *)
Definition backup_format (fmt : string) : format := if String.eqb fmt "tar" then TarGz else Zip.
Definition backup_name (f : format) (unix : Z) : string :=
  "tinymq_backup_" +:+ Itoa unix +:+ match f with TarGz => ".tar.gz" | Zip => ".zip" end.
Inductive backup_outcome : Type :=
| BNoData | BNotCreated | BComplete (name : string) (a : archive) (filesAdded : Z).
Definition HandleBackup (fmt : string) (exists_ created : bool) (unix : Z) (dataDir : string)
    : M DiskStorage backup_outcome :=
  if negb exists_ then mret BNoData
  else if negb created then mret BNotCreated
  else
    let f := backup_format fmt in
    res ← create_backup f dataDir;
    let '(a, n) := (res : archive * Z) in mret (BComplete (backup_name f unix) a n).

End backup.

Section restore.
Variable faults : nat → fault.

(** [io.LimitReader(tr, 512<<20)] *)
Definition copy_limit : Z := Z.shiftl 512 20.
Definition limit_data (b : bytes) : bytes :=
  if (Z.of_nat (length b) <=? copy_limit)%Z then b else take (Z.to_nat copy_limit) b.

(** [io.Copy]: nothing is written when there is nothing. *)
Definition copy_to (h : Handle) (b : bytes) : M DiskStorage bool :=
  match b with
  | [] => mret true
  | _ => '(ok, _) ← sys_write faults h b; mret ok
  end.

(** One entry that is to be restored. *)
Definition restore_file (dataDir entryName : string) (e : entry) : M DiskStorage error :=
  let destPath := Join dataDir entryName in
  out ← sys_open_trunc faults destPath;
  match out with
  | None => mret (Some ("cannot create '" +:+ destPath +:+ "'"))
  | Some h =>
      ok ← copy_to h (limit_data (e_data e));
      match ok, e_state e with
      | true, EOk => mret None
      | _, _ => mret (Some ("error writing '" +:+ entryName +:+ "'"))
      end
  end.

(** The loop over the entries; a skipped entry is a directory, no log, or has a name
    that is no file. *)
Fixpoint restore_entries (dataDir : string) (es : list entry) (restored : Z)
    : M DiskStorage (string + Z) :=
  match es with
  | [] => mret (inr restored)
  | e :: es' =>
      if negb (e_regular e) || negb (is_log (e_name e)) then restore_entries dataDir es' restored
      else
        let entryName := Base (e_name e) in
        if String.eqb entryName "." || String.eqb entryName ".." then restore_entries dataDir es' restored
        else
          match e_state e with
          | EUnopenable => mret (inl ("cannot open zip entry '" +:+ e_name e +:+ "'"))
          | _ =>
              err ← restore_file dataDir entryName e;
              match err with
              | Some err => mret (inl err)
              | None => restore_entries dataDir es' (restored + 1)%Z
              end
          end
  end.

Definition finish_restore (res : string + Z) : string + Z :=
  match res with
  | inr restored => if (restored =? 0)%Z then inl "archive contained no .log files" else inr restored
  | inl e => inl e
  end.

(** A zip archive without its end cannot be opened; a tar archive is read up to there. *)
Definition restoreFromZip (dataDir : string) (a : archive) : M DiskStorage (string + Z) :=
  if a_torn a then mret (inl "cannot open zip file")
  else res ← restore_entries dataDir (a_entries a) 0; mret (finish_restore res).
Definition restoreFromTarGz (dataDir : string) (a : archive) : M DiskStorage (string + Z) :=
  res ← restore_entries dataDir (a_entries a) 0;
  mret (match res with
        | inr restored => if a_torn a then inl "error reading tar entry" else finish_restore (inr restored)
        | inl e => inl e
        end).

(** [HandleRestore]: the flags, the answer typed when there are logs already, whether the
    directory can be made, and what the file holds ([None]: it cannot be opened) *)
Inductive restore_outcome : Type :=
| RNoFile | RCancelled | RNoDirectory | RUnknownFormat | RFailed (e : string) | RRestored (n : Z).

Definition holds_logs (dataDir : string) (d : DiskStorage) : bool :=
  existsb (λ p, match rel_path dataDir p with
                | Some rel => negb (strings.Contains rel "/") && is_log rel
                | None => false
                end) (fst <$> map_to_list (dir d)).
Definition confirmed (answer : string) : bool :=
  let a := strings.TrimSpace answer in String.eqb a "y" || String.eqb a "Y".
Definition restore_format (filename : string) : option format :=
  if strings.HasSuffix filename ".tar.gz" || strings.HasSuffix filename ".tgz" then Some TarGz
  else if strings.HasSuffix filename ".zip" then Some Zip else None.

Definition HandleRestore (filename dataDir answer : string) (mkdir : bool) (a : option archive)
    : M DiskStorage restore_outcome :=
  if String.eqb filename "" then mret RNoFile
  else
    d ← get;
    if holds_logs dataDir d && negb (confirmed answer) then mret RCancelled
    else if negb mkdir then mret RNoDirectory
    else
      match restore_format filename with
      | None => mret RUnknownFormat
      | Some f =>
          res ← match a with
                | None => mret (inl "cannot open file")
                | Some a => match f with Zip => restoreFromZip | TarGz => restoreFromTarGz end dataDir a
                end;
          mret (match res with inl e => RFailed e | inr n => RRestored n end)
      end.

End restore.

(** ** Restoring stays in the data directory *)

(** The paths a restoration may write: logs directly in the data directory. *)
Definition inside (dataDir p : string) : Prop :=
  ∃ name, p = Join dataDir name ∧ lacks "/" name = true ∧ is_log name = true.

(** [d'] differs from [d] only in such files. *)
Definition confined (dataDir : string) : DiskStorage → DiskStorage → Prop := changes_only (inside dataDir).

Lemma LastIndexByte_None s c : strings.LastIndexByte s c = None ↔ lacks c s = true.
Proof.
  induction s as [|x s IH]; [done|]. unfold lacks in *. cbn [strings.LastIndexByte strings.forall_chars].
  rewrite andb_true_iff, negb_true_iff, <-IH.
  destruct (strings.LastIndexByte s c), (Ascii.eqb c x); naive_solver.
Qed.

Lemma LastIndexByte_Some s c i : strings.LastIndexByte s c = Some i →
  i < String.length s ∧ lacks c (strings.drop (S i) s) = true.
Proof.
  revert i. induction s as [|x s IH]; intros i; [done|]. cbn [strings.LastIndexByte].
  destruct (strings.LastIndexByte s c) as [j|] eqn:E.
  - intros [= <-]. destruct (IH j eq_refl). split; [simpl; lia|done].
  - destruct (Ascii.eqb c x); intros [= <-]. split; [simpl; lia|]. cbn.
    replace (strings.drop 0 s) with s by (by destruct s). by apply LastIndexByte_None.
Qed.

Lemma LastIndexByte_app a b c : lacks c b = true →
  strings.LastIndexByte (a +:+ b) c = strings.LastIndexByte a c.
Proof.
  intros Hb. induction a as [|x a IH]; cbn; [by apply LastIndexByte_None|]. by rewrite IH.
Qed.

Lemma drop_app_lt a b i : i < String.length a → strings.drop (S i) (a +:+ b) = strings.drop (S i) a +:+ b.
Proof.
  revert i. induction a as [|x a IH]; intros i Hi; [simpl in Hi; lia|]. cbn.
  destruct i as [|i]; [by destruct a, b|]. apply IH. simpl in Hi. lia.
Qed.

Lemma is_log_split name : is_log name = true →
  ∃ a, name = a +:+ ".log" ∧ ∀ n, trim_slashes n name = name.
Proof.
  intros Hlog. unfold is_log in Hlog. apply HasSuffix_split in Hlog as ->. eexists. split; [done|].
  generalize (strings.take (String.length name - String.length ".log") name). intros a n.
  destruct n as [|n]; cbn [trim_slashes]; [done|].
  destruct (strings.HasSuffix (a +:+ ".log") "/") eqn:E; [|done].
  apply HasSuffix_last in E; [|done]. rewrite last_char_app in E by done. done.
Qed.

(** The last segment of a log's name is a name in the directory, and a log. *)
Lemma Base_log name : is_log name = true → lacks "/" (Base name) = true ∧ is_log (Base name) = true.
Proof.
  intros (a & -> & Htrim)%is_log_split. unfold Base. rewrite (proj2 (String.eqb_neq _ _)) by (by destruct a).
  cbv zeta. rewrite Htrim, LastIndexByte_app by done. unfold is_log.
  destruct (strings.LastIndexByte a "/") as [i|] eqn:E.
  - apply LastIndexByte_Some in E as [Hi Hl]. rewrite drop_app_lt by done.
    rewrite (proj2 (String.eqb_neq _ _)) by (by destruct (strings.drop (S i) a)).
    by rewrite lacks_app, Hl, HasSuffix_app.
  - apply LastIndexByte_None in E. rewrite (proj2 (String.eqb_neq _ _)) by (by destruct a).
    by rewrite lacks_app, E, HasSuffix_app.
Qed.

Lemma Base_name name : lacks "/" name = true → is_log name = true → Base name = name.
Proof.
  intros Hl (a & -> & Htrim)%is_log_split. unfold Base.
  rewrite (proj2 (String.eqb_neq _ _)) by (by destruct a). cbv zeta.
  rewrite Htrim, (proj2 (LastIndexByte_None _ _) Hl). by rewrite (proj2 (String.eqb_neq _ _)) by (by destruct a).
Qed.

Section confinement.
Variable faults : nat → fault.

Lemma wpx_copy_inside dataDir p h b d : disk_wf d → inside dataDir p → dir d !! p = Some (h_ino h) →
  wpx (copy_to faults h b) (λ _ d', confined dataDir d d') (confined dataDir d) d.
Proof.
  intros Hwf Hp Hh. unfold copy_to. destruct b as [|x b]; [by apply wpx_ret, changes_refl|].
  apply wpx_bind. eapply wpx_mono; [by apply (wpx_write_only (inside dataDir) faults p)| |done].
  intros [ok h'] d' [Hd' _]. by apply wpx_ret.
Qed.

Lemma wpx_restore_file dataDir name e d : disk_wf d → inside dataDir (Join dataDir name) →
  wpx (restore_file faults dataDir name e) (λ _ d', confined dataDir d d') (confined dataDir d) d.
Proof.
  intros Hwf Hp. unfold restore_file. cbv zeta. apply wpx_bind.
  eapply wpx_mono; [by apply (wpx_open_only (inside dataDir))| |done]. intros [h|] d1 [Hc Hh]; [|by apply wpx_ret].
  apply wpx_bind. eapply wpx_mono with (Q := λ _ d', confined dataDir d d').
  - eapply wpx_mono; [apply (wpx_copy_inside dataDir (Join dataDir name)); [by destruct Hc|done|by apply Hh]| |];
      intros; by (eapply changes_trans; [exact Hc|]).
  - intros ok d2 Hd2. destruct ok, (e_state e); by apply wpx_ret.
  - done.
Qed.

Lemma wpx_restore_entries dataDir es : ∀ n d, disk_wf d →
  wpx (restore_entries faults dataDir es n) (λ _ d', confined dataDir d d') (confined dataDir d) d.
Proof.
  induction es as [|e es IH]; intros n d Hwf; cbn [restore_entries]; [by apply wpx_ret, changes_refl|].
  destruct (negb (e_regular e) || negb (is_log (e_name e))) eqn:Eskip; [by apply IH|].
  apply orb_false_iff in Eskip as [_ Hlog%negb_false_iff]. cbv zeta.
  destruct (_ || _) eqn:Edots; [by apply IH|]. clear Edots.
  destruct (Base_log _ Hlog) as [Hl Hlog'].
  assert (wpx (err ← restore_file faults dataDir (Base (e_name e)) e;
      match err with
      | Some err => mret (inl err)
      | None => restore_entries faults dataDir es (n + 1)%Z
      end) (λ _ d', confined dataDir d d') (confined dataDir d) d) as Hstep.
  { apply wpx_bind. eapply wpx_mono; [apply wpx_restore_file; [done|by eexists]| |done].
    intros [err|] d1 Hc; [by apply wpx_ret|].
    eapply wpx_mono; [apply IH; by destruct Hc| |]; intros; by (eapply changes_trans; [exact Hc|]). }
  destruct (e_state e); [done|by apply wpx_ret, changes_refl|done].
Qed.

End confinement.

(** [C28] Restoring a backup cannot write outside the data directory: whatever the archive
    holds (entries named with [..], absolute paths, links, directories, broken data), in
    either format, whichever system calls fail and wherever the process dies, the only
    files that change are logs directly in the data directory. *)
Theorem restore_confined faults filename dataDir answer mkdir a d (Hwf : disk_wf d) :
  wpx (HandleRestore faults filename dataDir answer mkdir a)
    (λ _ d', confined dataDir d d') (λ d', confined dataDir d d') d.
Proof.
  unfold HandleRestore. destruct (String.eqb filename ""); [by apply wpx_ret, changes_refl|].
  apply wpx_bind, wpx_get. destruct (_ && _); [by apply wpx_ret, changes_refl|].
  destruct (negb mkdir); [by apply wpx_ret, changes_refl|].
  destruct (restore_format filename) as [f|]; [|by apply wpx_ret, changes_refl].
  apply wpx_bind. eapply wpx_mono with (Q := λ _ d', confined dataDir d d'); [| |done].
  - destruct a as [a|]; [|by apply wpx_ret, changes_refl].
    pose proof (wpx_restore_entries faults dataDir (a_entries a) 0 d Hwf) as Hes.
    destruct f; unfold restoreFromZip, restoreFromTarGz.
    + destruct (a_torn a); [by apply wpx_ret, changes_refl|]. apply wpx_bind.
      eapply wpx_mono; [exact Hes| |done]. intros. by apply wpx_ret.
    + apply wpx_bind. eapply wpx_mono; [exact Hes| |done]. intros. by apply wpx_ret.
  - intros res d' Hd'. by apply wpx_ret.
Qed.

(** An archive made to escape. *)
Lemma restore_confined_witness :
  let a := MkArchive [MkEntry "../../etc/passwd.log" true [x61] EOk; MkEntry "t.log" true [x62] EBroken] true in
  wpx (HandleRestore (λ n, if decide (n = 1) then FErr 0 else FNone) "b.tar.gz" "data" "y" true (Some a))
    (λ _ d', confined "data" demo_log_disk d') (λ d', confined "data" demo_log_disk d') demo_log_disk.
Proof. apply restore_confined. apply demo_log_disk_wf. Defined.

(** ** Backup and restore are inverse *)

Section round_trip.
Variable faults : nat → fault.
Hypothesis Hok : ∀ n, faults n = FNone.

(** The same files, possibly later. *)
Definition same_files (d d' : DiskStorage) : Prop := dir d' = dir d ∧ inodes d' = inodes d.

Lemma read_ok p d b : file d p = Some b →
  sys_read faults p d = (Ret (Some (b, false)), tick d).
Proof. intros Hf. unfold sys_read, syscall. rewrite Hok, file_tick, Hf. done. Qed.

(** The entry of a log. *)
Definition entry_of (d : DiskStorage) (dataDir rel : string) : entry :=
  MkEntry rel true (default [] (file d (Join dataDir rel))) EOk.
Definition logs (rels : list string) : list string := filter (λ rel, is_log rel = true) rels.

Lemma same_entry d d' dataDir : same_files d d' → entry_of d' dataDir = entry_of d dataDir.
Proof. intros [E1 E2]. unfold entry_of, file, content. by rewrite E1, E2. Qed.

Lemma walk_ok f dataDir rels : ∀ d,
  Forall (λ rel, is_Some (file d (Join dataDir rel))) rels →
  ∃ d', (match f with Zip => zip_walk | TarGz => tar_walk end) faults (λ _, true) dataDir rels d =
    (Ret (entry_of d dataDir <$> logs rels, false, Z.of_nat (length (logs rels))), d') ∧ same_files d d'.
Proof.
  induction rels as [|rel rels IH]; intros d Hf; [by exists d; destruct f|].
  apply Forall_cons in Hf as [[b Hb] Hf]. unfold logs in *. rewrite filter_cons.
  destruct (is_log rel) eqn:El; [rewrite decide_True by done|rewrite decide_False by done].
  - destruct (IH (tick d)) as (d' & Hrun & Hsame); [done|].
    exists d'. split; [|by destruct Hsame]. cbn [length fmap list_fmap]. rewrite Nat2Z.inj_succ.
    rewrite (same_entry d (tick d)) in Hrun by done.
    assert (entry_of d dataDir rel = MkEntry rel true b EOk) as -> by (unfold entry_of; by rewrite Hb).
    destruct f; cbn [zip_walk tar_walk]; rewrite El; cbn [negb];
      rewrite (run_bind _ _ _ _ _ (read_ok _ _ _ Hb)); cbv beta iota; by rewrite (run_bind _ _ _ _ _ Hrun).
  - destruct (IH d Hf) as (d' & Hrun & Hsame). exists d'. split; [|done].
    destruct f; cbn [zip_walk tar_walk]; by rewrite El.
Qed.

(** The walk finds exactly the files below the directory, each once. *)
Lemma rel_path_join dataDir p rel : rel_path dataDir p = Some rel ↔ p = Join dataDir rel.
Proof.
  unfold rel_path, Join. destruct (strings.HasPrefix p (dataDir +:+ "/")) eqn:E.
  - apply HasPrefix_split in E. split.
    + intros [= <-]. rewrite E. generalize (strings.drop (String.length (dataDir +:+ "/")) p). intros r.
      by rewrite TrimPrefix_app, str_app_assoc.
    + intros ->. rewrite <-str_app_assoc. by rewrite TrimPrefix_app.
  - split; [done|]. intros ->. by rewrite <-str_app_assoc, HasPrefix_app in E.
Qed.

Lemma elem_of_Walk dataDir d rel : rel ∈ Walk dataDir d ↔ is_Some (dir d !! Join dataDir rel).
Proof.
  unfold Walk. rewrite merge_sort_Permutation, list_elem_of_omap. split.
  - intros (p & ([q i] & -> & Hq%elem_of_map_to_list)%list_elem_of_fmap & Hrel).
    apply rel_path_join in Hrel. cbn in Hrel. subst q. by eexists.
  - intros [i Hi]. exists (Join dataDir rel). split; [|by apply rel_path_join].
    apply list_elem_of_fmap. exists (Join dataDir rel, i). split; [done|by apply elem_of_map_to_list].
Qed.

Lemma NoDup_Walk dataDir d : NoDup (Walk dataDir d).
Proof.
  unfold Walk. rewrite merge_sort_Permutation.
  pose proof (NoDup_fst_map_to_list (dir d)) as Hnd. induction Hnd as [|p l Hp _ IH]; [apply NoDup_nil_2|].
  rewrite omap_cons. destruct (rel_path dataDir p) as [rel|] eqn:E; [|done]. cbn.
  apply NoDup_cons. split; [|done]. intros (q & Hq & Hrel)%list_elem_of_omap.
  apply rel_path_join in E as ->, Hrel as ->. done.
Qed.

(** *** The way back *)

Definition good_entry (e : entry) : Prop :=
  e_regular e = true ∧ is_log (e_name e) = true ∧ lacks "/" (e_name e) = true ∧ e_state e = EOk ∧
  (Z.of_nat (length (e_data e)) ≤ copy_limit)%Z.

Lemma restore_file_ok dataDir e d : disk_wf d → good_entry e →
  let p := Join dataDir (e_name e) in
  ∃ d', restore_file faults dataDir (e_name e) e d = (Ret None, d') ∧ disk_wf d' ∧
    file d' p = Some (e_data e) ∧ (∀ q, q ≠ p → file d' q = file d q) ∧ Storage.dataDir d' = Storage.dataDir d.
Proof.
  intros Hwf (_ & _ & _ & Hst & Hlen). cbv zeta. set (p := Join dataDir (e_name e)).
  assert (limit_data (e_data e) = e_data e) as Hlim
    by (unfold limit_data; by rewrite (proj2 (Z.leb_le _ _))).
  assert (∃ i d1, sys_open_trunc faults p d = (Ret (Some (MkHandle i (Some 0) true)), d1) ∧ disk_wf d1 ∧
    dir d1 !! p = Some i ∧ file d1 p = Some [] ∧ (∀ q, q ≠ p → file d1 q = file d q) ∧
    Storage.dataDir d1 = Storage.dataDir d) as (i & d1 & Hopen & Hwf1 & Hi & Hnil & Hothers & Hdir).
  { unfold sys_open_trunc, syscall_atomic, syscall. rewrite Hok. cbn [dir tick].
    destruct (dir d !! p) as [i|] eqn:Ei; eexists _, _; (split; [done|]).
    - split_and!; [by apply disk_wf_set_inodes, disk_wf_tick|done| |intros q Hq|done].
      + by apply file_set_inode.
      + rewrite file_set_inode_other; [done|]. cbn. intros Hqi. apply Hq. by eapply (proj1 Hwf).
    - split_and!; [by apply disk_wf_create|by apply lookup_insert_eq|apply file_create| |done].
      intros q Hq. by rewrite file_create_other. }
  unfold restore_file. cbv zeta. fold p. rewrite (run_bind _ _ _ _ _ Hopen). cbv beta iota. rewrite Hlim, Hst.
  destruct (e_data e) as [|x data] eqn:Edata.
  - exists d1. split; [done|]. done.
  - assert (sys_write faults (MkHandle i (Some 0) true) (x :: data) d1 =
      (Ret (true, advance (MkHandle i (Some 0) true) (length (x :: data))),
       do_write (MkHandle i (Some 0) true) (x :: data) (tick d1))) as Hw.
    { unfold sys_write, syscall. cbn [h_open]. by rewrite Hok. }
    exists (do_write (MkHandle i (Some 0) true) (x :: data) (tick d1)). split.
    { unfold copy_to. erewrite run_bind; [|erewrite run_bind; [|exact Hw]; done]. done. }
    unfold do_write. cbn [h_ino h_off]. assert (content (tick d1) i = []) as ->.
    { unfold file in Hnil. rewrite Hi in Hnil. cbn in Hnil. by injection Hnil. }
    split_and!; [by apply disk_wf_set_inodes| |intros q Hq|done].
    + rewrite file_set_inode by done. cbn. by rewrite app_nil_r.
    + rewrite file_set_inode_other; [by rewrite file_tick, Hothers|]. cbn. intros Hqi. apply Hq.
      by eapply (proj1 Hwf1).
Qed.

Lemma restore_entries_ok dataDir es : ∀ n d,
  disk_wf d → Forall good_entry es → NoDup (e_name <$> es) →
  ∃ d', restore_entries faults dataDir es n d = (Ret (inr (n + Z.of_nat (length es))%Z), d') ∧ disk_wf d' ∧
    (∀ e, e ∈ es → file d' (Join dataDir (e_name e)) = Some (e_data e)) ∧
    (∀ p, (∀ e, e ∈ es → p ≠ Join dataDir (e_name e)) → file d' p = file d p) ∧
    Storage.dataDir d' = Storage.dataDir d.
Proof.
  induction es as [|e es IH]; intros n d Hwf Hes Hnd.
  - exists d. rewrite Z.add_0_r. split_and!; try done. by intros e ?%elem_of_nil.
  - apply Forall_cons in Hes as [He Hes]. apply NoDup_cons in Hnd as [Hnew Hnd].
    destruct (restore_file_ok dataDir e d Hwf He) as (d1 & Hrun & Hwf1 & Hfile & Hothers & Hdir).
    destruct (IH (n + 1)%Z d1 Hwf1 Hes Hnd) as (d' & Hrun' & Hwf' & Hfiles & Hrest & Hdir').
    exists d'. destruct He as (Hreg & Hlog & Hlack & Hst & _).
    cbn [restore_entries]. rewrite Hreg, Hlog, Base_name by done. cbn [negb orb].
    rewrite !(proj2 (String.eqb_neq _ _)) by (intros E; by rewrite E in Hlog). cbn [orb].
    rewrite Hst. split_and!.
    + rewrite (run_bind _ _ _ _ _ Hrun). cbv beta iota. rewrite Hrun'. do 3 f_equal. cbn [length]. lia.
    + done.
    + intros e' [->|Hin]%elem_of_cons; [|by apply Hfiles]. rewrite Hrest; [done|].
      intros e' Hin E. apply Hnew. apply rel_path_join in E.
      assert (rel_path dataDir (Join dataDir (e_name e)) = Some (e_name e)) as E' by (by apply rel_path_join).
      rewrite E' in E. injection E as ->. by apply list_elem_of_fmap_2.
    + intros p Hp. rewrite Hrest; [apply Hothers; apply Hp; by left|]. intros e' Hin. apply Hp. by right.
    + congruence.
Qed.

Lemma restore_format_backup f unix : restore_format (backup_name f unix) = Some f.
Proof.
  unfold restore_format, backup_name. rewrite <-!str_app_assoc.
  generalize ("tinymq_backup_" +:+ Itoa unix). intros name. destruct f.
  - assert (∀ p, last_char p = Some "z"%char → strings.HasSuffix (name +:+ ".zip") p = false) as Hz.
    { intros p Hp. destruct (strings.HasSuffix (name +:+ ".zip") p) eqn:E; [|done].
      apply HasSuffix_last in E; [|by intros ->]. rewrite last_char_app in E by done. by rewrite Hp in E. }
    rewrite (Hz ".tar.gz"), (Hz ".tgz") by done. cbn [orb]. by rewrite HasSuffix_app.
  - by rewrite HasSuffix_app.
Qed.

Context `{C : LogCodec}.

(** [C27] A backup restores: the backup of a data directory that has at least one log, no log
    in a subdirectory and no file above 512 MiB (the restoring copy stops there), in either
    format, taken while nothing writes to it, and restored without faults into any other
    data directory under the name the backup command gave it, brings every topic log back
    byte for byte, so that the storage of the new directory replays the same records for
    every topic; both commands report the number of logs, and nothing outside the new
    directory changes. *)
Theorem backup_roundtrip f unix d d2
    (Hwf : disk_wf d2)
    (Hflat : ∀ rel, is_Some (dir d !! Join (dataDir d) rel) → is_log rel = true → lacks "/" rel = true)
    (Hsize : ∀ p b, file d p = Some b → (Z.of_nat (length b) ≤ copy_limit)%Z)
    (Hsome : ∃ topic, is_Some (file d (log_path d topic))) :
  ∃ a n d1 d2', create_backup faults (λ _, true) f (dataDir d) d = (Ret (a, n), d1) ∧ same_files d d1 ∧
    HandleRestore faults (backup_name f unix) (dataDir d2) "y" true (Some a) d2 = (Ret (RRestored n), d2') ∧
    (∀ topic b, file d (log_path d topic) = Some b →
       file d2' (log_path d2' topic) = Some b ∧ disk_log d2' topic = disk_log d topic) ∧
    (∀ p, ¬ inside (dataDir d2) p → file d2' p = file d2 p).
Proof.
  assert (∀ rel, rel ∈ Walk (dataDir d) d → is_Some (file d (Join (dataDir d) rel))) as Hfiles.
  { intros rel [i Hi]%elem_of_Walk. unfold file. rewrite Hi. by eexists. }
  destruct (walk_ok f (dataDir d) (Walk (dataDir d) d) d) as (d1 & Hrun & Hsame); [by apply Forall_forall|].
  set (es := entry_of d (dataDir d) <$> logs (Walk (dataDir d) d)) in *.
  assert (e_name <$> es = logs (Walk (dataDir d) d)) as Hnames.
  { subst es. rewrite <-list_fmap_compose. apply list_fmap_id. }
  assert (Forall good_entry es) as Hgood.
  { apply Forall_forall. intros e (rel & -> & [Hlog Hrel]%list_elem_of_filter)%list_elem_of_fmap.
    destruct (Hfiles rel Hrel) as [b Hb]. apply elem_of_Walk in Hrel.
    split_and!; try done; [by apply Hflat|]. cbn. rewrite Hb. by eapply Hsize. }
  assert (∀ topic b, file d (log_path d topic) = Some b →
    MkEntry (topicToFilename topic +:+ ".log") true b EOk ∈ es) as Hin.
  { intros topic b Hb. apply list_elem_of_fmap. exists (topicToFilename topic +:+ ".log"). split.
    - unfold entry_of. unfold log_path, logFilePath in Hb. by rewrite Hb.
    - apply list_elem_of_filter. split; [apply HasSuffix_app|]. apply elem_of_Walk.
      unfold file in Hb. unfold log_path, logFilePath in Hb. by destruct (dir d !! _). }
  destruct (restore_entries_ok (dataDir d2) es 0 d2 Hwf Hgood) as (d2' & Hrest & Hwf' & Hback & Hothers & Hdir).
  { rewrite Hnames. apply NoDup_filter, NoDup_Walk. }
  exists (MkArchive es false), (Z.of_nat (length es)), d1, d2'. split_and!; [|done| | |].
  - unfold create_backup. rewrite (run_bind get _ _ _ _ eq_refl). rewrite <-Hnames, length_fmap in Hrun.
    destruct f; by rewrite (run_bind _ _ _ _ _ Hrun).
  - unfold HandleRestore. rewrite (proj2 (String.eqb_neq _ _)) by done.
    rewrite (run_bind get _ _ _ _ eq_refl). rewrite andb_false_r. cbn [negb]. rewrite restore_format_backup.
    assert ((Z.of_nat (length es) =? 0)%Z = false) as Hne.
    { apply Z.eqb_neq. destruct Hsome as (topic & b & Hb). apply Hin in Hb. destruct es; [by apply elem_of_nil in Hb|done]. }
    rewrite Z.add_0_l in Hrest.
    destruct f; unfold restoreFromZip, restoreFromTarGz; cbn [a_torn a_entries];
      (erewrite run_bind; [|erewrite run_bind; [|exact Hrest]; done]);
      unfold finish_restore; by rewrite Hne.
  - intros topic b Hb. assert (file d2' (log_path d2' topic) = Some b) as Hb'.
    { unfold log_path. rewrite Hdir. by apply (Hback _ (Hin _ _ Hb)). }
    split; [done|]. unfold disk_log. by rewrite Hb, Hb'.
  - intros p Hp. apply Hothers. intros e He ->. apply Hp.
    rewrite Forall_forall in Hgood. destruct (Hgood e He) as (_ & Hlog & Hlack & _). by eexists.
Qed.

End round_trip.

Lemma backup_roundtrip_witness :
  let d2 := MkDisk "restored" ∅ false ∅ ∅ 0 0 in
  ∃ a n d1 d2', create_backup no_faults (λ _, true) TarGz "data" demo_log_disk = (Ret (a, n), d1) ∧
    same_files demo_log_disk d1 ∧
    HandleRestore no_faults (backup_name TarGz 1234) "restored" "y" true (Some a) d2 = (Ret (RRestored n), d2') ∧
    (∀ topic b, file demo_log_disk (log_path demo_log_disk topic) = Some b →
       file d2' (log_path d2' topic) = Some b ∧ disk_log d2' topic = disk_log demo_log_disk topic) ∧
    (∀ p, ¬ inside "restored" p → file d2' p = file d2 p).
Proof.
  apply (backup_roundtrip no_faults (λ _, eq_refl) TarGz 1234 demo_log_disk).
  - by split_and!.
  - intros rel [i Hi] _. cbn in Hi. apply lookup_singleton_Some in Hi as [Hi _].
    unfold Join in Hi. injection Hi as <-. done.
  - intros p b. unfold file. cbn. intros (i & Hi & ->)%fmap_Some.
    apply lookup_singleton_Some in Hi as [_ <-]. vm_compute. discriminate.
  - exists "t". by eexists.
Defined.

(** A log that cannot be opened becomes an empty entry of the zip archive, and restoring
    that archive empties the log: the backup command reports no error. *)
Theorem unreadable_log_emptied :
  let fail1 := λ n, if decide (n = 0) then FErr 0 else FNone in
  match create_backup fail1 (λ _, true) Zip "data" demo_log_disk with
  | (Ret (a, n), _) => n = 0%Z ∧
      match HandleRestore no_faults (backup_name Zip 5) "data" "y" true (Some a) demo_log_disk with
      | (Ret (RRestored n), d') => n = 1%Z ∧ file d' "data/t.log" = Some []
      | _ => False
      end
  | _ => False
  end.
Proof. vm_compute. auto. Qed.
