(* ===== verification/Flag.v ===== *)
(** * Go's [flag] package and the number syntax it uses

    Command line flags with [flag.ExitOnError]: parsing stops at the first argument that
    is no flag, an error ends the process with status 2, a request for help with 0. *)

From Stdlib Require Import Ascii.
From S2P Require Import Prelude.
From S2P Require Import GoLib.
From S2P Require Import Http.

Local Open Scope Z_scope.

(** ** [strconv.ParseBool] and [strconv.ParseInt(s, 0, 64)] *)

Definition ParseBool (s : string) : option bool :=
  if existsb (String.eqb s) ["1"; "t"; "T"; "TRUE"; "true"; "True"] then Some true
  else if existsb (String.eqb s) ["0"; "f"; "F"; "FALSE"; "false"; "False"] then Some false
  else None.

(** The base a number asks for, and its digits. *)
Definition base_prefix (s : string) : Z * string :=
  match s with
  | String "0" (String c r) =>
      if Ascii.eqb (lower c) "x" then (16, r)
      else if Ascii.eqb (lower c) "b" then (2, r)
      else if Ascii.eqb (lower c) "o" then (8, r)
      else (8, String c r)
  | _ => (10, s)
  end.

(** Digits and underscores in a base; the underscores are checked apart. *)
Fixpoint base_digits (base acc : Z) (s : string) : option Z :=
  match s with
  | EmptyString => Some acc
  | String c s' =>
      if Ascii.eqb c "_" then base_digits base acc s'
      else
        match hex_value c with
        | Some d => if Z.of_N d <? base then base_digits base (acc * base + Z.of_N d) s' else None
        | None => None
        end
  end.

(** [underscoreOK]: an underscore stands between digits, or between the base prefix and a
    digit.  [seen] is the kind of the last character. *)
Inductive seen : Type := SStart | SDigit | SUnderscore | SOther.
Fixpoint underscores (hex : bool) (i : seen) (s : string) : bool :=
  match s with
  | EmptyString => match i with SUnderscore => false | _ => true end
  | String c s' =>
      match hex_value c with
      | Some d =>
          if (Z.of_N d <? 10) || hex then underscores hex SDigit s'
          else match i with SUnderscore => false | _ => underscores hex SOther s' end
      | None =>
          if Ascii.eqb c "_"
          then match i with SDigit => underscores hex SUnderscore s' | _ => false end
          else match i with SUnderscore => false | _ => underscores hex SOther s' end
      end
  end.
Definition underscoreOK (s : string) : bool :=
  match s with
  | String "0" (String c r) =>
      if Ascii.eqb (lower c) "x" then underscores true SDigit r
      else if Ascii.eqb (lower c) "b" || Ascii.eqb (lower c) "o" then underscores false SDigit r
      else underscores false SStart s
  | _ => underscores false SStart s
  end.

Definition ParseInt (s : string) : option Z :=
  let '(sgn, body) := take_sign s in
  let '(base, ds) := base_prefix body in
  if String.eqb ds "" then None
  else
    n ← base_digits base 0 ds;
    if strings.Contains body "_" && negb (underscoreOK body) then None
    else
      let z := if String.eqb sgn "-" then - n else n in
      if in_int_range z then Some z else None.

Example ParseInt_ex :
  ParseInt "20000" = Some 20000 ∧ ParseInt "-0x1F" = Some (-31) ∧ ParseInt "1_000" = Some 1000 ∧
  ParseInt "1__0" = None ∧ ParseInt "0x_1" = Some 1 ∧ ParseInt "_1" = None ∧ ParseInt "010" = Some 8 ∧
  ParseInt "08" = None ∧ ParseInt "0" = Some 0 ∧ ParseInt "" = None ∧ ParseInt "9223372036854775808" = None.
Proof. vm_compute. auto 20. Qed.

(** ** Flags *)

Inductive kind : Type := KString | KInt | KBool.
Definition valid (k : kind) (v : string) : bool :=
  match k with
  | KString => true
  | KInt => bool_decide (is_Some (ParseInt v))
  | KBool => bool_decide (is_Some (ParseBool v))
  end.

Inductive parsed : Type :=
| PExit (code : Z)
| PArgs (values : gmap string string) (leftover : list string).

(** The name and the value of [-name], [--name], [-name=value]; [None]: no flag. *)
Inductive flag_syntax : Type := FStop | FEnd | FBad | FFlag (name : string) (value : option string).
Definition flag_arg (s : string) : flag_syntax :=
  match s with
  | String "-" (String c r) =>
      let name := if Ascii.eqb c "-" then r else String c r in
      if Ascii.eqb c "-" && String.eqb r "" then FEnd
      else
        match name with
        | EmptyString => FBad
        | String x rest =>
            if Ascii.eqb x "-" || Ascii.eqb x "=" then FBad
            else
              match strings.Cut name "=" with
              | Some (n, v) => FFlag n (Some v)
              | None => FFlag name None
              end
        end
  | _ => FStop
  end.

Section parse.
Variable flags : list (string * kind).

(** [fs.Parse(args)] *)
Fixpoint Parse (values : gmap string string) (args : list string) : parsed :=
  match args with
  | [] => PArgs values []
  | s :: rest =>
      match flag_arg s with
      | FStop => PArgs values args
      | FEnd => PArgs values rest
      | FBad => PExit 2
      | FFlag name value =>
          match List.find (λ f, String.eqb f.1 name) flags with
          | None => if String.eqb name "help" || String.eqb name "h" then PExit 0 else PExit 2
          | Some (_, KBool) =>
              let v := default "true" value in
              if valid KBool v then Parse (<[name := v]> values) rest else PExit 2
          | Some (_, k) =>
              match value, rest with
              | Some v, _ => if valid k v then Parse (<[name := v]> values) rest else PExit 2
              | None, v :: rest' => if valid k v then Parse (<[name := v]> values) rest' else PExit 2
              | None, [] => PExit 2
              end
          end
      end
  end.

(** The value of a flag, or its default. *)
Definition flag_string (values : gmap string string) (name dflt : string) : string := default dflt (values !! name).
Definition flag_int (values : gmap string string) (name : string) (dflt : Z) : Z :=
  default dflt (values !! name ≫= ParseInt).
Definition flag_bool (values : gmap string string) (name : string) (dflt : bool) : bool :=
  default dflt (values !! name ≫= ParseBool).

(** An argument that is no flag ends the parsing: everything after it is left over. *)
Lemma Parse_positional values s rest : flag_arg s = FStop → Parse values (s :: rest) = PArgs values (s :: rest).
Proof. intros Hs. cbn [Parse]. by rewrite Hs. Qed.

Lemma Parse_string values name v rest :
  flag_arg ("--" +:+ name +:+ "=" +:+ v) = FFlag name (Some v) →
  List.find (λ f, String.eqb f.1 name) flags = Some (name, KString) →
  Parse values (("--" +:+ name +:+ "=" +:+ v) :: rest) = Parse (<[name := v]> values) rest.
Proof. intros Ha Hf. cbn [Parse]. by rewrite Ha, Hf. Qed.

End parse.

(** Anything that does not begin with a dash is positional. *)
Lemma flag_arg_plain s : strings.HasPrefix s "-" = false → flag_arg s = FStop.
Proof. destruct s as [|c s]; [done|]. cbn. destruct c as [[] [] [] [] [] [] [] []]; by destruct s. Qed.
