(* ===== verification/Cli.v ===== *)
(** * The command line tool ([cmd/tmq])

    A command is what it prints, the requests it sends and what it does with the answers,
    up to its end or an exit status.  A printed line is given without line breaks around
    it.  Tables are the rows handed to [text/tabwriter];
    [tail], [top] and [cluster peers --watch], which do not end, are their rounds.  Times
    are printed, and JSON bodies turned into text, by arguments. *)

From Stdlib Require Import Ascii.
From Stdlib Require Import Strings.Byte.
From S2P Require Import Prelude.
From S2P Require Import GoLib.
From S2P Require Import Message.
From S2P Require Import Broker.
From S2P Require Import Cluster.
From S2P Require Import Duration.
From S2P Require Import DurationText.
From S2P Require Import Http.
From S2P Require Import Rest.
From S2P Require Import Url.
From S2P Require Import HttpClient.
From S2P Require Import Flag.

(** ** Commands *)

Inductive cli : Type :=
| Say (line : string) (k : cli)
(** a request to a server; [None]: no answer *)
| Send (target : string) (r : option Request) (k : option Response → cli)
| Wait (seconds : Z) (k : cli)
| Done
| Exit (code : Z).

Definition say (line : string) : cli := Say line Done.
Fixpoint say_all (lines : list string) (k : cli) : cli :=
  match lines with
  | [] => k
  | l :: lines' => Say l (say_all lines' k)
  end.

(** ** Texts *)

Definition esc (code : string) : string := String "027" ("[" +:+ code).
Definition ColorReset : string := esc "0m".
Definition ColorRed : string := esc "31m".
Definition ColorGreen : string := esc "32m".
Definition ColorYellow : string := esc "33m".
Definition ColorBlue : string := esc "34m".
Definition ColorCyan : string := esc "36m".
Definition ColorBold : string := esc "1m".
Definition colored (color text : string) : string := color +:+ text +:+ ColorReset.
Definition red_error (text : string) : string := colored ColorRed ("[Error] " +:+ text).
(** [\033[H\033[2J] *)
Definition clear_screen : string := esc "H" +:+ esc "2J".
Definition tab : string := String "009" "".
Definition quote : string := String "034" "".
Definition unauthorized_text : string :=
  red_error "Unauthorized. Ensure TINYMQ_API_KEY is correctly set.".

(** The answers a command reads. *)
Class CliText : Type := {
  json_text : json → string;
  Format : string → Z → string;
  error_text : option Response → string;
  decode_error : Response → string;
  duration_error : string → string;
  (** the JSON bodies built by [json.Marshal] on string maps *)
  marshal_map : list (string * string) → bytes
}.

Section commands.
Context `{R : Runtime} `{T : CliText}.
(** [TINYMQ_URL], and the address the server sees *)
Variable baseURL addr : string.

Definition body_text (resp : Response) : string :=
  match content resp with BEmpty => "" | BText s => s | BJson j => json_text j end.

(** [DoAuthRequest]: a body is sent as JSON *)
Definition DoAuthRequest (target method endpoint : string) (body : option bytes) (k : option Response → cli) : cli :=
  Send target (req addr (getenv "TINYMQ_API_KEY") method endpoint (default [] body)
                 (match body with Some _ => json_content | None => ∅ end)) k.

(** With the two answers most commands have for a failure. *)
Definition with_response (failed : string → string) (o : option Response) (k : Response → cli) : cli :=
  match o with
  | None => say (failed (error_text o))
  | Some resp => k resp
  end.
Definition network_error (e : string) : string := red_error ("Network error: " +:+ e).
Definition plain_error (e : string) : string := red_error e.
Definition authorized_response (resp : Response) (k : cli) : cli :=
  if (status resp =? 401)%Z then say unauthorized_text else k.

(** ** Publishing and consuming ([shared/publish.go]) *)

Definition publish_flags : list (string * kind) := [("ttl", KString); ("delay", KString); ("broadcast", KBool)].

Definition HandlePublish (args : list string) : cli :=
  match Parse publish_flags ∅ args with
  | PExit code => Exit code
  | PArgs v (topic :: payload :: _) =>
      let params :=
        (if String.eqb (flag_string v "ttl" "") "" then [] else [("ttl", flag_string v "ttl" "")]) ++
        (if String.eqb (flag_string v "delay" "") "" then [] else [("delay", flag_string v "delay" "")]) ++
        (if flag_bool v "broadcast" false then [("broadcast", "true")] else []) in
      DoAuthRequest baseURL "POST" ("/publish/" +:+ url.PathEscape topic +:+ "?" +:+ url.Encode params)
        (Some (bytes_of_string payload)) (λ o,
        with_response network_error o (λ resp,
        authorized_response resp (
        if (status resp =? 202)%Z || (status resp =? 200)%Z
        then say (colored ColorGreen ("✔ Message published successfully in '" +:+ topic +:+ "'"))
        else say (colored ColorRed ("The broker rejected the message (" +:+ Itoa (status resp) +:+ "): " +:+
               body_text resp)))))
  | PArgs _ _ => say "Use: tmq pub <topic> <payload> [--ttl=duration] [--delay=duration] [--broadcast]"
  end.

(** [parseMessagesPayload]: an array of messages, or one message with an identifier *)
Definition parseMessagesPayload (resp : Response) : option (list Message) :=
  match content resp with
  | BJson j =>
      match json_to_messages j, j with
      | Some l, _ => Some l
      | None, (JMessage m | JQoL m _) => if String.eqb (ID m) "" then None else Some [m]
      | None, _ => None
      end
  | _ => None
  end.

Definition rule : string := colored ColorBlue "------------------------------------------".
Definition show_message (msg : Message) : list string :=
  [rule;
   colored (ColorBold +:+ ColorCyan) "ID:" +:+ " " +:+ ID msg +:+ "  |  " +:+
     colored (ColorBold +:+ ColorYellow) "Retries:" +:+ " " +:+ Itoa (RetryCount msg);
   colored ColorBold "Date:" +:+ " " +:+ Format "2006-01-02 15:04:05" (Timestamp msg);
   colored ColorBold "Payload:" +:+ " " +:+ string_of_bytes (Payload msg)].

Definition consume_flags : list (string * kind) := [("timeout", KString); ("limit", KInt); ("auto-ack", KBool)].

(** What [HandleConsume] makes of the answer. *)
Definition show_consumed (topic : string) (resp : Response) : cli :=
  authorized_response resp (
  if (status resp =? 404)%Z
  then say (colored ColorYellow ("[Empty] No messages available in '" +:+ topic +:+ "'"))
  else
    match parseMessagesPayload resp with
    | None => say (red_error "Error interpreting response: incompatible JSON format")
    | Some messages => say_all (mjoin (show_message <$> messages)) (say rule)
    end).

Definition HandleConsume (args : list string) : cli :=
  match Parse consume_flags ∅ args with
  | PExit code => Exit code
  | PArgs v (topic :: _) =>
      let params :=
        [("timeout", flag_string v "timeout" "0s"); ("limit", Itoa (flag_int v "limit" 1));
         ("auto_ack", if flag_bool v "auto-ack" true then "true" else "false")] in
      DoAuthRequest baseURL "GET" ("/consume/" +:+ url.PathEscape topic +:+ "?" +:+ url.Encode params) None (λ o,
        with_response network_error o (show_consumed topic))
  | PArgs _ _ => say "Use: tmq sub <topic> [--timeout=duration] [--limit=count] [--auto-ack=true/false]"
  end.

(** The limit stays with the client: it cuts what is shown, not what is asked for. *)
Definition HandlePeek (args : list string) : cli :=
  match Parse [("limit", KInt)] ∅ args with
  | PExit code => Exit code
  | PArgs v (topic :: _) =>
      let limit := flag_int v "limit" 10 in
      DoAuthRequest baseURL "GET" ("/api/queues/peek?queue=" +:+ url.QueryEscape topic) None (λ o,
        with_response network_error o (λ resp,
        authorized_response resp (
        match content resp with
        | BJson j =>
            match json_to_messages j with
            | None => say (red_error ("Error decoding broker RAM: " +:+ decode_error resp))
            | Some [] => say (colored ColorYellow ("[RAM] The queue '" +:+ topic +:+ "' is empty (0 messages in wait)."))
            | Some messages =>
                Say (colored (ColorBold +:+ ColorYellow)
                       ("PEEKING RAM OF '" +:+ topic +:+ "' (Showing first " +:+ Itoa limit +:+ ")"))
                (say_all (mjoin (imap (λ i msg,
                    [colored (ColorBold +:+ ColorCyan) ("[" +:+ Itoa (Z.of_nat i + 1) +:+ "] ID: " +:+ ID msg +:+
                       " | Attempts: " +:+ Itoa (RetryCount msg) +:+ " | " +:+ Format "15:04:05" (Timestamp msg));
                     "   " +:+ string_of_bytes (Payload msg)]) (take (Z.to_nat limit) messages)))
                (say ""))
            end
        | _ => say (red_error ("Error decoding broker RAM: " +:+ decode_error resp))
        end)))
  | PArgs _ _ => say "Use: tmq peek <topic/queue> [--limit=count]"
  end.

(** [HandleTail]: what an event of the stream prints; [None]: an identifier shorter than
    eight bytes panics *)
Definition tail_event (e : option json) : option (list string) :=
  match e with
  | Some (JObj (("status", JStr "connected") :: _)) =>
      Some [colored ColorYellow "[SSE] Connected successfully! Waiting for messages..."]
  | Some (JMessage msg) =>
      if String.eqb (ID msg) "" then Some []
      else if (String.length (ID msg) <? 8)%nat then None
      else Some [colored ColorBlue ("[" +:+ Format "15:04:05" (Timestamp msg) +:+ "]") +:+ " " +:+
            ColorBold +:+ ColorCyan +:+ " " +:+ strings.take 8 (ID msg) +:+ "->" +:+ ColorReset +:+ " " +:+
            string_of_bytes (Payload msg)]
  | _ => Some []
  end.

(** One connection of the stream: whether to try again after two seconds. *)
Definition tail_round (topic : string) (again : cli) (events : list (option json)) : cli :=
  match req addr (getenv "TINYMQ_API_KEY") "GET" ("/stream/" +:+ url.PathEscape topic) [] ∅ with
  | None => Wait 2 again
  | Some r =>
      Send baseURL (Some r) (λ o,
        match o with
        | None => Say (colored ColorRed "[Connection Lost] Retrying in 2s...") (Wait 2 again)
        | Some resp =>
            if (status resp =? 401)%Z then say unauthorized_text
            else if negb (status resp =? 200)%Z
            then Say (red_error ("Broker returned status " +:+ Itoa (status resp) +:+ ". Retrying in 2s...")) (Wait 2 again)
            else
              match mapM tail_event events with
              | None => Exit 2
              | Some lines => say_all (mjoin lines) (Wait 2 again)
              end
        end)
  end.
Fixpoint tail_loop (topic : string) (rounds : list (list (option json))) : cli :=
  match rounds with
  | [] => Done
  | events :: rounds' => tail_round topic (tail_loop topic rounds') events
  end.
Definition HandleTail (args : list string) (rounds : list (list (option json))) : cli :=
  match args with
  | [] => say "Use: tmq tail <topic>"
  | topic :: _ =>
      Say (colored (ColorBold +:+ ColorGreen)
             ("Spy Mode: Listening to '" +:+ topic +:+ "' in real-time via SSE... (Ctrl+C to exit)"))
        (tail_loop topic rounds)
  end.

(** ** Administration ([shared/admin.go]) *)

(** A statistic as the server sends it. *)
Definition json_stat (j : json) : option TopicStat :=
  match j with
  | JObj [("Name", JStr name); ("MessageCount", JInt m); ("WaitingConsumers", JInt c); ("IsDLQ", JBool d);
          ("HasWebhooks", JBool w)] => Some (MkStat name m c d w)
  | _ => None
  end.
(** Wrapped in an object, or the bare array. *)
Definition json_stats (resp : Response) : list TopicStat :=
  match content resp with
  | BJson (JObj (("stats", JList l) :: _)) => default [] (mapM json_stat l)
  | BJson (JList l) => default [] (mapM json_stat l)
  | _ => []
  end.

Definition stat_row (s : TopicStat) : string :=
  let qType := if st_IsDLQ s then colored ColorRed "DLQ"
               else if strings.Contains (st_Name s) "*" then colored ColorBlue "Wildcard" else "Standard" in
  let hasWh := if st_HasWebhooks s then colored ColorGreen "Yes" else "No" in
  let msgCountStr := if (0 <? st_MessageCount s)%Z then colored ColorYellow (Itoa (st_MessageCount s))
                     else Itoa (st_MessageCount s) in
  st_Name s +:+ tab +:+ msgCountStr +:+ tab +:+ Itoa (st_WaitingConsumers s) +:+ tab +:+ qType +:+ tab +:+ hasWh.
Definition stat_title : string :=
  colored ColorBold ("QUEUE / TOPIC NAME" +:+ tab +:+ "MESSAGES (RAM)" +:+ tab +:+ "WAITING WORKERS" +:+ tab +:+
    "TYPE" +:+ tab +:+ "WEBHOOKS").

Definition HandleList (k : cli) : cli :=
  DoAuthRequest baseURL "GET" "/api/stats" None (λ o,
    match o with
    | None => Say (red_error ("Error connecting to the broker at " +:+ baseURL +:+ ": " +:+ error_text o)) k
    | Some resp =>
        if (status resp =? 401)%Z then Say unauthorized_text k
        else
          match json_stats resp with
          | [] => Say "No topics or queues active at the moment." k
          | stats =>
              Say (colored (ColorBold +:+ ColorCyan) ("STATE OF 🍃 TINYMQ (" +:+ baseURL +:+ ")"))
              (say_all (stat_title :: (stat_row <$> stats)) (Say "" k))
          end
    end).

Fixpoint HandleTop (rounds : nat) : cli :=
  match rounds with
  | O => Done
  | S n => Say clear_screen (HandleList (Say (colored ColorYellow "(Refreshing every 2s. Press Ctrl+C to exit)") (Wait 2 (HandleTop n))))
  end.

Definition HandleCreate (args : list string) : cli :=
  match Parse [("policy", KString); ("retention", KString)] ∅ args with
  | PExit code => Exit code
  | PArgs v (topic :: _) =>
      let policy := flag_string v "policy" "" in
      let retention := flag_string v "retention" "" in
      if negb (String.eqb policy "") && negb (String.eqb policy "reject" || String.eqb policy "drop-oldest")
      then say (red_error "--policy must be 'reject' or 'drop-oldest'")
      else if negb (String.eqb retention "") && negb (bool_decide (is_Some (ParseDuration retention)))
      then say (red_error ("--retention must be a valid Go duration (e.g. 24h, 30m): " +:+ duration_error retention))
      else
        let payload := [("name", topic)] ++ (if String.eqb policy "" then [] else [("policy", policy)]) ++
          (if String.eqb retention "" then [] else [("retain", retention)]) in
        DoAuthRequest baseURL "POST" "/api/topics" (Some (marshal_map payload)) (λ o,
          with_response plain_error o (λ resp,
          if (status resp =? 201)%Z then
            Say (colored ColorGreen ("✔ Queue '" +:+ topic +:+ "' created!"))
              (say_all ((if String.eqb policy "" then [] else ["  Policy: " +:+ policy]) ++
                 (if String.eqb retention "" then [] else ["  Retention: " +:+ retention])) Done)
          else say (red_error (body_text resp))))
  | PArgs _ _ => say "Use: tmq create <topic> [--policy=reject|drop-oldest] [--retention=duration]"
  end.

Definition HandleRm (args : list string) (isPurge : bool) : cli :=
  match args with
  | [] => say (if isPurge then "Use: tmq purge <queue>" else "Use: tmq rm <queue>")
  | topic :: _ =>
      let '(endpoint, actionStr) :=
        if isPurge then ("/api/queues/purge", "purged") else ("/api/queues/delete", "deleted") in
      DoAuthRequest baseURL "DELETE" (endpoint +:+ "?queue=" +:+ url.QueryEscape topic) None (λ o,
        with_response network_error o (λ resp,
        if (status resp =? 200)%Z
        then say (colored ColorGreen ("✔ Queue '" +:+ topic +:+ "' successfully " +:+ actionStr +:+ "!"))
        else say (red_error ("Broker returned status " +:+ Itoa (status resp)))))
  end.

Definition bare_error (e : string) : string := "Error: " +:+ e.
Definition json_strings (j : json) : list string :=
  match j with JList l => omap (λ x, match x with JStr s => Some s | _ => None end) l | _ => [] end.
Definition listed (title none : string) (l : list string) : cli :=
  Say title (say_all (match l with [] => [none] | _ => (λ x, "  - " +:+ x) <$> l end) (say "")).

Definition HandleWebhook (args : list string) : cli :=
  match args with
  | action :: topic :: rest =>
      if String.eqb action "list" then
        DoAuthRequest baseURL "GET" ("/api/queues/webhooks?queue=" +:+ url.QueryEscape topic) None (λ o,
          with_response bare_error o (λ resp,
          listed (colored (ColorBold +:+ ColorCyan) ("Webhooks for '" +:+ topic +:+ "':")) "  (No webhooks registered)"
            (match content resp with BJson j => json_strings j | _ => [] end)))
      else
        match rest with
        | [targetURL] =>
            if String.eqb action "add" then
              DoAuthRequest baseURL "POST" ("/webhook/" +:+ url.PathEscape topic)
                (Some (bytes_of_string ("{" +:+ quote +:+ "url" +:+ quote +:+ ":" +:+ quote +:+ targetURL +:+ quote +:+ "}")))
                (λ o, with_response bare_error o (λ resp,
                if (status resp =? 201)%Z then say (colored ColorGreen "✔ Webhook registered successfully!")
                else say (red_error (body_text resp))))
            else say "Invalid webhook command."
        | _ => say "Invalid webhook command."
        end
  | _ => say_all ["Use: tmq webhook list <topic>"; "    tmq webhook add <topic> <url>"] Done
  end.

Definition HandleGroup (args : list string) : cli :=
  match args with
  | action :: topic :: rest =>
      if String.eqb action "list" then
        DoAuthRequest baseURL "GET" ("/api/groups?topic=" +:+ url.QueryEscape topic) None (λ o,
          with_response plain_error o (λ resp,
          match content resp with
          | BJson (JObj fields) =>
              listed (colored (ColorBold +:+ ColorCyan) ("Consumer groups for '" +:+ topic +:+ "':"))
                "  (No groups registered)"
                (match List.find (λ f, String.eqb f.1 "groups") fields with Some (_, j) => json_strings j | None => [] end)
          | _ => say (red_error ("Could not parse response: " +:+ decode_error resp))
          end))
      else if String.eqb action "create" then
        match rest with
        | group :: _ =>
            DoAuthRequest baseURL "POST" "/api/groups" (Some (marshal_map [("topic", topic); ("group", group)])) (λ o,
              with_response plain_error o (λ resp,
              if (status resp =? 201)%Z
              then say (colored ColorGreen ("✔ Consumer group '" +:+ group +:+ "' created for topic '" +:+ topic +:+ "'!"))
              else say (red_error (body_text resp))))
        | [] => say "Use: tmq group create <topic> <group>"
        end
      else say "Invalid group command."
  | _ => say_all ["Use: tmq group list <topic>"; "    tmq group create <topic> <group>"] Done
  end.

Definition HandleRedrive (topic : string) : cli :=
  DoAuthRequest baseURL "POST" ("/api/queues/redrive?queue=" +:+ url.QueryEscape topic) None (λ o,
    match o with
    | None => say (red_error ("Error connecting to the broker: " +:+ error_text o))
    | Some resp =>
        if (status resp =? 200)%Z then
          let redriven :=
            match content resp with
            | BJson (JObj fields) =>
                match List.find (λ f, String.eqb f.1 "redriven_messages") fields with
                | Some (_, JInt n) => Itoa n
                | _ => "<nil>"
                end
            | _ => "<nil>"
            end in
          say (colored ColorGreen ("✔ Successfully redriven " +:+ redriven +:+ " messages from " +:+ topic +:+
                 ".dlq back to " +:+ topic +:+ "!"))
        else say (red_error (strings.TrimSpace (body_text resp)))
    end).

End commands.
