(* ===== verification/Tool.v ===== *)
(** * The command line tool: cluster, doctor, bench, the shell and [main]

    ([cmd/tmq/handle/cluster.go], [doctor.go], [bench.go], [cmd/tmq/shell.go], [main.go]);
    the commands are those of [Cli.v] and [Backup.v].  The doctor's probes are what the
    machine answers, an argument. *)

From Stdlib Require Import Ascii.
From Stdlib Require Import Strings.Byte.
From S2P Require Import Prelude.
From S2P Require Import GoLib.
From S2P Require Import Message.
From S2P Require Import Broker.
From S2P Require Import Cluster.
From S2P Require Import Duration.
From S2P Require Import DurationText.
From S2P Require Import Main.
From S2P Require Import Http.
From S2P Require Import Rest.
From S2P Require Import Url.
From S2P Require Import HttpClient.
From S2P Require Import Flag.
From S2P Require Import Cli.

(** ** [tmq cluster] *)

Record ClusterStatusResponse : Type := MkStatus {
  cs_Enabled : bool; cs_Role : string; cs_Term : Z; cs_LeaderHTTP : string; cs_Peers : list Peer
}.

(** The fields of a JSON object; a missing one has its zero value. *)
Definition field (l : list (string * json)) (name : string) : option json :=
  snd <$> List.find (λ f, String.eqb f.1 name) l.
Definition as_string (j : option json) : string := match j with Some (JStr s) => s | _ => "" end.
Definition as_int (j : option json) : Z := match j with Some (JInt z) => z | _ => 0%Z end.
Definition as_bool (j : option json) : bool := match j with Some (JBool b) => b | _ => false end.
Definition json_peer (j : json) : Peer :=
  match j with
  | JObj l => MkPeer (as_string (field l "address")) (as_bool (field l "alive")) (as_int (field l "last_seen"))
  | _ => MkPeer "" false 0
  end.
Definition json_status (resp : Response) : option ClusterStatusResponse :=
  match content resp with
  | BJson (JObj l) =>
      Some (MkStatus (as_bool (field l "clustering_enabled")) (as_string (field l "role")) (as_int (field l "term"))
        (as_string (field l "leader_http"))
        (match field l "peers" with Some (JList ps) => json_peer <$> ps | _ => [] end))
  | _ => None
  end.

Section tool.
Context `{R : Runtime} `{T : CliText}.
Variable baseURL addr : string.
(** the time a command runs at; [0] as a time is the zero time *)
Variable now : Z.

Definition peer_row (p : Peer) : string :=
  PeerAddress p +:+ tab +:+ (if IsAlive p then colored ColorGreen "alive" else colored ColorRed "dead") +:+ tab +:+
  (if (LastSeen p =? 0)%Z then "never" else Duration_String (round_second (now - LastSeen p)) +:+ " ago").

Definition role_color (role : string) : string :=
  if String.eqb role "candidate" then ColorYellow else if String.eqb role "follower" then ColorBlue else ColorGreen.

Definition show_status (st : ClusterStatusResponse) (k : cli) : cli :=
  if negb (cs_Enabled st) then Say "Clustering is not enabled on this node (standalone mode)." k
  else
    say_all
      ([colored (ColorBold +:+ ColorCyan) ("TINYMQ CLUSTER STATUS (" +:+ baseURL +:+ ")");
        "Role:  " +:+ colored (role_color (cs_Role st)) (cs_Role st); "Term:  " +:+ Itoa (cs_Term st)] ++
       (if String.eqb (cs_Role st) "leader" then []
        else ["Leader: " +:+ (if String.eqb (cs_LeaderHTTP st) "" then colored ColorYellow "unknown (electing)"
                              else cs_LeaderHTTP st)]) ++
       match cs_Peers st with
       | [] => ["No peers configured."]
       | peers => [""; colored ColorBold ("ADDRESS" +:+ tab +:+ "STATUS" +:+ tab +:+ "LAST SEEN")] ++
                  (peer_row <$> peers) ++ [""]
       end) k.

Definition printClusterStatus (k : cli) : cli :=
  DoAuthRequest addr baseURL "GET" "/api/cluster/status" None (λ o,
    match o with
    | None => Say (red_error ("Error connecting to the broker at " +:+ baseURL +:+ ": " +:+ error_text o)) k
    | Some resp =>
        if (status resp =? 401)%Z then Say unauthorized_text k
        else
          match json_status resp with
          | None => Say (red_error ("Could not parse cluster status response: " +:+ decode_error resp)) k
          | Some st => show_status st k
          end
    end).

Definition cluster_usage : cli :=
  say_all ["Use: tmq cluster status"; "    tmq cluster peers [--watch]"; "    tmq cluster drain <node-url>"] Done.

(** [peers --watch] for some rounds *)
Fixpoint watch (rounds : nat) : cli :=
  match rounds with
  | O => Done
  | S n => Say clear_screen (printClusterStatus
      (Say (colored ColorYellow "(Refreshing every 2s. Press Ctrl+C to exit)") (Cli.Wait 2 (watch n))))
  end.

Definition HandleCluster (args : list string) (rounds : nat) : cli :=
  match args with
  | [] => cluster_usage
  | sub :: rest =>
      if String.eqb sub "status" then printClusterStatus Cli.Done
      else if String.eqb sub "peers" then
        match Parse [("watch", KBool)] ∅ rest with
        | PExit code => Exit code
        | PArgs v _ => if flag_bool v "watch" false then watch rounds else printClusterStatus Cli.Done
        end
      else if String.eqb sub "drain" then
        match rest with
        | [] => say "Use: tmq cluster drain <node-url>"
        | target :: _ =>
            DoAuthRequest addr target "POST" "/api/drain" None (λ o,
              with_response plain_error o (λ resp,
              say_all [colored ColorGreen ("✔ Drain requested on " +:+ target); body_text resp] Cli.Done))
        end
      else cluster_usage
  end.

(** ** [tmq doctor] *)

(** What the machine answers: the data directory, whether a file exists, a port is free,
    and the status of [/healthz]. *)
Inductive data_dir : Type := DMissing | DUnstatable (e : string) | DFile | DReadOnly (e : string) | DWritable.
Record machine : Type := MkMachine {
  go_version : string; data_state : data_dir; has_env : bool; port_free : string → bool; health : option Z
}.

(** One call of [report]: [ok], [warn], the label and the detail. *)
Record finding : Type := MkFinding { f_ok : bool; f_warn : bool; f_label : string; f_detail : string }.

Definition checkDataDir (dataDir : string) (m : machine) : finding :=
  match data_state m with
  | DMissing => MkFinding true true ("Data directory '" +:+ dataDir +:+ "' does not exist yet")
                  "it will be created automatically on first run"
  | DUnstatable e => MkFinding false false ("Cannot stat data directory '" +:+ dataDir +:+ "'") e
  | DFile => MkFinding false false ("'" +:+ dataDir +:+ "' exists but is not a directory") ""
  | DReadOnly e => MkFinding false false ("Data directory '" +:+ dataDir +:+ "' is not writable") e
  | DWritable => MkFinding true false ("Data directory '" +:+ dataDir +:+ "' exists and is writable") ""
  end.

Definition checkPort (port label : string) (m : machine) : finding :=
  if port_free m port then MkFinding true false (label +:+ " port " +:+ port +:+ " is free") ""
  else MkFinding false false (label +:+ " port " +:+ port +:+ " is already in use")
         "stop whatever is bound to it, or reconfigure the port via env vars".

Definition checkBrokerReachable (m : machine) : finding :=
  match health m with
  | None => MkFinding true true ("No broker currently reachable at " +:+ baseURL)
              "expected if you haven't started it yet"
  | Some 200%Z => MkFinding true false ("Broker already running and healthy at " +:+ baseURL) ""
  | Some status => MkFinding true true ("Broker reachable at " +:+ baseURL +:+ " but not healthy yet")
                     ("status " +:+ Itoa status +:+ ", likely mid-election")
  end.

(** The ports the doctor probes, with their labels. *)
Definition probed_ports : list (string * string) :=
  let httpPort := if String.eqb (getenv "PORT") "" then "7800" else getenv "PORT" in
  [(httpPort, "HTTP/WS")] ++
  (if String.eqb (getenv "TINYMQ_MQTT_DISABLE") "true" then []
   else [(if String.eqb (getenv "TINYMQ_MQTT_PORT") "" then "1883" else getenv "TINYMQ_MQTT_PORT", "MQTT")]) ++
  (if String.eqb (getenv "TINYMQ_NATS_PORT") "" then [] else [(getenv "TINYMQ_NATS_PORT", "NATS")]).

Definition doctor_findings (m : machine) : list finding :=
  let certFile := getenv "TINYMQ_TLS_CERT" in
  let keyFile := getenv "TINYMQ_TLS_KEY" in
  [MkFinding true false ("Go runtime: " +:+ go_version m) "";
   checkDataDir "./data" m;
   if has_env m then MkFinding true false ".env file found in current directory" ""
   else MkFinding true true "No .env file found in current directory"
          "using shell-exported environment variables, or defaults";
   if String.eqb (getenv "TINYMQ_API_KEY") ""
   then MkFinding true true "TINYMQ_API_KEY is not set"
          "the broker and dashboard will be open to anyone who can reach the port"
   else MkFinding true false "TINYMQ_API_KEY is set" "";
   if String.eqb certFile "" && String.eqb keyFile ""
   then MkFinding true false "TLS disabled (TINYMQ_TLS_CERT/TINYMQ_TLS_KEY not set)" ""
   else if negb (String.eqb certFile "") && negb (String.eqb keyFile "")
   then MkFinding true false "TLS configured" ""
   else MkFinding false false "TLS misconfigured"
          "TINYMQ_TLS_CERT and TINYMQ_TLS_KEY must both be set, or both left empty"] ++
  (if String.eqb (getenv "TINYMQ_CLUSTER_ADDR") "" then []
   else if String.eqb (getenv "TINYMQ_CLUSTER_SECRET") "" &&
           negb (String.eqb (getenv "TINYMQ_CLUSTER_ALLOW_INSECURE") "true")
   then [MkFinding false false "Clustering enabled without TINYMQ_CLUSTER_SECRET"
           "set TINYMQ_CLUSTER_SECRET or explicitly set TINYMQ_CLUSTER_ALLOW_INSECURE=true"]
   else [MkFinding true false "Cluster configuration looks consistent" ""]) ++
  ((λ pl, checkPort pl.1 pl.2 m) <$> probed_ports) ++
  [checkBrokerReachable m].

Definition suffixDetail (detail : string) : string :=
  if String.eqb detail "" then "" else " " +:+ ColorReset +:+ "(" +:+ detail +:+ ")" +:+ ColorReset.

(** [report]: the line, and the counters of checks, warnings and failures *)
Record tally : Type := MkTally { checks : Z; warnings : Z; failures : Z }.
Definition report (t : tally) (f : finding) : tally * string :=
  let t := MkTally (checks t + 1) (warnings t) (failures t) in
  if f_ok f then (t, "  " +:+ colored ColorGreen "✔" +:+ " " +:+ f_label f)
  else if f_warn f then
    (MkTally (checks t) (warnings t + 1) (failures t),
     "  " +:+ colored ColorYellow "⚠" +:+ " " +:+ f_label f +:+ suffixDetail (f_detail f))
  else
    (MkTally (checks t) (warnings t) (failures t + 1),
     "  " +:+ colored ColorRed "✘" +:+ " " +:+ f_label f +:+ suffixDetail (f_detail f)).
Fixpoint report_all (t : tally) (fs : list finding) : tally * list string :=
  match fs with
  | [] => (t, [])
  | f :: fs' => let '(t, line) := report t f in let '(t, lines) := report_all t fs' in (t, line :: lines)
  end.

Definition verdict (t : tally) : string :=
  if (0 <? failures t)%Z then
    colored ColorRed (Itoa (failures t) +:+ " check(s) failed, " +:+ Itoa (warnings t) +:+
      " warning(s). Fix the ✘ items before starting the broker.")
  else if (0 <? warnings t)%Z then
    colored ColorYellow ("All critical checks passed, " +:+ Itoa (warnings t) +:+ " warning(s) to review.")
  else colored ColorGreen ("All " +:+ Itoa (checks t) +:+ " checks passed. TinyMQ should start cleanly.").

Definition HandleDoctor (m : machine) : cli :=
  let '(t, lines) := report_all (MkTally 0 0 0) (doctor_findings m) in
  say_all (colored (ColorBold +:+ ColorCyan) "🩺 TinyMQ Doctor" :: lines) (say (verdict t)).

End tool.

(** ** [tmq bench] *)

(** The messages of each worker: the last one takes the remainder.  [None]: no workers,
    a division by zero. *)
Definition worker_messages (total concurrency : Z) : option (list Z) :=
  if (concurrency =? 0)%Z then None
  else
    let msgsPerWorker := Z.quot total concurrency in
    Some ((λ w, if (w =? concurrency - 1)%Z then msgsPerWorker + Z.rem total concurrency else msgsPerWorker)%Z
            <$> seqZ 0 concurrency).

(** The counters: [int32], changed by [atomic.AddInt32]. *)
Definition wrap_int32 (z : Z) : Z := ((z + 2^31) `mod` 2^32 - 2^31)%Z.
Definition add_counts (a b : Z * Z) : Z * Z := (wrap_int32 (a.1 + b.1), wrap_int32 (a.2 + b.2)).

(** What a worker meets: no connection, or a connection that takes [n] writes. *)
Inductive conn_fate : Type := NoConnection | Writes (n : nat).
(** what it adds to the successes and failures *)
Definition nats_worker (msgs : Z) (fate : conn_fate) : Z * Z :=
  match fate with
  | NoConnection => (0, wrap_int32 msgs)%Z
  | Writes n => if (Z.of_nat n <? msgs)%Z then (wrap_int32 (Z.of_nat n), wrap_int32 (msgs - Z.of_nat n))
                else (wrap_int32 (Z.max 0 msgs), 0%Z)
  end.
Definition runNatsBench (total concurrency : Z) (fates : Z → conn_fate) : option (Z * Z) :=
  msgs ← worker_messages total concurrency;
  Some (foldr add_counts (0, 0)%Z (imap (λ w m, nats_worker m (fates (Z.of_nat w))) msgs)).

Definition crlf : string := String "013" (String "010" "").
Definition bench_payload : string := "stress_test_payload_123456789".
Definition pub_line (topic : string) : string :=
  "PUB " +:+ topic +:+ " " +:+ Itoa (Z.of_nat (String.length bench_payload)) +:+ crlf +:+ bench_payload +:+ crlf.

(** Over HTTP: an answer other than 202 or 200, or none, is a failure. *)
Definition http_count (o : option Response) : Z * Z :=
  match o with
  | Some resp => if (status resp =? 202)%Z || (status resp =? 200)%Z then (1, 0)%Z else (0, 1)%Z
  | None => (0, 1)%Z
  end.
(** A negative total panics in [make(chan int, total)]; without workers nothing is sent. *)
Definition runHttpBench (total concurrency : Z) (answers : Z → option Response) : option (Z * Z) :=
  if (total <? 0)%Z then None
  else if (concurrency <=? 0)%Z then Some (0, 0)%Z
  else Some (foldr add_counts (0, 0)%Z ((λ j, http_count (answers j)) <$> seqZ 1 total)).
Definition bench_body : string :=
  let q := quote in "{" +:+ q +:+ "event" +:+ q +:+ ":" +:+ q +:+ "bench" +:+ q +:+ "," +:+ q +:+ "data" +:+ q +:+ ":" +:+
    q +:+ bench_payload +:+ q +:+ "}".
Definition bench_request `{R : Runtime} (addr topic : string) : option Request :=
  req addr (getenv "TINYMQ_API_KEY") "POST" ("/publish/" +:+ url.PathEscape topic) (bytes_of_string bench_body) json_content.

Definition bench_flags : list (string * kind) :=
  [("total", KInt); ("concurrency", KInt); ("protocol", KString); ("target", KString)].
Inductive bench_run : Type :=
| BExit (code : Z) | BUsage
| BNats (target topic : string) (total concurrency : Z)
| BHttp (topic : string) (total concurrency : Z).
Definition HandleBench (args : list string) : bench_run :=
  match Parse bench_flags ∅ args with
  | PExit code => BExit code
  | PArgs v (topic :: _) =>
      let total := flag_int v "total" 20000 in
      let concurrency := flag_int v "concurrency" 50 in
      if String.eqb (flag_string v "protocol" "http") "nats"
      then BNats (flag_string v "target" "127.0.0.1:40104") topic total concurrency
      else BHttp topic total concurrency
  | PArgs _ _ => BUsage
  end.

(** ** [main] and the shell *)

Inductive command : Type :=
| CList | CPublish (args : list string) | CConsume (args : list string) | CPeek (args : list string)
| CTail (args : list string) | CBench (args : list string) | CBackup (args : list string)
| CRestore (args : list string) | CRm (args : list string) (isPurge : bool) | CWebhook (args : list string)
| CTop | CShell | CCluster (args : list string) | CCreate (args : list string) | CGroup (args : list string)
| CRedrive (topic : string) | CDoctor (args : list string) | CHelp
(** a line and perhaps the help, and the exit status (the shell goes on); nothing to do;
    the end of the session *)
| CUsage (line : option string) (help : bool) (exit : option Z) | CNothing | CQuit.

(** The labels of a [case]. *)
Definition one_of (cmd : string) (names : list string) : bool := existsb (String.eqb cmd) names.

(** The server the commands talk to. *)
Definition base_url `{R : Runtime} : string :=
  let baseURL := getenv "TINYMQ_URL" in if String.eqb baseURL "" then "http://localhost:7800" else baseURL.

(** [main]: the arguments after the program's name *)
Definition main (args : list string) : command :=
  match args with
  | [] => CUsage None true (Some 1%Z)
  | cmd :: args =>
      if one_of cmd ["status"; "list"] then CList
      else if one_of cmd ["pub"; "publish"] then CPublish args
      else if one_of cmd ["sub"; "consume"] then CConsume args
      else if one_of cmd ["peek"] then CPeek args
      else if one_of cmd ["tail"] then CTail args
      else if one_of cmd ["bench"] then CBench args
      else if one_of cmd ["backup"] then CBackup args
      else if one_of cmd ["restore"] then CRestore args
      else if one_of cmd ["rm"; "delete"] then CRm args false
      else if one_of cmd ["purge"] then CRm args true
      else if one_of cmd ["webhook"] then CWebhook args
      else if one_of cmd ["top"] then CTop
      else if one_of cmd ["shell"] then CShell
      else if one_of cmd ["cluster"] then CCluster args
      else if one_of cmd ["create"] then CCreate args
      else if one_of cmd ["group"] then CGroup args
      else if one_of cmd ["dlq"] then
        match args with
        | sub :: topic :: _ =>
            if negb (String.eqb sub "redrive") then CUsage (Some "Use: tmq dlq redrive <topic>") false (Some 1%Z)
            else CRedrive topic
        | _ => CUsage (Some "Use: tmq dlq redrive <topic>") false (Some 1%Z)
        end
      else if one_of cmd ["doctor"] then CDoctor args
      else if one_of cmd ["help"; "-h"; "--help"] then CHelp
      else CUsage (Some (colored ColorRed ("[Error] Unknown command: " +:+ cmd) +:+ String "010" "")) true (Some 1%Z)
  end.

(** The [switch] of the shell. *)
Definition shell_switch (cmd : string) (shellArgs : list string) : command :=
  if one_of cmd ["list"; "status"] then CList
  else if one_of cmd ["create"] then CCreate shellArgs
  else if one_of cmd ["pub"; "publish"] then CPublish shellArgs
  else if one_of cmd ["sub"; "consume"] then CConsume shellArgs
  else if one_of cmd ["peek"] then CPeek shellArgs
  else if one_of cmd ["rm"; "delete"] then CRm shellArgs false
  else if one_of cmd ["purge"] then CRm shellArgs true
  else if one_of cmd ["webhook"] then CWebhook shellArgs
  else if one_of cmd ["cluster"] then CCluster shellArgs
  else if one_of cmd ["group"] then CGroup shellArgs
  else if one_of cmd ["dlq"] then
    match shellArgs with
    | sub :: topic :: _ =>
        if negb (String.eqb sub "redrive") then CUsage (Some "Use: dlq redrive <topic>") false None
        else CRedrive topic
    | _ => CUsage (Some "Use: dlq redrive <topic>") false None
    end
  else if one_of cmd ["restore"] then CRestore shellArgs
  else if one_of cmd ["bench"] then CBench shellArgs
  else if one_of cmd ["help"] then CHelp
  else CUsage (Some "Unknown command. Type 'help' to see available commands.") false None.

(** A line typed into the shell. *)
Definition shell_line (line : string) : command :=
  let input := strings.TrimSpace line in
  if String.eqb input "exit" || String.eqb input "quit" then CQuit
  else if String.eqb input "" then CNothing
  else
    let parts := strings.SplitN input " " 3 in
    let cmd := default "" (head parts) in
    let shellArgs :=
      if 1 <? length parts then
        match parts with
        | [_; a; b] => if String.eqb cmd "pub" || String.eqb cmd "publish" then [a; b]
                       else strings.Split (strings.drop (String.length cmd + 1) input) " "
        | _ => strings.Split (strings.drop (String.length cmd + 1) input) " "
        end
      else [] in
    shell_switch cmd shellArgs.
