(* ===== verification/ToolProps.v ===== *)
(** * What the command line tool does to the server

    The commands of [Cli.v] run against the server of [Rest.v]; the doctor, the shell and
    the benchmark. *)

From Stdlib Require Import Ascii.
From Stdlib Require Import Strings.Byte.
From S2P Require Import Prelude.
From S2P Require Import GoLib.
From S2P Require Import Wire.
From S2P Require Import Message.
From S2P Require Import Wal.
From S2P Require Import Storage.
From S2P Require Import Codec.
From S2P Require Import Demo.
From S2P Require Import Broker.
From S2P Require Import BrokerQueue.
From S2P Require Import BrokerSteps.
From S2P Require Import BrokerSafe.
From S2P Require Import BrokerPublish.
From S2P Require Import Duration.
From S2P Require Import DurationText.
From S2P Require Import Main.
From S2P Require Import Http.
From S2P Require Import Rest.
From S2P Require Import RestProps.
From S2P Require Import Url.
From S2P Require Import HttpClient.
From S2P Require Import Flag.
From S2P Require Import Cli.
From S2P Require Import Tool.

Lemma length_bytes_of_string s : length (bytes_of_string s) = String.length s.
Proof. induction s as [|c s IH]; [done|]. cbn. by f_equal. Qed.

(** ** Running a command *)

Section running.
Context `{R : Runtime} {St : Type} `{Storage St} `{W : Web} `{T : CliText}.
Variable now alloc : Z.

(** A request that is answered at once. *)
Definition answer (rp : Reply) : option Response := match rp with Rest.Done resp => Some resp | _ => None end.

(** The lines a command prints and its exit status, all its requests served by [s]. *)
Fixpoint run (c : cli) : M (Server St) (list string * Z) :=
  match c with
  | Say line k => res ← run k; mret (line :: res.1, res.2)
  | Send _ None k => run (k None)
  | Send _ (Some r) k => rp ← ServeHTTP now alloc r; run (k (answer rp))
  | Cli.Wait _ k => run k
  | Cli.Done => mret ([], 0%Z)
  | Exit code => mret ([], code)
  end.

(** ** Publishing *)

(** The arguments of [tmq pub] with its flags in front. *)
Definition publish_args (ttl delay : string) (broadcast : bool) (topic payload : string) : list string :=
  (if String.eqb ttl "" then [] else ["--ttl=" +:+ ttl]) ++
  (if String.eqb delay "" then [] else ["--delay=" +:+ delay]) ++
  (if broadcast then ["--broadcast"] else []) ++ [topic; payload].

Definition publish_params (ttl delay : string) (broadcast : bool) : list (string * string) :=
  (if String.eqb ttl "" then [] else [("ttl", ttl)]) ++
  (if String.eqb delay "" then [] else [("delay", delay)]) ++
  (if broadcast then [("broadcast", "true")] else []).

Lemma flag_arg_value name v : lacks "=" name = true →
  match name with String c _ => negb (Ascii.eqb c "-") && negb (Ascii.eqb c "=") | EmptyString => false end = true →
  flag_arg ("--" +:+ name +:+ "=" +:+ v) = FFlag name (Some v).
Proof.
  intros Hl Hn. destruct name as [|c name]; [done|]. apply andb_true_iff in Hn as [H1%negb_true_iff H2%negb_true_iff].
  unfold flag_arg. cbn [String.append]. change (String "=" v) with ("=" +:+ v).
  cbn [Ascii.eqb Bool.eqb andb String.eqb]. cbv zeta. rewrite H1, H2. cbn [orb].
  change (String c (name +:+ "=" +:+ v)) with (String c name +:+ String "=" v). by rewrite Cut_first.
Qed.

Lemma Parse_publish ttl delay broadcast topic payload rest : flag_arg topic = FStop →
  ∃ v, Parse publish_flags ∅ (publish_args ttl delay broadcast topic payload ++ rest) = PArgs v (topic :: payload :: rest) ∧
    flag_string v "ttl" "" = ttl ∧ flag_string v "delay" "" = delay ∧ flag_bool v "broadcast" false = broadcast.
Proof.
  intros Htopic. unfold publish_args.
  assert (∀ v, Parse publish_flags v (topic :: payload :: rest) = PArgs v (topic :: payload :: rest)) as Hstop
    by (intros; by apply Parse_positional).
  assert (∀ v l, Parse publish_flags v (("--ttl=" +:+ ttl) :: l) = Parse publish_flags (<["ttl" := ttl]> v) l) as Ht.
  { intros v l. by apply (Parse_string publish_flags v "ttl" ttl l); [apply flag_arg_value|]. }
  assert (∀ v l, Parse publish_flags v (("--delay=" +:+ delay) :: l) = Parse publish_flags (<["delay" := delay]> v) l) as Hd.
  { intros v l. by apply (Parse_string publish_flags v "delay" delay l); [apply flag_arg_value|]. }
  assert (∀ v l, Parse publish_flags v ("--broadcast" :: l) = Parse publish_flags (<["broadcast" := "true"]> v) l) as Hb
    by done.
  unfold flag_string, flag_bool.
  destruct (String.eqb_spec ttl "") as [->|Ettl], (String.eqb_spec delay "") as [->|Edelay], broadcast;
    cbn [app]; rewrite ?Ht, ?Hd, ?Hb, Hstop; eexists; (split; [done|]); by simplify_map_eq.
Qed.

(** A topic that routing leaves alone. *)
Definition clean_topic (topic : string) : Prop :=
  topic ≠ "" ∧ cleanPath ("/publish/" +:+ topic) = "/publish/" +:+ topic ∧ strings.HasSuffix topic "/" = false.

Lemma publish_params_nodup ttl delay broadcast : NoDup (publish_params ttl delay broadcast).*1.
Proof.
  unfold publish_params. destruct (String.eqb ttl ""), (String.eqb delay ""), broadcast; cbn;
    repeat (apply NoDup_cons; split; [set_solver|]); apply NoDup_nil_2.
Qed.

Lemma publish_params_get ttl delay broadcast k :
  url.Get (publish_params ttl delay broadcast) k =
    if String.eqb k "ttl" then ttl else if String.eqb k "delay" then delay
    else if String.eqb k "broadcast" then (if broadcast then "true" else "") else "".
Proof.
  unfold publish_params, url.Get.
  destruct (String.eqb_spec ttl "") as [->|], (String.eqb_spec delay "") as [->|], broadcast;
    cbn [app List.find fst]; rewrite ?(String.eqb_sym "ttl" k), ?(String.eqb_sym "delay" k), ?(String.eqb_sym "broadcast" k);
    (destruct (String.eqb_spec k "ttl") as [->|]; [done|]);
    (destruct (String.eqb_spec k "delay") as [->|]; [done|]);
    by destruct (String.eqb_spec k "broadcast").
Qed.

Definition published_line (topic : string) : string :=
  colored ColorGreen ("✔ Message published successfully in '" +:+ topic +:+ "'").
Definition rejected_line (e : string) : string :=
  colored ColorRed ("The broker rejected the message (" +:+ Itoa (publish_status e) +:+ "): " +:+ e +:+ String "010" "").

Lemma publish_status_cases e : publish_status e = 429%Z ∨ publish_status e = 400%Z ∨ publish_status e = 500%Z.
Proof. unfold publish_status. repeat case_match; auto. Qed.

(** The tool sends no headers of its own. *)
Lemma no_user_headers r key (s : Server St) : Header r = json_content ∪ auth_header key →
  user_headers r s = (Ret ∅, s).
Proof.
  intros Hh. unfold user_headers. cbv zeta.
  assert (filter (λ kv : string * list string, strings.HasPrefix (map_chars upper kv.1) "X-MQ-" = true) (Header r) = ∅) as ->.
  { rewrite Hh. apply map_empty_filter_2. intros k v Hk. cbn. unfold json_content, auth_header in Hk.
    apply lookup_union_Some_raw in Hk as [Hk|[_ Hk]]; [by apply lookup_singleton_Some in Hk as [<- _]|].
    case_match; [done|]. by apply lookup_singleton_Some in Hk as [<- _]. }
  rewrite map_to_list_empty. cbn [forallb]. by rewrite fmap_empty.
Qed.

(** [C32] What [tmq pub] publishes arrives as asked: with the flags in front, the command sends
    the request that makes the broker publish exactly this topic (escaped on the way) and
    this payload with the TTL, the delay and the broadcast flag given, and prints the
    success line exactly when the broker accepted the message, its refusal otherwise.
    Arguments after the payload, flags included, are ignored without a word.  The topic is
    one that routing leaves alone (not empty, no empty or dotted segments, no slash at its
    end) and does not start with a dash, the payload has between one byte and the server's
    limit; the server shares the key, is not draining, and has neither a cluster nor a rate
    limiter. *)
Theorem cli_publish_arrives baseURL addr ttl delay broadcast topic payload rest s
    (Htopic : clean_topic topic) (Hdash : strings.HasPrefix topic "-" = false)
    (Hp : payload ≠ "") (Hlen : (Z.of_nat (String.length payload) ≤ max_body)%Z)
    (Hup : draining s = false ∧ clusterNode s = None ∧ rateLimiter s = None) :
  run (HandlePublish baseURL addr (publish_args ttl delay broadcast topic payload ++ rest)) s =
  (modify (λ s, set_inFlight (inFlight s + 1) s) ;;
   err ← call (Publish now topic (bytes_of_string payload) ∅ "normal" (deadline now ttl) (deadline now delay) broadcast);
   modify (λ s, set_inFlight (inFlight s - 1) s) ;;
   mret ([match err with None => published_line topic | Some e => rejected_line e end], 0%Z)) s.
Proof.
  destruct Htopic as (Hne & Hclean & Hslash), Hup as (Hdrain & Hnode & Hrate).
  destruct (Parse_publish ttl delay broadcast topic payload rest (flag_arg_plain _ Hdash)) as (v & Hparse & Httl & Hdelay & Hbc).
  unfold HandlePublish. rewrite Hparse. cbv zeta. rewrite Httl, Hdelay, Hbc.
  fold (publish_params ttl delay broadcast). set (q := url.Encode (publish_params ttl delay broadcast)).
  unfold DoAuthRequest, req. destruct (url.Encode_query_plain (publish_params ttl delay broadcast)) as [Hq1 Hq2].
  rewrite (url.Parse_segment "/publish/" topic q) by done. cbn [mbind option_bind]. unfold arrives.
  unfold q at 1. rewrite url.Encode_blank. cbn [run].
  set (r := MkRequest _ _ _ _ _ _ _).
  assert (ServeHTTP now alloc r s = (handlePublish now r ≫= settle) (set_inFlight (inFlight s + 1) s)) as Hserve.
  { eapply serve_checked; try done; [apply publish_route|]. apply bearer_ok. cbn [Header r].
    rewrite lookup_union_r; [done|]. unfold json_content. by simplify_map_eq. }
  assert (∀ k, query_get r k = url.Get (publish_params ttl delay broadcast) k) as Hget
    by (intros; by apply url.query_get_Get; [|apply publish_params_nodup]).
  assert (publishes r topic (bytes_of_string payload) "") as Hpub.
  { unfold publishes, extractTopicFromPath, ReadAll, idempotency_key, header_get. rewrite Hget, publish_params_get.
    cbn [Method Path BodyErr Body Header r from_option id]. rewrite HasPrefix_app, TrimPrefix_app.
    unfold strings.TrimSuffix. rewrite Hslash, length_bytes_of_string, (proj2 (Z.ltb_ge _ _)) by done.
    split_and!; try done; [by destruct payload|].
    change (canonical true "Idempotency-Key") with "Idempotency-Key".
    rewrite lookup_union_r by (unfold json_content; by simplify_map_eq). unfold auth_header.
    cbn [String.eqb Ascii.eqb Bool.eqb]. destruct (String.eqb (getenv _) ""); by simplify_map_eq. }
  rewrite (run_bind (modify _) _ s () (set_inFlight (inFlight s + 1) s)) by done.
  set (s1 := set_inFlight (inFlight s + 1) s) in *.
  assert (handlePublish now r s1 =
    (err ← call (Publish now topic (bytes_of_string payload) ∅ "normal" (deadline now ttl) (deadline now delay) broadcast);
     match err with
     | Some e => fail e (publish_status e)
     | None => reply (MkResponse 202 [] (BJson (JObj [("status", JStr "accepted"); ("topic", JStr topic)])))
     end) s1) as Hrun.
  { rewrite (handlePublish_checked now r topic _ "" s1 Hpub).
    rewrite (run_bind (seen_key now "") _ s1 false s1) by done. cbv iota.
    rewrite (run_bind (user_headers r) _ s1 ∅ s1) by (by eapply no_user_headers).
    rewrite !Hget, !publish_params_get. cbn [String.eqb Ascii.eqb Bool.eqb]. by destruct broadcast. }
  unfold mbind at 1, M_bind at 1. rewrite Hserve. unfold mbind at 1, M_bind at 1. rewrite Hrun.
  unfold mbind at 1 2, M_bind at 1 2.
  destruct (call _ s1) as [[[e|]|why| |] s2]; try done.
  unfold rejected_line. pose proof (publish_status_cases e) as [E|[E|E]]; rewrite E; reflexivity.
Qed.

(** ** Consuming *)

(** The tool reads every answer to a consumer back: one message alone, or a list. *)
Lemma parse_consumed msgs limit : msgs ≠ [] → Forall (λ m, ID m ≠ "") msgs →
  parseMessagesPayload (respondWithQoL msgs limit) = Some msgs.
Proof.
  intros Hne Hid. assert (json_to_messages (JList (qol <$> msgs)) = Some msgs) as Hl.
  { cbn. clear. induction msgs as [|m msgs IH]; [done|]. cbn. by rewrite IH. }
  unfold parseMessagesPayload, respondWithQoL. cbn [content].
  destruct msgs as [|m [|m' msgs]]; [done| |by rewrite Hl].
  destruct (limit =? 1)%Z; [|by change [qol m] with (qol <$> [m]); rewrite Hl]. cbn.
  apply Forall_cons in Hid as [Hid _]. by rewrite (proj2 (String.eqb_neq _ _)).
Qed.

Lemma consume_route topic :
  longest_match (routes (St:=St) now alloc) ("/consume/" +:+ topic) =
  Some ("/consume/", leaderProxy (withAuth now (handleConsume now))).
Proof.
  unfold routes. cbv zeta. apply (longest_match_only [_;_]).
  - repeat (apply Forall_cons_2; [reflexivity|]). apply Forall_nil_2.
  - repeat (apply Forall_cons_2; [reflexivity|]). apply Forall_nil_2.
  - unfold pattern_matches. apply HasPrefix_app.
Qed.

Lemma run_lines lines code (s : Server St) : run (say_all lines (say code)) s = (Ret (lines ++ [code], 0%Z), s).
Proof.
  induction lines as [|l lines IH]; [done|]. cbn [say_all run]. by rewrite (run_bind _ _ _ _ _ IH).
Qed.

(** The request of [tmq sub topic]. *)
Definition consume_params : list (string * string) := [("timeout", "0s"); ("limit", "1"); ("auto_ack", "true")].

(** [C33] [tmq sub] shows what it takes: run with a topic alone, the messages the broker hands
    out (one, the default) are printed with their identifiers, retries, dates and payloads,
    after the server has called [Ack] for each of them, whatever [Ack] returned; nothing
    else happens to the broker, and the exit status is 0.  The topic is one that routing
    leaves alone and does not start with a dash, the messages have identifiers; the server
    shares the key, is not draining, and has neither a cluster nor a rate limiter. *)
Theorem cli_consume_prints baseURL addr topic rest s msgs s'
    (Htopic : topic ≠ "" ∧ cleanPath ("/consume/" +:+ topic) = "/consume/" +:+ topic ∧ strings.HasSuffix topic "/" = false)
    (Hdash : strings.HasPrefix topic "-" = false)
    (Hup : draining s = false ∧ clusterNode s = None ∧ rateLimiter s = None)
    (Hmsgs : msgs ≠ [] ∧ Forall (λ m, ID m ≠ "") msgs)
    (Hconsume : (ch ← call (make_chan 1); call (Consume now topic 1 ch)) (set_inFlight (inFlight s + 1) s) = (Ret (msgs, true), s')) :
  run (HandleConsume baseURL addr (topic :: rest)) s =
  (forM_ (λ m, call (Ack now topic (ID m)) ;; mret ()) msgs ;;
   modify (λ s, set_inFlight (inFlight s - 1) s) ;;
   mret (mjoin (show_message <$> msgs) ++ [rule], 0%Z)) s'.
Proof.
  destruct Htopic as (Hne & Hclean & Hslash), Hup as (Hdrain & Hnode & Hrate), Hmsgs as [Hmsgs Hids].
  unfold HandleConsume. rewrite (Parse_positional _ _ _ _ (flag_arg_plain _ Hdash)).
  cbv zeta. change [("timeout", flag_string _ _ _); _; _] with consume_params.
  set (q := url.Encode consume_params).
  unfold DoAuthRequest, req. destruct (url.Encode_query_plain consume_params) as [Hq1 Hq2].
  rewrite (url.Parse_segment "/consume/" topic q) by done. cbn [mbind option_bind]. unfold arrives.
  unfold q at 1. rewrite url.Encode_blank. cbn [run].
  set (r := MkRequest _ _ _ _ _ _ _). set (s1 := set_inFlight (inFlight s + 1) s) in *.
  assert (ServeHTTP now alloc r s = (handleConsume now r ≫= settle) s1) as Hserve.
  { eapply serve_checked; try done; [apply consume_route|]. apply bearer_ok. cbn [Header r].
    by rewrite (left_id_L ∅ (∪)). }
  assert (∀ k, query_get r k = url.Get consume_params k) as Hget.
  { intros. apply url.query_get_Get; [done|]. by apply (bool_decide_unpack _). }
  assert (handleConsume now r s1 =
    (forM_ (λ m, call (Ack now topic (ID m)) ;; mret ()) msgs ;; reply (respondWithQoL msgs 1)) s') as Hrun.
  { unfold handleConsume. cbv zeta. cbn [Method r].
    assert (extractTopicFromPath r "/consume/" = topic) as ->.
    { unfold extractTopicFromPath. cbn [Path r]. rewrite HasPrefix_app, TrimPrefix_app. unfold strings.TrimSuffix.
      by rewrite Hslash. }
    rewrite (proj2 (String.eqb_neq topic "")) by done. cbn [String.eqb Ascii.eqb Bool.eqb negb]. cbv iota.
    unfold consume_limit. rewrite !Hget. unfold consume_params, url.Get. cbn [List.find fst snd String.eqb Ascii.eqb Bool.eqb].
    change (match Atoi "1" with Some _ => _ | None => _ end) with 1%Z.
    rewrite (run_bind (mret _) _ s1 (inr topic) s1) by done.
    apply run_bind_inv in Hconsume as (ch & s0 & Hch & Hconsume).
    rewrite (run_bind _ _ _ _ _ Hch), (run_bind _ _ _ _ _ Hconsume).
    unfold consume_finish. by destruct msgs. }
  set (acks := forM_ _ msgs) in *.
  unfold mbind at 1, M_bind at 1. rewrite Hserve. unfold mbind at 1, M_bind at 1. rewrite Hrun.
  unfold mbind at 1 2, M_bind at 1 2. destruct (acks s') as [[[]|why| |] s2]; try done.
  change (run (show_consumed topic (respondWithQoL msgs 1)) (set_inFlight (inFlight s2 - 1) s2) =
    (Ret (mjoin (show_message <$> msgs) ++ [rule], 0%Z), set_inFlight (inFlight s2 - 1) s2)).
  unfold show_consumed, authorized_response. change (status (respondWithQoL msgs 1)) with 200%Z. cbn [Z.eqb Pos.eqb].
  rewrite parse_consumed by done. apply run_lines.
Qed.

End running.

#[global] Instance demo_text : CliText := {|
  json_text _ := "{}"; Format _ t := Itoa t; error_text _ := "connection refused"; decode_error _ := "invalid";
  duration_error _ := "invalid"; marshal_map l := bytes_of_string (strings.Join ((λ kv, kv.1 +:+ "=" +:+ kv.2) <$> l) ",")
|}.

Lemma cli_publish_arrives_witness :
  run 9 0 (HandlePublish "http://q" "10.0.0.9:5" (publish_args "1h" "" true "a b" "hi" ++ ["--delay=5s"])) demo_server =
  (modify (λ s, set_inFlight (inFlight s + 1) s) ;;
   err ← call (Publish 9 "a b" (bytes_of_string "hi") ∅ "normal" (deadline 9 "1h") (deadline 9 "") true);
   modify (λ s, set_inFlight (inFlight s - 1) s) ;;
   mret ([match err with None => published_line "a b" | Some e => rejected_line e end], 0%Z)) demo_server.
Proof. apply cli_publish_arrives; [|done|done|by vm_compute|by vm_compute]. split; [done|by vm_compute]. Defined.

Definition demo_taken : outcome (list Message * bool) * Server DiskStorage :=
  (ch ← call (make_chan 1); call (Consume 9 "t" 1 ch)) (set_inFlight (inFlight demo_server + 1) demo_server).

Lemma cli_consume_prints_witness :
  let msgs := match demo_taken.1 with Ret (msgs, _) => msgs | _ => [] end in
  run 9 0 (HandleConsume "http://q" "10.0.0.9:5" ["t"]) demo_server =
  (forM_ (λ m, call (Ack 9 "t" (ID m)) ;; mret ()) msgs ;;
   modify (λ s, set_inFlight (inFlight s - 1) s) ;;
   mret (mjoin (show_message <$> msgs) ++ [rule], 0%Z)) demo_taken.2.
Proof.
  intros msgs. apply cli_consume_prints; [|done|by vm_compute| |by vm_compute].
  - split; [done|by vm_compute].
  - split; [by vm_compute|]. apply Forall_forall. vm_compute. by intros ? ->%list_elem_of_singleton.
Defined.

(** An existing queue that is empty is reported as an unreadable answer: the server says
    204 where the tool only knows 404. *)
Theorem empty_queue_unreadable topic :
  show_consumed topic no_content = say (red_error "Error interpreting response: incompatible JSON format").
Proof. done. Qed.

(** ** The shell *)

(** A line of the shell: words without blanks, or a publication whose payload may have
    them. *)
Definition typed (cmd : string) (args : list string) : Prop :=
  lacks " " cmd = true ∧
  (if one_of cmd ["pub"; "publish"]
   then length args ≤ 2 ∧ ∀ a, head args = Some a → lacks " " a = true
   else Forall (λ s, lacks " " s = true) args).

(** What the shell does in place of the command line: it does not know some commands, and
    it says so, or how [dlq] is used, in its own words and without ending. *)
Definition in_shell (cmd : string) (c : command) : command :=
  let unknown := CUsage (Some "Unknown command. Type 'help' to see available commands.") false None in
  if one_of cmd ["tail"; "backup"; "top"; "shell"; "doctor"; "-h"; "--help"] then unknown
  else match c with
       | CUsage _ true _ => unknown
       | CUsage _ false _ => CUsage (Some "Use: dlq redrive <topic>") false None
       | c => c
       end.

(** The two switches. *)
Lemma switches_agree cmd args : shell_switch cmd args = in_shell cmd (main (cmd :: args)).
Proof.
  unfold in_shell, main, shell_switch, one_of. cbn [existsb].
  repeat match goal with
  | |- context [String.eqb cmd ?name] => destruct (String.eqb_spec cmd name) as [->|_];
      [solve [cbn; repeat case_match; done]|]
  end. done.
Qed.

(** The words the shell cuts from a line, at most three. *)
Lemma shell_parts cmd args : lacks " " cmd = true →
  (∀ a, head args = Some a → lacks " " a = true) →
  strings.SplitN (strings.Join (cmd :: args) " ") " " 3 =
    match args with [] => [cmd] | [a] => [cmd; a] | a :: rest => [cmd; a; strings.Join rest " "] end.
Proof.
  intros Hc Ha. destruct args as [|a [|b rest]].
  - apply SplitN_Join; [by constructor|simpl; lia].
  - apply SplitN_Join; [|simpl; lia]. repeat constructor; [done|by apply Ha].
  - cbn [strings.SplitN]. rewrite Join_cons. change (" " +:+ ?r) with (String " " r). rewrite Cut_first by done.
    rewrite Join_cons. change (" " +:+ ?r) with (String " " r). by rewrite Cut_first by (by apply Ha).
Qed.

Lemma shell_rest cmd a rest :
  strings.drop (String.length cmd + 1) (strings.Join (cmd :: a :: rest) " ") = strings.Join (a :: rest) " ".
Proof.
  rewrite Join_cons, <-str_app_assoc. change 1 with (String.length " "). rewrite <-str_length_app. apply str_drop_app.
Qed.

(** [C34] The shell runs what the command line runs: a typed line that is not blank, [exit] or
    [quit] is the very call the process makes with the words of the line as its arguments,
    for every command but [tail], [backup], [top], [shell], [doctor], [-h] and [--help],
    which the shell does not know; a wrong [dlq] line or an unknown command prints a line
    and the session goes on.  Words are separated by one blank; a publication has at most a
    topic and a payload, and the payload keeps its blanks, as a quoted argument would.
    (With flags before them the shell separates differently, see [shell_pub_flags].) *)
Theorem shell_agrees_with_main line cmd args
    (Hline : strings.TrimSpace line = strings.Join (cmd :: args) " ")
    (Hwords : typed cmd args) (Hquit : one_of (strings.TrimSpace line) ["exit"; "quit"; ""] = false) :
  shell_line line = in_shell cmd (main (cmd :: args)).
Proof.
  destruct Hwords as [Hcmd Hargs]. rewrite <-switches_agree. unfold one_of in Hquit. cbn [existsb] in Hquit.
  rewrite orb_false_r in Hquit. apply orb_false_iff in Hquit as [Hq1 [Hq2 Hq3]%orb_false_iff].
  unfold shell_line. cbv zeta. rewrite Hq1, Hq2, Hq3. cbn [orb]. rewrite Hline.
  assert (one_of cmd ["pub"; "publish"] = String.eqb cmd "pub" || String.eqb cmd "publish") as Hpub
    by (unfold one_of; cbn [existsb]; by rewrite orb_false_r).
  rewrite Hpub in Hargs. rewrite shell_parts; [|done|].
  - destruct args as [|a [|b rest]]; cbn [default head from_option id length Nat.ltb Nat.leb]; [done|..];
      rewrite shell_rest; destruct (_ || _).
    + destruct Hargs as [_ Ha]. rewrite Split_Join; [done|]. repeat constructor. by apply Ha.
    + by rewrite Split_Join.
    + destruct Hargs as [Hlen _]. cbn in Hlen. by destruct rest; [|cbn in Hlen; lia].
    + by rewrite Split_Join.
  - intros a Ha. destruct (_ || _); [by apply Hargs|]. destruct args as [|x args]; [done|].
    injection Ha as ->. by apply Forall_cons in Hargs as [? _].
Qed.

Lemma shell_agrees_with_main_witness :
  shell_line "  pub orders hello big world " = in_shell "pub" (main ["pub"; "orders"; "hello big world"]).
Proof.
  apply shell_agrees_with_main; [by vm_compute| |by vm_compute].
  split; [done|]. split; [simpl; lia|]. by intros a [= <-].
Defined.

(** With a flag in front, as the command line takes it, a publication typed into the shell
    publishes to a topic named like the topic and the payload together, or prints the
    usage; the flag's value is not separated from what follows. *)
Example shell_pub_flags :
  shell_line "pub --ttl=5s orders hello" = CPublish ["--ttl=5s"; "orders hello"] ∧
  main ["pub"; "--ttl=5s"; "orders"; "hello"] = CPublish ["--ttl=5s"; "orders"; "hello"] ∧
  HandlePublish "http://q" "10.0.0.9:5" ["--ttl=5s"; "orders hello"] =
    say "Use: tmq pub <topic> <payload> [--ttl=duration] [--delay=duration] [--broadcast]".
Proof. by vm_compute. Qed.

(** ** The doctor *)

(** The doctor looks where the server listens: the ports it probes are those [main]
    opens for HTTP and WebSocket, for MQTT and for NATS under the same environment, in
    that order; a protocol that is off is not probed. *)
Theorem doctor_probes_main_ports `{R : Runtime} :
  probed_ports.*1 = rest_port :: option_list mqtt_port ++ option_list nats_port.
Proof.
  unfold probed_ports, rest_port, mqtt_port, nats_port. cbv zeta.
  destruct (String.eqb (getenv "TINYMQ_MQTT_DISABLE") "true"), (String.eqb (getenv "TINYMQ_MQTT_PORT") "") eqn:Em,
    (String.eqb (getenv "TINYMQ_NATS_PORT") ""); cbn; rewrite ?Em; done.
Qed.

(** The doctor's verdict counts the checks that are not in order; it never counts a
    warning, since every check it means as one is reported as passed. *)
Lemma report_all_counts t fs : Forall (λ f, f_warn f = true → f_ok f = true) fs →
  (report_all t fs).1 =
  MkTally (checks t + Z.of_nat (length fs)) (warnings t) (failures t + Z.of_nat (length (filter (λ f, f_ok f = false) fs))).
Proof.
  intros Hw. revert t. induction Hw as [|f fs Hf _ IH]; intros t; [by destruct t; cbn; rewrite !Z.add_0_r|].
  cbn [report_all]. unfold report at 1. destruct (f_ok f) eqn:Eo.
  - rewrite filter_cons_False by congruence. specialize (IH (MkTally (checks t + 1) (warnings t) (failures t))). destruct (report_all _ fs) as [t' lines].
    cbn in *. rewrite IH. f_equal. lia.
  - destruct (f_warn f); [by specialize (Hf eq_refl)|]. rewrite filter_cons_True by done. cbn [checks warnings failures].
    specialize (IH (MkTally (checks t + 1) (warnings t) (failures t + 1))). destruct (report_all _ fs) as [t' lines].
    cbn in *. rewrite IH. f_equal; lia.
Qed.

Lemma findings_if (P : list finding → Prop) (b : bool) l l' : P l → P l' → P (if b then l else l').
Proof. by destruct b. Qed.
Lemma finding_if (P : finding → Prop) (b : bool) f f' : P f → P f' → P (if b then f else f').
Proof. by destruct b. Qed.

Lemma doctor_warnings_ok `{R : Runtime} baseURL m : Forall (λ f, f_warn f = true → f_ok f = true) (doctor_findings baseURL m).
Proof.
  set (P := λ f, f_warn f = true → f_ok f = true).
  assert (∀ w l d, P (MkFinding true w l d)) as Hok by done.
  assert (∀ l d, P (MkFinding false false l d)) as Hbad by done.
  unfold doctor_findings. cbv zeta. clearbody P. apply Forall_app. split.
  { apply Forall_cons. split; [done|]. apply Forall_cons. split; [unfold checkDataDir; by destruct (data_state m)|].
    apply Forall_cons. split; [by apply finding_if|]. apply Forall_cons. split; [by apply finding_if|].
    apply Forall_cons. split; [|by apply Forall_nil_2]. apply finding_if; [done|]. by apply finding_if. }
  apply Forall_app. split.
  { apply findings_if; [by apply Forall_nil_2|]. by apply findings_if; apply Forall_singleton. }
  apply Forall_app. split.
  - apply Forall_fmap, Forall_forall. intros [port label] _. unfold compose, checkPort. by apply finding_if.
  - apply Forall_singleton. unfold checkBrokerReachable. destruct (health m) as [st|]; [|done].
    repeat case_match; done.
Qed.

Theorem doctor_never_warns `{R : Runtime} baseURL m :
  let fs := doctor_findings baseURL m in
  (report_all (MkTally 0 0 0) fs).1 =
  MkTally (Z.of_nat (length fs)) 0 (Z.of_nat (length (filter (λ f, f_ok f = false) fs))).
Proof. intros fs. by rewrite report_all_counts by apply doctor_warnings_ok. Qed.

(** ** The benchmark *)

Lemma seqZ_sum (f : Z → Z) a b (n : nat) : (∀ i, (a ≤ i < a + Z.of_nat n)%Z → f i = b) →
  foldr Z.add 0%Z (f <$> seqZ a (Z.of_nat n)) = (b * Z.of_nat n)%Z.
Proof.
  revert a. induction n as [|n IH]; intros a Hf; [by rewrite Z.mul_0_r|].
  rewrite seqZ_cons by lia. cbn [fmap list_fmap foldr]. rewrite Hf by lia.
  change (list_fmap Z Z f) with (fmap (M:=list) f).
  replace (Z.pred (Z.of_nat (S n))) with (Z.of_nat n) by lia. rewrite IH; [lia|]. intros i Hi. apply Hf. lia.
Qed.

Definition sumZ (l : list Z) : Z := foldr Z.add 0%Z l.
Lemma sumZ_app l l' : sumZ (l ++ l') = (sumZ l + sumZ l')%Z.
Proof. induction l as [|x l IH]; cbn in *; [done|]. unfold sumZ in *. lia. Qed.

(** The workers' shares add up to the messages asked for. *)
Lemma worker_messages_sum total concurrency : (0 < concurrency)%Z → (0 ≤ total)%Z →
  ∃ msgs, worker_messages total concurrency = Some msgs ∧ sumZ msgs = total ∧ Forall (λ m, (0 ≤ m)%Z) msgs.
Proof.
  intros Hc Ht. unfold worker_messages. rewrite (proj2 (Z.eqb_neq _ _)) by lia. eexists. split; [done|].
  rewrite (Z.quot_div_nonneg total concurrency), (Z.rem_mod_nonneg total concurrency) by lia.
  pose proof (Z.div_pos total concurrency Ht Hc) as Hd. pose proof (Z.mod_pos_bound total concurrency Hc) as Hm.
  pose proof (Z.div_mod total concurrency ltac:(lia)) as Hdm.
  split.
  - replace (seqZ 0 concurrency) with (seqZ 0 (Z.of_nat (Z.to_nat (concurrency - 1))) ++ seqZ (concurrency - 1) 1).
    + rewrite fmap_app, sumZ_app. unfold sumZ at 1. rewrite (seqZ_sum _ _ (total `div` concurrency)).
      * rewrite (seqZ_cons (concurrency - 1) 1) by lia. unfold sumZ. cbn [fmap list_fmap foldr].
        rewrite Z.eqb_refl, Z2Nat.id by lia. change (foldr _ _ _) with 0%Z. nia.
      * intros i Hi. by rewrite (proj2 (Z.eqb_neq _ _)) by lia.
    + rewrite Z2Nat.id by lia. rewrite <-(Z.add_0_l (concurrency - 1)) at 2. rewrite <-(seqZ_app 0 (concurrency - 1) 1) by lia. f_equal. lia.
  - apply Forall_fmap, Forall_forall. intros i _. unfold compose. case_match; lia.
Qed.

Lemma wrap_int32_id z : (0 ≤ z < 2^31)%Z → wrap_int32 z = z.
Proof. intros. unfold wrap_int32. rewrite Z.mod_small; lia. Qed.

Lemma counts_sum l : Forall (λ p : Z * Z, (0 ≤ p.1)%Z ∧ (0 ≤ p.2)%Z) l →
  (sumZ ((λ p, p.1 + p.2)%Z <$> l) < 2^31)%Z →
  ∃ ok bad, foldr add_counts (0, 0)%Z l = (ok, bad) ∧ (0 ≤ ok)%Z ∧ (0 ≤ bad)%Z ∧
    (ok + bad = sumZ ((λ p, p.1 + p.2) <$> l))%Z.
Proof.
  induction 1 as [|[x y] l [Hx Hy] _ IH]; intros Hs; [by exists 0%Z, 0%Z|]. cbn [fst snd] in *.
  cbn in Hs. destruct IH as (ok & bad & Hr & Hok & Hbad & Hsum); [unfold sumZ; lia|].
  change (foldr add_counts _ _) with (add_counts (x, y) (foldr add_counts (0, 0)%Z l)). rewrite Hr.
  unfold add_counts. cbn [fst snd]. change (sumZ _) with (x + y + sumZ ((λ p : Z * Z, p.1 + p.2) <$> l))%Z.
  unfold sumZ in *. rewrite !wrap_int32_id by lia. eexists _, _. split; [done|]. lia.
Qed.

Lemma nats_worker_counts msgs fate : (0 ≤ msgs < 2^31)%Z →
  (0 ≤ (nats_worker msgs fate).1)%Z ∧ (0 ≤ (nats_worker msgs fate).2)%Z ∧
  ((nats_worker msgs fate).1 + (nats_worker msgs fate).2 = msgs)%Z.
Proof.
  intros Hm. unfold nats_worker. destruct fate as [|n]; [cbn; rewrite wrap_int32_id; lia|].
  destruct (Z.ltb_spec (Z.of_nat n) msgs); cbn [fst snd]; rewrite !wrap_int32_id; lia.
Qed.

Lemma nats_counts fates msgs k : Forall (λ m, (0 ≤ m)%Z) msgs → (sumZ msgs < 2^31)%Z →
  Forall (λ p : Z * Z, (0 ≤ p.1)%Z ∧ (0 ≤ p.2)%Z) (imap (λ w m, nats_worker m (fates (Z.of_nat (k + w)))) msgs) ∧
  sumZ ((λ p, p.1 + p.2)%Z <$> imap (λ w m, nats_worker m (fates (Z.of_nat (k + w)))) msgs) = sumZ msgs.
Proof.
  intros Hpos. revert k. induction Hpos as [|m msgs Hm Hpos IH]; intros k Hs; [done|]. cbn in Hs.
  assert (0 ≤ sumZ msgs)%Z as H0 by (clear -Hpos; unfold sumZ; induction Hpos; cbn; lia).
  unfold sumZ in Hs, H0. rewrite imap_cons.
  destruct (nats_worker_counts m (fates (Z.of_nat (k + 0)))) as (H1 & H2 & H3); [lia|].
  destruct (IH (S k)) as [Ha Hb]; [unfold sumZ; lia|].
  assert (imap ((λ w m, nats_worker m (fates (Z.of_nat (k + w)))) ∘ S) msgs =
    imap (λ w m, nats_worker m (fates (Z.of_nat (S k + w)))) msgs) as ->.
  { apply imap_ext. intros i x _. unfold compose. do 3 f_equal. lia. }
  split; [by constructor|]. unfold sumZ in *. rewrite fmap_cons. cbn [foldr]. rewrite Hb. lia.
Qed.

(** The benchmark accounts for every message: with at least one worker, and as many
    messages as its 32-bit counters can count, the successes and failures it reports add
    up to the number asked for, whatever connections fail or break and whatever the
    server answers. *)
Theorem bench_accounts_for_all total concurrency fates answers
    (Hc : (0 < concurrency)%Z) (Ht : (0 ≤ total < 2^31)%Z) :
  (∃ ok bad, runNatsBench total concurrency fates = Some (ok, bad) ∧ (0 ≤ ok)%Z ∧ (0 ≤ bad)%Z ∧ (ok + bad = total)%Z) ∧
  (∃ ok bad, runHttpBench total concurrency answers = Some (ok, bad) ∧ (0 ≤ ok)%Z ∧ (0 ≤ bad)%Z ∧ (ok + bad = total)%Z).
Proof.
  split.
  - destruct (worker_messages_sum total concurrency Hc ltac:(lia)) as (msgs & Hw & <- & Hpos).
    unfold runNatsBench. rewrite Hw. cbn [mbind option_bind].
    pose proof (nats_counts fates msgs 0 Hpos ltac:(lia)) as [Hall Hsum].
    change (λ w m, nats_worker m (fates (Z.of_nat w))) with (λ w m, nats_worker m (fates (Z.of_nat (0 + w)))).
    destruct (counts_sum _ Hall ltac:(lia)) as (ok & bad & -> & Hok & Hbad & Hs). exists ok, bad. rewrite <-Hsum. eauto.
  - unfold runHttpBench. rewrite (proj2 (Z.ltb_ge _ _)), (proj2 (Z.leb_gt _ _)) by lia.
    assert (sumZ ((λ p : Z * Z, p.1 + p.2)%Z <$> ((λ j, http_count (answers j)) <$> seqZ 1 total)) = total) as Hsum.
    { rewrite <-list_fmap_compose. rewrite <-(Z2Nat.id total) at 1 by lia. unfold sumZ.
      rewrite (seqZ_sum _ 1 1); [lia|]. intros i _. unfold compose, http_count. repeat case_match; done. }
    destruct (counts_sum ((λ j, http_count (answers j)) <$> seqZ 1 total)) as (ok & bad & -> & Hok & Hbad & Hs).
    + apply Forall_fmap, Forall_forall. intros i _. unfold compose, http_count. repeat case_match; cbn; lia.
    + lia.
    + exists ok, bad. rewrite <-Hsum. eauto.
Qed.

Lemma bench_accounts_for_all_witness :
  (∃ ok bad, runNatsBench 103 10 (λ w, if (w =? 3)%Z then NoConnection else Writes 9) = Some (ok, bad) ∧
     (0 ≤ ok)%Z ∧ (0 ≤ bad)%Z ∧ (ok + bad = 103)%Z) ∧
  (∃ ok bad, runHttpBench 103 10 (λ _, None) = Some (ok, bad) ∧ (0 ≤ ok)%Z ∧ (0 ≤ bad)%Z ∧ (ok + bad = 103)%Z).
Proof. apply bench_accounts_for_all; lia. Defined.
